(* ===== verification/_CoqProject ===== *)
-Q . S2P
Prelude.v
GoStrings.v
GoTime.v
GoTimeSpec.v
GoFlag.v
GoNet.v
GoNetSpec.v
GoSync.v
DNSLib.v
Cache.v
CacheSpec.v
CacheSync.v
CacheHeap.v
CacheHeapSpec.v
K8s.v
Kube.v
EndpointSliceDNS.v
EndpointSliceDNSSpec.v
ServerTrace.v
KubeMem.v
ClusterGateway.v
ClusterGatewaySpec.v
Converge.v
ConvergeSpec.v
GatewayDNS.v
GatewayDNSSpec.v
Fleet.v
Worker.v
DNSConfig.v
DNSConfigSpec.v
CrossCluster.v
CrossClusterSpec.v
CacheReaders.v
System.v
EndToEnd.v
Deployment.v
Running.v
Commands.v
Registration.v
Fakes.v
FakesSpec.v
DeepCopy.v
DeepCopySpec.v
