(* ===== verification/Prelude.v ===== *)
(** * A verification development for cross-cluster-connectivity

    The program resolves the services of one Kubernetes cluster by name in
    others.  Two long running programs share the work.

    - [xcc-dns-controller] runs on the management cluster.  For every
      GatewayDNS resource it searches the workload clusters the resource
      selects, collects the load balancer service ("gateway") of each, and
      writes one EndpointSlice per gateway into all workload clusters of the
      namespace ([src/pkg/controllers/gatewaydns]).
    - [dns-server] runs on each workload cluster.  A controller reconciles
      those EndpointSlices into an in-memory record cache
      ([src/pkg/controllers/endpointslicedns]) which a CoreDNS plugin answers
      from ([src/pkg/coredns/plugins/crosscluster]).

    A third program, [dns-config-patcher], points the cluster's own DNS at the
    DNS server by a block in its Corefile ([src/pkg/dnsconfig]).

    ** Files

    Shared: this file (errors, results with panics, the state monad [M] of
    calls, Go slices and maps, lemmas on loops), [GoStrings] and [GoNet] (what is used of Go's [strings], [regexp]
    and [net]; [GoNetSpec] has the parse and print round trip of IPs), [GoTime]
    ([time.ParseDuration], to the wrap-around of its integers and the rounding of its
    fractions; [GoTimeSpec] has its range and the sums it reads), [GoFlag] (the package
    [flag]: the uses of flags that were written are read back), [GoSync]
    (objects whose methods run under a [sync.RWMutex], with the proofs that they
    are linearizable and that their calls complete),
    [DNSLib] (the class of the two [miekg/dns] functions and their laws),
    [K8s] (the objects, and [apis/connectivity/v1alpha1]), [Kube] (the classes
    of client calls, the laws of API servers - [api_server], [api_frame], [api_keyed],
    [service_api] -, and what a controller registers), [KubeMem] (an in-memory
    instance of them, whose validation of EndpointSlices wants between one and a
    hundred addresses in each endpoint, IPv4 ones in a slice of that type).

    Each component has a file of definitions that follows the Go file, and a
    [Spec] file with its abstract specification, lemmas, properties and
    witnesses:

    - [Cache], [CacheSpec]: [endpointslicedns/cache.go].  A method is a function
      on [DNSCache]; each runs under the cache's mutex, so an interleaving of goroutines
      is a sequence of operations ([cache_step], [reachable]; [CacheSync] proves it).  [abs] reads
      the two maps as one map from resource keys to records; the operations
      refine the obvious operations on it, under the invariant [cache_inv].
      Lookups are characterised by the candidate names, nearest first.
    - [CacheSync]: the bodies of the same methods as statements under the
      mutex, run by any number of goroutines.  Every execution acts and answers
      as the operations of [Cache] in the order in which the calls took the
      lock, and no call is ever stuck.
    - [CacheHeap], [CacheHeapSpec]: the same file over slices that share
      backing arrays, with element writes in place and an [append] that may
      have room.  The slices of different names stay [separated], by which
      every operation computes what [Cache] says; what a reader sees that keeps
      a slice of [Lookup] across a write is a theorem of its own.
    - [CacheReaders]: [Services] of the plugin and [IsValid] ranging over such a
      slice while other goroutines write.  Each operation is a sequence of single writes to
      memory ([hm_step]), under which an array belongs to one name for good.
    - [EndpointSliceDNS], [EndpointSliceDNSSpec]: [endpointslicedns/controller.go].
      [Reconcile] acts on the cache and a log; it refines [spec_reconcile]
      on the abstract records, and reconciling all names leaves the records
      of the current slices.  [ServerTrace] runs it against an API server that
      changes meanwhile and reads that fail: the server catches up.
    - [ClusterGateway], [ClusterGatewaySpec]: [gatewaydns/cluster_gateway.go],
      [cluster_gateway_collector.go], [cluster_searcher.go].  Collection is
      total and every reachable gateway has its slice.
    - [Converge], [ConvergeSpec]: [gatewaydns/endpoint_slice_reconciler.go].
      [in_sync] says field by field what the slice of a gateway holds, and
      [converged] where each slice of a cluster ends; a run gets there,
      a second run writes nothing, and a fleet with failing clusters still
      gets there on the healthy ones.  [confined] bounds what a run does that
      fails half way.  Go's map iteration order is the
      argument [RangeOrder], arbitrary in every theorem.
    - [GatewayDNS], [GatewayDNSSpec]: [gatewaydns/controller.go].  [Reconcile]
      composes the above, with the gateways that the clusters have
      ([gathered], stated over the services, not over the collector); the events
      of clusters agree with the search; the polling
      goroutine is the step relation [PollGatewayDNS], its invariant by
      induction on the steps.  [Fleet]: what one reconciliation does to a fleet
      that several GatewayDNS with disjoint clusters share ([run_effect]), and
      that it keeps the others settled.
      [Worker]: the controller as a state machine with its queue, retries,
      restarts and a world that changes ([controller_step]); it catches up, and
      a deletion it does not hear of leaves its slices behind.
    - [DNSConfig], [DNSConfigSpec]: [dnsconfig/corefile_patcher.go],
      [dns_service_watcher.go], [cmd/dns-config-patcher/main.go].
    - [CrossCluster], [CrossClusterSpec]: the CoreDNS plugin; CoreDNS is the
      class [CoreDNS], of which only the documented behaviour of [plugin.A] is
      assumed, where a theorem names it ([plugin_A_laws]).
    - [Commands]: [cmd/xcc-dns-controller/main.go] with its flags and its
      environment, and the plugin order of [cmd/dns-server/main.go].
    - [Registration]: the [init] functions of the three programs and of
      [apis/connectivity/v1alpha1]: the kinds in their schemes, and the plugins
      the DNS server links, which are those of its directives.
    - [DeepCopy], [DeepCopySpec]: [apis/connectivity/v1alpha1/zz_generated.deepcopy.go],
      over a memory that structs point into; a copy has the value of the
      original and shares nothing with it.
    - [Fakes], [FakesSpec]: [gatewaydns/gatewaydnsfakes], the seven functions
      that are generated for a method written once ([fake_call] and so on) and
      instantiated for every method of the two interfaces; the order of their
      mutexes is the step relation [fake_step].
    - [System]: from a slice in sync with a gateway to the answer of an A
      question.  [EndToEnd] composes everything: from the reconciliation of a
      GatewayDNS on the management cluster, over any history of the DNS server
      of a workload cluster, to its answers.
    - [Deployment]: a DNS server as a state machine with its informer, its
      queue, crashes and starts ([server_step]).  A server gets through its
      work, and one that has only seen one slice ask for a domain has only that
      slice's record under it.  [Running]: the servers of all clusters next to
      the controller of [Worker], in one step relation ([running_step]) that
      starts with the controller and no server; this has the theorem on the
      whole program.

    ** Validation

    An API server may refuse a slice.  The theorems that a write arrives ask
    that validation accepts the slices of the gateways concerned and no others
    ([acceptable], for the gateways of a request [accepted]): in the cluster
    no slice of another address type is stored under their names, and their
    addresses are valid.  A load balancer that only publishes a host name
    is not such a gateway, its slice has the empty string as an address.
    In [Worker] a request whose gateways are not all accepted stays in
    [cs_dirty], so that nothing is claimed of it; what a run may do in that case
    is [confined], which is enough for the other requests.

    ** Conventions

    A Go call on a world [W] is [M W A]: [Ok] returns, [Err] returns an error,
    [Panic] is a run time panic; the world is kept on every outcome.  A client
    call is a [Call], a function of the world that may change it, so that a
    theorem about arbitrary clients covers every answer and every failure.
    A nil slice or map is [None].  Logging is dropped, except in [EndpointSliceDNS], where
    the log is the only trace of invalid data.  What the code cannot see is an
    argument: clocks, latencies, the choice of [select], the order of ranges.

    Fuel occurs in four places.  [replace_all] and [trim_front] get the
    length of their input, and each step consumes a byte.  The watcher
    [GetDNSServiceClusterIP] gets one unit per poll;
    [GetDNSServiceClusterIP_terminates] proves that the quotient of the time
    out by the interval and one more is enough, which is 11 for the program.
    [ParseDuration] gives [parse_units] the length of its text; each unit
    consumes a byte, so it is never used up ([parse_units_enough]).

    In [merge] Go writes into the annotation map that the listing's item
    shares with [existingEndpointSliceMap].  The items are only read there
    for their keys afterwards, so a fresh map is the same to every reader.

    ** Not modelled

    Controller-runtime and CoreDNS themselves: what [SetupWithManager] and
    [setup] register is data handed to a parameter, as are the manager and the
    cluster cache tracker that [main] builds.  The queue between an event
    and its reconciliation is the choice of the sequences in [ServerTrace],
    and a set of names in [Worker] and [Deployment], without its rate
    limits.  There, a reconciliation is one step: the world does not change
    between two of its calls.  [tools/] pins build tools and has no behaviour.

    [DNSLibLaws] follows the documentation of [miekg/dns]; version 1.1.49 falls
    short of [CanonicalName_idem] for names that end in an odd number of
    backslashes, which host names do not.

    A cache lookup hands out its internal slice after the lock is released;
    [CacheHeap] has the slice and [CacheReaders] the loops over it,
    with reads of single entries atomic (Go leaves open what a read of an
    entry that is being overwritten sees).  [EndpointSliceDNS] and
    [CrossCluster] are over [Cache] and read the contents at the time
    of the call.  [CacheSync] has the elements of the slices, not their
    arrays.

    In [DeepCopy] the structs of apimachinery and their [DeepCopyInto] are
    parameters with the promise [copies].  In [Fakes] a stub is a function of
    a world outside of the fake, and the data and the locking are separate
    models.

    ** Plan

    Every function of the program is modelled.  What could follow: the calls
    of one reconciliation interleaved with changes of the world in [Worker],
    and the rate limits of its queue. *)
From stdpp Require Export base gmap sets list strings.
From Stdlib Require Export Ascii.

(** * Errors

    Go's [error] values, as far as the program distinguishes them: an API
    status error carries the reason that [k8serrors.IsNotFound] and
    [k8serrors.IsAlreadyExists] test, a package level [errors.New] variable
    is compared by identity, any other error is only passed on. *)
Inductive StatusReason :=
  | ReasonNotFound
  | ReasonAlreadyExists
  | ReasonOther.

Inductive error :=
  | ErrStatus (reason : StatusReason) (msg : string)
  | ErrVar (var : string) (msg : string)
  | ErrNew (msg : string).

#[global] Instance StatusReason_eq_dec : EqDecision StatusReason.
Proof. solve_decision. Defined.
#[global] Instance error_eq_dec : EqDecision error.
Proof. solve_decision. Defined.

(** * Results of a Go call

    [Ok] is a return with a nil error, [Err] a return with a non-nil one and
    [Panic] a run time panic (nil dereference, write to a nil map). *)
Inductive outcome (A : Type) : Type :=
  | Ok (a : A)
  | Err (e : error)
  | Panic.
Arguments Ok {A} a.
Arguments Err {A} e.
Arguments Panic {A}.

(** * Stateful calls

    A call threads the world [W] it acts on.  The world is kept on every
    outcome: an error does not roll back what the call already did. *)
Definition M (W A : Type) : Type := W → outcome A * W.

#[global] Instance M_ret (W : Type) : MRet (M W) := λ A a w, (Ok a, w).

#[global] Instance M_bind (W : Type) : MBind (M W) := λ A B k m w,
  match m w with
  | (Ok a, w') => k a w'
  | (Err e, w') => (Err e, w')
  | (Panic, w') => (Panic, w')
  end.

Definition throw {W A : Type} (e : error) : M W A := λ w, (Err e, w).
Definition panic {W A : Type} : M W A := λ w, (Panic, w).
Definition gets {W A : Type} (f : W → A) : M W A := λ w, (Ok (f w), w).
Definition modify {W : Type} (f : W → W) : M W unit := λ w, (Ok tt, f w).

(** [x, err := m()] followed by a test of [err]: the error becomes a value. *)
Definition try {W A : Type} (m : M W A) : M W (A + error) := λ w,
  match m w with
  | (Ok a, w') => (Ok (inl a), w')
  | (Err e, w') => (Ok (inr e), w')
  | (Panic, w') => (Panic, w')
  end.

(** A [for _, x := range l] loop whose body may return an error out of the
    enclosing function. *)
Fixpoint for_each {W A : Type} (f : A → M W unit) (l : list A) : M W unit :=
  match l with
  | [] => mret tt
  | x :: l => f x ≫= λ _, for_each f l
  end.

(** A loop that accumulates a value ([errors = append(errors, err)]). *)
Fixpoint fold_each {W A B : Type} (f : B → A → M W B) (b : B) (l : list A) : M W B :=
  match l with
  | [] => mret b
  | x :: l => f b x ≫= λ b', fold_each f b' l
  end.

(** * Slices and maps

    [None] is a nil slice or map; [reflect.DeepEqual] tells it from an empty
    one, [len], [range] and indexing do not. *)
Definition slice (A : Type) : Type := option (list A).
Definition elems {A : Type} (s : slice A) : list A := default [] s.

Definition gomap (A : Type) : Type := option (gmap string A).
Definition entries_of {A : Type} (m : gomap A) : gmap string A := default ∅ m.

(** [v, ok := m[k]], which a nil map answers like an empty one. *)
Definition map_get {A : Type} (m : gomap A) (k : string) : option A :=
  entries_of m !! k.

(** [m[k]] on a [map[string]string]: the zero value when the key is absent. *)
Definition map_get0 (m : gomap string) (k : string) : string :=
  default "" (map_get m k).

(** Runs the combinators of the monad. *)
Ltac run_m :=
  unfold mret, M_ret, mbind, M_bind, gets, modify, throw, panic, try; cbn beta iota.

(** * Lemmas on the monad *)

Create HintDb gocode.

Section monad.
Context {W A B : Type}.

Lemma bind_ret (a : A) (k : A → M W B) w : (mret a ≫= k) w = k a w.
Proof. reflexivity. Qed.

Lemma bind_throw (e : error) (k : A → M W B) w : (throw e ≫= k) w = (Err e, w).
Proof. reflexivity. Qed.

Lemma bind_inv_ok (m : M W A) (k : A → M W B) w b w' :
  (m ≫= k) w = (Ok b, w') → ∃ a w1, m w = (Ok a, w1) ∧ k a w1 = (Ok b, w').
Proof.
  unfold mbind, M_bind. destruct (m w) as [[a|e|] w1]; naive_solver.
Qed.

Lemma try_not_err (m : M W A) w e w' : try m w ≠ (Err e, w').
Proof. unfold try. destruct (m w) as [[a|e'|] w1]; congruence. Qed.
End monad.

(** One iteration of the loops. *)
Lemma fold_each_cons {W A B : Type} (f : B → A → M W B) b x l w :
  fold_each f b (x :: l) w =
    match f b x w with
    | (Ok b', w') => fold_each f b' l w'
    | (Err e, w') => (Err e, w')
    | (Panic, w') => (Panic, w')
    end.
Proof. reflexivity. Qed.

Lemma for_each_cons {W A : Type} (f : A → M W unit) x l w :
  for_each f (x :: l) w =
    match f x w with
    | (Ok _, w') => for_each f l w'
    | (Err e, w') => (Err e, w')
    | (Panic, w') => (Panic, w')
    end.
Proof. reflexivity. Qed.

Lemma fold_each_app {W A B : Type} (f : B → A → M W B) b l1 l2 w :
  fold_each f b (l1 ++ l2) w = (fold_each f b l1 ≫= λ b', fold_each f b' l2) w.
Proof.
  revert b w. induction l1 as [|x l1 IH]; intros b w; [done|].
  cbn. unfold mbind, M_bind. destruct (f b x w) as [[b'|e|] w']; [|done|done].
  rewrite IH. done.
Qed.

#[export] Hint Rewrite @bind_ret @bind_throw : gocode.

(** * Lists of values with keys *)

Lemma NoDup_omap_key {A B K : Type} (f : A → K) (g : A → option B) (h : B → K) (l : list A) :
  NoDup (f <$> l) → (∀ x y, x ∈ l → g x = Some y → h y = f x) → NoDup (h <$> omap g l).
Proof.
  intros Hnd Hkey. induction l as [|x l IH]; [by apply NoDup_nil|].
  cbn in Hnd. apply NoDup_cons in Hnd as [Hni Hnd].
  assert (NoDup (h <$> omap g l)) as Hrec.
  { apply IH; [done|]. intros x' y' Hin. apply Hkey. by constructor. }
  cbn. destruct (g x) as [y|] eqn:Hg; [|done]. cbn. apply NoDup_cons. split; [|done].
  rewrite (Hkey x y) by (done || by constructor).
  intros (y' & Heq & (x' & Hin & Hg')%list_elem_of_omap)%list_elem_of_fmap.
  apply Hni. rewrite Heq, (Hkey x' y') by (done || by constructor).
  by apply list_elem_of_fmap_2.
Qed.

Lemma NoDup_fmap_eq {A K : Type} (f : A → K) (l : list A) x y :
  NoDup (f <$> l) → x ∈ l → y ∈ l → f x = f y → x = y.
Proof.
  intros Hnd [i Hi]%list_elem_of_lookup [j Hj]%list_elem_of_lookup Heq.
  assert (i = j) as ->; [|congruence].
  apply (NoDup_lookup _ _ _ (f x) Hnd); rewrite list_lookup_fmap; [by rewrite Hi|].
  by rewrite Hj, Heq.
Qed.

(** Keys that are equal only where other distinct keys are. *)
Lemma NoDup_fmap_finer {A K L : Type} (f : A → K) (g : A → L) (l : list A) :
  NoDup (f <$> l) → (∀ x y, x ∈ l → y ∈ l → g x = g y → f x = f y) → NoDup (g <$> l).
Proof.
  induction l as [|x l IH]; intros Hnd Hfg; [apply NoDup_nil_2|]. cbn in *.
  apply NoDup_cons in Hnd as [Hni Hnd]. apply NoDup_cons. split.
  - intros (y & Heq & Hy)%list_elem_of_fmap. apply Hni. rewrite (Hfg x y); [|constructor|by constructor|done].
    by apply list_elem_of_fmap_2.
  - apply IH; [done|]. intros y z Hy Hz. apply Hfg; by constructor.
Qed.

Lemma NoDup_map_values {K A : Type} `{Countable K} (f : A → K) (m : gmap K A) (l : list A) :
  l ≡ₚ (map_to_list m).*2 → (∀ k x, m !! k = Some x → f x = k) → NoDup (f <$> l).
Proof.
  intros -> Hkey. rewrite <-list_fmap_compose.
  erewrite list_fmap_ext; [apply NoDup_fst_map_to_list|].
  intros i [k x] Hi. cbn. apply Hkey.
  by apply elem_of_map_to_list, list_elem_of_lookup_2 with i.
Qed.

Lemma elem_of_map_values {K A : Type} `{Countable K} (m : gmap K A) (l : list A) x :
  l ≡ₚ (map_to_list m).*2 → x ∈ l ↔ ∃ k, m !! k = Some x.
Proof.
  intros ->. rewrite list_elem_of_fmap. split.
  - intros ([k x'] & -> & Hin%elem_of_map_to_list). by exists k.
  - intros [k Hk]. exists (k, x). split; [done|]. by apply elem_of_map_to_list.
Qed.

(** * Loops over keyed items

    Each item [a] changes a store at its own key only, and there establishes
    [post a]; then the loop over items with distinct keys establishes [post]
    for each item and leaves the other keys alone. *)
Section keyed_loop.
Context {W A K V : Type} `{Countable K}.
Context (store : W → gmap K V) (f : A → M W unit) (key : A → K).
Context (pre : A → option V → Prop) (post : A → option V → option V → Prop).

Definition keyed_effect : Prop := ∀ a w, pre a (store w !! key a) →
  ∃ w', f a w = (Ok tt, w') ∧ post a (store w !! key a) (store w' !! key a) ∧
    ∀ k, k ≠ key a → store w' !! k = store w !! k.

Lemma for_each_keyed l w :
  keyed_effect → NoDup (key <$> l) → (∀ a, a ∈ l → pre a (store w !! key a)) →
  ∃ w', for_each f l w = (Ok tt, w') ∧
    (∀ a, a ∈ l → post a (store w !! key a) (store w' !! key a)) ∧
    (∀ k, k ∉ key <$> l → store w' !! k = store w !! k).
Proof.
  intros Heff. revert w. induction l as [|a l IH]; intros w Hnd Hpre.
  { exists w. split; [done|]. split; [|done]. by intros a ?%not_elem_of_nil. }
  cbn in Hnd. apply NoDup_cons in Hnd as [Hni Hnd].
  destruct (Heff a w) as (w1 & Hrun & Hpost & Hother); [apply Hpre; by constructor|].
  assert (∀ a', a' ∈ l → store w1 !! key a' = store w !! key a') as Hl.
  { intros a' Hin. apply Hother. intros Heq. apply Hni. rewrite <-Heq.
    by apply list_elem_of_fmap_2. }
  destruct (IH w1 Hnd) as (w' & Hrun' & Hpost' & Hother').
  { intros a' Hin. rewrite Hl by done. apply Hpre. by constructor. }
  exists w'. rewrite for_each_cons, Hrun. split; [done|]. split.
  - intros a' [->|Hin]%elem_of_cons; [by rewrite Hother'|]. rewrite <-Hl by done. by apply Hpost'.
  - intros k [Hk Hk']%not_elem_of_cons. by rewrite Hother', Hother.
Qed.
End keyed_loop.

(** * Computations that respect a relation

    Whatever its outcome, a computation that respects the preorder [R] takes
    the world to an [R]-later one, and it does not panic. *)
Section respects.
Context {W : Type} (R : relation W) `{!PreOrder R}.

Definition respects {A : Type} (m : M W A) : Prop := ∀ w, R w (m w).2 ∧ (m w).1 ≠ Panic.

Lemma respects_ret {A : Type} (a : A) : respects (mret a).
Proof using All. intros w. by split. Qed.

Lemma respects_throw {A : Type} (e : error) : respects (A := A) (throw e).
Proof using All. intros w. by split. Qed.

Lemma respects_bind {A B : Type} (m : M W A) (k : A → M W B) :
  respects m → (∀ a, respects (k a)) → respects (m ≫= k).
Proof using All.
  intros Hm Hk w. specialize (Hm w). unfold mbind, M_bind.
  destruct (m w) as [[a|e|] w1]; cbn in *; [|by split; [apply Hm|]|by destruct Hm].
  destruct Hm as [Hm _]. destruct (Hk a w1) as [Hr Hp]. split; [by etrans|done].
Qed.

Lemma respects_try {A : Type} (m : M W A) : respects m → respects (try m).
Proof using All.
  intros Hm w. specialize (Hm w). unfold try. destruct (m w) as [[a|e|] w1]; cbn in *; naive_solver.
Qed.

Lemma respects_for_each {A : Type} (f : A → M W unit) l :
  (∀ x, x ∈ l → respects (f x)) → respects (for_each f l).
Proof using All.
  induction l as [|x l IH]; intros Hf; [apply respects_ret|]. cbn. apply respects_bind.
  - apply Hf. by constructor.
  - intros _. apply IH. intros y Hy. apply Hf. by constructor.
Qed.

Lemma respects_fold_each {A B : Type} (f : B → A → M W B) b l :
  (∀ b x, x ∈ l → respects (f b x)) → respects (fold_each f b l).
Proof using All.
  revert b. induction l as [|x l IH]; intros b Hf; [apply respects_ret|]. cbn. apply respects_bind.
  - apply Hf. by constructor.
  - intros b'. apply IH. intros b'' y Hy. apply Hf. by constructor.
Qed.
End respects.

#[export] Hint Resolve respects_ret respects_throw respects_bind respects_try
  respects_for_each respects_fold_each : gocode.
