(* ===== verification/GoStrings.v ===== *)
(** Go's string library, as far as the program uses it: [strings.Join],
    [Split], [Contains], [ToLower], [TrimSpace] and the fragment of [regexp]
    that the Corefile patcher's pattern is written in.  A Go string is a
    sequence of bytes; the byte level functions work on [bytes] and the string
    level ones wrap them. *)
From S2P Require Import Prelude.
#[local] Open Scope string_scope.
#[local] Open Scope list_scope.
#[local] Arguments String.append : simpl nomatch.

Abbreviation bytes := (list ascii).
Abbreviation to_bytes := String.list_ascii_of_string.
Abbreviation of_bytes := String.string_of_list_ascii.

(** * [strings.Join] and [strings.Split] *)

Fixpoint Join (l : list string) (sep : string) : string :=
  match l with
  | [] => ""
  | [x] => x
  | x :: l => x +:+ sep +:+ Join l sep
  end.

(** [strings.Split(s, sep)] for a one byte separator: never the empty list. *)
Fixpoint Split (s : string) (sep : ascii) : list string :=
  match s with
  | EmptyString => [""]
  | String c s =>
      if decide (c = sep) then "" :: Split s sep
      else match Split s sep with
           | [] => [String c ""]
           | h :: t => String c h :: t
           end
  end.

Fixpoint has_byte (c : ascii) (s : string) : bool :=
  match s with
  | EmptyString => false
  | String c' s => bool_decide (c' = c) || has_byte c s
  end.

(** * [strings.ToLower]

    An all-ASCII string is mapped byte by byte; other strings go through the
    Unicode tables, which are an argument. *)
Definition is_ascii_byte (c : ascii) : bool := (N_of_ascii c <? 128)%N.

Definition lower_byte (c : ascii) : ascii :=
  let n := N_of_ascii c in
  if ((65 <=? n) && (n <=? 90))%N then ascii_of_N (n + 32) else c.

Fixpoint map_bytes (f : ascii → ascii) (s : string) : string :=
  match s with
  | EmptyString => ""
  | String c s => String (f c) (map_bytes f s)
  end.

Fixpoint forall_bytes (p : ascii → bool) (s : string) : bool :=
  match s with
  | EmptyString => true
  | String c s => p c && forall_bytes p s
  end.

Definition ToLower (unicode_lower : string → string) (s : string) : string :=
  if forall_bytes is_ascii_byte s then map_bytes lower_byte s
  else unicode_lower s.

(** * Prefixes and substrings *)

(** The rest of [s] after the prefix [p]. *)
Fixpoint cut_prefix (p s : bytes) : option bytes :=
  match p, s with
  | [], _ => Some s
  | a :: p, b :: s => if decide (a = b) then cut_prefix p s else None
  | _ :: _, [] => None
  end.

Fixpoint contains (sub s : bytes) : bool :=
  match cut_prefix sub s with
  | Some _ => true
  | None => match s with [] => false | _ :: s => contains sub s end
  end.

Definition Contains (s sub : string) : bool := contains (to_bytes sub) (to_bytes s).

(** * [regexp]

    Byte classes, literals, the greedy [.*] under the [s] flag, and
    concatenation.  [run r s] lists what [r] can leave of [s] after matching a
    prefix of it, in the order the leftmost-first semantics prefers. *)
Inductive regexp :=
  | RClass (p : ascii → bool)
  | RLit (l : bytes)
  | RAnyStar
  | RCat (r1 r2 : regexp).

Fixpoint suffixes_shortest_first (s : bytes) : list bytes :=
  match s with
  | [] => [[]]
  | _ :: s' => suffixes_shortest_first s' ++ [s]
  end.

Fixpoint run (r : regexp) (s : bytes) : list bytes :=
  match r with
  | RClass p => match s with c :: s => if p c then [s] else [] | [] => [] end
  | RLit l => match cut_prefix l s with Some s => [s] | None => [] end
  | RAnyStar => suffixes_shortest_first s
  | RCat r1 r2 => run r1 s ≫= run r2
  end.

(** [ReplaceAllString(s, "")] for a pattern that matches no empty string: each
    leftmost match is cut out and the search goes on behind it.  The fuel
    bounds the number of steps; the length of [s] is enough. *)
Fixpoint replace_all (fuel : nat) (r : regexp) (s : bytes) : bytes :=
  match fuel, s with
  | 0, _ | _, [] => s
  | S fuel, c :: s' =>
      match head (run r s) with
      | Some rest => replace_all fuel r rest
      | None => c :: replace_all fuel r s'
      end
  end.

Definition ReplaceAllWithEmpty (r : regexp) (s : string) : string :=
  of_bytes (replace_all (String.length s) r (to_bytes s)).

(** The class [\s] of Go's regular expressions. *)
Definition re_space (c : ascii) : bool :=
  bool_decide (N_of_ascii c ∈ [9; 10; 12; 13; 32]%N).

(** * [strings.TrimSpace]

    The UTF-8 encodings of the runes for which [unicode.IsSpace] holds. *)
Definition byte (n : N) : ascii := ascii_of_N n.

Definition space_runes : list bytes :=
  [[byte 9]; [byte 10]; [byte 11]; [byte 12]; [byte 13]; [byte 32];
   [byte 194; byte 133]; [byte 194; byte 160]; [byte 225; byte 154; byte 128];
   [byte 226; byte 128; byte 128]; [byte 226; byte 128; byte 129];
   [byte 226; byte 128; byte 130]; [byte 226; byte 128; byte 131];
   [byte 226; byte 128; byte 132]; [byte 226; byte 128; byte 133];
   [byte 226; byte 128; byte 134]; [byte 226; byte 128; byte 135];
   [byte 226; byte 128; byte 136]; [byte 226; byte 128; byte 137];
   [byte 226; byte 128; byte 138]; [byte 226; byte 128; byte 168];
   [byte 226; byte 128; byte 169]; [byte 226; byte 128; byte 175];
   [byte 226; byte 129; byte 159]; [byte 227; byte 128; byte 128]].

Definition cut_any (rs : list bytes) (s : bytes) : option bytes :=
  head (omap (λ r, cut_prefix r s) rs).

(** Cut runes of [rs] off the front while there is one. *)
Fixpoint trim_front (fuel : nat) (rs : list bytes) (s : bytes) : bytes :=
  match fuel with
  | 0 => s
  | S fuel => match cut_any rs s with
              | Some s' => trim_front fuel rs s'
              | None => s
              end
  end.

Definition trim_left (s : bytes) : bytes := trim_front (length s) space_runes s.
Definition trim_right (s : bytes) : bytes :=
  reverse (trim_front (length s) (reverse <$> space_runes) (reverse s)).

Definition trim_space (s : bytes) : bytes := trim_right (trim_left s).
Definition TrimSpace (s : string) : string := of_bytes (trim_space (to_bytes s)).

Example trim_ex : TrimSpace " 	a b
 " = "a b".
Proof. vm_compute. reflexivity. Qed.
Example split_ex : Split "a/b" "/" = ["a"; "b"].
Proof. vm_compute. reflexivity. Qed.

(** * Lemmas *)

Lemma string_app_nil_r (s : string) : s +:+ "" = s.
Proof. induction s as [|c s IH]; cbn; [done|]. by f_equal. Qed.

Lemma string_app_assoc (s1 s2 s3 : string) : s1 +:+ (s2 +:+ s3) = (s1 +:+ s2) +:+ s3.
Proof. induction s1 as [|c s1 IH]; cbn; [done|]. by f_equal. Qed.

Lemma to_bytes_app (s1 s2 : string) : to_bytes (s1 +:+ s2) = to_bytes s1 ++ to_bytes s2.
Proof. induction s1 as [|c s1 IH]; cbn; [done|]. by f_equal. Qed.

Lemma of_to_bytes (s : string) : of_bytes (to_bytes s) = s.
Proof. apply String.string_of_list_ascii_of_string. Qed.

Lemma to_of_bytes (l : bytes) : to_bytes (of_bytes l) = l.
Proof. apply String.list_ascii_of_string_of_list_ascii. Qed.

Lemma map_bytes_app f (s1 s2 : string) :
  map_bytes f (s1 +:+ s2) = map_bytes f s1 +:+ map_bytes f s2.
Proof. induction s1 as [|c s1 IH]; cbn; [done|]. by f_equal. Qed.

Lemma lower_byte_idem c : lower_byte (lower_byte c) = lower_byte c.
Proof. destruct c as [[] [] [] [] [] [] [] []]; vm_compute; reflexivity. Qed.

Lemma map_lower_idem (s : string) :
  map_bytes lower_byte (map_bytes lower_byte s) = map_bytes lower_byte s.
Proof. induction s as [|c s IH]; cbn; [done|]. by rewrite lower_byte_idem, IH. Qed.

Lemma Split_not_nil s sep : Split s sep ≠ [].
Proof. induction s as [|c s IH]; cbn; [done|]. case_decide; [done|]. by destruct (Split s sep). Qed.

Lemma Split_app (s1 s2 : string) (sep : ascii) :
  has_byte sep s1 = false → Split (s1 +:+ String sep s2) sep = s1 :: Split s2 sep.
Proof.
  induction s1 as [|c s1 IH]; cbn; [by rewrite decide_True|].
  intros [Hc Hs]%orb_false_iff. apply bool_decide_eq_false in Hc.
  rewrite decide_False by done. by rewrite IH.
Qed.

Lemma Split_none (s : string) (sep : ascii) : has_byte sep s = false → Split s sep = [s].
Proof.
  induction s as [|c s IH]; cbn; [done|].
  intros [Hc Hs]%orb_false_iff. apply bool_decide_eq_false in Hc.
  rewrite decide_False by done. by rewrite IH.
Qed.

(** The lines of a concatenation: the last of the one and the first of the
    other become one line. *)
Lemma Split_concat (s t : string) (sep : ascii) :
  ∃ front l h back, Split s sep = front ++ [l] ∧ Split t sep = h :: back ∧
    Split (s +:+ t) sep = front ++ (l +:+ h) :: back.
Proof.
  destruct (Split t sep) as [|h back] eqn:Ht; [by apply Split_not_nil in Ht|].
  induction s as [|c s (front & l & h' & back' & Hs & [= <- <-] & IH)].
  { exists [], "", h, back. by rewrite <-Ht. }
  cbn [Split String.append]. rewrite Hs, IH. case_decide.
  - by exists ("" :: front), l, h, back.
  - destruct front as [|f front]; [by exists [], (String c l), h, back|].
    by exists (String c f :: front), l, h, back.
Qed.

Lemma Split_first (s f : string) front (sep : ascii) :
  Split s sep = f :: front → ∃ b, s = f +:+ b.
Proof.
  revert f front. induction s as [|c s IH]; intros f front; cbn.
  { intros [= <- _]. by exists "". }
  case_decide; [intros [= <- _]; by eexists|].
  destruct (Split s sep) as [|f' front'] eqn:Hs; [by apply Split_not_nil in Hs|].
  intros [= <- _]. destruct (IH f' front') as [b ->]; [done|]. by exists b.
Qed.

Lemma Split_elem (s l : string) (sep : ascii) :
  l ∈ Split s sep → ∃ a b, s = a +:+ l +:+ b.
Proof.
  revert l. induction s as [|c s IH]; intros l; cbn.
  { intros ->%list_elem_of_singleton. by exists "", "". }
  case_decide as Hc.
  - intros [->|(a & b & ->)%IH]%elem_of_cons; [by exists "", (String c s)|].
    by exists (String c a), b.
  - destruct (Split s sep) as [|f front] eqn:Hs; [by apply Split_not_nil in Hs|].
    intros [->|Hin]%elem_of_cons.
    + exists "". cbn. destruct (Split_first s f front sep Hs) as [b ->]. by exists b.
    + destruct (IH l) as (a & b & ->); [by apply elem_of_cons; right|].
      by exists (String c a), b.
Qed.

Lemma cut_prefix_app p s : cut_prefix p (p ++ s) = Some s.
Proof. induction p as [|a p IH]; cbn; [done|]. by rewrite decide_True by done. Qed.

Lemma cut_prefix_Some p s r : cut_prefix p s = Some r ↔ s = p ++ r.
Proof.
  split; [|intros ->; apply cut_prefix_app].
  revert s. induction p as [|a p IH]; intros [|b s]; cbn; [naive_solver..|].
  case_decide; [|done]. subst. intros ->%IH. done.
Qed.

Lemma string_app_inj_l (s t1 t2 : string) : s +:+ t1 = s +:+ t2 → t1 = t2.
Proof. induction s as [|c s IH]; cbn; [done|]. intros [= Heq]. by apply IH. Qed.

Lemma string_app_inj_r (s1 s2 t : string) : s1 +:+ t = s2 +:+ t → s1 = s2.
Proof.
  intros Heq%(f_equal to_bytes). rewrite !to_bytes_app in Heq.
  apply app_inv_tail in Heq. apply (f_equal of_bytes) in Heq. by rewrite !of_to_bytes in Heq.
Qed.
