(* ===== verification/GoTime.v ===== *)
(** Go's [time.ParseDuration], with which the controller reads its polling
    interval: unsigned 64 bit arithmetic with its overflow tests, and the
    fraction of a unit in binary64 floating point ([SpecFloat]). *)
From Stdlib Require Import SpecFloat.
From S2P Require Import Prelude GoStrings.
#[local] Open Scope string_scope.
#[local] Open Scope list_scope.
#[local] Open Scope Z_scope.

(** * Definitions *)

(** [time.Duration] counts nanoseconds in an [int64]. *)
Definition Duration : Type := Z.
Definition Millisecond : Duration := 1000000.
Definition Second : Duration := 1000000000.
Definition Minute : Duration := 60 * Second.
Definition Hour : Duration := 60 * Minute.

Definition int64_ok (d : Z) : Prop := - 2 ^ 63 ≤ d < 2 ^ 63.

(** ** Bytes and errors *)

Definition digit (c : ascii) : option Z :=
  let n := Z.of_N (N_of_ascii c) in
  if (48 <=? n) && (n <=? 57) then Some (n - 48) else None.

(** What may start a number, and so ends a unit. *)
Definition num_byte (c : ascii) : bool :=
  bool_decide (c = "."%char) || bool_decide (is_Some (digit c)).

Definition lowerhex (n : N) : ascii := ascii_of_N (if (n <? 10)%N then 48 + n else 87 + n)%N.

(** [quote]: bytes outside printable ASCII are written in hexadecimal. *)
Definition quote_byte (c : ascii) : bytes :=
  let n := N_of_ascii c in
  if ((128 <=? n) || (n <? 32))%N then
    [ascii_of_N 92; "x"%char; lowerhex (n / 16)%N; lowerhex (n mod 16)%N]
  else if ((n =? 34) || (n =? 92))%N then [ascii_of_N 92; c]
  else [c].

Definition quote (s : bytes) : string :=
  of_bytes (ascii_of_N 34 :: (s ≫= quote_byte) ++ [ascii_of_N 34]).

Definition invalid_duration (orig : bytes) : error :=
  ErrNew ("time: invalid duration " +:+ quote orig).
Definition missing_unit (orig : bytes) : error :=
  ErrNew ("time: missing unit in duration " +:+ quote orig).
Definition unknown_unit (u orig : bytes) : error :=
  ErrNew ("time: unknown unit " +:+ quote u +:+ " in duration " +:+ quote orig).

(** ** Numbers *)

(** [leadingInt]: [None] is its overflow error. *)
Fixpoint leadingInt (x : Z) (s : bytes) : option (Z * bytes) :=
  match s with
  | [] => Some (x, [])
  | c :: s' =>
      match digit c with
      | None => Some (x, s)
      | Some k =>
          if 2 ^ 63 / 10 <? x then None
          else let x := x * 10 + k in
               if 2 ^ 63 <? x then None else leadingInt x s'
      end
  end.

(** [float64] *)
Definition float64 : Type := spec_float.
Definition float64_of (n : Z) : float64 := binary_normalize 53 1024 n 0 false.
Definition fmul (x y : float64) : float64 := SFmul 53 1024 x y.
Definition fdiv (x y : float64) : float64 := SFdiv 53 1024 x y.

(** [uint64(x)] of a finite [x >= 0] drops the fraction. *)
Definition uint64_of (x : float64) : Z :=
  match x with
  | S754_finite false m e => Z.shiftl (Zpos m) e mod 2 ^ 64
  | _ => 0
  end.

(** [leadingFraction]: digits beyond the range are skipped. *)
Fixpoint leadingFraction (x : Z) (scale : float64) (overflow : bool) (s : bytes)
    : Z * float64 * bytes :=
  match s with
  | [] => (x, scale, [])
  | c :: s' =>
      match digit c with
      | None => (x, scale, s)
      | Some k =>
          if overflow then leadingFraction x scale true s'
          else if (2 ^ 63 - 1) / 10 <? x then leadingFraction x scale true s'
          else let y := x * 10 + k in
               if 2 ^ 63 <? y then leadingFraction x scale true s'
               else leadingFraction y (fmul scale (float64_of 10)) false s'
      end
  end.

(** ** Units *)

(** Both encodings of the micro sign are accepted. *)
Definition unitMap : list (bytes * Z) :=
  [(to_bytes "ns", 1); (to_bytes "us", 1000);
   ([byte 194; byte 181] ++ to_bytes "s", 1000); ([byte 206; byte 188] ++ to_bytes "s", 1000);
   (to_bytes "ms", Millisecond); (to_bytes "s", Second); (to_bytes "m", Minute);
   (to_bytes "h", Hour)].

Definition unit_of (u : bytes) : option Z := snd <$> head (filter (λ p, p.1 = u) unitMap).

Fixpoint span_unit (s : bytes) : bytes * bytes :=
  match s with
  | [] => ([], [])
  | c :: s' => if num_byte c then ([], s) else let '(u, rest) := span_unit s' in (c :: u, rest)
  end.

(** [v += uint64(float64(f) * (float64(unit) / scale))] *)
Definition add_fraction (v f unit : Z) (scale : float64) : Z :=
  (v + uint64_of (fmul (float64_of f) (fdiv (float64_of unit) scale))) mod 2 ^ 64.

(** The part behind a period, and whether it has digits. *)
Definition parse_fraction (s : bytes) : Z * float64 * bytes * bool :=
  match s with
  | c :: s' =>
      if bool_decide (c = "."%char) then
        let '(f, scale, rest) := leadingFraction 0 (float64_of 1) false s' in
        (f, scale, rest, negb (length rest =? length s')%nat)
      else (0, float64_of 1, s, false)
  | [] => (0, float64_of 1, s, false)
  end.

(** One round of the loop: a number and its unit, added to [d]. *)
Definition parse_unit (orig : bytes) (d : Z) (s : bytes) : (Z * bytes) + error :=
  match s with
  | c :: _ =>
      if negb (num_byte c) then inr (invalid_duration orig)
      else
        match leadingInt 0 s with
        | None => inr (invalid_duration orig)
        | Some (v, s1) =>
            let pre := negb (length s1 =? length s)%nat in
            let '(f, scale, s2, post) := parse_fraction s1 in
            if negb pre && negb post then inr (invalid_duration orig)
            else
              let '(u, s3) := span_unit s2 in
              if bool_decide (u = []) then inr (missing_unit orig)
              else
                match unit_of u with
                | None => inr (unknown_unit u orig)
                | Some unit =>
                    if 2 ^ 63 / unit <? v then inr (invalid_duration orig)
                    else
                      let v := v * unit in
                      let v' := if 0 <? f then add_fraction v f unit scale else v in
                      if (0 <? f) && (2 ^ 63 <? v') then inr (invalid_duration orig)
                      else
                        let d := (d + v') mod 2 ^ 64 in
                        if 2 ^ 63 <? d then inr (invalid_duration orig) else inl (d, s3)
                end
        end
  | [] => inr (invalid_duration orig)
  end.

(** The loop; every round consumes a unit, so the length of the string is
    enough fuel ([parse_units_enough]). *)
Fixpoint parse_units (fuel : nat) (orig : bytes) (d : Z) (s : bytes) : option (Z + error) :=
  match s with
  | [] => Some (inl d)
  | _ :: _ =>
      match fuel with
      | O => None
      | S fuel =>
          match parse_unit orig d s with
          | inr e => Some (inr e)
          | inl (d, s) => parse_units fuel orig d s
          end
      end
  end.

Definition sign_of (s : bytes) : bool * bytes :=
  match s with
  | c :: s' =>
      if bool_decide (c = "-"%char) then (true, s')
      else if bool_decide (c = "+"%char) then (false, s')
      else (false, s)
  | [] => (false, s)
  end.

Definition ParseDuration (str : string) : Duration + error :=
  let orig := to_bytes str in
  let '(neg, s) := sign_of orig in
  if bool_decide (s = ["0"%char]) then inl 0
  else if bool_decide (s = []) then inr (invalid_duration orig)
  else
    match parse_units (length s) orig 0 s with
    | Some (inl d) =>
        if neg then inl (- d)
        else if 2 ^ 63 - 1 <? d then inr (invalid_duration orig) else inl d
    | Some (inr e) => inr e
    | None => inr (invalid_duration orig)
    end.

(** ** Some values *)

Example parse_30s : ParseDuration "30s" = inl (30 * Second).
Proof. vm_compute. reflexivity. Qed.
Example parse_90m : ParseDuration "1.5h" = inl (90 * Minute).
Proof. vm_compute. reflexivity. Qed.
Example parse_mixed : ParseDuration "-1h15m30.918s" = inl (-4530918000000).
Proof. vm_compute. reflexivity. Qed.
Example parse_max : ParseDuration "9223372036854775807ns" = inl (2 ^ 63 - 1).
Proof. vm_compute. reflexivity. Qed.
Example parse_min : ParseDuration "-9223372036854775808ns" = inl (- 2 ^ 63).
Proof. vm_compute. reflexivity. Qed.
Example parse_third : ParseDuration "0.3333333333333333333h" = inl 1200000000000.
Proof. vm_compute. reflexivity. Qed.
Example parse_no_unit : ParseDuration "30" = inr (missing_unit (to_bytes "30")).
Proof. vm_compute. reflexivity. Qed.
