(* ===== verification/GoTimeSpec.v ===== *)
(** What [time.ParseDuration] returns: an [int64], the sum of its parts when
    that fits, and always something. *)
From S2P Require Import Prelude GoStrings GoTime.
#[local] Open Scope string_scope.
#[local] Open Scope list_scope.
#[local] Open Scope Z_scope.

(** * Definitions *)

(** One part of a duration without a fraction: its digits and its unit. *)
Record part := mkPart { pt_digits : list Z; pt_unit : bytes * Z }.

Definition digit_of (k : Z) : ascii := ascii_of_N (Z.to_N (48 + k)).
Definition value_from (x : Z) (ds : list Z) : Z := foldl (λ x k, x * 10 + k) x ds.

Definition part_ok (p : part) : Prop :=
  pt_digits p ≠ [] ∧ Forall (λ k, 0 ≤ k < 10) (pt_digits p) ∧ pt_unit p ∈ unitMap.

Definition part_text (p : part) : bytes := (digit_of <$> pt_digits p) ++ (pt_unit p).1.
Definition part_value (p : part) : Z := value_from 0 (pt_digits p) * (pt_unit p).2.

Definition duration_text (ps : list part) : bytes := ps ≫= part_text.
Definition duration_value (ps : list part) : Z := foldr (λ p x, part_value p + x) 0 ps.

(** * Lemmas *)

(** ** Numbers *)

Lemma digit_of_digit k : 0 ≤ k < 10 → digit (digit_of k) = Some k.
Proof.
  intros Hk. unfold digit, digit_of. rewrite N_ascii_embedding by lia.
  rewrite Z2N.id by lia. destruct (Z.leb_spec 48 (48 + k)); [|lia].
  destruct (Z.leb_spec (48 + k) 57); [|lia]. cbn. f_equal. lia.
Qed.

Lemma num_byte_digit k : 0 ≤ k < 10 → num_byte (digit_of k) = true.
Proof.
  intros Hk. unfold num_byte. rewrite digit_of_digit by done.
  rewrite (bool_decide_eq_true_2 (is_Some _)) by eauto. apply orb_true_r.
Qed.

Lemma num_byte_not_digit c : num_byte c = false → digit c = None ∧ c ≠ "."%char.
Proof.
  unfold num_byte. intros [Hc Hd]%orb_false_elim.
  apply bool_decide_eq_false in Hc, Hd. split; [|done].
  destruct (digit c); [|done]. by destruct Hd.
Qed.

Lemma value_from_le x ds :
  0 ≤ x → Forall (λ k, 0 ≤ k < 10) ds → x ≤ value_from x ds.
Proof.
  revert x. unfold value_from. induction ds as [|k ds IH]; intros x Hx Hds; cbn; [lia|].
  inversion_clear Hds. etrans; [|apply IH; [lia|done]]. lia.
Qed.

Definition stops (s : bytes) : Prop := match s with c :: _ => digit c = None | [] => True end.

Lemma leadingInt_digits x ds s :
  0 ≤ x → Forall (λ k, 0 ≤ k < 10) ds → value_from x ds ≤ 2 ^ 63 → stops s →
  leadingInt x ((digit_of <$> ds) ++ s) = Some (value_from x ds, s).
Proof.
  revert x. induction ds as [|k ds IH]; intros x Hx Hds Hv Hs.
  - cbn [fmap list_fmap app]. destruct s as [|c s]; [done|]. cbn in Hs |- *. by rewrite Hs.
  - inversion_clear Hds. cbn [fmap list_fmap app leadingInt]. rewrite digit_of_digit by done.
    unfold value_from in Hv. cbn [foldl] in Hv. fold (value_from (x * 10 + k) ds) in Hv.
    pose proof (value_from_le (x * 10 + k) ds ltac:(lia) ltac:(done)) as Hle.
    pose proof (Z.div_le_lower_bound (2 ^ 63) 10 x ltac:(lia) ltac:(lia)).
    destruct (Z.ltb_spec (2 ^ 63 / 10) x); [lia|].
    destruct (Z.ltb_spec (2 ^ 63) (x * 10 + k)); [lia|]. apply IH; [lia|done..].
Qed.

Lemma leadingInt_length x s v rest :
  leadingInt x s = Some (v, rest) → (length rest ≤ length s)%nat.
Proof.
  revert x. induction s as [|c s IH]; intros x; cbn; [naive_solver|].
  destruct (digit c); [|naive_solver]. repeat (case_match; [done|]).
  intros Hl%IH. lia.
Qed.

Lemma leadingFraction_length x scale o s f scale' rest :
  leadingFraction x scale o s = (f, scale', rest) → (length rest ≤ length s)%nat.
Proof.
  revert x scale o. induction s as [|c s IH]; intros x scale o; cbn; [naive_solver|].
  destruct (digit c); [|naive_solver]. repeat case_match; intros Hl%IH; lia.
Qed.

Lemma parse_fraction_length s f scale rest post :
  parse_fraction s = (f, scale, rest, post) → (length rest ≤ length s)%nat.
Proof.
  unfold parse_fraction. destruct s as [|c s]; [naive_solver|]. case_match; [|naive_solver].
  destruct (leadingFraction _ _ _ _) as [[f' sc'] r'] eqn:Hl.
  apply leadingFraction_length in Hl. intros [= <- <- <- <-]. cbn. lia.
Qed.

(** ** Units *)

Lemma span_unit_length s u rest : span_unit s = (u, rest) → (length u + length rest = length s)%nat.
Proof.
  revert u rest. induction s as [|c s IH]; intros u rest; cbn; [naive_solver|].
  case_match; [naive_solver|]. destruct (span_unit s) as [u' rest'].
  intros [= <- <-]. cbn. rewrite <-(IH u' rest') by done. lia.
Qed.

Lemma span_unit_app u s :
  Forall (λ c, num_byte c = false) u →
  match s with c :: _ => num_byte c = true | [] => True end → span_unit (u ++ s) = (u, s).
Proof.
  intros Hu Hs. induction Hu as [|c u Hc Hu IH]; cbn.
  - destruct s as [|c s]; [done|]. cbn. by rewrite Hs.
  - by rewrite Hc, IH.
Qed.

Lemma unitMap_spec p :
  p ∈ unitMap →
  unit_of p.1 = Some p.2 ∧ p.1 ≠ [] ∧ Forall (λ c, num_byte c = false) p.1 ∧ 0 < p.2.
Proof.
  intros Hp.
  repeat (apply elem_of_cons in Hp as [->|Hp];
    [split; [by vm_compute|]; split; [done|]; split; [|by vm_compute];
     repeat (constructor; [by vm_compute|]); constructor|]).
  by apply not_elem_of_nil in Hp.
Qed.

(** ** The loop *)

Lemma parse_unit_shorter orig d s d' s' :
  parse_unit orig d s = inl (d', s') → (length s' < length s)%nat ∧ 0 ≤ d' ≤ 2 ^ 63.
Proof.
  unfold parse_unit. destruct s as [|c s0]; [done|]. set (s := c :: s0).
  destruct (num_byte c); cbn [negb]; [|done].
  destruct (leadingInt 0 s) as [[v s1]|] eqn:Hi; [|done].
  apply leadingInt_length in Hi.
  destruct (parse_fraction s1) as [[[f scale] s2] post] eqn:Hf.
  apply parse_fraction_length in Hf.
  case_match; [done|]. destruct (span_unit s2) as [u s3] eqn:Hu.
  apply span_unit_length in Hu.
  destruct (decide (u = [])) as [->|Hne]; [by rewrite bool_decide_eq_true_2|].
  rewrite bool_decide_eq_false_2 by done. assert (length u ≠ 0)%nat by (by destruct u).
  destruct (unit_of u) as [unit|]; [|done]. case_match; [done|]. case_match; [done|].
  destruct (Z.ltb_spec (2 ^ 63)
    ((d + (if 0 <? f then add_fraction (v * unit) f unit scale else v * unit)) mod 2 ^ 64)); [done|].
  intros [= <- <-]. split; [lia|]. split; [|done]. by apply Z.mod_pos_bound.
Qed.

(** The fuel is enough. *)
Lemma parse_units_enough fuel orig d s :
  (length s ≤ fuel)%nat → is_Some (parse_units fuel orig d s).
Proof.
  revert d s. induction fuel as [|fuel IH]; intros d [|c s] Hs; cbn [length parse_units] in *; [by eauto|lia|by eauto|].
  - destruct (parse_unit orig d (c :: s)) as [[d' s']|e] eqn:Hp; [|by eauto].
    apply parse_unit_shorter in Hp as [Hl _]. apply IH. cbn in Hl. lia.
Qed.

Lemma parse_units_bound fuel orig d s d' :
  0 ≤ d ≤ 2 ^ 63 → parse_units fuel orig d s = Some (inl d') → 0 ≤ d' ≤ 2 ^ 63.
Proof.
  revert d s. induction fuel as [|fuel IH]; intros d [|c s] Hd; cbn [parse_units]; [naive_solver..|].
  destruct (parse_unit orig d (c :: s)) as [[d1 s1]|e] eqn:Hp; [|done].
  apply parse_unit_shorter in Hp as [_ Hd1]. by apply IH.
Qed.

(** The result is an [int64]. *)
Lemma ParseDuration_int64 s d : ParseDuration s = inl d → int64_ok d.
Proof.
  unfold ParseDuration, int64_ok. destruct (sign_of (to_bytes s)) as [neg s'].
  repeat case_match; try done; intros [= <-]; try lia;
    match goal with H : parse_units _ _ _ _ = _ |- _ => apply parse_units_bound in H; lia end.
Qed.

(** ** Sums of parts *)

Lemma part_text_head p s :
  part_ok p → ∃ c s', part_text p ++ s = c :: s' ∧ num_byte c = true ∧ digit c ≠ None.
Proof.
  intros (Hne & Hds & _). destruct p as [ds u]. cbn in *. destruct ds as [|k ds]; [done|].
  inversion_clear Hds. cbn. eexists _, _. split; [done|].
  split; [by apply num_byte_digit|]. by rewrite digit_of_digit.
Qed.

Lemma duration_text_head ps :
  Forall part_ok ps → match duration_text ps with c :: _ => num_byte c = true | [] => True end.
Proof.
  intros Hps. destruct Hps as [|p ps Hp Hps]; [done|]. unfold duration_text. cbn.
  destruct (part_text_head p (ps ≫= part_text) Hp) as (c & s' & Heq & Hc & _). by rewrite Heq.
Qed.

Lemma part_value_nonneg p : part_ok p → 0 ≤ part_value p.
Proof.
  intros (_ & Hds & (_ & _ & _ & Hu)%unitMap_spec). unfold part_value.
  pose proof (value_from_le 0 (pt_digits p) ltac:(lia) Hds). nia.
Qed.

Lemma duration_value_nonneg ps : Forall part_ok ps → 0 ≤ duration_value ps.
Proof.
  induction 1 as [|p ps Hp Hps IH]; [done|]. change (0 ≤ part_value p + duration_value ps).
  apply part_value_nonneg in Hp. lia.
Qed.

Lemma parse_part orig d p s :
  part_ok p → 0 ≤ d → d + part_value p ≤ 2 ^ 63 →
  match s with c :: _ => num_byte c = true | [] => True end →
  parse_unit orig d (part_text p ++ s) = inl (d + part_value p, s).
Proof.
  intros Hp Hd Hv Hs. destruct (part_text_head p s Hp) as (c & s' & Heq & Hc & _).
  pose proof (part_value_nonneg p Hp) as Hpos.
  destruct Hp as (Hne & Hds & (Hu & Hu0 & Hub & Hup)%unitMap_spec).
  unfold parse_unit. rewrite Heq, Hc. cbn [negb]. rewrite <-Heq. clear c s' Heq Hc.
  unfold part_text, part_value in *. destruct p as [ds [u unit]]. cbn [pt_digits pt_unit fst snd] in *.
  pose proof (value_from_le 0 ds ltac:(lia) Hds) as Hv0.
  assert (stops (u ++ s)) as Hstops.
  { destruct u as [|c u]; [done|]. inversion_clear Hub. by apply num_byte_not_digit. }
  rewrite <-(assoc_L (++)), leadingInt_digits by (done || lia || nia).
  assert (parse_fraction (u ++ s) = (0, float64_of 1, u ++ s, false)) as ->.
  { destruct u as [|c u]; [done|]. inversion_clear Hub as [|? ? Hc].
    apply num_byte_not_digit in Hc as [_ Hc]. cbn. by rewrite bool_decide_eq_false_2. }
  assert ((length (u ++ s) =? length ((digit_of <$> ds) ++ u ++ s))%nat = false) as ->.
  { apply Nat.eqb_neq. rewrite (length_app (digit_of <$> ds)), length_fmap.
    destruct ds; [done|cbn; lia]. }
  cbn [negb andb]. rewrite span_unit_app by done. rewrite bool_decide_eq_false_2 by done.
  rewrite Hu. rewrite (proj2 (Z.ltb_ge _ _)) by (apply Z.div_le_lower_bound; lia).
  cbn [Z.ltb Z.compare andb]. rewrite Z.mod_small by lia.
  by rewrite (proj2 (Z.ltb_ge _ _)) by lia.
Qed.

Lemma parse_parts fuel orig d ps :
  Forall part_ok ps → 0 ≤ d → d + duration_value ps ≤ 2 ^ 63 →
  (length (duration_text ps) ≤ fuel)%nat →
  parse_units fuel orig d (duration_text ps) = Some (inl (d + duration_value ps)).
Proof.
  intros Hps. revert fuel d. induction Hps as [|p ps Hp Hps IH]; intros fuel d Hd Hv Hf.
  - cbn. destruct fuel; cbn; do 2 f_equal; lia.
  - unfold duration_text in *. cbn [mbind list_bind] in *. fold (duration_text ps) in *.
    cbn [duration_value foldr] in *. fold (duration_value ps) in *.
    pose proof (duration_value_nonneg ps Hps). pose proof (part_value_nonneg p Hp).
    pose proof (parse_part orig d p (duration_text ps) Hp Hd ltac:(lia) (duration_text_head ps Hps)) as Hstep.
    destruct (part_text_head p (duration_text ps) Hp) as (c & s' & Heq & _ & _).
    rewrite Heq in *. destruct fuel as [|fuel]; cbn in Hf; [lia|]. cbn [parse_units].
    rewrite Hstep. apply parse_unit_shorter in Hstep as [Hl _]. cbn in Hl.
    rewrite IH by (lia || (cbn in Hl; lia)). do 2 f_equal. lia.
Qed.

(** A signed sequence of whole numbers with units denotes their sum. *)
Lemma ParseDuration_sum (neg : bool) ps :
  ps ≠ [] → Forall part_ok ps → duration_value ps < 2 ^ 63 →
  ParseDuration (of_bytes ((if neg then ["-"%char] else []) ++ duration_text ps)) =
    inl (if neg then - duration_value ps else duration_value ps).
Proof.
  intros Hne Hps Hv. unfold ParseDuration.
  rewrite String.list_ascii_of_string_of_list_ascii.
  destruct Hps as [|p ps Hp Hps]; [done|].
  assert (Forall part_ok (p :: ps)) as Hall by by constructor.
  pose proof (parse_parts (length (duration_text (p :: ps)))
    ((if neg then ["-"%char] else []) ++ duration_text (p :: ps)) 0 (p :: ps) Hall
    ltac:(lia) ltac:(lia) ltac:(lia)) as Hparse.
  rewrite Z.add_0_l in Hparse. set (text := duration_text (p :: ps)) in *.
  assert (∃ c s', text = c :: s' ∧ digit c ≠ None) as (c & s' & Htext & Hc).
  { destruct (part_text_head p (duration_text ps) Hp) as (c & s' & Heq & _ & Hc).
    exists c, s'. split; [|done]. exact Heq. }
  assert (sign_of ((if neg then ["-"%char] else []) ++ text) = (neg, text)) as ->.
  { destruct neg; [done|]. rewrite Htext. cbn. rewrite !bool_decide_eq_false_2; [done|..];
      intros ->; by destruct Hc. }
  assert (text ≠ ["0"%char]) as Hzero.
  { intros Ht. assert (length text ≠ 1)%nat as Hl; [|by rewrite Ht in Hl].
    subst text. unfold duration_text. cbn. rewrite length_app. unfold part_text.
    rewrite length_app, length_fmap. destruct Hp as (Hd & _ & (_ & Hu & _)%unitMap_spec).
    destruct (pt_digits p), (pt_unit p).1; cbn; try done; lia. }
  rewrite !bool_decide_eq_false_2 by (done || by rewrite Htext). rewrite Hparse.
  destruct neg; [done|]. by rewrite (proj2 (Z.ltb_ge _ _)) by lia.
Qed.
