(* ===== verification/GoFlag.v ===== *)
(** Go's command line flags, as far as the program uses them: [flag.StringVar],
    [flag.BoolVar] and [flag.Parse] on the flag set of the process.

    The variables that the flags are bound to are the values of the flag set.
    Other packages may have registered flags of their own in it. *)
From S2P Require Import Prelude GoStrings.
#[local] Open Scope string_scope.
#[local] Open Scope list_scope.

(** * Definitions *)

Inductive flag_value :=
  | StringFlag (s : string)
  | BoolFlag (b : bool).

#[global] Instance flag_value_eq_dec : EqDecision flag_value.
Proof. solve_decision. Defined.

(** The flags that are defined, with their present values. *)
Abbreviation flag_set := (gmap string flag_value).

(** [StringVar] and [BoolVar]: a flag that is defined twice is a panic. *)
Definition define (name : string) (v : flag_value) (formal : flag_set) : outcome flag_set :=
  match formal !! name with
  | Some _ => Panic
  | None => Ok (<[name := v]> formal)
  end.

(** [strconv.ParseBool] *)
Definition ParseBool (s : string) : option bool :=
  if decide (s ∈ ["1"; "t"; "T"; "true"; "TRUE"; "True"]) then Some true
  else if decide (s ∈ ["0"; "f"; "F"; "false"; "FALSE"; "False"]) then Some false
  else None.

Definition ErrHelp : error := ErrVar "flag.ErrHelp" "flag: help requested".

(** The name of a flag, and its value behind the first [=]. *)
Fixpoint cut_value (s : string) : string * option string :=
  match s with
  | EmptyString => ("", None)
  | String c s =>
      if decide (c = "="%char) then ("", Some s)
      else let '(name, v) := cut_value s in (String c name, v)
  end.

(** What an argument is: no flag, the terminator ["--"], malformed, or a flag. *)
Inductive argument :=
  | NoFlag
  | Terminator
  | BadSyntax
  | Flag (name : string) (v : option string).

Definition classify_name (name : string) : argument :=
  match name with
  | EmptyString => BadSyntax
  | String c _ =>
      if decide (c = "-"%char ∨ c = "="%char) then BadSyntax
      else let '(name, v) := cut_value name in Flag name v
  end.

Definition classify (s : string) : argument :=
  match s with
  | String "-" (String "-" EmptyString) => Terminator
  | String "-" (String "-" name) => classify_name name
  | String "-" (String c name) => classify_name (String c name)
  | _ => NoFlag
  end.

(** [FlagSet.Parse], one flag ([parseOne]) per round: the values, and the arguments that are left.  The
    error goes with the exit of the process: status 0 for [ErrHelp], 2 for any
    other. *)
Fixpoint Parse (args : list string) (formal : flag_set) : flag_set * list string + error :=
  match args with
  | [] => inl (formal, [])
  | s :: args =>
      match classify s with
      | NoFlag => inl (formal, s :: args)
      | Terminator => inl (formal, args)
      | BadSyntax => inr (ErrNew ("bad flag syntax: " +:+ s))
      | Flag name v =>
          match formal !! name with
          | None =>
              if decide (name = "help" ∨ name = "h") then inr ErrHelp
              else inr (ErrNew ("flag provided but not defined: -" +:+ name))
          | Some (BoolFlag _) =>
              match ParseBool (default "true" v) with
              | Some b => Parse args (<[name := BoolFlag b]> formal)
              | None => inr (ErrNew ("invalid boolean value for -" +:+ name))
              end
          | Some (StringFlag _) =>
              match v, args with
              | Some v, _ => Parse args (<[name := StringFlag v]> formal)
              | None, v :: args => Parse args (<[name := StringFlag v]> formal)
              | None, [] => inr (ErrNew ("flag needs an argument: -" +:+ name))
              end
          end
      end
  end.

(** ** How flags are written *)

Inductive flag_use :=
  | UseEq (dashes2 : bool) (name value : string)        (* [-name=value], [--name=value] *)
  | UseNext (dashes2 : bool) (name value : string)      (* [-name value] *)
  | UseBare (dashes2 : bool) (name : string).           (* [-name], of a bool flag *)

Definition dashes (two : bool) : string := if two then "--" else "-".

Definition render (u : flag_use) : list string :=
  match u with
  | UseEq two name value => [dashes two +:+ name +:+ "=" +:+ value]
  | UseNext two name value => [dashes two +:+ name; value]
  | UseBare two name => [dashes two +:+ name]
  end.

(** A name can be written when it is not empty, has no [=] and does not begin with a dash. *)
Definition writable (name : string) : Prop :=
  has_byte "=" name = false ∧ ∃ c s, name = String c s ∧ c ≠ "-"%char.

(** The name and the value that a use sets, as the type of the flag reads it. *)
Definition use_sets (formal : flag_set) (u : flag_use) : option (string * flag_value) :=
  match u with
  | UseEq _ name value =>
      match formal !! name with
      | Some (StringFlag _) => Some (name, StringFlag value)
      | Some (BoolFlag _) => b ← ParseBool value; Some (name, BoolFlag b)
      | None => None
      end
  | UseNext _ name value =>
      match formal !! name with Some (StringFlag _) => Some (name, StringFlag value) | _ => None end
  | UseBare _ name =>
      match formal !! name with Some (BoolFlag _) => Some (name, BoolFlag true) | _ => None end
  end.

Definition use_name (u : flag_use) : string :=
  match u with UseEq _ name _ | UseNext _ name _ | UseBare _ name => name end.

(** * Lemmas *)

Lemma cut_value_name name : has_byte "=" name = false → cut_value name = (name, None).
Proof.
  induction name as [|c name IH]; [done|]. cbn. intros [Hc Hn]%orb_false_iff.
  apply bool_decide_eq_false in Hc. rewrite decide_False by done. by rewrite IH.
Qed.

Lemma cut_value_eq name value :
  has_byte "=" name = false → cut_value (name +:+ "=" +:+ value) = (name, Some value).
Proof.
  induction name as [|c name IH]; [done|]. intros [Hc Hn]%orb_false_iff.
  apply bool_decide_eq_false in Hc.
  change (String c name +:+ "=" +:+ value) with (String c (name +:+ "=" +:+ value)).
  cbn [cut_value]. rewrite decide_False by done. by rewrite IH.
Qed.

Lemma writable_head name : writable name → ∃ c s, name = String c s ∧ c ≠ "-"%char ∧ c ≠ "="%char.
Proof.
  intros [Heq (c & s & -> & Hc)]. exists c, s. split; [done|]. split; [done|].
  cbn in Heq. apply orb_false_iff in Heq as [Heq _]. by apply bool_decide_eq_false in Heq.
Qed.

(** A flag after one or two dashes. *)
Lemma classify_dashes two c s :
  c ≠ "-"%char → c ≠ "="%char →
  classify (dashes two +:+ String c s) = let '(name, v) := cut_value (String c s) in Flag name v.
Proof.
  intros Hd He. assert (classify_name (String c s) = let '(name, v) := cut_value (String c s) in Flag name v)
    as Hname by (unfold classify_name; destruct (decide _) as [[?|?]|?]; done).
  rewrite <-Hname. destruct two; cbn [dashes String.append].
  - done.
  - unfold classify. destruct c as [[] [] [] [] [] [] [] []]; done.
Qed.

Lemma classify_use u :
  writable (use_name u) →
  ∃ a rest, render u = a :: rest ∧
    classify a = Flag (use_name u) (match u with UseEq _ _ v => Some v | _ => None end) ∧
    rest = match u with UseNext _ _ v => [v] | _ => [] end.
Proof.
  intros Hw. destruct (writable_head _ Hw) as (c & s & Hname & Hd & He). destruct Hw as [Heq _].
  destruct u as [two name v|two name v|two name]; cbn in Hname, Heq |- *; subst name;
    eexists _, _; (split; [done|]); (split; [|done]).
  - change (String c s +:+ "=" +:+ v) with (String c (s +:+ "=" +:+ v)).
    rewrite classify_dashes by done.
    change (String c (s +:+ "=" +:+ v)) with (String c s +:+ "=" +:+ v). by rewrite cut_value_eq.
  - rewrite classify_dashes by done. by rewrite cut_value_name.
  - rewrite classify_dashes by done. by rewrite cut_value_name.
Qed.

Definition same_kind (v v' : flag_value) : Prop :=
  match v, v' with
  | StringFlag _, StringFlag _ | BoolFlag _, BoolFlag _ => True
  | _, _ => False
  end.

(** A use sets a flag that is defined, to a value of its type. *)
Lemma use_sets_kind formal u name v :
  use_sets formal u = Some (name, v) → ∃ old, formal !! name = Some old ∧ same_kind old v.
Proof.
  intros Hu. destruct u as [two n s|two n s|two n]; cbn in Hu; destruct (formal !! n) as [[o|o]|] eqn:Ho;
    try discriminate Hu; [..|apply bind_Some in Hu as (b & _ & Hu)| |];
    injection Hu as <- <-; by eexists.
Qed.

Lemma use_sets_keeps formal u name v u' :
  use_sets formal u = Some (name, v) → use_sets (<[name := v]> formal) u' = use_sets formal u'.
Proof.
  intros (old & Hold & Hkind)%use_sets_kind.
  assert (∀ n, match <[name := v]> formal !! n, formal !! n with
               | Some v', Some old' => same_kind old' v'
               | None, None => True
               | _, _ => False
               end) as Hsame.
  { intros n. rewrite lookup_insert. case_decide as Hn; [subst n; by rewrite Hold|].
    by destruct (formal !! n) as [[]|]. }
  destruct u' as [two n s|two n s|two n]; cbn; specialize (Hsame n);
    by destruct (<[name := v]> formal !! n) as [[]|], (formal !! n) as [[]|].
Qed.

(** The values after a sequence of uses; a later use of a flag wins. *)
Definition set_uses (formal : flag_set) (us : list flag_use) : flag_set :=
  foldl (λ formal u, match use_sets formal u with
                     | Some (name, v) => <[name := v]> formal
                     | None => formal
                     end) formal us.

(** A flag stays defined, with its type. *)
Lemma set_uses_kind formal us name v :
  formal !! name = Some v → ∃ v', set_uses formal us !! name = Some v' ∧ same_kind v v'.
Proof.
  revert formal v. induction us as [|u us IH]; intros formal v Hv; [exists v; by destruct v|].
  cbn. destruct (use_sets formal u) as [[n x]|] eqn:Hu; [|by apply IH].
  destruct (use_sets_kind _ _ _ _ Hu) as (old & Hold & Hkind).
  destruct (decide (n = name)) as [->|Hne].
  - rewrite Hv in Hold. injection Hold as <-.
    destruct (IH (<[name := x]> formal) x) as (v' & Hv' & Hk); [by rewrite lookup_insert_eq|].
    exists v'. split; [done|]. by destruct v, x, v'.
  - apply IH. by rewrite lookup_insert_ne.
Qed.

Lemma Parse_use formal u args :
  writable (use_name u) → is_Some (use_sets formal u) →
  Parse (render u ++ args) formal = Parse args (set_uses formal [u]).
Proof.
  intros Hw [[name v] Hu]. destruct (classify_use u Hw) as (a & rest & -> & Ha & ->).
  cbn [app Parse set_uses foldl]. rewrite Ha, Hu.
  destruct u as [two n s|two n s|two n]; cbn in Hu |- *;
    destruct (formal !! n) as [[o|o]|] eqn:Ho; try discriminate Hu;
    [..|apply bind_Some in Hu as (b & Hb & Hu); rewrite Hb| |]; injection Hu as <- <-; done.
Qed.

(** What was written is what is read. *)
Lemma Parse_uses formal us rest :
  Forall (λ u, writable (use_name u)) us → Forall (λ u, is_Some (use_sets formal u)) us →
  Parse ((us ≫= render) ++ rest) formal = Parse rest (set_uses formal us).
Proof.
  intros Hw. revert formal. induction Hw as [|u us Hw Hws IH]; intros formal Hus; [done|].
  apply Forall_cons in Hus as [Hu Hus]. cbn [mbind list_bind].
  rewrite <-(assoc_L (++)), Parse_use by done. pose proof Hu as [[name v] Hnv].
  cbn [set_uses foldl]. rewrite Hnv. apply IH.
  eapply Forall_impl; [exact Hus|]. intros u' Hu'. by rewrite (use_sets_keeps _ _ _ _ _ Hnv).
Qed.

Definition no_more_flags (rest : list string) : Prop :=
  match rest with
  | [] => True
  | s :: _ => match classify s with NoFlag | Terminator => True | _ => False end
  end.

Lemma Parse_rest rest formal : no_more_flags rest → ∃ left, Parse rest formal = inl (formal, left).
Proof. destruct rest as [|s rest]; [by eexists|]. cbn. destruct (classify s); naive_solver. Qed.
