(* ===== verification/GoNet.v ===== *)
(** [net.ParseIP] and [net.IP.String] of Go 1.18, the version [go.mod] names.
    The program decides with them whether an address of an EndpointSlice is an
    IP (an A record) or a host name (a CNAME record).

    A parsed address is its 16 bytes, an IPv4 address being held in the
    IPv4-mapped form [::ffff:a.b.c.d], as [net.IPv4] builds it. *)
From S2P Require Import Prelude GoStrings.
#[local] Open Scope string_scope.
#[local] Open Scope list_scope.
#[local] Open Scope N_scope.

Abbreviation IP := (list N).

(** ** Parsing *)

Definition digit_val (c : ascii) : option N :=
  let n := N_of_ascii c in
  if (48 <=? n) && (n <=? 57) then Some (n - 48) else None.

Definition hex_val (c : ascii) : option N :=
  let n := N_of_ascii c in
  if (48 <=? n) && (n <=? 57) then Some (n - 48)
  else if (97 <=? n) && (n <=? 102) then Some (n - 97 + 10)
  else if (65 <=? n) && (n <=? 70) then Some (n - 65 + 10)
  else None.

(** The limit past which [dtoi] and [xtoi] give up. *)
Definition big : N := 16777215.

(** The common loop of [dtoi] ([base = 10]) and [xtoi] ([base = 16]): the
    number, how many bytes it took, and the rest. *)
Fixpoint toi (val : ascii → option N) (base : N) (s : bytes) (n : N) (i : nat)
    : option (N * nat * bytes) :=
  match s with
  | c :: s' =>
      match val c with
      | Some d =>
          let n' := n * base + d in
          if big <=? n' then None else toi val base s' n' (S i)
      | None => if decide (i = 0%nat) then None else Some (n, i, s)
      end
  | [] => if decide (i = 0%nat) then None else Some (n, i, s)
  end.

Definition dtoi (s : bytes) : option (N * nat * bytes) := toi digit_val 10 s 0 0.
Definition xtoi (s : bytes) : option (N * nat * bytes) := toi hex_val 16 s 0 0.

(** One octet of a dotted address: no more than 255 and no leading zero. *)
Definition parse_octet (s : bytes) : option (N * bytes) :=
  match dtoi s with
  | Some (n, c, rest) =>
      if 255 <? n then None
      else if (bool_decide (1 < c)%nat && bool_decide (head s = Some "0"%char)) then None
      else Some (n, rest)
  | None => None
  end.

(** The four octets: [k] are still to come, each but the first after a dot. *)
Fixpoint parse_octets (k : nat) (first : bool) (s : bytes) : option IP :=
  match k with
  | 0%nat => if decide (s = []) then Some [] else None
  | S k =>
      match (if first then Some s else cut_prefix ["."%char] s) with
      | Some s' =>
          match parse_octet s' with
          | Some (n, rest) => (λ ip, n :: ip) <$> parse_octets k false rest
          | None => None
          end
      | None => None
      end
  end.

Definition v4_prefix : IP := [0;0;0;0; 0;0;0;0; 0;0;255;255].
Definition IPv4 (ip : IP) : IP := v4_prefix ++ ip.

Definition parseIPv4 (s : bytes) : option IP := IPv4 <$> parse_octets 4 true s.

(** The loop of [parseIPv6].  [ip] holds the bytes read so far, [ell] the
    position of the ellipsis; the result is both and the unread input.  At most
    eight 16 bit groups are read, so eight steps are enough. *)
Fixpoint parse_groups (fuel : nat) (s : bytes) (ip : IP) (ell : option nat)
    : option (IP * option nat * bytes) :=
  match fuel with
  | 0%nat => Some (ip, ell, s)
  | S fuel =>
      if bool_decide (16 <= length ip)%nat then Some (ip, ell, s) else
      match xtoi s with
      | None => None
      | Some (n, c, rest) =>
          if 65535 <? n then None
          else if bool_decide (head rest = Some "."%char) then
            if bool_decide (ell = None) && negb (bool_decide (length ip = 12%nat)) then None
            else if bool_decide (16 < length ip + 4)%nat then None
            else match parse_octets 4 true s with
                 | None => None
                 | Some ip4 => Some (ip ++ ip4, ell, [])
                 end
          else
            let ip := ip ++ [n / 256; n mod 256] in
            match rest with
            | [] => Some (ip, ell, [])
            | c0 :: rest' =>
                if negb (bool_decide (c0 = ":"%char)) || bool_decide (rest' = []) then None
                else match rest' with
                     | ":"%char :: rest'' =>
                         if bool_decide (ell = None) then
                           if decide (rest'' = []) then Some (ip, Some (length ip), [])
                           else parse_groups fuel rest'' ip (Some (length ip))
                         else None
                     | _ => parse_groups fuel rest' ip ell
                     end
            end
      end
  end.

(** [::] at the start of the text is an ellipsis at position 0. *)
Definition leading_ellipsis (s : bytes) : bytes * option nat :=
  match cut_prefix [":"%char; ":"%char] s with
  | Some s' => (s', Some 0%nat)
  | None => (s, None)
  end.

Definition parseIPv6 (s : bytes) : option IP :=
  let '(s, ell) := leading_ellipsis s in
  if decide (ell = Some 0%nat ∧ s = []) then Some (replicate 16 0)
  else
    match parse_groups 8 s [] ell with
    | Some (ip, ell, []) =>
        if bool_decide (length ip < 16)%nat then
          match ell with
          | Some e => Some (take e ip ++ replicate (16 - length ip) 0 ++ drop e ip)
          | None => None
          end
        else if bool_decide (ell = None) then Some ip else None
    | _ => None
    end.

(** The first dot or colon decides the family. *)
Fixpoint parse_family (s0 s : bytes) : option IP :=
  match s with
  | [] => None
  | "."%char :: _ => parseIPv4 s0
  | ":"%char :: _ => parseIPv6 s0
  | _ :: s => parse_family s0 s
  end.

Definition ParseIP (s : string) : option IP := parse_family (to_bytes s) (to_bytes s).

Definition is_ip (s : string) : bool := bool_decide (is_Some (ParseIP s)).

(** ** Printing *)

Definition digit_byte (n : N) : ascii := ascii_of_N (48 + n).

Definition octet_bytes (n : N) : bytes :=
  if n <? 10 then [digit_byte n]
  else if n <? 100 then [digit_byte (n / 10); digit_byte (n mod 10)]
  else [digit_byte (n / 100); digit_byte (n / 10 mod 10); digit_byte (n mod 10)].

Definition dotted (ip : IP) : bytes :=
  match ip with
  | [a; b; c; d] =>
      octet_bytes a ++ "."%char :: octet_bytes b ++ "."%char :: octet_bytes c
        ++ "."%char :: octet_bytes d
  | _ => []
  end.

(** [ip.To4()]: the last four bytes of an IPv4-mapped address. *)
Definition To4 (ip : IP) : option IP :=
  if decide (take 12 ip = v4_prefix ∧ length ip = 16%nat) then Some (drop 12 ip) else None.

Definition hex_byte (n : N) : ascii :=
  if n <? 10 then ascii_of_N (48 + n) else ascii_of_N (87 + n).

(** [appendHex]: no leading zeros, ["0"] for zero. *)
Definition hex_bytes (n : N) : bytes :=
  if n <? 16 then [hex_byte n]
  else if n <? 256 then [hex_byte (n / 16); hex_byte (n mod 16)]
  else if n <? 4096 then [hex_byte (n / 256); hex_byte (n / 16 mod 16); hex_byte (n mod 16)]
  else [hex_byte (n / 4096); hex_byte (n / 256 mod 16); hex_byte (n / 16 mod 16);
        hex_byte (n mod 16)].

Fixpoint groups (ip : IP) : list N :=
  match ip with
  | hi :: lo :: ip => hi * 256 + lo :: groups ip
  | _ => []
  end.

Fixpoint zero_run (gs : list N) : nat :=
  match gs with
  | 0 :: gs => S (zero_run gs)
  | _ => 0%nat
  end.

(** The start and length of the first longest run of zero groups.  [i] is the
    position of the head of [gs]. *)
Fixpoint longest_zero_run (gs : list N) (i : nat) (best : nat * nat) : nat * nat :=
  match gs with
  | [] => best
  | _ :: gs' =>
      let r := zero_run gs in
      longest_zero_run gs' (S i) (if bool_decide (best.2 < r)%nat then (i, r) else best)
  end.

Fixpoint colon_sep (gs : list N) : bytes :=
  match gs with
  | [] => []
  | [g] => hex_bytes g
  | g :: gs => hex_bytes g ++ ":"%char :: colon_sep gs
  end.

(** [ip.String()] on the 16 byte addresses [ParseIP] returns.  A run of two or
    more zero groups is written [::]. *)
Definition IP_String (ip : IP) : string :=
  of_bytes
    (match To4 ip with
     | Some ip4 => dotted ip4
     | None =>
         let gs := groups ip in
         let '(e0, len) := longest_zero_run gs 0 (0%nat, 0%nat) in
         if bool_decide (1 < len)%nat then
           colon_sep (take e0 gs) ++ [":"%char; ":"%char] ++ colon_sep (drop (e0 + len) gs)
         else colon_sep gs
     end).
