(* ===== verification/GoNetSpec.v ===== *)
(** [net.ParseIP] reads back what [IP.String] prints: every 16 byte address
    survives the round trip, so an address the reconciler has normalised is an
    IP again when the cache parses it. *)
From S2P Require Import Prelude GoStrings GoNet.
#[local] Open Scope string_scope.
#[local] Open Scope list_scope.
#[local] Open Scope N_scope.

(** * Definitions *)

(** The addresses [ParseIP] returns. *)
Definition valid_ip (ip : IP) : Prop :=
  length ip = 16%nat ∧ Forall (λ b, b < 256) ip.

(** The bytes of a list of 16 bit groups. *)
Definition group_bytes (g : N) : IP := [g / 256; g mod 256].
Definition bytes_of_groups (gs : list N) : IP := gs ≫= group_bytes.

(** [rest] does not continue a number. *)
Definition stops (val : ascii → option N) (rest : bytes) : Prop :=
  match rest with [] => True | c :: _ => val c = None end.

(** * Numbers *)

Lemma toi_step val base c d s n i :
  val c = Some d → n * base + d < big →
  toi val base (c :: s) n i = toi val base s (n * base + d) (S i).
Proof. intros Hc Hn. cbn [toi]. rewrite Hc. cbv zeta. by rewrite (proj2 (N.leb_gt _ _) Hn). Qed.

Lemma toi_stop val base rest n i :
  stops val rest → toi val base rest n (S i) = Some (n, S i, rest).
Proof. destruct rest as [|c rest]; cbn; [done|]. by intros ->. Qed.

Lemma small_cases (P : N → Prop) (k : nat) n :
  n < N.of_nat k → Forall P (N.of_nat <$> seq 0 k) → P n.
Proof.
  intros Hn HP. rewrite Forall_forall in HP. apply HP. apply list_elem_of_fmap.
  exists (N.to_nat n). split; [by rewrite N2Nat.id|]. apply elem_of_seq. lia.
Qed.

Lemma digit_val_byte d : d < 10 → digit_val (digit_byte d) = Some d.
Proof. intros Hd. pattern d. apply (small_cases _ 10); [done|]. by repeat constructor. Qed.

Lemma hex_val_byte d : d < 16 → hex_val (hex_byte d) = Some d.
Proof. intros Hd. pattern d. apply (small_cases _ 16); [done|]. by repeat constructor. Qed.

Lemma digit_byte_not_0 d : 0 < d < 10 → digit_byte d ≠ "0"%char.
Proof.
  intros [H0 Hd] Heq. apply (f_equal digit_val) in Heq. rewrite digit_val_byte in Heq by done.
  injection Heq as ->. done.
Qed.

(** Steps through a numeral and stops behind it. *)
Ltac toi_digit H := rewrite toi_step with (1 := H) by (unfold big; lia).
Ltac no_leading_zero :=
  rewrite (bool_decide_false (Some _ = _)) by (intros [= ?]; by eapply digit_byte_not_0);
  rewrite andb_false_r.

Lemma div_digit n b : b <> 0 → b <= n < b * 10 → 0 < n / b < 10.
Proof. intros Hb [H1 H2]. split; [by apply N.div_str_pos; lia|by apply N.Div0.div_lt_upper_bound]. Qed.

Lemma parse_octet_bytes n rest :
  n < 256 → stops digit_val rest → parse_octet (octet_bytes n ++ rest) = Some (n, rest).
Proof.
  intros Hn Hrest. unfold parse_octet, dtoi, octet_bytes.
  destruct (N.ltb_spec n 10) as [H1|H1]; [|destruct (N.ltb_spec n 100) as [H2|H2]]; cbn [app].
  - toi_digit (digit_val_byte _ H1). rewrite toi_stop by done. cbn [head].
    rewrite (proj2 (N.ltb_ge _ _)) by lia. by rewrite bool_decide_false by lia.
  - destruct (div_digit n 10) as [Hpos Hq]; [lia..|].
    assert (n mod 10 < 10) as Hr by (apply N.mod_lt; lia).
    pose proof (N.div_mod' n 10) as Heq.
    toi_digit (digit_val_byte _ Hq). toi_digit (digit_val_byte _ Hr).
    rewrite toi_stop by done. cbn [head]. rewrite (proj2 (N.ltb_ge _ _)) by lia.
    no_leading_zero. do 2 f_equal. lia.
  - destruct (div_digit n 100) as [Hpos Hq]; [lia..|].
    assert (n / 10 mod 10 < 10) as Hr1 by (apply N.mod_lt; lia).
    assert (n mod 10 < 10) as Hr by (apply N.mod_lt; lia).
    pose proof (N.div_mod' n 10) as Heq1. pose proof (N.div_mod' (n / 10) 10) as Heq2.
    rewrite N.Div0.div_div in Heq2. change (10 * 10) with 100 in Heq2.
    toi_digit (digit_val_byte _ Hq). toi_digit (digit_val_byte _ Hr1).
    toi_digit (digit_val_byte _ Hr). rewrite toi_stop by done. cbn [head].
    rewrite (proj2 (N.ltb_ge _ _)) by lia. no_leading_zero. do 2 f_equal. lia.
Qed.

Lemma cut_prefix_head a s : cut_prefix [a] (a :: s) = Some s.
Proof. apply (cut_prefix_app [a]). Qed.

Lemma parse_octets_dotted a b c d :
  a < 256 → b < 256 → c < 256 → d < 256 →
  parse_octets 4 true (dotted [a; b; c; d]) = Some [a; b; c; d].
Proof.
  intros Ha Hb Hc Hd. unfold dotted. cbn [parse_octets].
  do 3 (rewrite parse_octet_bytes by done; rewrite cut_prefix_head).
  rewrite <-(app_nil_r (octet_bytes d)). by rewrite parse_octet_bytes.
Qed.

Lemma xtoi_hex_bytes g rest :
  g < 65536 → stops hex_val rest → ∃ c, xtoi (hex_bytes g ++ rest) = Some (g, c, rest).
Proof.
  intros Hg Hrest. unfold xtoi, hex_bytes.
  assert (g mod 16 < 16) as H0 by (apply N.mod_lt; lia).
  assert (g / 16 mod 16 < 16) as H1 by (apply N.mod_lt; lia).
  assert (g / 256 mod 16 < 16) as H2 by (apply N.mod_lt; lia).
  pose proof (N.div_mod' g 16) as E0. pose proof (N.div_mod' (g / 16) 16) as E1.
  pose proof (N.div_mod' (g / 256) 16) as E2. rewrite !N.Div0.div_div in E1, E2.
  change (16 * 16) with 256 in E1. change (256 * 16) with 4096 in E2.
  destruct (N.ltb_spec g 16) as [Hlt|];
    [|destruct (N.ltb_spec g 256) as [Hlt|]; [|destruct (N.ltb_spec g 4096) as [Hlt|]]];
    cbn [app].
  - toi_digit (hex_val_byte g Hlt). rewrite toi_stop by done. eexists. do 2 f_equal.
  - pose proof (N.Div0.div_lt_upper_bound g 16 16 Hlt) as Hd. toi_digit (hex_val_byte _ Hd). toi_digit (hex_val_byte _ H0).
    rewrite toi_stop by done. eexists. do 3 f_equal. lia.
  - pose proof (N.Div0.div_lt_upper_bound g 256 16 Hlt) as Hd. toi_digit (hex_val_byte _ Hd). toi_digit (hex_val_byte _ H1).
    toi_digit (hex_val_byte _ H0). rewrite toi_stop by done. eexists. do 3 f_equal. lia.
  - pose proof (N.Div0.div_lt_upper_bound g 4096 16 Hg) as Hd. toi_digit (hex_val_byte _ Hd). toi_digit (hex_val_byte _ H2).
    toi_digit (hex_val_byte _ H1). toi_digit (hex_val_byte _ H0).
    rewrite toi_stop by done. eexists. do 3 f_equal. lia.
Qed.

(** * The groups of an address *)

Lemma bytes_of_groups_cons g gs :
  bytes_of_groups (g :: gs) = group_bytes g ++ bytes_of_groups gs.
Proof. reflexivity. Qed.

Lemma length_bytes_of_groups gs : length (bytes_of_groups gs) = (2 * length gs)%nat.
Proof.
  induction gs as [|g gs IH]; [done|]. rewrite bytes_of_groups_cons, length_app, IH. cbn. lia.
Qed.

Lemma bytes_of_groups_app gs1 gs2 :
  bytes_of_groups (gs1 ++ gs2) = bytes_of_groups gs1 ++ bytes_of_groups gs2.
Proof. apply bind_app. Qed.

Lemma bytes_of_zero_groups n : bytes_of_groups (replicate n 0) = replicate (2 * n) 0.
Proof.
  induction n as [|n IH]; [done|]. cbn [replicate]. rewrite bytes_of_groups_cons, IH.
  by replace (2 * S n)%nat with (S (S (2 * n))) by lia.
Qed.

Lemma groups_spec ip n :
  length ip = (2 * n)%nat → Forall (λ b, b < 256) ip →
  bytes_of_groups (groups ip) = ip ∧ length (groups ip) = n ∧
  Forall (λ g, g < 65536) (groups ip).
Proof.
  revert ip. induction n as [|n IH]; intros [|hi [|lo ip]] Hlen Hall; cbn in Hlen; try lia.
  { done. }
  apply Forall_cons in Hall as [Hhi [Hlo Hall]%Forall_cons].
  destruct (IH ip) as (Hb & Hl & Hg); [lia|done|]. cbn [groups]. split_and!.
  - rewrite bytes_of_groups_cons, Hb. unfold group_bytes. cbn. f_equal; [|f_equal].
    + rewrite N.add_comm, N.div_add by lia. rewrite N.div_small by lia. lia.
    + rewrite N.add_comm, N.Div0.mod_add. by rewrite N.mod_small.
  - cbn. lia.
  - constructor; [lia|done].
Qed.

Lemma hex_bytes_head g rest :
  g < 65536 → ∃ c s, hex_bytes g ++ rest = c :: s ∧ is_Some (hex_val c).
Proof.
  intros Hg. unfold hex_bytes.
  assert (∀ d l, d < 16 → ∃ c s, hex_byte d :: l = c :: s ∧ is_Some (hex_val c)) as Hh.
  { intros d l Hd. eexists _, _. split; [done|]. rewrite hex_val_byte by done. by eexists. }
  repeat case_match; cbn [app]; apply Hh.
  - by apply N.ltb_lt.
  - apply N.Div0.div_lt_upper_bound. apply N.ltb_lt in H0. lia.
  - apply N.Div0.div_lt_upper_bound. apply N.ltb_lt in H1. lia.
  - apply N.Div0.div_lt_upper_bound. lia.
Qed.

(** The address text of groups: a hexadecimal digit comes first. *)
Lemma colon_sep_head g gs rest :
  Forall (λ g, g < 65536) (g :: gs) →
  ∃ c s, colon_sep (g :: gs) ++ rest = c :: s ∧ is_Some (hex_val c).
Proof.
  intros [Hg _]%Forall_cons. destruct gs as [|g' gs]; cbn [colon_sep].
  - by apply hex_bytes_head.
  - rewrite <-app_assoc. by apply hex_bytes_head.
Qed.

(** * Parsing groups *)

Lemma hex_val_colon : hex_val ":" = None.
Proof. reflexivity. Qed.

(** One step of the loop on a group that is not followed by a dot. *)
Lemma parse_groups_step fuel g rest ip ell :
  g < 65536 → (length ip < 16)%nat → stops hex_val rest → head rest ≠ Some "."%char →
  parse_groups (S fuel) (hex_bytes g ++ rest) ip ell =
    let ip := ip ++ group_bytes g in
    match rest with
    | [] => Some (ip, ell, [])
    | c0 :: rest' =>
        if negb (bool_decide (c0 = ":"%char)) || bool_decide (rest' = []) then None
        else match rest' with
             | ":"%char :: rest'' =>
                 if bool_decide (ell = None) then
                   if decide (rest'' = []) then Some (ip, Some (length ip), [])
                   else parse_groups fuel rest'' ip (Some (length ip))
                 else None
             | _ => parse_groups fuel rest' ip ell
             end
    end.
Proof.
  intros Hg Hip Hrest Hdot. cbn [parse_groups].
  rewrite bool_decide_false by lia. destruct (xtoi_hex_bytes g rest Hg Hrest) as [c ->].
  rewrite (proj2 (N.ltb_ge _ _)) by lia. by rewrite bool_decide_false.
Qed.

(** A group behind a colon that is not an ellipsis. *)
Lemma parse_groups_colon fuel g rest c s ip ell :
  g < 65536 → (length ip < 16)%nat → rest = c :: s → is_Some (hex_val c) →
  parse_groups (S fuel) (hex_bytes g ++ ":"%char :: rest) ip ell =
    parse_groups fuel rest (ip ++ group_bytes g) ell.
Proof.
  intros Hg Hip -> Hc. rewrite parse_groups_step by done. cbv zeta.
  rewrite bool_decide_true, bool_decide_false by done. cbn [negb orb].
  destruct c as [[] [] [] [] [] [] [] []]; try done; by destruct Hc.
Qed.

(** Groups up to the end of the input. *)
Lemma parse_groups_end gs g fuel ip ell :
  Forall (λ g, g < 65536) (g :: gs) →
  (length ip + 2 * length (g :: gs) ≤ 16)%nat → (length (g :: gs) ≤ fuel)%nat →
  parse_groups fuel (colon_sep (g :: gs)) ip ell =
    Some (ip ++ bytes_of_groups (g :: gs), ell, []).
Proof.
  revert g fuel ip. induction gs as [|g' gs IH]; intros g fuel ip Hall Hip Hfuel;
    apply Forall_cons in Hall as [Hg Hall]; destruct fuel as [|fuel]; cbn in Hip, Hfuel; try lia.
  - cbn [colon_sep]. rewrite <-(app_nil_r (hex_bytes g)).
    rewrite parse_groups_step by (done || lia). by rewrite bytes_of_groups_cons, app_nil_r.
  - destruct (colon_sep_head g' gs [] Hall) as (c & s & Hs & Hc). rewrite app_nil_r in Hs.
    cbn [colon_sep]. cbn [colon_sep] in Hs. erewrite parse_groups_colon by (done || lia).
    fold (colon_sep (g' :: gs)). rewrite (bytes_of_groups_cons g), app_assoc. apply IH; [done|..].
    + rewrite length_app. cbn. lia.
    + cbn. lia.
Qed.

(** Groups up to an ellipsis. *)
Lemma parse_groups_ellipsis gs g fuel ip rest :
  Forall (λ g, g < 65536) (g :: gs) →
  (length ip + 2 * length (g :: gs) ≤ 16)%nat → (length (g :: gs) ≤ fuel)%nat →
  parse_groups fuel (colon_sep (g :: gs) ++ ":"%char :: ":"%char :: rest) ip None =
    let ip := ip ++ bytes_of_groups (g :: gs) in
    if decide (rest = []) then Some (ip, Some (length ip), [])
    else parse_groups (fuel - length (g :: gs)) rest ip (Some (length ip)).
Proof.
  revert g fuel ip. induction gs as [|g' gs IH]; intros g fuel ip Hall Hip Hfuel;
    apply Forall_cons in Hall as [Hg Hall]; destruct fuel as [|fuel]; cbn in Hip, Hfuel; try lia.
  - cbn [colon_sep]. rewrite parse_groups_step by (done || lia). cbv zeta.
    rewrite bool_decide_true, bool_decide_false by done. cbn [negb orb].
    rewrite bool_decide_true, bytes_of_groups_cons, app_nil_r by done.
    by replace (S fuel - length [g])%nat with fuel by (cbn; lia).
  - destruct (colon_sep_head g' gs (":"%char :: ":"%char :: rest) Hall) as (c & s & Hs & Hc).
    change (colon_sep (g :: g' :: gs)) with (hex_bytes g ++ ":"%char :: colon_sep (g' :: gs)).
    rewrite <-app_assoc, <-app_comm_cons.
    erewrite parse_groups_colon by (done || lia).
    rewrite (bytes_of_groups_cons g), app_assoc. rewrite IH; [done|done|..].
    + rewrite length_app. cbn. lia.
    + cbn. lia.
Qed.

(** * The longest run of zero groups *)

Lemma zero_run_spec gs : take (zero_run gs) gs = replicate (zero_run gs) 0.
Proof. induction gs as [|[|p] gs IH]; cbn; [done| |done]. by f_equal. Qed.

Lemma longest_zero_run_spec full gs i best :
  gs = drop i full → take best.2 (drop best.1 full) = replicate best.2 0 →
  let r := longest_zero_run gs i best in take r.2 (drop r.1 full) = replicate r.2 0.
Proof.
  revert i best. induction gs as [|g gs IH]; intros i best Hgs Hbest; [done|].
  cbn [longest_zero_run]. apply IH.
  - by rewrite <-Nat.add_1_r, <-drop_drop, <-Hgs.
  - case_bool_decide; [|done]. cbn [fst snd]. rewrite <-Hgs. apply zero_run_spec.
Qed.

Lemma elided_groups (gs : list N) e len :
  take len (drop e gs) = replicate len 0 →
  gs = take e gs ++ replicate len 0 ++ drop (e + len) gs.
Proof. intros Hz. by rewrite <-drop_drop, <-Hz, !take_drop. Qed.

(** * The round trip *)

Lemma parse_family_v4 d s0 s :
  is_Some (digit_val d) → parse_family s0 (d :: s) = parse_family s0 s.
Proof. destruct d as [[] [] [] [] [] [] [] []]; try done; by intros [? ?]. Qed.

Lemma parse_family_v6 d s0 s :
  is_Some (hex_val d) → parse_family s0 (d :: s) = parse_family s0 s.
Proof. destruct d as [[] [] [] [] [] [] [] []]; try done; by intros [? ?]. Qed.

Lemma octet_digits n : n < 256 → Forall (λ c, is_Some (digit_val c)) (octet_bytes n).
Proof.
  intros Hn. unfold octet_bytes.
  repeat case_match; repeat constructor; rewrite digit_val_byte; try done;
    try apply N.mod_lt; try apply N.Div0.div_lt_upper_bound; try lia.
  all: rewrite ?N.ltb_lt, ?N.ltb_ge in *; lia.
Qed.

Lemma hex_digits n : n < 65536 → Forall (λ c, is_Some (hex_val c)) (hex_bytes n).
Proof.
  intros Hn. unfold hex_bytes.
  repeat case_match; repeat constructor; rewrite hex_val_byte; try done;
    try apply N.mod_lt; try apply N.Div0.div_lt_upper_bound; try lia.
  all: rewrite ?N.ltb_lt, ?N.ltb_ge in *; lia.
Qed.

Lemma parse_family_digits_dot ds s0 s :
  Forall (λ c, is_Some (digit_val c)) ds →
  parse_family s0 (ds ++ "."%char :: s) = parseIPv4 s0.
Proof. induction 1; cbn [app]; [done|]. by rewrite parse_family_v4. Qed.

Lemma parse_family_digits_colon ds s0 s :
  Forall (λ c, is_Some (hex_val c)) ds →
  parse_family s0 (ds ++ ":"%char :: s) = parseIPv6 s0.
Proof. induction 1; cbn [app]; [done|]. by rewrite parse_family_v6. Qed.

Lemma parse_family_groups gs g s0 s :
  Forall (λ g, g < 65536) (g :: gs) → (gs ≠ [] ∨ head s = Some ":"%char) →
  parse_family s0 (colon_sep (g :: gs) ++ s) = parseIPv6 s0.
Proof.
  intros [Hg _]%Forall_cons Hor. destruct gs as [|g' gs]; cbn [colon_sep].
  - destruct Hor as [?|Hs]; [done|]. destruct s as [|c s]; [done|]. injection Hs as ->.
    by apply parse_family_digits_colon, hex_digits.
  - rewrite <-app_assoc. apply parse_family_digits_colon, hex_digits, Hg.
Qed.

(** The text of an address that starts with a group has no leading ellipsis. *)
Lemma no_leading_ellipsis gs g s :
  Forall (λ g, g < 65536) (g :: gs) →
  cut_prefix [":"%char; ":"%char] (colon_sep (g :: gs) ++ s) = None.
Proof.
  intros Hg. destruct (colon_sep_head g gs s Hg) as (c & t & -> & Hc). cbn.
  destruct (decide (":"%char = c)) as [<-|]; [by destruct Hc|done].
Qed.

Abbreviation ellipsis := ([":"%char; ":"%char]).

Lemma parseIPv6_plain gs :
  length gs = 8%nat → Forall (λ g, g < 65536) gs →
  parseIPv6 (colon_sep gs) = Some (bytes_of_groups gs).
Proof.
  intros Hlen Hall. destruct gs as [|g gs]; [done|]. unfold parseIPv6, leading_ellipsis.
  pose proof (no_leading_ellipsis gs g [] Hall) as Hno. rewrite app_nil_r in Hno.
  rewrite Hno, decide_False by naive_solver.
  rewrite parse_groups_end by (done || cbn in *; lia). cbn [app].
  rewrite length_bytes_of_groups, Hlen. done.
Qed.

Lemma parseIPv6_elided gs1 gs2 :
  (length gs1 + length gs2 < 8)%nat →
  Forall (λ g, g < 65536) gs1 → Forall (λ g, g < 65536) gs2 →
  parseIPv6 (colon_sep gs1 ++ ellipsis ++ colon_sep gs2) =
    Some (bytes_of_groups gs1 ++
          replicate (16 - 2 * (length gs1 + length gs2)) 0 ++ bytes_of_groups gs2).
Proof.
  intros Hlen H1 H2. unfold parseIPv6, leading_ellipsis.
  assert (colon_sep gs2 = [] → gs2 = []) as Hnil.
  { destruct gs2 as [|g gs2]; [done|]. intros Heq.
    destruct (colon_sep_head g gs2 [] H2) as (c & s & Hs & _).
    by rewrite Heq in Hs. }
  destruct gs1 as [|g gs1].
  - change (colon_sep [] ++ ellipsis ++ colon_sep gs2) with (ellipsis ++ colon_sep gs2).
    rewrite cut_prefix_app.
    destruct gs2 as [|g gs2]; [done|].
    rewrite decide_False by naive_solver.
    rewrite parse_groups_end by (done || cbn in *; lia). cbn [app].
    rewrite length_bytes_of_groups, bool_decide_true by (cbn in *; lia).
    by rewrite take_0, drop_0.
  - rewrite no_leading_ellipsis, decide_False by naive_solver. cbn [app].
    rewrite parse_groups_ellipsis by (done || cbn in *; lia). cbn [app]. cbv zeta.
    case_decide as Hc.
    + rewrite (Hnil Hc). rewrite bool_decide_true by (rewrite length_bytes_of_groups; cbn in *; lia).
      rewrite take_ge, drop_ge, length_bytes_of_groups, Nat.add_0_r by done. done.
    + destruct gs2 as [|g2 gs2]; [done|].
      rewrite parse_groups_end;
        [|done|rewrite length_bytes_of_groups; cbn in *; lia|cbn in *; lia].
      rewrite bool_decide_true
        by (rewrite length_app, !length_bytes_of_groups; cbn in *; lia).
      rewrite take_app_length, drop_app_length, length_app, !length_bytes_of_groups.
      by rewrite Nat.mul_add_distr_l.
Qed.

(** Every 16 byte address is read back from its text. *)
Lemma ParseIP_String ip : valid_ip ip → ParseIP (IP_String ip) = Some ip.
Proof.
  intros [Hlen Hall]. unfold ParseIP, IP_String. rewrite to_of_bytes.
  destruct (To4 ip) as [ip4|] eqn:H4.
  - unfold To4 in H4. case_decide as Hp; [|done]. injection H4 as <-. destruct Hp as [Hp _].
    rewrite <-(take_drop 12 ip), Hp in Hall. apply Forall_app in Hall as [_ Hall].
    assert (length (drop 12 ip) = 4%nat) as Hl by (rewrite length_drop; lia).
    rewrite <-(take_drop 12 ip) at 3. rewrite Hp.
    destruct (drop 12 ip) as [|a [|b [|c [|d [|]]]]]; try done.
    apply Forall_cons in Hall as [Ha [Hb [Hc [Hd _]%Forall_cons]%Forall_cons]%Forall_cons].
    unfold dotted at 2. rewrite parse_family_digits_dot by (by apply octet_digits).
    unfold parseIPv4. by rewrite parse_octets_dotted.
  - destruct (groups_spec ip 8 Hlen Hall) as (Hb & Hl & Hg).
    pose proof (longest_zero_run_spec (groups ip) (groups ip) 0 (0%nat, 0%nat) eq_refl eq_refl) as Hz.
    destruct (longest_zero_run _ _ _) as [e len]. cbv zeta in Hz. cbn [fst snd] in Hz.
    case_bool_decide as Hl2.
    + apply elided_groups in Hz. rewrite Hz in Hl, Hg, Hb.
      rewrite !length_app, length_replicate in Hl.
      apply Forall_app in Hg as [Hg1 [_ Hg2]%Forall_app].
      assert (∀ s0, parse_family s0 (colon_sep (take e (groups ip)) ++ ellipsis ++
                colon_sep (drop (e + len) (groups ip))) = parseIPv6 s0) as ->.
      { intros s0. destruct (take e (groups ip)) as [|g gs]; [done|].
        apply parse_family_groups; [done|by right]. }
      rewrite parseIPv6_elided by (done || lia). f_equal.
      etransitivity; [|exact Hb]. rewrite !bytes_of_groups_app, bytes_of_zero_groups.
      do 3 f_equal. lia.
    + destruct (groups ip) as [|g gs] eqn:Hgs; [done|].
      rewrite <-(app_nil_r (colon_sep (g :: gs))) at 2.
      rewrite parse_family_groups by (done || left; by intros ->).
      rewrite parseIPv6_plain by done. by rewrite Hb.
Qed.

(** * What [ParseIP] returns *)

Abbreviation all_bytes := (Forall (λ b, b < 256)).

Lemma parse_octets_valid k first s ip :
  parse_octets k first s = Some ip → length ip = k ∧ all_bytes ip.
Proof.
  revert first s ip. induction k as [|k IH]; intros first s ip; cbn [parse_octets].
  { case_decide; [|done]. by intros [= <-]. }
  destruct (if first then _ else _) as [s'|]; [|done].
  unfold parse_octet. destruct (dtoi s') as [[[n c] rest]|]; [|done].
  destruct (N.ltb_spec 255 n) as [|Hn]; [done|]. destruct (_ && _); [done|].
  intros (ip' & Hip & ->)%fmap_Some. apply IH in Hip as [Hl Ha]. split; [cbn; lia|].
  constructor; [lia|done].
Qed.

(** The loop keeps an even number of at most 16 bytes, and the ellipsis within. *)
Definition groups_ok (ip : IP) (ell : option nat) : Prop :=
  (∃ k, length ip = (2 * k)%nat ∧ (k ≤ 8)%nat) ∧ all_bytes ip ∧
  (∀ e, ell = Some e → (e ≤ length ip)%nat).

Lemma groups_ok_step ip ell n :
  groups_ok ip ell → n < 65536 → (length ip < 16)%nat →
  groups_ok (ip ++ [n / 256; n mod 256]) ell ∧
  groups_ok (ip ++ [n / 256; n mod 256]) (Some (length (ip ++ [n / 256; n mod 256]))).
Proof.
  intros ((k & Hk & Hk8) & Ha & He) Hn Hlt.
  assert (all_bytes (ip ++ [n / 256; n mod 256])) as Ha'.
  { apply Forall_app. split; [done|]. repeat constructor.
    - by apply N.Div0.div_lt_upper_bound.
    - by apply N.mod_lt. }
  assert (∃ k, length (ip ++ [n / 256; n mod 256]) = (2 * k)%nat ∧ (k ≤ 8)%nat) as Hk'.
  { exists (S k). rewrite length_app. cbn. lia. }
  split; (split; [done|]); (split; [done|]).
  - intros e He'%He. rewrite length_app. lia.
  - by intros e [= <-].
Qed.

Lemma parse_groups_valid fuel s ip ell ip' ell' rest :
  groups_ok ip ell → parse_groups fuel s ip ell = Some (ip', ell', rest) → groups_ok ip' ell'.
Proof.
  revert s ip ell. induction fuel as [|fuel IH]; intros s ip ell Hok; cbn [parse_groups].
  { by intros [= <- <- _]. }
  case_bool_decide as Hlt; [by intros [= <- <- _]|].
  destruct (xtoi s) as [[[n c] rest0]|]; [|done].
  destruct (N.ltb_spec 65535 n) as [|Hn]; [done|].
  case_bool_decide.
  - destruct (_ && _); [done|]. case_bool_decide as Hroom; [done|].
    destruct (parse_octets 4 true s) as [ip4|] eqn:H4; [|done]. intros [= <- <- _].
    apply parse_octets_valid in H4 as [Hl4 Ha4]. destruct Hok as ((k & Hk & _) & Ha & He).
    split_and!.
    + exists (k + 2)%nat. rewrite length_app. lia.
    + by apply Forall_app.
    + intros e He'%He. rewrite length_app. lia.
  - cbv zeta. destruct (groups_ok_step ip ell n Hok) as [Hok1 Hok2]; [lia..|].
    destruct rest0 as [|c0 rest']; [by intros [= <- <- _]|].
    destruct (_ || _); [done|].
    assert (∀ r e, groups_ok (ip ++ [n / 256; n mod 256]) e →
              parse_groups fuel r (ip ++ [n / 256; n mod 256]) e = Some (ip', ell', rest) →
              groups_ok ip' ell') as Hrec by (intros r e; apply IH).
    destruct rest' as [|c1 rest'']; [by apply Hrec|].
    destruct c1 as [[] [] [] [] [] [] [] []]; try (by apply Hrec).
    case_bool_decide; [|done]. case_decide; [by intros [= <- <- _]|]. by apply Hrec.
Qed.

Lemma parseIPv6_valid s ip : parseIPv6 s = Some ip → valid_ip ip.
Proof.
  unfold parseIPv6. destruct (leading_ellipsis s) as [s' ell] eqn:Hs.
  case_decide; [by intros [= <-]; split; [|repeat constructor]|].
  assert (groups_ok [] ell) as Hok.
  { split_and!; [exists 0%nat; cbn; lia|done|]. intros e He.
    unfold leading_ellipsis in Hs.
    destruct (cut_prefix _ s); injection Hs as _ <-; [|done]. by injection He as <-. }
  destruct (parse_groups 8 s' [] ell) as [[[ip' ell'] [|]]|] eqn:Hg; [|done..].
  apply parse_groups_valid in Hg as ((k & Hk & Hk8) & Ha & He); [|done].
  case_bool_decide as Hlt.
  - destruct ell' as [e|]; [|done]. intros [= <-]. specialize (He e eq_refl). split.
    + rewrite !length_app, length_replicate, length_take, length_drop. lia.
    + rewrite !Forall_app. split_and!; [by apply Forall_take|by apply Forall_replicate|by apply Forall_drop].
  - case_bool_decide; [|done]. intros [= <-]. split; [lia|done].
Qed.

Lemma ParseIP_valid s ip : ParseIP s = Some ip → valid_ip ip.
Proof.
  unfold ParseIP. generalize (to_bytes s) at 1. intros s0. induction (to_bytes s) as [|c l IH];
    cbn [parse_family]; [done|].
  destruct c as [[] [] [] [] [] [] [] []]; try apply IH; try apply parseIPv6_valid.
  unfold parseIPv4. intros (ip4 & H4 & ->)%fmap_Some.
  apply parse_octets_valid in H4 as [Hl Ha]. split; [unfold IPv4; cbn; lia|].
  apply Forall_app. split; [by repeat constructor|done].
Qed.

(** The text of a parsed address is an address. *)
Lemma is_ip_String s ip : ParseIP s = Some ip → is_ip (IP_String ip) = true.
Proof.
  intros Hp%ParseIP_valid. unfold is_ip. rewrite ParseIP_String by done.
  apply bool_decide_true. by eexists.
Qed.
