(* ===== verification/GoSync.v ===== *)
(** Objects whose methods run under one [sync.RWMutex], called by any number of
    goroutines: the interleaving semantics, that every execution is
    linearizable, and that no call is ever stuck. *)
From S2P Require Import Prelude.
#[local] Open Scope list_scope.

(** * Definitions *)

(** [sync.RWMutex]: the goroutine that holds it for writing, and those that
    hold it for reading. *)
Record rwmutex := mkRWMutex { rw_writer : option nat; rw_readers : gset nat }.

#[global] Instance rwmutex_eq_dec : EqDecision rwmutex.
Proof. solve_decision. Defined.

Definition rw_free : rwmutex := mkRWMutex None ∅.
Definition rw_lock (tid : nat) (m : rwmutex) : rwmutex := mkRWMutex (Some tid) (rw_readers m).
Definition rw_unlock (m : rwmutex) : rwmutex := mkRWMutex None (rw_readers m).
Definition rw_rlock (tid : nat) (m : rwmutex) : rwmutex :=
  mkRWMutex (rw_writer m) ({[ tid ]} ∪ rw_readers m).
Definition rw_runlock (tid : nat) (m : rwmutex) : rwmutex :=
  mkRWMutex (rw_writer m) (rw_readers m ∖ {[ tid ]}).

(** [Lock] waits for all holders, [RLock] for the writer. *)
Definition can_lock (m : rwmutex) : Prop := rw_writer m = None ∧ rw_readers m = ∅.
Definition can_rlock (m : rwmutex) : Prop := rw_writer m = None.

Section object.
Context {Op St T : Type}.

(** The body of a method between taking the lock and releasing it, as the
    statements that other goroutines may run between. *)
Record method := mkMethod { md_writes : bool; md_body : list (St * T → St * T) }.

Context (program : Op → method) (t0 : T).

Inductive phase :=
  | Entering
  | Inside (rest : list (St * T → St * T)) (local : T)
  | Returned (result : T).

(** [history] is for the specification: the calls in the order in which they took the lock. *)
Record config := mkConfig {
  shared : St;
  lock : rwmutex;
  threads : gmap nat (Op * phase);
  history : list (nat * Op);
}.

Definition start (s : St) : config := mkConfig s rw_free ∅ [].

Definition with_phase (tid : nat) (o : Op) (p : phase) (c : config) : config :=
  mkConfig (shared c) (lock c) (<[tid := (o, p)]> (threads c)) (history c).

Definition acquire (tid : nat) (o : Op) (m : rwmutex) (c : config) : config :=
  mkConfig (shared c) m (<[tid := (o, Inside (md_body (program o)) t0)]> (threads c))
    (history c ++ [(tid, o)]).

(** One step of goroutine [tid] inside its call. *)
Inductive run_step (c : config) (tid : nat) : config → Prop :=
  | step_lock o :
      threads c !! tid = Some (o, Entering) → md_writes (program o) = true →
      can_lock (lock c) → run_step c tid (acquire tid o (rw_lock tid (lock c)) c)
  | step_rlock o :
      threads c !! tid = Some (o, Entering) → md_writes (program o) = false →
      can_rlock (lock c) → run_step c tid (acquire tid o (rw_rlock tid (lock c)) c)
  | step_body o f rest l s' l' :
      threads c !! tid = Some (o, Inside (f :: rest) l) → f (shared c, l) = (s', l') →
      run_step c tid
        (mkConfig s' (lock c) (<[tid := (o, Inside rest l')]> (threads c)) (history c))
  | step_release o l :
      threads c !! tid = Some (o, Inside [] l) →
      run_step c tid
        (mkConfig (shared c)
           (if md_writes (program o) then rw_unlock (lock c) else rw_runlock tid (lock c))
           (<[tid := (o, Returned l)]> (threads c)) (history c)).

(** A goroutine makes a call, or runs. *)
Inductive obj_step (c : config) : config → Prop :=
  | step_call tid o :
      threads c !! tid = None → obj_step c (with_phase tid o Entering c)
  | step_run tid c' : run_step c tid c' → obj_step c c'.

(** The same as a function: what goroutine [tid] does next, if it can. *)
#[local] Instance can_lock_dec m : Decision (can_lock m).
Proof. unfold can_lock. apply _. Defined.
#[local] Instance can_rlock_dec m : Decision (can_rlock m).
Proof. unfold can_rlock. apply _. Defined.

Definition next_config (c : config) (tid : nat) : option config :=
  match threads c !! tid with
  | Some (o, Entering) =>
      if md_writes (program o)
      then if decide (can_lock (lock c)) then Some (acquire tid o (rw_lock tid (lock c)) c) else None
      else if decide (can_rlock (lock c)) then Some (acquire tid o (rw_rlock tid (lock c)) c)
      else None
  | Some (o, Inside (f :: rest) l) =>
      let '(s', l') := f (shared c, l) in
      Some (mkConfig s' (lock c) (<[tid := (o, Inside rest l')]> (threads c)) (history c))
  | Some (o, Inside [] l) =>
      Some (mkConfig (shared c)
        (if md_writes (program o) then rw_unlock (lock c) else rw_runlock tid (lock c))
        (<[tid := (o, Returned l)]> (threads c)) (history c))
  | _ => None
  end.

(** An execution: which goroutine calls what, and which one runs next. *)
Inductive event := Invoke (tid : nat) (o : Op) | Run (tid : nat).

Definition next_event (c : config) (e : event) : option config :=
  match e with
  | Invoke tid o =>
      match threads c !! tid with None => Some (with_phase tid o Entering c) | Some _ => None end
  | Run tid => next_config c tid
  end.

Fixpoint run_events (es : list event) (c : config) : option config :=
  match es with
  | [] => Some c
  | e :: es => next_event c e ≫= run_events es
  end.

(** ** The sequential object *)

Definition exec (body : list (St * T → St * T)) (sl : St * T) : St * T := foldl (λ sl f, f sl) sl body.
Definition apply_op (o : Op) (s : St) : St * T := exec (md_body (program o)) (s, t0).
Definition run_history (h : list (nat * Op)) (s : St) : St :=
  foldl (λ s p, (apply_op p.2 s).1) s h.

(** ** Waiting

    A goroutine that waits for [Lock] keeps new readers out. *)
Definition entering_writer (op : Op * phase) : bool :=
  match op.2 with Entering => md_writes (program op.1) | _ => false end.
Definition is_inside (op : Op * phase) : bool :=
  match op.2 with Inside _ _ => true | _ => false end.

Definition granted (c : config) (tid : nat) (c' : config) : Prop :=
  run_step c tid c' ∧ ∀ o, threads c !! tid = Some (o, Entering) →
    md_writes (program o) = false → ∀ tid' op, threads c !! tid' = Some op → entering_writer op = false.

Definition returned (op : Op * phase) : bool :=
  match op.2 with Returned _ => true | _ => false end.

(** How many steps a call has left. *)
Definition phase_work (op : Op * phase) : nat :=
  match op.2 with
  | Entering => 2 + length (md_body (program op.1))
  | Inside rest _ => 1 + length rest
  | Returned _ => 0
  end.
Definition work (c : config) : nat := map_fold (λ _ op n, phase_work op + n)%nat 0%nat (threads c).

(** * Lemmas *)

Lemma next_config_spec c tid c' : next_config c tid = Some c' ↔ run_step c tid c'.
Proof.
  split.
  - unfold next_config. destruct (threads c !! tid) as [[o [|[|f rest] l|r]]|] eqn:Ht; try done.
    + destruct (md_writes (program o)) eqn:Ho; case_decide; try done; intros [= <-];
        by constructor.
    + intros [= <-]. by apply step_release.
    + destruct (f (shared c, l)) as [s' l'] eqn:Hf. intros [= <-]. by apply (step_body _ _ _ f _ l).
  - unfold next_config. intros [o Ht Ho Hl|o Ht Ho Hl|o f rest l s' l' Ht Hf|o l Ht]; rewrite Ht.
    + by rewrite Ho, decide_True.
    + by rewrite Ho, decide_True.
    + by rewrite Hf.
    + done.
Qed.

Lemma run_events_sound es c c' : run_events es c = Some c' → rtc obj_step c c'.
Proof.
  revert c. induction es as [|e es IH]; intros c; cbn; [by intros [= ->]|].
  destruct (next_event c e) as [c1|] eqn:He; [|done]. cbn. intros Hes.
  apply (rtc_l _ _ c1); [|by apply IH]. destruct e as [tid o|tid]; cbn in He.
  - destruct (threads c !! tid) eqn:Ht; [done|]. injection He as <-. by apply step_call.
  - apply (step_run _ tid). by apply next_config_spec.
Qed.

Lemma run_history_app h1 h2 s : run_history (h1 ++ h2) s = run_history h2 (run_history h1 s).
Proof. apply foldl_app. Qed.

Context (Hreads : ∀ o, md_writes (program o) = false →
  Forall (λ f : St * T → St * T, ∀ s l, (f (s, l)).1 = s) (md_body (program o))).

Lemma exec_reads body s l :
  Forall (λ f : St * T → St * T, ∀ s l, (f (s, l)).1 = s) body → (exec body (s, l)).1 = s.
Proof.
  intros Hb. revert s l. unfold exec. induction Hb as [|f body Hf Hb IH]; intros s l; [done|].
  cbn. specialize (Hf s l). destruct (f (s, l)) as [s' l']. cbn in Hf. subst s'. apply IH.
Qed.

(** ** The invariant *)

(** What a goroutine inside its call still has to do gives the result its
    place in the history promises; a writer will also leave the state of the
    whole history. *)
Definition inside_ok (s0 : St) (c : config) (tid : nat) (o : Op)
    (rest : list (St * T → St * T)) (l : T) : Prop :=
  ∃ h1 h2, history c = h1 ++ (tid, o) :: h2 ∧
    (exec rest (shared c, l)).2 = (apply_op o (run_history h1 s0)).2 ∧
    if md_writes (program o)
    then rw_writer (lock c) = Some tid ∧
      (exec rest (shared c, l)).1 = run_history (history c) s0
    else tid ∈ rw_readers (lock c) ∧
      Forall (λ f : St * T → St * T, ∀ s l, (f (s, l)).1 = s) rest.

Record obj_inv (s0 : St) (c : config) : Prop := {
  inv_shared : rw_writer (lock c) = None → shared c = run_history (history c) s0;
  inv_writer tid : rw_writer (lock c) = Some tid →
    rw_readers (lock c) = ∅ ∧ ∃ o rest l, threads c !! tid = Some (o, Inside rest l) ∧
      md_writes (program o) = true;
  inv_readers tid : tid ∈ rw_readers (lock c) → ∃ o rest l,
    threads c !! tid = Some (o, Inside rest l) ∧ md_writes (program o) = false;
  inv_history : NoDup (history c).*1;
  inv_called tid o : (tid, o) ∈ history c → ∃ p, threads c !! tid = Some (o, p) ∧ p ≠ Entering;
  inv_inside tid o rest l : threads c !! tid = Some (o, Inside rest l) →
    inside_ok s0 c tid o rest l;
  inv_returned tid o r : threads c !! tid = Some (o, Returned r) →
    ∃ h1 h2, history c = h1 ++ (tid, o) :: h2 ∧ r = (apply_op o (run_history h1 s0)).2;
}.

Lemma start_inv s0 : obj_inv s0 (start s0).
Proof. split; cbn; try done; [constructor|by intros ?? ?%not_elem_of_nil]. Qed.

Lemma step_call_inv s0 c tid o :
  obj_inv s0 c → threads c !! tid = None → obj_inv s0 (with_phase tid o Entering c).
Proof.
  intros [H1 H2 H3 H4 H5 H6 H7] Hnew.
  assert (∀ tid' x, threads c !! tid' = Some x → tid ≠ tid') as Hne by (intros ?? ? ->; congruence).
  split; cbn; try done.
  - intros tid' Hw. destruct (H2 tid' Hw) as (Hr & o' & rest & l & Ht & Hm). split; [done|].
    exists o', rest, l. rewrite lookup_insert_ne by eauto. done.
  - intros tid' Hr. destruct (H3 tid' Hr) as (o' & rest & l & Ht & Hm).
    exists o', rest, l. rewrite lookup_insert_ne by eauto. done.
  - intros tid' o' Hin. destruct (H5 tid' o' Hin) as (p & Ht & Hp). exists p.
    rewrite lookup_insert_ne by eauto. done.
  - intros tid' o' rest l [[<- [=]]|[_ Ht]]%lookup_insert_Some. by apply H6.
  - intros tid' o' r [[<- [=]]|[_ Ht]]%lookup_insert_Some. by apply H7.
Qed.

(** Taking the lock: what held of the calls in the history still holds. *)
Lemma acquire_inv s0 c tid o m :
  obj_inv s0 c → threads c !! tid = Some (o, Entering) → rw_writer (lock c) = None →
  (if md_writes (program o) then rw_readers (lock c) = ∅ ∧ m = rw_lock tid (lock c)
   else m = rw_rlock tid (lock c)) →
  obj_inv s0 (acquire tid o m c).
Proof.
  intros [H1 H2 H3 H4 H5 H6 H7] Htid Hfree Hm. specialize (H1 Hfree).
  assert (tid ∉ (history c).*1) as Hnew.
  { intros ([tid' o'] & -> & Hin)%list_elem_of_fmap. cbn in Htid.
    destruct (H5 tid' o' Hin) as (p & Ht & Hp). congruence. }
  assert (∀ tid' o' rest l, threads c !! tid' = Some (o', Inside rest l) →
    md_writes (program o') = false ∧ tid' ∈ rw_readers (lock c)) as Hin.
  { intros tid' o' rest l Ht. destruct (H6 _ _ _ _ Ht) as (h1 & h2 & _ & _ & Hw).
    destruct (md_writes (program o')); [destruct Hw; congruence|]. by destruct Hw. }
  split; cbn [shared lock threads history acquire].
  - intros Hw. rewrite run_history_app. cbn. rewrite <-H1. unfold apply_op.
    destruct (md_writes (program o)) eqn:Ho; [by destruct Hm as [_ ->]|].
    by rewrite exec_reads by by apply Hreads.
  - intros tid' Hw. destruct (md_writes (program o)) eqn:Ho.
    + destruct Hm as [Hr ->]. injection Hw as <-. split; [done|].
      eexists _, _, _. by rewrite lookup_insert_eq.
    + subst m. cbn in Hw. congruence.
  - intros tid' Hr. destruct (md_writes (program o)) eqn:Ho.
    + destruct Hm as [Hr0 ->]. cbn in Hr. rewrite Hr0 in Hr. set_solver.
    + subst m. cbn in Hr. rewrite elem_of_union, elem_of_singleton in Hr. rewrite lookup_insert.
      case_decide as Heq; [by eexists _, _, _|]. destruct Hr as [->|Hr]; [done|]. by apply H3.
  - rewrite fmap_app. apply NoDup_app. split; [done|]. split; [|apply NoDup_singleton].
    by intros ? Hin' ->%list_elem_of_singleton.
  - intros tid' o' [Hin'|[= -> ->]%list_elem_of_singleton]%elem_of_app.
    + rewrite lookup_insert_ne; [by apply H5|]. intros ->. apply Hnew. by apply (list_elem_of_fmap_2 fst) in Hin'.
    + eexists. rewrite lookup_insert_eq. done.
  - intros tid' o' rest l [[<- [= <- <- <-]]|[Hne Ht]]%lookup_insert_Some.
    + exists (history c), []. cbn [history acquire shared lock]. split; [done|].
      rewrite run_history_app. cbn. rewrite <-H1. split; [done|].
      destruct (md_writes (program o)) eqn:Ho.
      * destruct Hm as [_ ->]. done.
      * subst m. cbn. split; [set_solver|]. by apply Hreads.
    + destruct (Hin _ _ _ _ Ht) as [Ho' Hr']. destruct (H6 _ _ _ _ Ht) as (h1 & h2 & Hh & Hres & Hw).
      exists h1, (h2 ++ [(tid, o)]). cbn [history acquire shared lock].
      rewrite Hh, <-(assoc_L (++)). split; [done|]. split; [done|]. rewrite Ho' in *.
      destruct Hw as [_ Hw]. split; [|done]. destruct (md_writes (program o)).
      * destruct Hm as [Hr0 _]. rewrite Hr0 in Hr'. set_solver.
      * subst m. cbn. set_solver.
  - intros tid' o' r [[<- [=]]|[Hne Ht]]%lookup_insert_Some.
    destruct (H7 _ _ _ Ht) as (h1 & h2 & -> & ->).
    exists h1, (h2 ++ [(tid, o)]). by rewrite <-(assoc_L (++)).
Qed.

(** A writer is alone. *)
Lemma inside_exclusive s0 c tid o rest l tid' o' rest' l' :
  obj_inv s0 c → threads c !! tid = Some (o, Inside rest l) → md_writes (program o) = true →
  threads c !! tid' = Some (o', Inside rest' l') → tid' = tid.
Proof.
  intros Hinv Ht Ho Ht'. destruct (inv_inside _ _ Hinv _ _ _ _ Ht) as (? & ? & _ & _ & Hw).
  rewrite Ho in Hw. destruct Hw as [Hw _].
  destruct (inv_inside _ _ Hinv _ _ _ _ Ht') as (? & ? & _ & _ & Hw').
  destruct (md_writes (program o')); [destruct Hw'; congruence|].
  destruct Hw' as [Hr _]. destruct (inv_writer _ _ Hinv _ Hw) as [Hr0 _]. set_solver.
Qed.

Lemma step_body_inv s0 c tid o f rest l s' l' :
  obj_inv s0 c → threads c !! tid = Some (o, Inside (f :: rest) l) →
  f (shared c, l) = (s', l') →
  obj_inv s0 (mkConfig s' (lock c) (<[tid := (o, Inside rest l')]> (threads c)) (history c)).
Proof.
  intros Hinv Ht Hf. pose proof (inside_exclusive s0 c tid) as Hex.
  pose proof Hinv as [H1 H2 H3 H4 H5 H6 H7].
  destruct (H6 _ _ _ _ Ht) as (h1 & h2 & Hh & Hres & Hw). unfold exec in Hres. cbn in Hres.
  rewrite Hf in Hres.
  assert (md_writes (program o) = false → s' = shared c) as Hsame.
  { intros Ho. rewrite Ho in Hw. destruct Hw as [_ Hw]. inversion_clear Hw as [|? ? Hfr].
    specialize (Hfr (shared c) l). by rewrite Hf in Hfr. }
  split; cbn [shared lock threads history]; try done.
  - intros Hfree. destruct (md_writes (program o)); [destruct Hw; congruence|].
    rewrite Hsame by done. by apply H1.
  - intros tid' Hw'. destruct (H2 tid' Hw') as (Hr & o' & rest' & l2 & Ht' & Ho'). split; [done|].
    rewrite lookup_insert. case_decide as Heq; [subst tid'|by eauto].
    rewrite Ht in Ht'. injection Ht' as <- <- <-. by eauto.
  - intros tid' Hr. destruct (H3 tid' Hr) as (o' & rest' & l2 & Ht' & Ho').
    rewrite lookup_insert. case_decide as Heq; [subst tid'|by eauto].
    rewrite Ht in Ht'. injection Ht' as <- <- <-. by eauto.
  - intros tid' o' Hin. destruct (H5 tid' o' Hin) as (p & Ht' & Hp).
    rewrite lookup_insert. case_decide as Heq; [subst tid'|by eauto].
    rewrite Ht in Ht'. injection Ht' as <- <-. by eauto.
  - intros tid' o' rest' l2 [[<- [= <- <- <-]]|[Hne Ht']]%lookup_insert_Some.
    + exists h1, h2. split; [done|]. split; [done|]. cbn [lock shared history].
      destruct (md_writes (program o)).
      * destruct Hw as [Hw Hs]. split; [done|]. unfold exec in Hs. cbn in Hs. by rewrite Hf in Hs.
      * destruct Hw as [Hr Hw]. split; [done|]. by inversion_clear Hw.
    + assert (md_writes (program o) = false) as Ho.
      { destruct (md_writes (program o)) eqn:Ho; [|done]. destruct Hne. symmetry. by eapply Hex. }
      destruct (H6 _ _ _ _ Ht') as (g1 & g2 & Hg & Hres' & Hw').
      exists g1, g2. cbn [lock shared history]. by rewrite Hsame by done.
  - intros tid' o' r [[<- [=]]|[Hne Ht']]%lookup_insert_Some. by apply H7.
Qed.

Lemma step_release_inv s0 c tid o l :
  obj_inv s0 c → threads c !! tid = Some (o, Inside [] l) →
  obj_inv s0 (mkConfig (shared c)
    (if md_writes (program o) then rw_unlock (lock c) else rw_runlock tid (lock c))
    (<[tid := (o, Returned l)]> (threads c)) (history c)).
Proof.
  intros Hinv Ht. pose proof (inside_exclusive s0 c tid) as Hex.
  pose proof Hinv as [H1 H2 H3 H4 H5 H6 H7].
  destruct (H6 _ _ _ _ Ht) as (h1 & h2 & Hh & Hres & Hw).
  split; cbn [shared lock threads history]; try done.
  - intros Hfree. destruct (md_writes (program o)); [by apply Hw|]. by apply H1.
  - intros tid' Hw'. destruct (md_writes (program o)) eqn:Ho; [done|]. cbn in Hw'.
    destruct (H2 tid' Hw') as (Hr & _). destruct Hw as [Hw _]. set_solver.
  - intros tid' Hr. destruct (md_writes (program o)) eqn:Ho; cbn in Hr.
    + destruct Hw as [Hw _]. destruct (H2 tid Hw) as [Hr0 _]. rewrite Hr0 in Hr. by apply not_elem_of_empty in Hr.
    + destruct (decide (tid' = tid)) as [->|Hne]; [set_solver|].
      rewrite lookup_insert_ne by done. apply H3. set_solver.
  - intros tid' o' Hin. destruct (H5 tid' o' Hin) as (p & Ht' & Hp).
    rewrite lookup_insert. case_decide as Heq; [subst tid'|by eauto].
    rewrite Ht in Ht'. injection Ht' as <- <-. by eauto.
  - intros tid' o' rest' l2 [[<- [=]]|[Hne Ht']]%lookup_insert_Some.
    assert (md_writes (program o) = false) as Ho.
    { destruct (md_writes (program o)) eqn:Ho; [|done]. destruct Hne. symmetry. by eapply Hex. }
    destruct (H6 _ _ _ _ Ht') as (g1 & g2 & Hg & Hres' & Hw').
    exists g1, g2. cbn [lock shared history]. rewrite Ho in *. split; [done|]. split; [done|].
    destruct (md_writes (program o')); [done|]. destruct Hw' as [Hr' Hb]. split; [|done]. cbn. set_solver.
  - intros tid' o' r [[<- [= <- <-]]|[Hne Ht']]%lookup_insert_Some; [|by apply H7].
    exists h1, h2. split; [done|]. by rewrite <-Hres.
Qed.

Lemma obj_step_inv s0 c c' : obj_inv s0 c → obj_step c c' → obj_inv s0 c'.
Proof.
  intros Hinv [tid o Hnew|tid ? [o Ht Ho [Hw Hr]|o Ht Ho Hw|o f rest l s' l' Ht Hf|o l Ht]].
  - by apply step_call_inv.
  - apply acquire_inv; [done..|]. by rewrite Ho.
  - apply acquire_inv; [done..|]. by rewrite Ho.
  - by eapply step_body_inv.
  - by apply step_release_inv.
Qed.

Lemma reachable_obj_inv s0 c : rtc obj_step (start s0) c → obj_inv s0 c.
Proof.
  intros Hc. assert (obj_inv s0 (start s0)) as Hinit by apply start_inv. revert Hinit.
  induction Hc as [c|c c1 c' Hstep _ IH]; intros Hinv; [done|]. apply IH. by eapply obj_step_inv.
Qed.

(** ** The history is a linearization *)

Lemma obj_step_history c c' : obj_step c c' → history c `prefix_of` history c'.
Proof. intros [tid o Hnew|tid ? []]; cbn; try done; by apply prefix_app_r. Qed.

Lemma steps_history c c' : rtc obj_step c c' → history c `prefix_of` history c'.
Proof.
  induction 1 as [c|c c1 c' Hstep _ IH]; [done|]. etrans; [by apply obj_step_history|done].
Qed.

(** A call that returned before another one was made comes first. *)
Lemma history_real_time s0 c c' tid1 o1 r tid2 o2 :
  rtc obj_step (start s0) c → rtc obj_step c c' →
  threads c !! tid1 = Some (o1, Returned r) → threads c !! tid2 = None →
  (tid2, o2) ∈ history c' →
  ∃ h1 h2 h3, history c' = h1 ++ (tid1, o1) :: h2 ++ (tid2, o2) :: h3.
Proof.
  intros Hc Hc' H1 H2 Hin. pose proof (reachable_obj_inv _ _ Hc) as Hinv.
  destruct (inv_returned _ _ Hinv _ _ _ H1) as (h1 & h2 & Hh & _).
  destruct (steps_history _ _ Hc') as [h Hh']. rewrite Hh' in Hin |- *.
  apply elem_of_app in Hin as [Hin|(h3 & h4 & ->)%list_elem_of_split].
  { destruct (inv_called _ _ Hinv _ _ Hin) as (p & Ht & _). congruence. }
  exists h1, (h2 ++ h3), h4. rewrite Hh. by rewrite <-!(assoc_L (++)), <-!app_comm_cons.
Qed.

(** ** No call is stuck *)

Lemma work_insert (m : gmap nat (Op * phase)) tid op op' :
  m !! tid = Some op →
  (map_fold (λ _ op n, phase_work op + n) 0 (<[tid := op']> m) + phase_work op =
   phase_work op' + map_fold (λ _ op n, phase_work op + n) 0 m)%nat.
Proof.
  intros Hm. rewrite <-insert_delete_eq.
  rewrite map_fold_insert_L; [|intros; lia|apply lookup_delete_eq].
  rewrite (map_fold_delete_L _ _ tid op m); [lia|intros; lia|done].
Qed.

Lemma run_step_work c tid c' : run_step c tid c' → work c = S (work c').
Proof.
  unfold work. intros [o Ht Ho Hl|o Ht Ho Hl|o f rest l s' l' Ht Hf|o l Ht]; cbn [threads acquire];
    match goal with |- context [<[_ := ?op]> _] => pose proof (work_insert _ _ _ op Ht) as Hw end;
    cbn in Hw |- *; lia.
Qed.

Lemma run_steps_work n c c' :
  nsteps (λ c c', ∃ tid, run_step c tid c') n c c' → work c = (n + work c')%nat.
Proof.
  induction 1 as [|n c c1 c' [tid Hstep] _ IH]; [done|]. apply run_step_work in Hstep. lia.
Qed.

Lemma call_progress s0 c tid op :
  rtc obj_step (start s0) c → threads c !! tid = Some op → returned op = false →
  ∃ tid' c', granted c tid' c'.
Proof.
  intros Hc Ht Hret. pose proof (reachable_obj_inv _ _ Hc) as Hinv.
  destruct (decide (map_Exists (λ _ op, is_inside op = true) (threads c)))
    as [(tid' & [o p] & Ht' & Hin)|Hno].
  { destruct p as [|[|f rest] l|]; try done.
    - eexists tid', _. split; [by eapply step_release|]. congruence.
    - destruct (f (shared c, l)) as [s' l'] eqn:Hf. eexists tid', _.
      split; [by eapply step_body|]. congruence. }
  assert (∀ tid o rest l, threads c !! tid ≠ Some (o, Inside rest l)) as Hout.
  { intros tid' o rest l Ht'. apply Hno. by exists tid', (o, Inside rest l). }
  assert (rw_writer (lock c) = None) as Hw.
  { destruct (rw_writer (lock c)) as [w|] eqn:Hw; [|done].
    destruct (inv_writer _ _ Hinv _ Hw) as (_ & o & rest & l & Ht' & _). by apply Hout in Ht'. }
  assert (rw_readers (lock c) = ∅) as Hr.
  { apply set_eq. intros tid'. split; [|set_solver]. intros Hr.
    destruct (inv_readers _ _ Hinv _ Hr) as (o & rest & l & Ht' & _). by apply Hout in Ht'. }
  destruct (decide (map_Exists (λ _ op, entering_writer op = true) (threads c)))
    as [(tid' & [o p] & Ht' & Hin)|Hnow].
  { destruct p; try done. exists tid', (acquire tid' o (rw_lock tid' (lock c)) c).
    split; [by apply step_lock|]. unfold entering_writer in Hin. cbn in Hin. congruence. }
  destruct op as [o [|rest l|r]]; [|by apply Hout in Ht|done].
  assert (∀ tid' op, threads c !! tid' = Some op → entering_writer op = false) as Hnone.
  { intros tid' op Ht'. apply not_true_is_false. intros He. apply Hnow. by exists tid', op. }
  exists tid, (acquire tid o (rw_rlock tid (lock c)) c). split; [|by eauto].
  apply step_rlock; [done| |done]. exact (Hnone _ _ Ht).
Qed.

(** A run without new calls ends after [work] steps at most, and where it ends,
    every call has returned. *)
Lemma calls_complete s0 c n c' :
  rtc obj_step (start s0) c → nsteps (λ c c', ∃ tid, granted c tid c') n c c' →
  (n + work c' = work c)%nat ∧
  ((∀ tid c'', ¬ granted c' tid c'') → ∀ tid op, threads c' !! tid = Some op → returned op = true).
Proof.
  intros Hc Hn. split.
  - symmetry. apply run_steps_work. eapply (nsteps_congruence id); [|exact Hn].
    intros ? ? [tid [Hs _]]. by exists tid.
  - intros Hstop tid op Ht. destruct (returned op) eqn:Hr; [done|].
    destruct (call_progress s0 c' tid op) as (tid' & c'' & Hg); [|done..|by apply Hstop in Hg].
    etrans; [exact Hc|]. apply (rtc_subrel (λ c c', ∃ tid, granted c tid c')); [|by eapply rtc_nsteps_2].
    intros ? ? [t [Hs _]]. by econstructor.
Qed.

End object.

Arguments method : clear implicits.
Arguments phase : clear implicits.
Arguments config : clear implicits.
Arguments event : clear implicits.
Arguments Invoke {Op} _ _.
Arguments Run {Op} _.
