(* ===== verification/DNSLib.v ===== *)
(** What the program relies on of [github.com/miekg/dns]: a class of the two
    name functions the cache calls, and a class of their documented laws. *)
From S2P Require Import Prelude GoStrings.
#[local] Open Scope string_scope.
#[local] Open Scope list_scope.
#[local] Arguments String.append : simpl nomatch.

(** [dns.CanonicalName] and [dns.SplitDomainName]. *)
Class DNSLib : Type := {
  CanonicalName : string → string;
  SplitDomainName : string → list string;
}.

(** A label that needs no escaping: not empty, no dot, no backslash. *)
Definition plain_label (l : string) : bool :=
  bool_decide (l ≠ "") && negb (has_byte "." l) && negb (has_byte "\" l).

(** A label already in lower case. *)
Definition lower_label (l : string) : bool :=
  plain_label l && forall_bytes is_ascii_byte l && bool_decide (map_bytes lower_byte l = l).

(** The documentation of the two functions: "CanonicalName returns the domain
    name in canonical form.  A name in canonical form is lowercase and fully
    qualified"; "SplitDomainName splits a name string into its labels. [...]
    The root label (.) returns nil." *)
Class DNSLibLaws `{DNSLib} : Prop := {
  CanonicalName_idem s : CanonicalName (CanonicalName s) = CanonicalName s;
  CanonicalName_label l rest :
    lower_label l = true → rest ≠ "" →
    CanonicalName (l +:+ "." +:+ rest) = l +:+ "." +:+ CanonicalName rest;
  CanonicalName_last l : lower_label l = true → CanonicalName l = l +:+ ".";
  SplitDomainName_last l : plain_label l = true → SplitDomainName (l +:+ ".") = [l];
  SplitDomainName_root : SplitDomainName "." = [];
  SplitDomainName_label l rest :
    plain_label l = true → rest ≠ "" → rest ≠ "." →
    SplitDomainName (l +:+ "." +:+ rest) = l :: SplitDomainName rest;
}.

(** * A concrete instance

    It ignores escapes and is what the examples compute with. *)
Fixpoint ends_with_dot (s : string) : bool :=
  match s with
  | EmptyString => false
  | String c EmptyString => bool_decide (c = "."%char)
  | String _ s => ends_with_dot s
  end.

Definition simple_CanonicalName (s : string) : string :=
  let s := map_bytes lower_byte s in
  if ends_with_dot s then s else s +:+ ".".

Definition simple_SplitDomainName (s : string) : list string :=
  if decide (s = "." ∨ s = "") then []
  else if ends_with_dot s then removelast (Split s ".") else Split s ".".

#[export] Instance simple_dns : DNSLib := {|
  CanonicalName := simple_CanonicalName;
  SplitDomainName := simple_SplitDomainName;
|}.

Lemma plain_label_spec l :
  plain_label l = true → l ≠ "" ∧ has_byte "." l = false ∧ has_byte "\" l = false.
Proof.
  unfold plain_label. rewrite !andb_true_iff, !negb_true_iff, bool_decide_eq_true. tauto.
Qed.

Lemma plain_label_no_end l : plain_label l = true → ends_with_dot l = false.
Proof.
  intros (_ & Hdot & _)%plain_label_spec. induction l as [|c l IH]; [done|].
  cbn in Hdot. apply orb_false_iff in Hdot as [Hc Hdot]. cbn. destruct l; [done|]. by apply IH.
Qed.

(** The instance has the laws. *)
Lemma ends_with_dot_app s1 s2 : s2 ≠ "" → ends_with_dot (s1 +:+ s2) = ends_with_dot s2.
Proof.
  intros Hs2. induction s1 as [|c s1 IH]; cbn; [done|]. rewrite IH.
  destruct (s1 +:+ s2) eqn:Happ; [|done]. by destruct s1, s2.
Qed.

Lemma simple_CanonicalName_cases s :
  simple_CanonicalName s =
    map_bytes lower_byte s +:+ (if ends_with_dot (map_bytes lower_byte s) then "" else ".").
Proof. unfold simple_CanonicalName. destruct (ends_with_dot _); [|done]. by rewrite string_app_nil_r. Qed.

#[export] Instance simple_dns_laws : DNSLibLaws.
Proof.
  split; cbn [CanonicalName SplitDomainName simple_dns].
  - intros s. unfold simple_CanonicalName.
    destruct (ends_with_dot (map_bytes lower_byte s)) eqn:Hd.
    + by rewrite map_lower_idem, Hd.
    + rewrite map_bytes_app, map_lower_idem. cbn.
      by rewrite ends_with_dot_app.
  - intros l rest Hl Hr. unfold lower_label in Hl.
    apply andb_prop in Hl as [_ Hl]. apply bool_decide_eq_true in Hl.
    rewrite !simple_CanonicalName_cases, !map_bytes_app, Hl.
    assert (map_bytes lower_byte rest ≠ "") by (by destruct rest).
    replace (map_bytes lower_byte ".") with "." by reflexivity.
    rewrite string_app_assoc, ends_with_dot_app by done.
    by rewrite !string_app_assoc.
  - intros l Hl. unfold lower_label in Hl.
    apply andb_prop in Hl as [[Hp _]%andb_prop Hl%bool_decide_eq_true].
    rewrite simple_CanonicalName_cases, Hl. by rewrite plain_label_no_end.
  - intros l Hl. unfold simple_SplitDomainName.
    apply plain_label_spec in Hl as (Hne & Hdot & _).
    rewrite decide_False by (destruct l as [|c [|]]; naive_solver).
    rewrite ends_with_dot_app by done.
    replace (ends_with_dot ".") with true by reflexivity.
    change (l +:+ ".") with (l +:+ String "." ""). by rewrite Split_app.
  - reflexivity.
  - intros l rest Hl Hr Hr'. unfold plain_label in Hl.
    apply andb_prop in Hl as [[Hne%bool_decide_eq_true Hdot]%andb_prop _].
    apply negb_true_iff in Hdot. unfold simple_SplitDomainName.
    rewrite (decide_False (P := rest = "." ∨ rest = "")) by naive_solver.
    rewrite decide_False.
    2: { destruct l as [|c l]; [done|]. intros [[= _ Heq]|?]; [|done].
         by destruct l. }
    rewrite string_app_assoc, ends_with_dot_app by done. rewrite <-string_app_assoc.
    change ("." +:+ rest) with (String "." rest). rewrite Split_app by done.
    destruct (ends_with_dot rest); [|done]. cbn.
    destruct (Split rest ".") eqn:Hs; [|done]. by apply Split_not_nil in Hs.
Qed.
