(* ===== verification/Cache.v ===== *)
(** The DNS server's record cache, [pkg/controllers/endpointslicedns/cache.go].

    A Go slice held by the [entries] map is modelled here by its elements;
    every operation runs under the cache's mutex, so it is one step. *)
From S2P Require Import Prelude GoStrings GoNet DNSLib.
#[local] Open Scope string_scope.
#[local] Open Scope list_scope.

Record DNSCacheEntry := mkDNSCacheEntry {
  ResourceKey : string;
  FQDN : string;
  Addresses : list string;
}.

#[global] Instance DNSCacheEntry_eq_dec : EqDecision DNSCacheEntry.
Proof. solve_decision. Defined.

(** Both maps are nil in [new(DNSCache)]. *)
Record DNSCache := mkDNSCache {
  entries : gomap (list DNSCacheEntry);
  resourceKeyToFQDN : gomap string;
  isPopulated : bool;
}.

Definition new_DNSCache : DNSCache := mkDNSCache None None false.

(** [d.entries == nil || d.resourceKeyToFQDN == nil] *)
Definition not_initialised (d : DNSCache) : bool :=
  match entries d, resourceKeyToFQDN d with
  | Some _, Some _ => false
  | _, _ => true
  end.

(** [m[fqdn]] on the map of slices: a missing key reads as the nil slice. *)
Definition bucket (m : gmap string (list DNSCacheEntry)) (fqdn : string)
    : list DNSCacheEntry :=
  default [] (m !! fqdn).

(** The position of the first entry of a slice with the resource key. *)
Fixpoint index_of (key : string) (es : list DNSCacheEntry) : option nat :=
  match es with
  | [] => None
  | e :: es =>
      if decide (ResourceKey e = key) then Some 0 else S <$> index_of key es
  end.

(** [append(es[:i], es[i+1:]...)] *)
Definition remove_at {A : Type} (i : nat) (es : list A) : list A :=
  take i es ++ drop (S i) es.

(** The loop that cuts the entry with [key] out of the slice at [fqdn]: the
    first match is removed, without one the map is left alone. *)
Definition cut_entry (key fqdn : string) (m : gmap string (list DNSCacheEntry))
    : gmap string (list DNSCacheEntry) :=
  match index_of key (bucket m fqdn) with
  | Some i => <[fqdn := remove_at i (bucket m fqdn)]> m
  | None => m
  end.

(** A resource that was filed under another name is taken out there, and a
    name that has no entry left is forgotten. *)
Definition forget_old (key fqdn : string) (keys : gmap string string)
    (m : gmap string (list DNSCacheEntry)) : gmap string (list DNSCacheEntry) :=
  match keys !! key with
  | Some oldFQDN =>
      if decide (oldFQDN ≠ fqdn) then
        let m := cut_entry key oldFQDN m in
        if decide (bucket m oldFQDN = []) then delete oldFQDN m else m
      else m
  | None => m
  end.

(** The address loop of [Upsert]: a non-IP address becomes a canonical name,
    and the entry's FQDN is made canonical once per address. *)
Fixpoint canonicalize `{DNSLib} (addresses : list string) (fqdn : string)
    : list string * string :=
  match addresses with
  | [] => ([], fqdn)
  | address :: rest =>
      let address' := match ParseIP address with
                      | None => CanonicalName address
                      | Some _ => address
                      end in
      let '(rest', fqdn') := canonicalize rest (CanonicalName fqdn) in
      (address' :: rest', fqdn')
  end.

(** The update loop of [Upsert]: the entry with the same key is overwritten in
    place, without one the new entry is appended. *)
Definition put_entry (e : DNSCacheEntry) (es : list DNSCacheEntry) : list DNSCacheEntry :=
  match index_of (ResourceKey e) es with
  | Some i => <[i := e]> es
  | None => es ++ [e]
  end.

Definition Upsert `{DNSLib} (entry : DNSCacheEntry) (d : DNSCache) : DNSCache :=
  let '(es, keys) :=
    if not_initialised d then (∅, ∅)
    else (entries_of (entries d), entries_of (resourceKeyToFQDN d)) in
  let fqdn := CanonicalName (FQDN entry) in
  let es := forget_old (ResourceKey entry) fqdn keys es in
  let '(addresses, entryFQDN) := canonicalize (Addresses entry) (FQDN entry) in
  let entry := mkDNSCacheEntry (ResourceKey entry) entryFQDN addresses in
  let es := <[fqdn := put_entry entry (bucket es fqdn)]> es in
  mkDNSCache (Some es) (Some (<[ResourceKey entry := fqdn]> keys)) (isPopulated d).

Definition Delete `{DNSLib} (fqdn : string) (d : DNSCache) : DNSCache :=
  if not_initialised d then d
  else
    let es := entries_of (entries d) in
    let keys := entries_of (resourceKeyToFQDN d) in
    let fqdn := CanonicalName fqdn in
    let keys := foldl (λ m e, delete (ResourceKey e) m) keys (bucket es fqdn) in
    mkDNSCache (Some (delete fqdn es)) (Some keys) (isPopulated d).

(** The loop of [DeleteByResourceKey].  [es] is what is left of the slice the
    [range] evaluated at its start, [i] the index of its head.  A match cuts the
    entry and breaks out, so the emptiness test below it runs only in iterations
    without a match. *)
Fixpoint delete_loop (resourceKey fqdn : string) (i : nat) (es : list DNSCacheEntry)
    (m : gmap string (list DNSCacheEntry)) : gmap string (list DNSCacheEntry) :=
  match es with
  | [] => m
  | entry :: es =>
      if decide (ResourceKey entry = resourceKey) then
        <[fqdn := remove_at i (bucket m fqdn)]> m
      else
        let m := if decide (bucket m fqdn = []) then delete fqdn m else m in
        delete_loop resourceKey fqdn (S i) es m
  end.

Definition DeleteByResourceKey (resourceKey : string) (d : DNSCache) : DNSCache :=
  if not_initialised d then d
  else
    let es := entries_of (entries d) in
    let keys := entries_of (resourceKeyToFQDN d) in
    match keys !! resourceKey with
    | Some fqdnToUpdate =>
        mkDNSCache
          (Some (delete_loop resourceKey fqdnToUpdate 0 (bucket es fqdnToUpdate) es))
          (Some (delete resourceKey keys)) (isPopulated d)
    | None => d
    end.

(** [fmt.Sprintf("*.%s.", strings.Join(labels[1:], "."))] *)
Definition wildcard_name (labels : list string) : string :=
  "*." +:+ Join labels "." +:+ ".".

(** The wildcard loop of [Lookup]. *)
Fixpoint lookup_wildcard (m : gmap string (list DNSCacheEntry)) (labels : list string)
    : option (list DNSCacheEntry) :=
  match labels with
  | [] => None
  | _ :: rest =>
      match m !! wildcard_name rest with
      | Some e => Some e
      | None => lookup_wildcard m rest
      end
  end.

Definition Lookup `{DNSLib} (fqdn : string) (d : DNSCache) : list DNSCacheEntry :=
  if not_initialised d then []
  else
    let es := entries_of (entries d) in
    let fqdn := CanonicalName fqdn in
    match es !! fqdn with
    | Some e => e
    | None => default [] (lookup_wildcard es (SplitDomainName fqdn))
    end.

Definition LookupByResourceKey (resourceKey : string) (d : DNSCache)
    : option DNSCacheEntry :=
  if not_initialised d then None
  else
    match entries_of (resourceKeyToFQDN d) !! resourceKey with
    | Some fqdn =>
        let es := bucket (entries_of (entries d)) fqdn in
        index_of resourceKey es ≫= λ i, es !! i
    | None => None
    end.

Definition IsPopulated (d : DNSCache) : bool := isPopulated d.

Definition SetPopulated (d : DNSCache) : DNSCache :=
  mkDNSCache (entries d) (resourceKeyToFQDN d) true.

(** The loop of [IsValid] over the addresses of one entry: [None] is the
    early [return false]. *)
Fixpoint valid_addresses (addresses : list string) (addressCount : nat)
    (hasCNAMEEntry : bool) : option (nat * bool) :=
  match addresses with
  | [] => Some (addressCount, hasCNAMEEntry)
  | address :: rest =>
      if hasCNAMEEntry then None
      else match ParseIP address with
           | Some _ => valid_addresses rest (addressCount + 1) hasCNAMEEntry
           | None =>
               if decide (0 < addressCount) then None
               else valid_addresses rest addressCount true
           end
  end.

Fixpoint valid_entries (es : list DNSCacheEntry) (addressCount : nat)
    (hasCNAMEEntry : bool) : bool :=
  match es with
  | [] => true
  | entry :: es =>
      match valid_addresses (Addresses entry) addressCount hasCNAMEEntry with
      | Some (addressCount, hasCNAMEEntry) => valid_entries es addressCount hasCNAMEEntry
      | None => false
      end
  end.

Definition IsValid `{DNSLib} (fqdn : string) (d : DNSCache) : bool :=
  let es := Lookup (CanonicalName fqdn) d in
  if decide (length es = 0) then false else valid_entries es 0 false.
