(* ===== verification/CacheSpec.v ===== *)
(** The contract of the record cache and the proof that [Cache] keeps it.

    Abstractly the cache is a finite map from resource keys to the record the
    resource contributes: the canonical name it is filed under and the entry.
    [cache_inv] is the representation invariant, [abs] the abstraction
    function, and [spec_step] the abstract operations. *)
From S2P Require Import Prelude GoStrings GoNet DNSLib Cache.
#[local] Open Scope string_scope.
#[local] Open Scope list_scope.

(** * Definitions *)

Abbreviation buckets := (gmap string (list DNSCacheEntry)).
Abbreviation keys_of := (fmap ResourceKey).

(** The entry with a resource key in a slice. *)
Definition find_entry (key : string) (es : list DNSCacheEntry) : option DNSCacheEntry :=
  index_of key es ≫= λ i, es !! i.

(** An address as the cache stores it: an IP, or a canonical host name. *)
Definition stored_address `{DNSLib} (a : string) : Prop :=
  is_ip a = true ∨ CanonicalName a = a.

(** Two maps of slices that read alike at every name: an empty slice and a
    missing one do not differ. *)
Definition same_buckets (E E' : buckets) : Prop := ∀ f, bucket E f = bucket E' f.

(** The invariant that links the two maps: no key occurs twice in a slice, an
    entry sits in the slice its key points at, and every key has its entry. *)
Record maps_inv `{DNSLib} (E : buckets) (K : gmap string string) : Prop := {
  inv_nodup f : NoDup (keys_of (bucket E f));
  inv_key f e : e ∈ bucket E f → K !! ResourceKey e = Some f;
  inv_entry k f : K !! k = Some f → ∃ e, e ∈ bucket E f ∧ ResourceKey e = k;
  inv_fqdn f e : e ∈ bucket E f → CanonicalName (FQDN e) = f;
  inv_addresses f e : e ∈ bucket E f → Forall stored_address (Addresses e);
}.

Definition cache_inv `{DNSLib} (d : DNSCache) : Prop :=
  (entries d = None ↔ resourceKeyToFQDN d = None) ∧
  maps_inv (entries_of (entries d)) (entries_of (resourceKeyToFQDN d)).

(** No name is left with an empty slice. *)
Definition no_empty_bucket (d : DNSCache) : Prop :=
  ∀ f, entries_of (entries d) !! f ≠ Some [].

(** ** The abstract cache *)

Abbreviation records := (gmap string (string * DNSCacheEntry)).

Definition abs (d : DNSCache) : records :=
  map_imap (λ k f, (λ e, (f, e)) <$> find_entry k (bucket (entries_of (entries d)) f))
           (entries_of (resourceKeyToFQDN d)).

(** The canonical form of an entry: what an [Upsert] stores. *)
Definition canonical_address `{DNSLib} (a : string) : string :=
  if is_ip a then a else CanonicalName a.

Definition canonical_entry `{DNSLib} (e : DNSCacheEntry) : DNSCacheEntry :=
  mkDNSCacheEntry (ResourceKey e)
    (if decide (Addresses e = []) then FQDN e else CanonicalName (FQDN e))
    (canonical_address <$> Addresses e).

Inductive cache_op :=
  | OpUpsert (e : DNSCacheEntry)
  | OpDelete (fqdn : string)
  | OpDeleteByResourceKey (key : string)
  | OpSetPopulated.

Definition run_op `{DNSLib} (op : cache_op) (d : DNSCache) : DNSCache :=
  match op with
  | OpUpsert e => Upsert e d
  | OpDelete fqdn => Delete fqdn d
  | OpDeleteByResourceKey key => DeleteByResourceKey key d
  | OpSetPopulated => SetPopulated d
  end.

Definition spec_step `{DNSLib} (op : cache_op) (r : records) : records :=
  match op with
  | OpUpsert e =>
      <[ResourceKey e := (CanonicalName (FQDN e), canonical_entry e)]> r
  | OpDelete fqdn => filter (λ kv, kv.2.1 ≠ CanonicalName fqdn) r
  | OpDeleteByResourceKey key => delete key r
  | OpSetPopulated => r
  end.

(** The operations a goroutine can interleave, each atomic under the mutex. *)
Inductive cache_step `{DNSLib} : DNSCache → DNSCache → Prop :=
  | do_op op d : cache_step d (run_op op d).

Definition reachable `{DNSLib} (d : DNSCache) : Prop := rtc cache_step new_DNSCache d.

(** The entries of the records filed under a name. *)
Definition records_at (f : string) (r : records) : list DNSCacheEntry :=
  (λ kv, kv.2.2) <$> map_to_list (filter (λ kv, kv.2.1 = f) r).

(** The names [Lookup] tries for a query, nearest first: the name itself, then
    the wildcards of its suffixes, down to [*..]. *)
Fixpoint wildcards (labels : list string) : list string :=
  match labels with
  | [] => []
  | _ :: rest => wildcard_name rest :: wildcards rest
  end.

Definition candidates `{DNSLib} (q : string) : list string :=
  CanonicalName q :: wildcards (SplitDomainName (CanonicalName q)).

(** What a lookup promises: the records of the nearest candidate that has any. *)
Definition spec_lookup `{DNSLib} (q : string) (r : records) : list DNSCacheEntry :=
  default [] (head (omap (λ n, let es := records_at n r in
                               if decide (es = []) then None else Some es)
                         (candidates q))).

Definition run_ops `{DNSLib} (ops : list cache_op) : DNSCache :=
  foldl (λ d op, run_op op d) new_DNSCache ops.

Definition spec_run `{DNSLib} (ops : list cache_op) : records :=
  foldl (λ r op, spec_step op r) ∅ ops.

(** * Slices as lists with unique keys *)

Lemma index_of_Some key es i :
  index_of key es = Some i → ∃ e, es !! i = Some e ∧ ResourceKey e = key.
Proof.
  revert i. induction es as [|e es IH]; intros i; [done|]. cbn.
  case_decide; [naive_solver|]. destruct (index_of key es) as [j|]; [|done].
  intros [= <-]. cbn. auto.
Qed.

Lemma index_of_None key es : index_of key es = None ↔ key ∉ keys_of es.
Proof.
  induction es as [|e es IH]; cbn.
  { split; [intros _; apply not_elem_of_nil|done]. }
  rewrite not_elem_of_cons, <-IH. case_decide; [naive_solver congruence|].
  destruct (index_of key es); naive_solver congruence.
Qed.

Lemma index_of_elem key es : key ∈ keys_of es → ∃ i, index_of key es = Some i.
Proof.
  intros Hin. destruct (index_of key es) eqn:Hi; [eauto|].
  by apply index_of_None in Hi.
Qed.

Lemma remove_at_perm {A : Type} (i : nat) (es : list A) (e : A) :
  es !! i = Some e → es ≡ₚ e :: remove_at i es.
Proof. intros Hi. unfold remove_at. by rewrite <-delete_take_drop, <-delete_Permutation. Qed.

Lemma find_entry_spec key es e :
  NoDup (keys_of es) → find_entry key es = Some e ↔ e ∈ es ∧ ResourceKey e = key.
Proof.
  unfold find_entry. induction es as [|e' es IH]; cbn; intros Hnd.
  { split; [done|]. by intros [?%not_elem_of_nil _]. }
  apply NoDup_cons in Hnd as [Hni Hnd]. specialize (IH Hnd). rewrite elem_of_cons.
  case_decide as Hk; cbn.
  - split; [naive_solver|]. intros [[->|Hin] <-]; [done|].
    exfalso. apply Hni. rewrite Hk. by apply list_elem_of_fmap_2.
  - destruct (index_of key es) as [j|] eqn:Hj; cbn in *; rewrite IH; naive_solver.
Qed.

(** Cutting by key out of a slice with unique keys. *)
Lemma elem_of_remove_at key es i e :
  NoDup (keys_of es) → index_of key es = Some i →
  e ∈ remove_at i es ↔ e ∈ es ∧ ResourceKey e ≠ key.
Proof.
  intros Hnd (e0 & Hi & Hk)%index_of_Some.
  pose proof (remove_at_perm i es e0 Hi) as Hp.
  assert (e ∈ es ↔ e = e0 ∨ e ∈ remove_at i es) as -> by (by rewrite <-elem_of_cons, <-Hp).
  rewrite Hp in Hnd. cbn in Hnd. apply NoDup_cons in Hnd as [Hni _].
  split; [intros Hin|naive_solver]. split; [by right|].
  intros He. apply Hni. rewrite Hk, <-He. by apply list_elem_of_fmap_2.
Qed.

Lemma NoDup_remove_at es i : NoDup (keys_of es) → NoDup (keys_of (remove_at i es)).
Proof.
  intros Hnd. destruct (es !! i) as [e|] eqn:Hi.
  - rewrite (remove_at_perm i es e Hi) in Hnd. cbn in Hnd. by apply NoDup_cons in Hnd as [_ ?].
  - apply lookup_ge_None in Hi. unfold remove_at.
    by rewrite take_ge, drop_ge, app_nil_r by lia.
Qed.

Lemma put_entry_keys e es :
  keys_of (put_entry e es) =
    match index_of (ResourceKey e) es with
    | Some _ => keys_of es
    | None => keys_of es ++ [ResourceKey e]
    end.
Proof.
  unfold put_entry. destruct (index_of _ es) as [i|] eqn:Hi; [|by rewrite fmap_app].
  apply index_of_Some in Hi as (e0 & Hi & Hk). rewrite list_fmap_insert, <-Hk.
  apply list_insert_id. by rewrite list_lookup_fmap, Hi.
Qed.

Lemma NoDup_put_entry e es : NoDup (keys_of es) → NoDup (keys_of (put_entry e es)).
Proof.
  intros Hnd. rewrite put_entry_keys. destruct (index_of _ es) eqn:Hi; [done|].
  apply index_of_None in Hi. apply NoDup_app. split_and!; [done| |apply NoDup_singleton].
  by intros k Hk ->%list_elem_of_singleton.
Qed.

Lemma elem_of_put_entry e es e' :
  NoDup (keys_of es) →
  e' ∈ put_entry e es ↔ e' = e ∨ (e' ∈ es ∧ ResourceKey e' ≠ ResourceKey e).
Proof.
  intros Hnd. unfold put_entry. destruct (index_of _ es) as [i|] eqn:Hi.
  - pose proof (elem_of_remove_at _ _ _ e' Hnd Hi) as Hrem.
    apply index_of_Some in Hi as (e0 & Hi & Hk). rewrite <-Hrem.
    assert (i < length es) as Hlt by (by apply lookup_lt_Some in Hi).
    rewrite insert_take_drop by done. unfold remove_at.
    rewrite !elem_of_app, elem_of_cons. tauto.
  - apply index_of_None in Hi. rewrite elem_of_app, list_elem_of_singleton.
    split; [|tauto]. intros [Hin|?]; [|by left]. right. split; [done|].
    intros He. apply Hi. rewrite <-He. by apply list_elem_of_fmap_2.
Qed.

Lemma put_entry_not_nil e es : put_entry e es ≠ [].
Proof.
  unfold put_entry. destruct (index_of _ es) as [i|] eqn:Hi; intros Hnil.
  - apply index_of_Some in Hi as (e' & Hi & _). apply (f_equal length) in Hnil.
    rewrite length_insert in Hnil. apply lookup_lt_Some in Hi. cbn in Hnil. lia.
  - by apply app_nil in Hnil as [_ ?].
Qed.

(** * The maps of slices *)

Lemma bucket_insert (m : buckets) f es g :
  bucket (<[f := es]> m) g = if decide (f = g) then es else bucket m g.
Proof. unfold bucket. rewrite lookup_insert. by case_decide. Qed.

Lemma bucket_delete (m : buckets) f g :
  bucket (delete f m) g = if decide (f = g) then [] else bucket m g.
Proof. unfold bucket. rewrite lookup_delete. by case_decide. Qed.

Lemma bucket_drop_empty (m : buckets) f g :
  bucket (if decide (bucket m f = []) then delete f m else m) g = bucket m g.
Proof. case_decide; [|done]. rewrite bucket_delete. by case_decide; subst. Qed.

Lemma bucket_cut_entry key f (m : buckets) g :
  bucket (cut_entry key f m) g =
    if decide (f = g) then
      match index_of key (bucket m f) with
      | Some i => remove_at i (bucket m f)
      | None => bucket m f
      end
    else bucket m g.
Proof.
  unfold cut_entry. destruct (index_of _ _); [apply bucket_insert|]. by case_decide; subst.
Qed.

(** The emptiness test in the loop of [DeleteByResourceKey] never fires: the
    loop does what the plain cut does. *)
Lemma delete_loop_cut key f i es (m : buckets) :
  es = drop i (bucket m f) →
  delete_loop key f i es m =
    match index_of key es with
    | Some j => <[f := remove_at (i + j) (bucket m f)]> m
    | None => m
    end.
Proof.
  revert i. induction es as [|e es IH]; intros i Hes; cbn; [done|].
  case_decide; [by rewrite Nat.add_0_r|].
  rewrite decide_False by (intros Hnil; by rewrite Hnil, drop_nil in Hes).
  rewrite IH by (by rewrite <-Nat.add_1_r, <-drop_drop, <-Hes).
  destruct (index_of key es) as [j|]; cbn; [|done]. by rewrite Nat.add_succ_r.
Qed.

Lemma delete_loop_is_cut key f (m : buckets) :
  delete_loop key f 0 (bucket m f) m = cut_entry key f m.
Proof. rewrite delete_loop_cut by done. unfold cut_entry. by destruct (index_of _ _). Qed.

Lemma delete_keys_lookup es (K : gmap string string) k :
  foldl (λ m e, delete (ResourceKey e) m) K es !! k =
    if decide (k ∈ keys_of es) then None else K !! k.
Proof.
  revert K. induction es as [|e es IH]; intros K; cbn.
  { rewrite decide_False; [done|apply not_elem_of_nil]. }
  rewrite IH, lookup_delete. repeat case_decide; set_solver.
Qed.

(** * The invariant *)

Section laws.
Context `{DNSLibLaws}.

Lemma maps_inv_empty : maps_inv ∅ ∅.
Proof.
  split; unfold bucket; intros; rewrite ?lookup_empty in *; cbn in *;
    try done; try (by apply NoDup_nil); set_solver.
Qed.

(** Removing everything filed under a key. *)
Lemma maps_inv_remove (E E' : buckets) K key :
  maps_inv E K →
  (∀ g, NoDup (keys_of (bucket E' g))) →
  (∀ g e, e ∈ bucket E' g ↔ e ∈ bucket E g ∧ ResourceKey e ≠ key) →
  maps_inv E' (delete key K).
Proof.
  intros HI Hnd Hmem. split; [done|..].
  - intros f e [Hin Hne]%Hmem. rewrite lookup_delete_ne by done. by apply HI.
  - intros k f [Hne HK]%lookup_delete_Some. apply HI in HK as (e & Hin & <-).
    exists e. by rewrite Hmem.
  - intros f e [Hin _]%Hmem. by apply HI.
  - intros f e [Hin _]%Hmem. by eapply inv_addresses.
Qed.

Lemma elem_of_cut_entry (E : buckets) K key f g e :
  maps_inv E K → K !! key = Some f →
  e ∈ bucket (cut_entry key f E) g ↔ e ∈ bucket E g ∧ ResourceKey e ≠ key.
Proof.
  intros HI HK. rewrite bucket_cut_entry. case_decide as Hfg.
  - subst g. destruct (index_of key _) eqn:Hi.
    + by apply elem_of_remove_at; [apply HI|].
    + apply index_of_None in Hi. split; [|naive_solver]. intros Hin. split; [done|].
      intros <-. apply Hi. by apply list_elem_of_fmap_2.
  - split; [|naive_solver]. intros Hin. split; [done|]. intros <-.
    apply HI in Hin. congruence.
Qed.

Lemma NoDup_cut_entry (E : buckets) K key f g :
  maps_inv E K → NoDup (keys_of (bucket (cut_entry key f E) g)).
Proof.
  intros HI. rewrite bucket_cut_entry. case_decide; [|apply HI].
  destruct (index_of _ _); [apply NoDup_remove_at|]; apply HI.
Qed.

Lemma maps_inv_cut (E : buckets) K key f :
  maps_inv E K → K !! key = Some f → maps_inv (cut_entry key f E) (delete key K).
Proof.
  intros HI HK. eapply maps_inv_remove; [done| |].
  - intros g. by eapply NoDup_cut_entry.
  - intros g e. by eapply elem_of_cut_entry.
Qed.

(** Filing an entry under its name. *)
Lemma elem_of_file_entry (E : buckets) K e f g e' :
  maps_inv E K → (∀ g, K !! ResourceKey e = Some g → g = f) →
  e' ∈ bucket (<[f := put_entry e (bucket E f)]> E) g ↔
  (g = f ∧ e' = e) ∨ (e' ∈ bucket E g ∧ ResourceKey e' ≠ ResourceKey e).
Proof.
  intros HI HK. rewrite bucket_insert. case_decide as Hfg.
  - subst g. rewrite elem_of_put_entry by apply HI. naive_solver.
  - split; [|naive_solver]. intros Hin. right. split; [done|]. intros Heq.
    apply HI in Hin. rewrite Heq in Hin. apply HK in Hin. congruence.
Qed.

Lemma maps_inv_file (E : buckets) K e f :
  maps_inv E K → (∀ g, K !! ResourceKey e = Some g → g = f) →
  CanonicalName (FQDN e) = f → Forall stored_address (Addresses e) →
  maps_inv (<[f := put_entry e (bucket E f)]> E) (<[ResourceKey e := f]> K).
Proof.
  intros HI HK Hf Ha.
  pose proof (λ g e', elem_of_file_entry E K e f g e' HI HK) as Hmem. split.
  - intros g. rewrite bucket_insert. case_decide; [apply NoDup_put_entry|]; apply HI.
  - intros g e' [[-> ->]|[Hin Hne]]%Hmem; [apply lookup_insert_eq|].
    rewrite lookup_insert_ne by done. by apply HI.
  - intros k g [[<- <-]|[Hne HK']]%lookup_insert_Some.
    + exists e. split; [|done]. apply Hmem; auto.
    + apply HI in HK' as (e' & Hin & <-). exists e'. split; [|done]. apply Hmem; auto.
  - intros g e' [[-> ->]|[Hin _]]%Hmem; [done|by apply HI].
  - intros g e' [[-> ->]|[Hin _]]%Hmem; [done|by eapply inv_addresses].
Qed.

#[local] Instance same_buckets_equiv : Equivalence same_buckets.
Proof.
  split; unfold same_buckets; [done|intros E1 E2 Heq f; by rewrite Heq|].
  intros E1 E2 E3 H12 H23 f. by rewrite H12.
Qed.

(** The invariant does not see empty slices. *)
#[local] Instance maps_inv_proper : Proper (same_buckets ==> eq ==> iff) maps_inv.
Proof.
  assert (∀ E E' K, same_buckets E E' → maps_inv E K → maps_inv E' K) as Himp.
  { intros E E' K Heq [H1 H2 H3 H4 H5].
    split; [intros f|intros f e|intros k f|intros f e..]; rewrite <-?Heq; eauto. }
  intros E E' Heq K ? <-. split; apply Himp; [done|]. by symmetry.
Qed.

Lemma canonicalize_spec addresses f :
  canonicalize addresses f =
    (canonical_address <$> addresses,
     if decide (addresses = []) then f else CanonicalName f).
Proof.
  revert f. induction addresses as [|a rest IH]; intros f; [done|]. cbn.
  rewrite IH. rewrite CanonicalName_idem. f_equal; [|by repeat case_decide].
  f_equal. unfold canonical_address, is_ip. destruct (ParseIP a); [|done].
  by rewrite bool_decide_true by eauto.
Qed.

Lemma canonical_address_stored a : stored_address (canonical_address a).
Proof.
  unfold stored_address, canonical_address. destruct (is_ip a) eqn:Ha; [by left|].
  right. apply CanonicalName_idem.
Qed.

Lemma canonical_entry_stored e : Forall stored_address (Addresses (canonical_entry e)).
Proof. cbn. apply Forall_fmap, Forall_true. intros a. apply canonical_address_stored. Qed.

Lemma canonical_entry_fqdn e :
  CanonicalName (FQDN (canonical_entry e)) = CanonicalName (FQDN e).
Proof. cbn. case_decide; [done|]. apply CanonicalName_idem. Qed.

(** Taking a resource out of the name it was filed under before. *)
Lemma forget_old_spec (E : buckets) K key f :
  maps_inv E K →
  ∃ K', maps_inv (forget_old key f K E) K' ∧
    (∀ g, K' !! key = Some g → g = f) ∧ <[key := f]> K' = <[key := f]> K ∧
    (∀ g e, ResourceKey e ≠ key → e ∈ bucket (forget_old key f K E) g ↔ e ∈ bucket E g).
Proof.
  intros HI. unfold forget_old. destruct (K !! key) as [old|] eqn:HK.
  2: { exists K. split_and!; [done|congruence|done|done]. }
  case_decide as Hne.
  2: { exists K. split_and!; [done|naive_solver|done|done]. }
  exists (delete key K). split_and!.
  - eapply maps_inv_proper; [intros g; apply bucket_drop_empty|done|].
    by apply maps_inv_cut.
  - intros g. by rewrite lookup_delete_eq.
  - apply insert_delete_eq.
  - intros g e He. cbv zeta. rewrite bucket_drop_empty. rewrite elem_of_cut_entry by done. tauto.
Qed.

(** * The operations keep the invariant *)

Lemma not_initialised_empty d :
  (entries d = None ↔ resourceKeyToFQDN d = None) → not_initialised d = true →
  entries_of (entries d) = ∅ ∧ entries_of (resourceKeyToFQDN d) = ∅.
Proof.
  unfold not_initialised, entries_of.
  destruct (entries d), (resourceKeyToFQDN d); naive_solver.
Qed.

(** [Upsert] without its initialisation and address loops. *)
Lemma Upsert_unfold e d :
  cache_inv d →
  let f := CanonicalName (FQDN e) in
  let E := forget_old (ResourceKey e) f (entries_of (resourceKeyToFQDN d))
             (entries_of (entries d)) in
  Upsert e d =
    mkDNSCache (Some (<[f := put_entry (canonical_entry e) (bucket E f)]> E))
      (Some (<[ResourceKey e := f]> (entries_of (resourceKeyToFQDN d)))) (isPopulated d).
Proof.
  intros [Hnil _] f E. unfold Upsert. rewrite canonicalize_spec.
  destruct (not_initialised d) eqn:Hn; [|done].
  destruct (not_initialised_empty d Hnil Hn) as [HE HK].
  unfold E. by rewrite HE, HK.
Qed.

Lemma Upsert_inv e d : cache_inv d → cache_inv (Upsert e d).
Proof.
  intros HI. rewrite Upsert_unfold by done. split; [done|]. cbn.
  destruct HI as [_ HI].
  destruct (forget_old_spec _ _ (ResourceKey e) (CanonicalName (FQDN e)) HI)
    as (K' & HI' & HK' & <- & _).
  apply (maps_inv_file _ _ (canonical_entry e)); [done|done| |].
  - apply canonical_entry_fqdn.
  - apply canonical_entry_stored.
Qed.

Lemma elem_of_Upsert e d g e' :
  cache_inv d →
  e' ∈ bucket (entries_of (entries (Upsert e d))) g ↔
  (g = CanonicalName (FQDN e) ∧ e' = canonical_entry e) ∨
  (e' ∈ bucket (entries_of (entries d)) g ∧ ResourceKey e' ≠ ResourceKey e).
Proof.
  intros HI. rewrite Upsert_unfold by done. destruct HI as [_ HI]. cbn.
  destruct (forget_old_spec _ _ (ResourceKey e) (CanonicalName (FQDN e)) HI)
    as (K' & HI' & HK' & _ & Hmem).
  rewrite (elem_of_file_entry _ _ (canonical_entry e) _ _ _ HI' HK').
  cbn. naive_solver.
Qed.

Lemma Delete_inv fqdn d : cache_inv d → cache_inv (Delete fqdn d).
Proof.
  intros [Hnil HI]. unfold Delete. destruct (not_initialised d); [done|].
  split; [done|]. cbn. split.
  - intros f. rewrite bucket_delete. case_decide; [by apply NoDup_nil|apply HI].
  - intros f e. rewrite bucket_delete, delete_keys_lookup.
    case_decide as Hf; [by intros ?%not_elem_of_nil|]. intros Hin.
    apply HI in Hin as HK. rewrite decide_False; [done|].
    intros (e' & Heq & Hin')%list_elem_of_fmap. apply HI in Hin'. congruence.
  - intros k f. rewrite delete_keys_lookup. case_decide as Hk; [done|]. intros HK.
    apply HI in HK as (e & Hin & <-). exists e. split; [|done]. rewrite bucket_delete.
    case_decide; [|done]. subst f. exfalso. apply Hk. by apply list_elem_of_fmap_2.
  - intros f e. rewrite bucket_delete. case_decide; [by intros ?%not_elem_of_nil|apply HI].
  - intros f e. rewrite bucket_delete. case_decide; [by intros ?%not_elem_of_nil|].
    by eapply inv_addresses.
Qed.

Lemma elem_of_Delete fqdn d g e :
  cache_inv d →
  e ∈ bucket (entries_of (entries (Delete fqdn d))) g ↔
  e ∈ bucket (entries_of (entries d)) g ∧ g ≠ CanonicalName fqdn.
Proof.
  intros [Hnil HI]. unfold Delete. destruct (not_initialised d) eqn:Hn.
  - destruct (not_initialised_empty d Hnil Hn) as [-> _]. unfold bucket.
    rewrite lookup_empty. cbn. set_solver.
  - cbn. rewrite bucket_delete. case_decide; [|naive_solver].
    split; [by intros ?%not_elem_of_nil|naive_solver].
Qed.

Lemma DeleteByResourceKey_inv key d : cache_inv d → cache_inv (DeleteByResourceKey key d).
Proof.
  intros [Hnil HI]. unfold DeleteByResourceKey. destruct (not_initialised d); [done|].
  destruct (_ !! key) as [f|] eqn:HK; [|done]. split; [done|]. cbn.
  rewrite delete_loop_is_cut. by apply maps_inv_cut.
Qed.

Lemma elem_of_DeleteByResourceKey key d g e :
  cache_inv d →
  e ∈ bucket (entries_of (entries (DeleteByResourceKey key d))) g ↔
  e ∈ bucket (entries_of (entries d)) g ∧ ResourceKey e ≠ key.
Proof.
  intros [Hnil HI]. unfold DeleteByResourceKey. destruct (not_initialised d) eqn:Hn.
  - destruct (not_initialised_empty d Hnil Hn) as [-> _]. unfold bucket.
    rewrite lookup_empty. cbn. set_solver.
  - destruct (_ !! key) as [f|] eqn:HK; cbn.
    + rewrite delete_loop_is_cut. by apply elem_of_cut_entry with (1 := HI).
    + split; [|naive_solver]. intros Hin. split; [done|]. intros <-.
      apply HI in Hin. congruence.
Qed.

Lemma new_DNSCache_inv : cache_inv new_DNSCache.
Proof. split; [done|]. apply maps_inv_empty. Qed.

Lemma run_op_inv op d : cache_inv d → cache_inv (run_op op d).
Proof.
  destruct op; cbn; auto using Upsert_inv, Delete_inv, DeleteByResourceKey_inv.
Qed.

Lemma reachable_inv d : reachable d → cache_inv d.
Proof.
  unfold reachable. intros Hr. remember new_DNSCache as d0 eqn:Hd0.
  assert (cache_inv d0) as HI by (subst; apply new_DNSCache_inv). clear Hd0.
  induction Hr as [|d0 d1 d2 Hs _ IH]; [done|]. apply IH. destruct Hs. by apply run_op_inv.
Qed.

Lemma run_ops_reachable ops : reachable (run_ops ops).
Proof.
  unfold reachable, run_ops. generalize new_DNSCache.
  induction ops as [|op ops IH]; intros d; cbn; [done|].
  eapply rtc_l; [constructor|apply IH].
Qed.

(** * The abstraction *)

Lemma abs_lookup d k f e :
  cache_inv d →
  abs d !! k = Some (f, e) ↔
  e ∈ bucket (entries_of (entries d)) f ∧ ResourceKey e = k.
Proof.
  intros [_ HI]. unfold abs. rewrite map_lookup_imap. split.
  - intros (f' & HK & (e' & He & [= -> ->])%fmap_Some)%bind_Some.
    apply find_entry_spec in He; [done|apply HI].
  - intros [Hin <-]. apply HI in Hin as HK. rewrite HK. cbn.
    pose proof (find_entry_spec (ResourceKey e) _ e (inv_nodup _ _ HI f)) as Hf.
    by rewrite (proj2 Hf (conj Hin eq_refl)).
Qed.

Lemma abs_ext d r :
  cache_inv d →
  (∀ k f e, r !! k = Some (f, e) ↔
            e ∈ bucket (entries_of (entries d)) f ∧ ResourceKey e = k) →
  abs d = r.
Proof.
  intros HI Hr. apply map_eq. intros k. apply option_eq. intros [f e].
  by rewrite abs_lookup, Hr.
Qed.

Lemma run_op_refines op d : cache_inv d → abs (run_op op d) = spec_step op (abs d).
Proof.
  intros HI. pose proof (run_op_inv op d HI) as HI'.
  apply abs_ext; [done|]. intros k f e. destruct op as [e0|f0|k0|]; cbn [run_op spec_step].
  - rewrite elem_of_Upsert, lookup_insert_Some, abs_lookup by done. cbn.
    split; [|naive_solver].
    intros [[<- [= <- <-]]|[Hne [Hin <-]]]; [by split; [left|]|]. split; [right|done].
    split; [done|congruence].
  - rewrite elem_of_Delete, map_lookup_filter_Some, abs_lookup by done. cbn. naive_solver.
  - rewrite elem_of_DeleteByResourceKey, lookup_delete_Some, abs_lookup by done. naive_solver.
  - rewrite abs_lookup by done. done.
Qed.

Lemma run_ops_refines ops : abs (run_ops ops) = spec_run ops.
Proof.
  unfold run_ops, spec_run.
  assert (abs new_DNSCache = ∅) as <- by done.
  pose proof new_DNSCache_inv as HI. revert HI. generalize new_DNSCache.
  induction ops as [|op ops IH]; intros d HI; cbn; [done|].
  rewrite IH by (by apply run_op_inv). by rewrite run_op_refines.
Qed.

Lemma LookupByResourceKey_abs key d :
  cache_inv d → LookupByResourceKey key d = snd <$> abs d !! key.
Proof.
  intros [Hnil HI]. unfold LookupByResourceKey, abs. rewrite map_lookup_imap.
  destruct (not_initialised d) eqn:Hn.
  - destruct (not_initialised_empty d Hnil Hn) as [_ ->]. by rewrite lookup_empty.
  - destruct (_ !! key) as [f|] eqn:HK; [|done]. cbn. unfold find_entry.
    destruct (index_of _ _) as [i|]; [|done]. cbn. by destruct (_ !! i).
Qed.

Lemma NoDup_bucket d f : cache_inv d → NoDup (bucket (entries_of (entries d)) f).
Proof. intros [_ HI]. eapply NoDup_fmap_1. apply (inv_nodup _ _ HI f). Qed.

Lemma NoDup_records_at f d : cache_inv d → NoDup (records_at f (abs d)).
Proof.
  intros HI. apply (NoDup_fmap_1 ResourceKey). unfold records_at.
  rewrite <-list_fmap_compose.
  erewrite list_fmap_ext; [apply NoDup_fst_map_to_list|]. 
  intros i [k [f' e]] Hi. cbn. apply list_elem_of_lookup_2, elem_of_map_to_list in Hi.
  apply map_lookup_filter_Some in Hi as [Hi _]. apply abs_lookup in Hi; [naive_solver|done].
Qed.

Lemma elem_of_records_at f d e :
  cache_inv d → e ∈ records_at f (abs d) ↔ e ∈ bucket (entries_of (entries d)) f.
Proof.
  intros HI. unfold records_at. rewrite list_elem_of_fmap. split.
  - intros ([k [f' e']] & -> & Hi). apply elem_of_map_to_list, map_lookup_filter_Some in Hi.
    cbn in *. destruct Hi as [Hi ->]. by apply abs_lookup in Hi as [? _].
  - intros Hin. exists (ResourceKey e, (f, e)). split; [done|].
    apply elem_of_map_to_list, map_lookup_filter_Some. split; [|done].
    by apply abs_lookup.
Qed.

Lemma bucket_records_at f d :
  cache_inv d → bucket (entries_of (entries d)) f ≡ₚ records_at f (abs d).
Proof.
  intros HI. apply NoDup_Permutation; [by apply NoDup_bucket|by apply NoDup_records_at|].
  intros e. by rewrite elem_of_records_at.
Qed.

(** * Lookups *)

Lemma lookup_wildcard_spec (m : buckets) labels :
  lookup_wildcard m labels = head (omap (λ n, m !! n) (wildcards labels)).
Proof.
  induction labels as [|l rest IH]; cbn; [done|].
  destruct (m !! wildcard_name rest); [done|apply IH].
Qed.

(** [Lookup] returns the slice of the first candidate the map has. *)
Lemma Lookup_candidates q d :
  cache_inv d →
  Lookup q d = default [] (head (omap (λ n, entries_of (entries d) !! n) (candidates q))).
Proof.
  intros [Hnil _]. unfold Lookup. destruct (not_initialised d) eqn:Hn.
  - destruct (not_initialised_empty d Hnil Hn) as [-> _].
    by induction (candidates q).
  - rewrite lookup_wildcard_spec. cbn. by destruct (_ !! CanonicalName q).
Qed.

Lemma head_omap_split {A B : Type} (g : A → option B) l b :
  head (omap g l) = Some b →
  ∃ l1 a l2, l = l1 ++ a :: l2 ∧ g a = Some b ∧ Forall (λ x, g x = None) l1.
Proof.
  induction l as [|x l IH]; cbn; [done|]. destruct (g x) as [b'|] eqn:Hg; cbn.
  - intros [= ->]. exists [], x, l. by split_and!.
  - intros (l1 & a & l2 & -> & Ha & Hl)%IH. exists (x :: l1), a, l2.
    split_and!; [done|done|by constructor].
Qed.

Lemma head_omap_intro {A B : Type} (g : A → option B) l1 a l2 b :
  g a = Some b → Forall (λ x, g x = None) l1 → head (omap g (l1 ++ a :: l2)) = Some b.
Proof. intros Ha. induction 1 as [|x l Hx _ IH]; cbn; [by rewrite Ha|]. by rewrite Hx. Qed.

(** Without empty slices in the map, a lookup keeps its promise. *)
Lemma Lookup_refines q d :
  cache_inv d → no_empty_bucket d → Lookup q d ≡ₚ spec_lookup q (abs d).
Proof.
  intros HI Hne. rewrite Lookup_candidates by done. unfold spec_lookup.
  induction (candidates q) as [|n l IH]; [done|]. cbn.
  pose proof (bucket_records_at n d HI) as Hp. unfold bucket in Hp.
  destruct (_ !! n) as [es|] eqn:Hn; cbn in Hp.
  - case_decide as Hr; cbn; [|done]. rewrite Hr in Hp.
    apply Permutation_nil_r in Hp. subst es. by apply Hne in Hn.
  - apply Permutation_nil_l in Hp. by rewrite decide_True.
Qed.

Lemma no_empty_Upsert e d :
  cache_inv d → no_empty_bucket d → no_empty_bucket (Upsert e d).
Proof.
  intros HI Hne g. rewrite Upsert_unfold by done. cbn. rewrite lookup_insert_Some.
  intros [[_ Hnil]|[_ Hg]]; [by apply put_entry_not_nil in Hnil|].
  revert Hg. unfold forget_old. destruct (_ !! ResourceKey e) as [old|]; [|apply Hne].
  case_decide; [|apply Hne]. cbv zeta. case_decide as Hb.
  - rewrite lookup_delete_Some. unfold cut_entry. destruct (index_of _ _).
    + intros [Hold Hg]. rewrite lookup_insert_ne in Hg by done. by apply Hne in Hg.
    + intros [_ Hg]. by apply Hne in Hg.
  - unfold bucket in Hb. destruct (decide (old = g)) as [->|Hog].
    + intros Hg. by rewrite Hg in Hb.
    + unfold cut_entry. destruct (index_of _ _); [rewrite lookup_insert_ne by done|]; apply Hne.
Qed.

Lemma no_empty_Delete f d : no_empty_bucket d → no_empty_bucket (Delete f d).
Proof.
  intros Hne g. unfold Delete. destruct (not_initialised d); [apply Hne|]. cbn.
  intros [_ Hg]%lookup_delete_Some. by apply Hne in Hg.
Qed.

(** [DeleteByResourceKey] of the last entry of a name leaves the name behind
    with an empty slice. *)
Lemma DeleteByResourceKey_leaves_empty key f e d :
  cache_inv d → bucket (entries_of (entries d)) f = [e] → ResourceKey e = key →
  entries_of (entries (DeleteByResourceKey key d)) !! f = Some [].
Proof.
  intros [Hnil HI] Hb <-. assert (e ∈ bucket (entries_of (entries d)) f) as Hin
    by (rewrite Hb; by constructor).
  apply HI in Hin as HK. unfold DeleteByResourceKey.
  destruct (not_initialised d) eqn:Hn.
  { destruct (not_initialised_empty d Hnil Hn) as [HE _]. by rewrite HE in Hb. }
  rewrite HK. cbn. rewrite delete_loop_is_cut. unfold cut_entry. rewrite Hb. cbn.
  rewrite decide_True by done. apply lookup_insert_eq.
Qed.

(** * Validity *)

Lemma valid_addresses_app l1 l2 n c :
  valid_addresses (l1 ++ l2) n c =
    valid_addresses l1 n c ≫= λ '(n, c), valid_addresses l2 n c.
Proof.
  revert n c. induction l1 as [|a l1 IH]; intros n c; [done|]. cbn.
  destruct c; [done|]. destruct (ParseIP a); [apply IH|].
  case_decide; [done|apply IH].
Qed.

(** The nested loops of [IsValid] are one loop over all addresses. *)
Lemma valid_entries_flat es n c :
  valid_entries es n c = true ↔ is_Some (valid_addresses (es ≫= Addresses) n c).
Proof.
  revert n c. induction es as [|e es IH]; intros n c; cbn.
  { split; [intros _; by eexists|done]. }
  rewrite valid_addresses_app. destruct (valid_addresses _ n c) as [[n' c']|]; cbn.
  - apply IH.
  - split; [done|]. by intros [? ?].
Qed.

Lemma valid_addresses_cname l n : is_Some (valid_addresses l n true) ↔ l = [].
Proof. destruct l; cbn; split; try done; try (by intros [? ?]). Qed.

Lemma valid_addresses_ips l n :
  0 < n → is_Some (valid_addresses l n false) ↔ Forall (λ a, is_ip a = true) l.
Proof.
  revert n. induction l as [|a l IH]; intros n Hn; cbn.
  { split; [intros _; by constructor|by eexists]. }
  rewrite Forall_cons. unfold is_ip at 1. destruct (ParseIP a) eqn:Ha.
  - rewrite IH by lia. rewrite bool_decide_true by eauto. tauto.
  - rewrite decide_True, bool_decide_false by (done || by intros [? ?]).
    split; [by intros [? ?]|by intros [? _]].
Qed.

Lemma valid_addresses_spec l :
  is_Some (valid_addresses l 0 false) ↔
  Forall (λ a, is_ip a = true) l ∨ ∃ a, l = [a] ∧ is_ip a = false.
Proof.
  destruct l as [|a l]; cbn.
  { split; [left; by constructor|by eexists]. }
  rewrite Forall_cons. unfold is_ip at 1. destruct (ParseIP a) eqn:Ha.
  - rewrite valid_addresses_ips, bool_decide_true by (lia || eauto). split; [tauto|].
    intros [?|(b & [= -> ->] & Hb)]; [tauto|]. unfold is_ip in Hb.
    rewrite Ha, bool_decide_true in Hb by eauto. done.
  - rewrite decide_False, valid_addresses_cname, bool_decide_false
      by (lia || by intros [? ?]).
    split; [|naive_solver]. intros ->. right. exists a. split; [done|].
    unfold is_ip. by rewrite Ha, bool_decide_false by (by intros [? ?]).
Qed.

(** Writing the same entry again changes nothing. *)
Lemma index_of_put_entry e es : ∃ i, index_of (ResourceKey e) (put_entry e es) = Some i ∧
  put_entry e es !! i = Some e.
Proof.
  induction es as [|e' es (i & Hi & Hl)].
  { exists 0. cbn. by rewrite decide_True. }
  unfold put_entry in *. cbn. case_decide as Hk.
  - exists 0. cbn. by rewrite decide_True.
  - exists (S i). revert Hi Hl.
    destruct (index_of _ es) as [j|]; cbn; intros Hi Hl.
    all: rewrite decide_False by done.
    all: split; [exact (f_equal (fmap S) Hi)|exact Hl].
Qed.

Lemma put_entry_idem e es : put_entry e (put_entry e es) = put_entry e es.
Proof.
  destruct (index_of_put_entry e es) as (i & Hi & Hl).
  unfold put_entry at 1. rewrite Hi. by apply list_insert_id.
Qed.

Lemma forget_old_same (E : buckets) K key f : K !! key = Some f → forget_old key f K E = E.
Proof. intros HK. unfold forget_old. rewrite HK. by rewrite decide_False by (by intros []). Qed.

Lemma Upsert_idem e d : cache_inv d → Upsert e (Upsert e d) = Upsert e d.
Proof.
  intros HI. pose proof (Upsert_inv e d HI) as HI'.
  rewrite (Upsert_unfold e (Upsert e d)) by done. rewrite (Upsert_unfold e d) by done. cbn.
  rewrite forget_old_same by apply lookup_insert_eq. rewrite bucket_insert, decide_True by done.
  by rewrite put_entry_idem, !insert_insert_eq.
Qed.

(** * Properties *)

(** C9: whatever operations ran on a new cache, in whatever order, the cache
    represents exactly the records the abstract cache has after the same
    operations, and [LookupByResourceKey] reads them. *)
Theorem cache_refines_records (ops : list cache_op) :
  abs (run_ops ops) = spec_run ops ∧
  ∀ key, LookupByResourceKey key (run_ops ops) = snd <$> spec_run ops !! key.
Proof.
  split; [apply run_ops_refines|]. intros key.
  rewrite LookupByResourceKey_abs, run_ops_refines; [done|].
  apply reachable_inv, run_ops_reachable.
Qed.

(** C16: in every state the interleaved operations can reach, the two maps of the
    cache agree: keys are unique within a name, an entry sits under the name its
    key points at, every key has its entry, and stored addresses are IPs or
    canonical names. *)
Theorem reachable_cache_inv (d : DNSCache) : reachable d → cache_inv d.
Proof. apply reachable_inv. Qed.

(** A query whose canonical name has a slice in the map is answered with the
    records filed under that name, each once, wildcards notwithstanding. *)
Theorem Lookup_exact (d : DNSCache) (q : string) :
  reachable d → is_Some (entries_of (entries d) !! CanonicalName q) →
  Lookup q d ≡ₚ records_at (CanonicalName q) (abs d).
Proof.
  intros HI%reachable_inv [es Hes]. rewrite Lookup_candidates by done. cbn. rewrite Hes. cbn.
  rewrite <-bucket_records_at by done. unfold bucket. by rewrite Hes.
Qed.

(** C18: a query is answered from the nearest of its candidates - the name
    itself, then the wildcards of ever shorter suffixes - that the map has, and
    with nothing when it has none of them. *)
Theorem Lookup_nearest (d : DNSCache) (q : string) :
  reachable d →
  (∀ pre n post es, candidates q = pre ++ n :: post →
     Forall (λ n', entries_of (entries d) !! n' = None) pre →
     entries_of (entries d) !! n = Some es → Lookup q d = es) ∧
  (Forall (λ n', entries_of (entries d) !! n' = None) (candidates q) → Lookup q d = []).
Proof.
  intros HI%reachable_inv. rewrite Lookup_candidates by done. split.
  - intros pre n post es -> Hpre Hn. by erewrite head_omap_intro.
  - induction 1 as [|n l Hn _ IH]; [done|]. cbn. by rewrite Hn.
Qed.

(** As long as no entry was removed by its resource key, a lookup returns
    the abstract cache's answer: the records of the nearest candidate name that
    has any. *)
Theorem Lookup_refines_records (ops : list cache_op) (q : string) :
  Forall (λ op, ∀ key, op ≠ OpDeleteByResourceKey key) ops →
  Lookup q (run_ops ops) ≡ₚ spec_lookup q (spec_run ops).
Proof.
  intros Hops. rewrite <-run_ops_refines. apply Lookup_refines.
  { apply reachable_inv, run_ops_reachable. }
  unfold run_ops. pose proof new_DNSCache_inv as HI.
  assert (no_empty_bucket new_DNSCache) as Hne by done.
  revert HI Hne. generalize new_DNSCache. induction Hops as [|op ops Hop _ IH]; [done|].
  intros d HI Hne. apply IH; [by apply run_op_inv|].
  destruct op; cbn; [by apply no_empty_Upsert|by apply no_empty_Delete|by destruct (Hop key)|done].
Qed.

(** C34: [DeleteByResourceKey] of the only entry of a name keeps the name in the
    map with an empty slice (the emptiness test of its loop never fires), so
    the name stops resolving even where a wildcard covers it. *)
Theorem DeleteByResourceKey_shadows_wildcard (d : DNSCache) (q : string) (e : DNSCacheEntry) :
  reachable d → bucket (entries_of (entries d)) (CanonicalName q) = [e] →
  Lookup q (DeleteByResourceKey (ResourceKey e) d) = [].
Proof.
  intros HI%reachable_inv Hb.
  rewrite Lookup_candidates by (by apply DeleteByResourceKey_inv). cbn.
  by rewrite (DeleteByResourceKey_leaves_empty _ (CanonicalName q) e).
Qed.

(** [IsValid] accepts a name exactly when its lookup is not empty and all
    addresses found are IPs, or there is exactly one address and it is a host
    name (RFC 1034, 3.6.2). *)
Theorem IsValid_spec (d : DNSCache) (q : string) :
  IsValid q d = true ↔
  Lookup (CanonicalName q) d ≠ [] ∧
  (Forall (λ a, is_ip a = true) (Lookup (CanonicalName q) d ≫= Addresses) ∨
   ∃ a, Lookup (CanonicalName q) d ≫= Addresses = [a] ∧ is_ip a = false).
Proof.
  unfold IsValid. cbv zeta. case_decide as Hl.
  - apply length_zero_iff_nil in Hl. rewrite Hl. naive_solver.
  - rewrite valid_entries_flat, valid_addresses_spec. split; [|tauto].
    intros Hv. split; [|done]. intros Hnil. by rewrite Hnil in Hl.
Qed.

(** Upserting the same entry twice is upserting it once. *)
Theorem Upsert_idempotent (d : DNSCache) (e : DNSCacheEntry) :
  reachable d → Upsert e (Upsert e d) = Upsert e d.
Proof. intros HI%reachable_inv. by apply Upsert_idem. Qed.

End laws.

(** * Witnesses *)

Definition wild_entry : DNSCacheEntry := mkDNSCacheEntry "ns/wild" "*.b.c" ["1.2.3.4"].
Definition foo_entry : DNSCacheEntry := mkDNSCacheEntry "ns/foo" "Foo.b.c" ["2.3.4.5"; "Bar.com"].
Definition example_ops : list cache_op := [OpUpsert wild_entry; OpUpsert foo_entry].

Lemma cache_refines_records_witness :
  size (spec_run (example_ops ++ [OpDeleteByResourceKey "ns/foo"])) = 1 ∧
  abs (run_ops (example_ops ++ [OpDeleteByResourceKey "ns/foo"])) =
    spec_run (example_ops ++ [OpDeleteByResourceKey "ns/foo"]).
Proof. split; [vm_compute; reflexivity|]. apply cache_refines_records. Defined.

Lemma reachable_cache_inv_witness : cache_inv (run_ops example_ops).
Proof. apply reachable_cache_inv. apply run_ops_reachable. Defined.

Lemma Lookup_exact_witness :
  Lookup "FOO.B.c" (run_ops example_ops) = [canonical_entry foo_entry] ∧
  Lookup "FOO.B.c" (run_ops example_ops) ≡ₚ
    records_at (CanonicalName "FOO.B.c") (abs (run_ops example_ops)).
Proof.
  split; [vm_compute; reflexivity|]. apply Lookup_exact; [apply run_ops_reachable|].
  eexists. vm_compute. reflexivity.
Defined.

Lemma Lookup_nearest_witness :
  Lookup "x.y.b.c" (run_ops example_ops) = [canonical_entry wild_entry].
Proof.
  apply (proj1 (Lookup_nearest (run_ops example_ops) "x.y.b.c" (run_ops_reachable _))
           ["x.y.b.c."; "*.y.b.c."] "*.b.c." ["*.c."; "*.."]).
  - vm_compute. reflexivity.
  - repeat constructor.
  - vm_compute. reflexivity.
Defined.

Lemma Lookup_refines_records_witness :
  Lookup "x.b.c" (run_ops example_ops) ≡ₚ spec_lookup "x.b.c" (spec_run example_ops) ∧
  spec_lookup "x.b.c" (spec_run example_ops) ≠ [].
Proof.
  split; [|vm_compute; done]. apply Lookup_refines_records. by repeat constructor.
Defined.

Lemma DeleteByResourceKey_shadows_wildcard_witness :
  Lookup "foo.b.c" (DeleteByResourceKey "ns/foo" (run_ops example_ops)) = [] ∧
  spec_lookup "foo.b.c" (spec_run (example_ops ++ [OpDeleteByResourceKey "ns/foo"])) =
    [canonical_entry wild_entry].
Proof.
  split; [|vm_compute; reflexivity].
  apply (DeleteByResourceKey_shadows_wildcard (run_ops example_ops) "foo.b.c"
           (canonical_entry foo_entry)); [apply run_ops_reachable|].
  vm_compute. reflexivity.
Defined.

Lemma Upsert_idempotent_witness :
  Upsert foo_entry (Upsert foo_entry (run_ops example_ops)) =
    Upsert foo_entry (run_ops example_ops).
Proof. apply Upsert_idempotent. apply run_ops_reachable. Defined.
