(* ===== verification/CacheSync.v ===== *)
(** The record cache under concurrent calls: the bodies of its methods as the
    statements between [d.mutex.Lock()] and the deferred [Unlock()], run by any
    number of goroutines ([GoSync]).  Every execution is a sequence of the
    atomic operations of [Cache], and every call completes.

    [IsValid] is no call of its own here: it calls [Lookup] and computes on the
    answer without the lock. *)
From S2P Require Import Prelude GoStrings GoSync DNSLib Cache CacheSpec.
#[local] Open Scope string_scope.
#[local] Open Scope list_scope.

(** * Definitions *)

Inductive cache_call :=
  | CallUpsert (entry : DNSCacheEntry)
  | CallDelete (fqdn : string)
  | CallDeleteByResourceKey (resourceKey : string)
  | CallLookup (fqdn : string)
  | CallLookupByResourceKey (resourceKey : string)
  | CallIsPopulated
  | CallSetPopulated.

(** What a call returns; [RNothing] also stands for "not found yet". *)
Inductive call_result :=
  | RNothing
  | REntries (es : list DNSCacheEntry)
  | REntry (e : option DNSCacheEntry)
  | RBool (b : bool).

Abbreviation cache_config := (config cache_call DNSCache call_result).
Abbreviation cache_start := (start (Op := cache_call) (T := call_result) new_DNSCache).

Section program.
Context `{DNSLib}.

(** A statement that changes the cache, and one that computes a result. *)
Definition stmt (f : DNSCache → DNSCache) (sl : DNSCache * call_result) : DNSCache * call_result :=
  (f sl.1, sl.2).
Definition result (f : DNSCache → call_result) (sl : DNSCache * call_result)
    : DNSCache * call_result := (sl.1, f sl.1).

Definition with_entries (f : gmap string (list DNSCacheEntry) → gmap string (list DNSCacheEntry))
    (d : DNSCache) : DNSCache :=
  mkDNSCache (Some (f (entries_of (entries d)))) (resourceKeyToFQDN d) (isPopulated d).
Definition with_keys (f : gmap string string → gmap string string) (d : DNSCache) : DNSCache :=
  mkDNSCache (entries d) (Some (f (entries_of (resourceKeyToFQDN d)))) (isPopulated d).

(** [Upsert] *)
Definition make_maps (d : DNSCache) : DNSCache :=
  if not_initialised d then mkDNSCache (Some ∅) (Some ∅) (isPopulated d) else d.

(** The resource is filed under another name: [oldFQDN]. *)
Definition moved_from (key fqdn : string) (d : DNSCache) : option string :=
  match entries_of (resourceKeyToFQDN d) !! key with
  | Some oldFQDN => if decide (oldFQDN ≠ fqdn) then Some oldFQDN else None
  | None => None
  end.

Definition cut_old (key fqdn : string) (d : DNSCache) : DNSCache :=
  match moved_from key fqdn d with
  | Some oldFQDN => with_entries (cut_entry key oldFQDN) d
  | None => d
  end.

Definition drop_old (key fqdn : string) (d : DNSCache) : DNSCache :=
  match moved_from key fqdn d with
  | Some oldFQDN =>
      if decide (bucket (entries_of (entries d)) oldFQDN = []) then with_entries (delete oldFQDN) d
      else d
  | None => d
  end.

Definition put (entry : DNSCacheEntry) (fqdn : string) (d : DNSCache) : DNSCache :=
  let '(addresses, entryFQDN) := canonicalize (Addresses entry) (FQDN entry) in
  with_entries (λ es,
    <[fqdn := put_entry (mkDNSCacheEntry (ResourceKey entry) entryFQDN addresses) (bucket es fqdn)]> es) d.

Definition Upsert_body (entry : DNSCacheEntry) : list (DNSCache * call_result → DNSCache * call_result) :=
  let fqdn := CanonicalName (FQDN entry) in
  [stmt make_maps;
   stmt (cut_old (ResourceKey entry) fqdn);
   stmt (drop_old (ResourceKey entry) fqdn);
   stmt (put entry fqdn);
   stmt (with_keys <[ResourceKey entry := fqdn]>)].

(** [Delete] *)
Definition delete_keys (fqdn : string) (d : DNSCache) : DNSCache :=
  if not_initialised d then d
  else with_keys (λ keys, foldl (λ m e, delete (ResourceKey e) m) keys
         (bucket (entries_of (entries d)) (CanonicalName fqdn))) d.
Definition delete_name (fqdn : string) (d : DNSCache) : DNSCache :=
  if not_initialised d then d else with_entries (delete (CanonicalName fqdn)) d.

Definition Delete_body (fqdn : string) : list (DNSCache * call_result → DNSCache * call_result) :=
  [stmt (delete_keys fqdn); stmt (delete_name fqdn)].

(** [DeleteByResourceKey] *)
Definition delete_entry (resourceKey : string) (d : DNSCache) : DNSCache :=
  if not_initialised d then d
  else
    match entries_of (resourceKeyToFQDN d) !! resourceKey with
    | Some fqdnToUpdate =>
        with_entries (λ es,
          delete_loop resourceKey fqdnToUpdate 0 (bucket es fqdnToUpdate) es) d
    | None => d
    end.
Definition delete_key (resourceKey : string) (d : DNSCache) : DNSCache :=
  if not_initialised d then d
  else
    match entries_of (resourceKeyToFQDN d) !! resourceKey with
    | Some _ => with_keys (delete resourceKey) d
    | None => d
    end.

Definition DeleteByResourceKey_body (resourceKey : string)
    : list (DNSCache * call_result → DNSCache * call_result) :=
  [stmt (delete_entry resourceKey); stmt (delete_key resourceKey)].

(** [Lookup]: the exact name, then the wildcards. *)
Definition lookup_exact (fqdn : string) (d : DNSCache) : call_result :=
  if not_initialised d then REntries []
  else match entries_of (entries d) !! CanonicalName fqdn with
       | Some e => REntries e
       | None => RNothing
       end.
Definition lookup_wild (fqdn : string) (sl : DNSCache * call_result) : DNSCache * call_result :=
  match sl.2 with
  | RNothing =>
      (sl.1, REntries (default []
         (lookup_wildcard (entries_of (entries sl.1)) (SplitDomainName (CanonicalName fqdn)))))
  | _ => sl
  end.

Definition Lookup_body (fqdn : string) : list (DNSCache * call_result → DNSCache * call_result) :=
  [result (lookup_exact fqdn); lookup_wild fqdn].

Definition cache_program (c : cache_call) : method DNSCache call_result :=
  match c with
  | CallUpsert entry => mkMethod true (Upsert_body entry)
  | CallDelete fqdn => mkMethod true (Delete_body fqdn)
  | CallDeleteByResourceKey key => mkMethod true (DeleteByResourceKey_body key)
  | CallLookup fqdn => mkMethod false (Lookup_body fqdn)
  | CallLookupByResourceKey key =>
      mkMethod false [result (λ d, REntry (LookupByResourceKey key d))]
  | CallIsPopulated => mkMethod false [result (λ d, RBool (IsPopulated d))]
  | CallSetPopulated => mkMethod true [stmt SetPopulated]
  end.

(** ** The atomic cache *)

Definition call_state (c : cache_call) (d : DNSCache) : DNSCache :=
  match c with
  | CallUpsert entry => Upsert entry d
  | CallDelete fqdn => Delete fqdn d
  | CallDeleteByResourceKey key => DeleteByResourceKey key d
  | CallSetPopulated => SetPopulated d
  | _ => d
  end.

Definition call_answer (c : cache_call) (d : DNSCache) : call_result :=
  match c with
  | CallLookup fqdn => REntries (Lookup fqdn d)
  | CallLookupByResourceKey key => REntry (LookupByResourceKey key d)
  | CallIsPopulated => RBool (IsPopulated d)
  | _ => RNothing
  end.

Definition run_calls (h : list (nat * cache_call)) : DNSCache :=
  foldl (λ d c, call_state c.2 d) new_DNSCache h.

(** * Lemmas *)

Lemma make_maps_init d :
  make_maps d = mkDNSCache
    (Some (if not_initialised d then ∅ else entries_of (entries d)))
    (Some (if not_initialised d then ∅ else entries_of (resourceKeyToFQDN d))) (isPopulated d).
Proof.
  unfold make_maps, not_initialised. destruct d as [es keys p]. by destruct es, keys.
Qed.

Lemma Upsert_body_eq entry d :
  exec (Upsert_body entry) (d, RNothing) = (Upsert entry d, RNothing).
Proof.
  unfold exec, Upsert_body, stmt. cbn [foldl fst snd]. f_equal. rewrite make_maps_init.
  unfold Upsert. set (es0 := if not_initialised d then ∅ else entries_of (entries d)).
  set (keys0 := if not_initialised d then ∅ else entries_of (resourceKeyToFQDN d)).
  assert ((if not_initialised d then (∅, ∅)
    else (entries_of (entries d), entries_of (resourceKeyToFQDN d))) = (es0, keys0)) as ->
    by (subst es0 keys0; by destruct (not_initialised d)).
  clearbody es0 keys0. unfold cut_old, moved_from, forget_old. cbn.
  destruct (keys0 !! ResourceKey entry) as [old|] eqn:Hk.
  - case_decide.
    + unfold drop_old, moved_from, with_entries. cbn.
      rewrite Hk, (decide_True (P := old ≠ CanonicalName (FQDN entry))) by done.
      case_decide; unfold put; destruct (canonicalize _ _); reflexivity.
    + unfold drop_old, moved_from. cbn.
      rewrite Hk, (decide_False (P := old ≠ CanonicalName (FQDN entry))) by tauto.
      unfold put. destruct (canonicalize _ _); reflexivity.
  - unfold drop_old, moved_from. cbn. rewrite Hk. unfold put. destruct (canonicalize _ _); reflexivity.
Qed.

Lemma program_eq c d :
  apply_op cache_program RNothing c d = (call_state c d, call_answer c d).
Proof.
  unfold apply_op. destruct c; cbn [cache_program md_body]; [apply Upsert_body_eq|..];
    unfold exec, Delete_body, DeleteByResourceKey_body, Lookup_body, stmt, result;
    cbn [foldl fst snd]; try done.
  - f_equal. unfold delete_name, delete_keys, call_state, Delete.
    destruct (not_initialised d) eqn:Hn; [by rewrite Hn|]. unfold not_initialised in *.
    destruct d as [[es|] [keys|] p]; try done.
  - f_equal. unfold delete_key, delete_entry, call_state, DeleteByResourceKey.
    destruct (not_initialised d) eqn:Hn; [by rewrite Hn|].
    destruct (entries_of (resourceKeyToFQDN d) !! resourceKey) eqn:Hk; [|by rewrite Hn, Hk].
    unfold not_initialised in *. destruct d as [[es|] [keys|] p]; try done. cbn in Hk |- *. by rewrite Hk.
  - unfold lookup_wild, lookup_exact, call_state, call_answer, Lookup. cbn [fst snd].
    destruct (not_initialised d); [done|]. by destruct (entries_of (entries d) !! CanonicalName fqdn).
Qed.

Lemma cache_reads c : md_writes (cache_program c) = false →
  Forall (λ f : DNSCache * call_result → DNSCache * call_result, ∀ s l, (f (s, l)).1 = s)
    (md_body (cache_program c)).
Proof.
  destruct c; try done; intros _; repeat constructor; intros s l; try done.
  unfold lookup_wild. by destruct l.
Qed.

Lemma run_calls_history h :
  run_history cache_program RNothing h new_DNSCache = run_calls h.
Proof.
  unfold run_history, run_calls. generalize new_DNSCache.
  induction h as [|c h IH]; intros d; [done|]. cbn. by rewrite program_eq, IH.
Qed.

Lemma run_calls_reachable h : reachable (run_calls h).
Proof.
  unfold run_calls, reachable. induction h as [|[tid c] h IH] using rev_ind; [done|].
  rewrite foldl_app. cbn. etrans; [exact IH|]. destruct c; cbn; try done; apply rtc_once.
  - apply (do_op (OpUpsert entry)).
  - apply (do_op (OpDelete fqdn)).
  - apply (do_op (OpDeleteByResourceKey resourceKey)).
  - apply (do_op OpSetPopulated).
Qed.

(** * Properties *)

(** C7: concurrent calls are linearizable.  Whatever the interleaving of their
    statements, there is one order of the calls, which respects the order of
    calls that do not overlap, such that every call that returned has answered
    what the atomic operation answers at its place in that order, and whenever
    nobody holds the mutex for writing, the cache is the one these operations leave,
    a reachable state of the atomic cache. *)
Theorem DNSCache_linearizable (c : cache_config)
    (Hc : rtc (obj_step cache_program RNothing) cache_start c) :
  NoDup (history c).*1 ∧
  (∀ tid o r, threads c !! tid = Some (o, Returned r) →
     ∃ h1 h2, history c = h1 ++ (tid, o) :: h2 ∧ r = call_answer o (run_calls h1)) ∧
  (rw_writer (lock c) = None → shared c = run_calls (history c) ∧ reachable (shared c)) ∧
  (∀ c' tid1 o1 r tid2 o2, rtc (obj_step cache_program RNothing) c c' →
     threads c !! tid1 = Some (o1, Returned r) → threads c !! tid2 = None →
     (tid2, o2) ∈ history c' →
     ∃ h1 h2 h3, history c' = h1 ++ (tid1, o1) :: h2 ++ (tid2, o2) :: h3).
Proof.
  pose proof (reachable_obj_inv cache_program RNothing cache_reads _ _ Hc) as Hinv.
  split; [by apply (inv_history _ _ _ _ Hinv)|]. split; [|split].
  - intros tid o r Ht. destruct (inv_returned _ _ _ _ Hinv _ _ _ Ht) as (h1 & h2 & Hh & ->).
    exists h1, h2. split; [done|]. by rewrite run_calls_history, program_eq.
  - intros Hw. rewrite (inv_shared _ _ _ _ Hinv Hw), run_calls_history.
    split; [done|apply run_calls_reachable].
  - intros c' tid1 o1 r tid2 o2. by apply (history_real_time cache_program RNothing cache_reads new_DNSCache).
Qed.

(** C22: no call is ever stuck: from any reachable state, also when waiting
    writers keep new readers out, the goroutines inside calls can run, each
    step uses up one of finitely many, and where no step is possible any more
    every call has returned. *)
Theorem DNSCache_calls_complete (c : cache_config) n c'
    (Hc : rtc (obj_step cache_program RNothing) cache_start c)
    (Hn : nsteps (λ c c', ∃ tid, granted cache_program RNothing c tid c') n c c') :
  (n ≤ work cache_program c)%nat ∧
  ((∀ tid c'', ¬ granted cache_program RNothing c' tid c'') →
   ∀ tid op, threads c' !! tid = Some op → ∃ r, op.2 = Returned r).
Proof.
  destruct (calls_complete cache_program RNothing cache_reads _ c n c' Hc Hn) as [Hw Hr].
  split; [lia|]. intros Hstop tid [o p] Ht. specialize (Hr Hstop _ _ Ht).
  destruct p; try done. by eexists.
Qed.

End program.

(** * Witnesses *)

(** A writer and two readers of one name, one of which looks before the writer
    is through and waits. *)
Definition an_entry : DNSCacheEntry := mkDNSCacheEntry "ns/foo" "Foo.b.c" ["2.3.4.5"].
Definition an_execution : list (event cache_call) :=
  [Invoke 1 (CallLookup "foo.b.c"); Invoke 2 (CallUpsert an_entry); Invoke 3 (CallLookup "foo.b.c");
   Run 1; Run 1; Run 1; Run 1; Run 2; Run 2; Run 2; Run 2; Run 2; Run 2; Run 2;
   Run 3; Run 3; Run 3; Run 3].

Lemma DNSCache_linearizable_witness :
  ∃ c, rtc (obj_step cache_program RNothing) cache_start c ∧
    threads c !! 3 = Some (CallLookup "foo.b.c", Returned (REntries [canonical_entry an_entry])) ∧
    ∃ h1 h2, history c = h1 ++ (3, CallLookup "foo.b.c") :: h2 ∧
      REntries [canonical_entry an_entry] = REntries (Lookup "foo.b.c" (run_calls h1)).
Proof.
  destruct (run_events cache_program RNothing an_execution cache_start) as [c|] eqn:Hrun;
    [|by vm_compute in Hrun].
  pose proof (run_events_sound _ _ _ _ _ Hrun) as Hc. exists c. split; [exact Hc|].
  assert (threads c !! 3 =
    Some (CallLookup "foo.b.c", Returned (REntries [canonical_entry an_entry]))) as Ht.
  { assert ((λ c, threads c !! 3) <$> run_events cache_program RNothing an_execution cache_start =
      Some (Some (CallLookup "foo.b.c", Returned (REntries [canonical_entry an_entry])))) as Hv
      by (vm_compute; reflexivity).
    rewrite Hrun in Hv. by injection Hv. }
  split; [exact Ht|]. destruct (DNSCache_linearizable c Hc) as (_ & Hret & _).
  exact (Hret _ _ _ Ht).
Defined.

(** Three calls that were made but did not run yet have 15 steps together. *)
Lemma DNSCache_calls_complete_witness :
  ∃ c, rtc (obj_step cache_program RNothing) cache_start c ∧ work cache_program c = 15 ∧ (0 ≤ 15)%nat.
Proof.
  destruct (run_events cache_program RNothing (take 3 an_execution) cache_start) as [c|] eqn:Hrun;
    [|by vm_compute in Hrun].
  pose proof (run_events_sound _ _ _ _ _ Hrun) as Hc. exists c. split; [exact Hc|].
  assert (work cache_program c = 15) as Hw.
  { assert (work cache_program <$> run_events cache_program RNothing (take 3 an_execution) cache_start
      = Some 15) as Hv by (vm_compute; reflexivity).
    rewrite Hrun in Hv. by injection Hv. }
  split; [exact Hw|]. rewrite <-Hw.
  apply (proj1 (DNSCache_calls_complete c 0 c Hc (nsteps_O _ c))).
Defined.
