(* ===== verification/CacheHeap.v ===== *)
(** The record cache with its memory: [pkg/controllers/endpointslicedns/cache.go]
    over Go slices that share backing arrays.

    [Cache] keeps the contents of a slice; here a slice is a pointer to an
    array and a length, an element is overwritten in place, and [append]
    writes into the array when it has room.  The two agree operation by operation
    ([CacheHeapSpec]), but a slice that [Lookup] handed out sees the writes. *)
From S2P Require Import Prelude GoStrings DNSLib Cache.
#[local] Open Scope string_scope.
#[local] Open Scope list_scope.

(** * Definitions *)

(** The cells that were written, of [cap] many. *)
Record backing := mkBacking { cells : list DNSCacheEntry; cap : nat }.

(** A non-nil slice; all of them start at the first cell. *)
Record goslice := mkSlice { ptr : nat; len : nat }.

Record heap := mkHeap { arrays : gmap nat backing; next : nat }.

Abbreviation hmap := (heap * gmap string goslice)%type.

Definition backing_of (h : heap) (s : goslice) : backing :=
  default (mkBacking [] 0) (arrays h !! ptr s).

(** The elements of a slice. *)
Definition read (h : heap) (s : goslice) : list DNSCacheEntry :=
  take (len s) (cells (backing_of h s)).

Definition set_cells (h : heap) (s : goslice) (l : list DNSCacheEntry) : heap :=
  mkHeap (<[ptr s := mkBacking l (cap (backing_of h s))]> (arrays h)) (next h).

(** [s[i] = e] *)
Definition write (h : heap) (s : goslice) (i : nat) (e : DNSCacheEntry) : heap :=
  set_cells h s (<[i := e]> (cells (backing_of h s))).

(** [append(s[:i], s[i+1:]...)]: the elements behind [i] move down, the last
    cell keeps its value. *)
Definition cut (h : heap) (s : goslice) (i : nat) : heap * goslice :=
  let c := cells (backing_of h s) in
  (set_cells h s (take i c ++ drop (S i) (take (len s) c) ++ drop (len s - 1) c),
   mkSlice (ptr s) (len s - 1)).

Section cache.
Context `{DNSLib}.
(** How many more cells [append] allocates than it needs. *)
Context (spare : nat → nat).

(** [append(s, e)]; [None] is the nil slice. *)
Definition append (h : heap) (s : option goslice) (e : DNSCacheEntry) : heap * goslice :=
  let fresh l := (mkHeap (<[next h := mkBacking l (length l + spare (length l))]> (arrays h))
                    (S (next h)), mkSlice (next h) (length l)) in
  match s with
  | Some s =>
      let c := cells (backing_of h s) in
      if decide (len s < cap (backing_of h s))%nat
      then (set_cells h s (take (len s) c ++ e :: drop (S (len s)) c), mkSlice (ptr s) (S (len s)))
      else fresh (read h s ++ [e])
  | None => fresh [e]
  end.

(** [DNSCache] *)
Record HeapCache := mkHeapCache {
  hc_heap : heap;
  hc_entries : option (gmap string goslice);
  hc_resourceKeyToFQDN : gomap string;
  hc_isPopulated : bool;
}.

Definition new_HeapCache : HeapCache := mkHeapCache (mkHeap ∅ 0) None None false.

Definition hc_not_initialised (d : HeapCache) : bool :=
  match hc_entries d, hc_resourceKeyToFQDN d with
  | Some _, Some _ => false
  | _, _ => true
  end.

Definition hc_map (d : HeapCache) : hmap := (hc_heap d, default ∅ (hc_entries d)).

(** [d.entries[fqdn]] as a list. *)
Definition hbucket (hm : hmap) (fqdn : string) : list DNSCacheEntry :=
  match hm.2 !! fqdn with Some s => read hm.1 s | None => [] end.

Definition hcut_at (fqdn : string) (i : nat) (hm : hmap) : hmap :=
  match hm.2 !! fqdn with
  | Some s => let '(h, s) := cut hm.1 s i in (h, <[fqdn := s]> hm.2)
  | None => hm
  end.

Definition hcut_entry (key fqdn : string) (hm : hmap) : hmap :=
  match index_of key (hbucket hm fqdn) with
  | Some i => hcut_at fqdn i hm
  | None => hm
  end.

Definition hforget_old (key fqdn : string) (keys : gmap string string) (hm : hmap) : hmap :=
  match keys !! key with
  | Some oldFQDN =>
      if decide (oldFQDN ≠ fqdn) then
        let hm := hcut_entry key oldFQDN hm in
        if decide (hbucket hm oldFQDN = []) then (hm.1, delete oldFQDN hm.2) else hm
      else hm
  | None => hm
  end.

(** The update loop of [Upsert]: in place, or by [append]. *)
Definition hput_entry (e : DNSCacheEntry) (fqdn : string) (hm : hmap) : hmap :=
  let '(h, m) := hm in
  let appended := let '(h, s) := append h (m !! fqdn) e in (h, <[fqdn := s]> m) in
  match m !! fqdn with
  | Some s =>
      match index_of (ResourceKey e) (read h s) with
      | Some i => (write h s i e, m)
      | None => appended
      end
  | None => appended
  end.

Definition hUpsert (entry : DNSCacheEntry) (d : HeapCache) : HeapCache :=
  let '(hm, keys) :=
    if hc_not_initialised d then ((hc_heap d, ∅), ∅)
    else (hc_map d, entries_of (hc_resourceKeyToFQDN d)) in
  let fqdn := CanonicalName (FQDN entry) in
  let hm := hforget_old (ResourceKey entry) fqdn keys hm in
  let '(addresses, entryFQDN) := canonicalize (Addresses entry) (FQDN entry) in
  let entry := mkDNSCacheEntry (ResourceKey entry) entryFQDN addresses in
  let hm := hput_entry entry fqdn hm in
  mkHeapCache hm.1 (Some hm.2) (Some (<[ResourceKey entry := fqdn]> keys)) (hc_isPopulated d).

Definition hDelete (fqdn : string) (d : HeapCache) : HeapCache :=
  if hc_not_initialised d then d
  else
    let hm := hc_map d in
    let fqdn := CanonicalName fqdn in
    let keys := foldl (λ m e, delete (ResourceKey e) m)
                  (entries_of (hc_resourceKeyToFQDN d)) (hbucket hm fqdn) in
    mkHeapCache hm.1 (Some (delete fqdn hm.2)) (Some keys) (hc_isPopulated d).

(** The loop of [DeleteByResourceKey] over the slice the [range] evaluated. *)
Fixpoint hdelete_loop (resourceKey fqdn : string) (i : nat) (es : list DNSCacheEntry)
    (hm : hmap) : hmap :=
  match es with
  | [] => hm
  | entry :: es =>
      if decide (ResourceKey entry = resourceKey) then hcut_at fqdn i hm
      else
        let hm := if decide (hbucket hm fqdn = []) then (hm.1, delete fqdn hm.2) else hm in
        hdelete_loop resourceKey fqdn (S i) es hm
  end.

Definition hDeleteByResourceKey (resourceKey : string) (d : HeapCache) : HeapCache :=
  if hc_not_initialised d then d
  else
    let keys := entries_of (hc_resourceKeyToFQDN d) in
    match keys !! resourceKey with
    | Some fqdnToUpdate =>
        let hm := hdelete_loop resourceKey fqdnToUpdate 0 (hbucket (hc_map d) fqdnToUpdate)
                    (hc_map d) in
        mkHeapCache hm.1 (Some hm.2) (Some (delete resourceKey keys)) (hc_isPopulated d)
    | None => d
    end.

Fixpoint hlookup_wildcard (m : gmap string goslice) (labels : list string) : option goslice :=
  match labels with
  | [] => None
  | _ :: rest =>
      match m !! wildcard_name rest with
      | Some s => Some s
      | None => hlookup_wildcard m rest
      end
  end.

(** [Lookup] returns the slice of the map itself. *)
Definition hLookup (fqdn : string) (d : HeapCache) : option goslice :=
  if hc_not_initialised d then None
  else
    let m := default ∅ (hc_entries d) in
    let fqdn := CanonicalName fqdn in
    match m !! fqdn with
    | Some s => Some s
    | None => hlookup_wildcard m (SplitDomainName fqdn)
    end.

(** [LookupByResourceKey] returns a copy of the entry. *)
Definition hLookupByResourceKey (resourceKey : string) (d : HeapCache) : option DNSCacheEntry :=
  if hc_not_initialised d then None
  else
    match entries_of (hc_resourceKeyToFQDN d) !! resourceKey with
    | Some fqdn =>
        let es := hbucket (hc_map d) fqdn in
        index_of resourceKey es ≫= λ i, es !! i
    | None => None
    end.

Definition hIsPopulated (d : HeapCache) : bool := hc_isPopulated d.

Definition hSetPopulated (d : HeapCache) : HeapCache :=
  mkHeapCache (hc_heap d) (hc_entries d) (hc_resourceKeyToFQDN d) true.

End cache.
