(* ===== verification/CacheHeapSpec.v ===== *)
(** The cache over shared arrays refines the cache of lists: no operation on one
    name disturbs the slice of another.  A slice that a reader kept, on the
    other hand, changes under it. *)
From S2P Require Import Prelude GoStrings DNSLib Cache CacheSpec CacheHeap.
#[local] Open Scope string_scope.
#[local] Open Scope list_scope.

(** * Definitions *)

(** The map of lists that a map of slices stands for. *)
Definition view (hm : hmap) : gmap string (list DNSCacheEntry) := read hm.1 <$> hm.2.

(** Slices of different names have different arrays, which are allocated and
    as long as the slice says. *)
Record separated (hm : hmap) : Prop := {
  sep_alloc f s : hm.2 !! f = Some s → (ptr s < next hm.1)%nat;
  sep_len f s : hm.2 !! f = Some s → (len s ≤ length (cells (backing_of hm.1 s)))%nat;
  sep_ptr f g s t : hm.2 !! f = Some s → hm.2 !! g = Some t → ptr s = ptr t → f = g;
}.

Definition cache_of (d : HeapCache) : DNSCache :=
  mkDNSCache
    match hc_entries d with Some m => Some (view (hc_heap d, m)) | None => None end
    (hc_resourceKeyToFQDN d) (hc_isPopulated d).

Definition run_hop `{DNSLib} (spare : nat → nat) (op : cache_op) (d : HeapCache) : HeapCache :=
  match op with
  | OpUpsert e => hUpsert spare e d
  | OpDelete fqdn => hDelete fqdn d
  | OpDeleteByResourceKey key => hDeleteByResourceKey key d
  | OpSetPopulated => hSetPopulated d
  end.

Definition run_hops `{DNSLib} (spare : nat → nat) (ops : list cache_op) : HeapCache :=
  foldl (λ d op, run_hop spare op d) new_HeapCache ops.

(** * Lemmas *)

(** ** One slice *)

Lemma backing_set_eq h s t l :
  ptr t = ptr s → backing_of (set_cells h s l) t = mkBacking l (cap (backing_of h s)).
Proof. intros Hp. unfold backing_of at 1, set_cells. cbn. by rewrite Hp, lookup_insert_eq. Qed.

Lemma backing_set_ne h s t l : ptr t ≠ ptr s → backing_of (set_cells h s l) t = backing_of h t.
Proof. intros Hp. unfold backing_of at 1, set_cells. cbn. by rewrite lookup_insert_ne. Qed.

Lemma take_insert_lt {A : Type} (n i : nat) (x : A) l :
  (i < n)%nat → take n (<[i := x]> l) = <[i := x]> (take n l).
Proof. revert n i. induction l as [|y l IH]; intros [|n] [|i] Hi; cbn; try lia; try done. rewrite IH; [done|lia]. Qed.

Lemma read_write h s i e :
  (i < len s)%nat → read (write h s i e) s = <[i := e]> (read h s).
Proof.
  intros Hi. unfold read, write. rewrite backing_set_eq by done. cbn. by apply take_insert_lt.
Qed.

Lemma read_cut h s i :
  (i < len s)%nat → (len s ≤ length (cells (backing_of h s)))%nat →
  read (cut h s i).1 (cut h s i).2 = remove_at i (read h s).
Proof.
  intros Hi Hl. unfold read at 1, cut, remove_at, read. cbn [fst snd len ptr].
  rewrite backing_set_eq by done. cbn [cells]. set (c := cells _) in *.
  rewrite take_take. replace (i `min` len s)%nat with i by lia.
  rewrite (assoc_L (++)), take_app_le; [apply take_ge|];
    rewrite length_app, length_drop, !length_take; lia.
Qed.

(** The old slice after a cut: what was behind the entry twice at the end. *)
Lemma read_cut_stale h s i :
  (i < len s)%nat → (len s ≤ length (cells (backing_of h s)))%nat →
  read (cut h s i).1 s = remove_at i (read h s) ++ drop (len s - 1) (read h s).
Proof.
  intros Hi Hl. unfold read at 1, cut, remove_at, read. cbn [fst snd].
  rewrite backing_set_eq by done. cbn [cells]. set (c := cells _) in *.
  rewrite take_take. replace (i `min` len s)%nat with i by lia.
  rewrite (assoc_L (++)), take_app.
  assert (length (take i c ++ drop (S i) (take (len s) c)) = (len s - 1)%nat) as Hlen
    by (rewrite length_app, length_drop, !length_take; clearbody c; lia).
  rewrite Hlen, (skipn_firstn_comm (len s - 1)). rewrite take_ge by lia. done.
Qed.

Section append.
Context (spare : nat → nat).

Lemma read_append h (o : option goslice) e :
  (∀ s, o = Some s → (len s ≤ length (cells (backing_of h s)))%nat) →
  read (append spare h o e).1 (append spare h o e).2 =
    match o with Some s => read h s | None => [] end ++ [e].
Proof.
  intros Ho. unfold append. destruct o as [s|].
  - specialize (Ho s eq_refl). case_decide as Hc; unfold read at 1; cbn [fst snd len ptr].
    + rewrite backing_set_eq by done. cbn [cells].
      rewrite cons_middle, (assoc_L (++)), take_app_le by (rewrite length_app, length_take; cbn; lia).
      rewrite take_ge; [done|]. rewrite length_app, length_take. cbn. lia.
    + unfold backing_of at 1. cbn [arrays ptr]. rewrite lookup_insert_eq. cbn [default from_option id cells].
      by rewrite take_ge.
  - unfold read, backing_of. cbn. by rewrite lookup_insert_eq.
Qed.
End append.

(** ** Maps of slices *)

Lemma hbucket_view hm f : hbucket hm f = bucket (view hm) f.
Proof. unfold hbucket, bucket, view. rewrite lookup_fmap. by destruct (hm.2 !! f). Qed.

(** A change of one slice's array: the other names read what they read. *)
Record touches (hm hm' : hmap) (f : string) (s' : goslice) : Prop := {
  touch_next : (next hm.1 ≤ next hm'.1)%nat;
  touch_entry : hm'.2 = <[f := s']> hm.2;
  touch_alloc : (ptr s' < next hm'.1)%nat;
  touch_len : (len s' ≤ length (cells (backing_of hm'.1 s')))%nat;
  touch_ptr : hm.2 !! f = None ∨ (∃ s, hm.2 !! f = Some s ∧ ptr s' = ptr s) ∨ (next hm.1 ≤ ptr s')%nat;
  touch_fresh : hm.2 !! f = None → (next hm.1 ≤ ptr s')%nat;
  touch_other p : p ≠ ptr s' → (p < next hm.1)%nat → arrays hm'.1 !! p = arrays hm.1 !! p;
}.

Lemma touches_other hm hm' f s' g t :
  separated hm → touches hm hm' f s' → g ≠ f → hm.2 !! g = Some t →
  ptr t ≠ ptr s' ∧ backing_of hm'.1 t = backing_of hm.1 t.
Proof.
  intros Hsep Ht Hg Hgt. pose proof (sep_alloc _ Hsep _ _ Hgt) as Hal.
  assert (ptr t ≠ ptr s') as Hne.
  { destruct (touch_ptr _ _ _ _ Ht) as [Hn|[(s & Hs & Hp)|Hp]].
    - pose proof (touch_fresh _ _ _ _ Ht Hn). lia.
    - rewrite Hp. intros Heq. apply Hg. by eapply (sep_ptr _ Hsep).
    - lia. }
  split; [done|]. unfold backing_of. by rewrite (touch_other _ _ _ _ Ht).
Qed.

Lemma touches_view hm hm' f s' :
  separated hm → touches hm hm' f s' →
  view hm' = <[f := read hm'.1 s']> (view hm) ∧ separated hm'.
Proof.
  intros Hsep Ht. split.
  - apply map_eq. intros g. unfold view. rewrite (touch_entry _ _ _ _ Ht), lookup_insert, !lookup_fmap.
    rewrite lookup_insert. case_decide as Hg; [done|].
    destruct (hm.2 !! g) as [t|] eqn:Hgt; [|done]. cbn. f_equal. unfold read.
    by destruct (touches_other hm hm' f s' g t) as [_ ->].
  - split.
    + intros g t. rewrite (touch_entry _ _ _ _ Ht). intros [[<- <-]|[Hg Hgt]]%lookup_insert_Some.
      * apply Ht.
      * pose proof (sep_alloc _ Hsep _ _ Hgt). pose proof (touch_next _ _ _ _ Ht). lia.
    + intros g t. rewrite (touch_entry _ _ _ _ Ht). intros [[<- <-]|[Hg Hgt]]%lookup_insert_Some.
      * apply Ht.
      * destruct (touches_other hm hm' f s' g t) as [_ ->]; [done..|]. by eapply sep_len.
    + intros g g' t t'. rewrite (touch_entry _ _ _ _ Ht).
      intros [[<- <-]|[Hg Hgt]]%lookup_insert_Some [[<- <-]|[Hg' Hgt']]%lookup_insert_Some Hp; [done|..].
      * by destruct (touches_other hm hm' f s' g' t').
      * by destruct (touches_other hm hm' f s' g t).
      * by eapply (sep_ptr _ Hsep).
Qed.

Lemma separated_delete h m f : separated (h, m) → separated (h, delete f m).
Proof.
  intros [H1 H2 H3]. split; cbn in *.
  - by intros g s [_ Hs]%lookup_delete_Some; eapply H1.
  - by intros g s [_ Hs]%lookup_delete_Some; eapply H2.
  - by intros g g' s t [_ Hs]%lookup_delete_Some [_ Ht]%lookup_delete_Some; eapply H3.
Qed.

Lemma view_delete h m f : view (h, delete f m) = delete f (view (h, m)).
Proof. unfold view. cbn. apply fmap_delete. Qed.

(** ** The loops *)

Lemma hcut_at_view f i hm :
  separated hm → (i < length (hbucket hm f))%nat →
  view (hcut_at f i hm) = <[f := remove_at i (bucket (view hm) f)]> (view hm) ∧
  separated (hcut_at f i hm).
Proof.
  intros Hsep Hi. destruct hm as [h m]. rewrite <-hbucket_view. unfold hcut_at, hbucket in *.
  cbn [fst snd] in *. destruct (m !! f) as [s|] eqn:Hs; [|cbn in Hi; lia].
  pose proof (sep_len _ Hsep _ _ Hs) as Hl. cbn [fst] in Hl.
  assert (i < len s)%nat as Hi' by (unfold read in Hi; rewrite length_take in Hi; lia).
  destruct (touches_view (h, m) ((cut h s i).1, <[f := (cut h s i).2]> m) f (cut h s i).2) as [Hv Hsep'];
    [done| |].
  - split; cbn [fst snd]; try done.
    + by apply (sep_alloc _ Hsep f s).
    + unfold cut. cbn [fst snd len ptr]. rewrite backing_set_eq by done. cbn [cells].
      rewrite !length_app, !length_drop, !length_take. lia.
    + right. left. by exists s.
    + by rewrite Hs.
    + intros p Hp _. cbn in Hp |- *. by rewrite lookup_insert_ne.
  - unfold cut at 1. cbn. split; [|done]. rewrite <-(read_cut h s i) by done. exact Hv.
Qed.

Lemma index_of_lt key es i : index_of key es = Some i → (i < length es)%nat.
Proof. intros (e & He & _)%index_of_Some. by eapply lookup_lt_Some. Qed.

Lemma hcut_entry_view key f hm :
  separated hm →
  view (hcut_entry key f hm) = cut_entry key f (view hm) ∧ separated (hcut_entry key f hm).
Proof.
  intros Hsep. unfold hcut_entry, cut_entry. rewrite <-hbucket_view.
  destruct (index_of key (hbucket hm f)) as [i|] eqn:Hi; [|done].
  apply index_of_lt in Hi. rewrite hbucket_view. by apply hcut_at_view.
Qed.

Lemma hforget_old_view key f K hm :
  separated hm →
  view (hforget_old key f K hm) = forget_old key f K (view hm) ∧ separated (hforget_old key f K hm).
Proof.
  intros Hsep. unfold hforget_old, forget_old. destruct (K !! key) as [old|]; [|done].
  case_decide; [|done]. destruct (hcut_entry_view key old hm Hsep) as [Hv Hsep'].
  rewrite hbucket_view, Hv. destruct (hcut_entry key old hm) as [h m]. cbn [fst snd].
  case_decide; [|done]. split; [by rewrite view_delete, Hv|by apply separated_delete].
Qed.

Lemma hdelete_loop_view key f i es hm :
  separated hm → es = drop i (hbucket hm f) →
  view (hdelete_loop key f i es hm) = delete_loop key f i es (view hm) ∧
  separated (hdelete_loop key f i es hm).
Proof.
  intros Hsep. revert i. induction es as [|e es IH]; intros i Hes; cbn; [done|].
  assert (i < length (hbucket hm f))%nat as Hi.
  { apply (f_equal length) in Hes. rewrite length_drop in Hes. cbn in Hes. lia. }
  case_decide; [by apply hcut_at_view|]. rewrite <-hbucket_view.
  rewrite !decide_False by (intros Hnil; rewrite Hnil in Hi; cbn in Hi; lia).
  apply IH. by rewrite <-Nat.add_1_r, <-drop_drop, <-Hes.
Qed.

(** The loop reaches the first entry with the key. *)
Lemma hdelete_loop_from key f i pre e post hm :
  key ∉ keys_of pre → ResourceKey e = key → hbucket hm f ≠ [] →
  hdelete_loop key f i (pre ++ e :: post) hm = hcut_at f (i + length pre) hm.
Proof.
  intros Hpre He Hne. revert i Hpre. induction pre as [|e' pre IH]; intros i Hpre; cbn.
  - rewrite decide_True by done. by rewrite Nat.add_0_r.
  - cbn in Hpre. apply not_elem_of_cons in Hpre as [Hk Hpre].
    rewrite decide_False by congruence. rewrite decide_False by done.
    rewrite IH by done. f_equal. lia.
Qed.

Lemma hdelete_loop_at key f pre e post hm :
  hbucket hm f = pre ++ e :: post → key ∉ keys_of pre → ResourceKey e = key →
  hdelete_loop key f 0 (pre ++ e :: post) hm = hcut_at f (length pre) hm.
Proof.
  intros Hb Hpre He. rewrite hdelete_loop_from; [done|done|done|]. rewrite Hb. by destruct pre.
Qed.

Lemma drop_length_cons {A : Type} (y : A) l : drop (length l) (y :: l) = [default y (last l)].
Proof.
  revert y. induction l as [|z l IH]; intros y; [done|]. cbn [length drop]. rewrite IH.
  rewrite last_cons. by destruct (last l).
Qed.

Lemma cut_stale_list {A : Type} (pre : list A) e x post :
  remove_at (length pre) (pre ++ e :: x :: post) ++
    drop (length pre + S (S (length post)) - 1) (pre ++ e :: x :: post) =
  pre ++ (x :: post) ++ [default x (last post)].
Proof.
  unfold remove_at. rewrite take_app_length. rewrite !drop_app, (drop_ge pre), (drop_ge pre) by lia.
  replace (S (length pre) - length pre)%nat with 1%nat by lia.
  replace (length pre + S (S (length post)) - 1 - length pre)%nat with (S (length post)) by lia.
  rewrite <-(assoc_L (++)), <-drop_length_cons. done.
Qed.

Section ops.
Context `{DNSLib}.
Context (spare : nat → nat).

(** The appended element, whether the array had room or not. *)
Lemma append_touches hm f e :
  separated hm →
  touches hm ((append spare hm.1 (hm.2 !! f) e).1, <[f := (append spare hm.1 (hm.2 !! f) e).2]> hm.2) f
    (append spare hm.1 (hm.2 !! f) e).2.
Proof.
  intros Hsep. unfold append. destruct (hm.2 !! f) as [s|] eqn:Hs.
  - pose proof (sep_len _ Hsep _ _ Hs) as Hl. case_decide; split; cbn [fst snd next ptr len]; try done; try (cbn; lia).
    + by apply (sep_alloc _ Hsep f s).
    + rewrite backing_set_eq by done. cbn [cells].
      rewrite length_app, length_take. cbn [length]. lia.
    + right. left. by exists s.
    + by rewrite Hs.
    + intros p Hp _. cbn in Hp |- *. by rewrite lookup_insert_ne.
    + unfold backing_of. cbn. by rewrite lookup_insert_eq.
    + intros p Hp _. cbn in Hp |- *. by rewrite lookup_insert_ne.
  - split; cbn [fst snd next ptr len]; try done; try (cbn; lia).
    + unfold backing_of. cbn. by rewrite lookup_insert_eq.
    + intros p Hp _. cbn in Hp |- *. by rewrite lookup_insert_ne.
Qed.

Lemma hput_entry_view e f hm :
  separated hm →
  view (hput_entry spare e f hm) = <[f := put_entry e (bucket (view hm) f)]> (view hm) ∧
  separated (hput_entry spare e f hm).
Proof.
  intros Hsep. rewrite <-hbucket_view. destruct hm as [h m]. unfold hput_entry, put_entry, hbucket.
  cbn [fst snd].
  pose proof (append_touches (h, m) f e Hsep) as Happ. cbn [fst snd] in Happ.
  destruct (touches_view _ _ _ _ Hsep Happ) as [Hv Hsep'].
  cbn [fst] in Hv. rewrite read_append in Hv by (intros s Hs; by apply (sep_len _ Hsep f s)).
  destruct (append spare h (m !! f) e) as [h' s'] eqn:Happ'. cbn [fst snd] in *.
  destruct (m !! f) as [s|] eqn:Hs; [|by split].
  destruct (index_of (ResourceKey e) (read h s)) as [i|] eqn:Hi; [|by split].
  apply index_of_lt in Hi. pose proof (sep_len _ Hsep _ _ Hs) as Hl. cbn [fst] in Hl.
  assert (i < len s)%nat as Hi' by (unfold read in Hi; rewrite length_take in Hi; lia).
  destruct (touches_view (h, m) (write h s i e, <[f := s]> m) f s) as [Hv2 Hsep2]; [done| |].
  - split; cbn [fst snd]; try done.
    + by apply (sep_alloc _ Hsep f s).
    + unfold write. rewrite backing_set_eq by done. cbn [cells]. by rewrite length_insert.
    + right. left. by exists s.
    + by rewrite Hs.
    + intros p Hp _. cbn. by rewrite lookup_insert_ne.
  - cbn [fst] in Hv2. rewrite read_write in Hv2 by done. by rewrite insert_id in Hv2, Hsep2 by done.
Qed.

End ops.

(** ** The operations *)

Section cache.
Context `{DNSLib}.
Context (spare : nat → nat).

Definition hc_ok (d : HeapCache) : Prop := separated (hc_map d).

Lemma separated_empty h : separated (h, ∅).
Proof. by split. Qed.

Lemma view_empty h : view (h, ∅) = ∅.
Proof. apply fmap_empty. Qed.

Lemma cache_of_not_initialised d : not_initialised (cache_of d) = hc_not_initialised d.
Proof. unfold not_initialised, hc_not_initialised. cbn. by destruct (hc_entries d). Qed.

Lemma cache_of_entries d : entries_of (entries (cache_of d)) = view (hc_map d).
Proof.
  unfold hc_map. cbn. destruct (hc_entries d); [done|]. symmetry. apply (view_empty (hc_heap d)).
Qed.

Lemma hUpsert_refines e d :
  hc_ok d → cache_of (hUpsert spare e d) = Upsert e (cache_of d) ∧ hc_ok (hUpsert spare e d).
Proof.
  intros Hok. unfold hUpsert, Upsert. rewrite cache_of_not_initialised, cache_of_entries.
  assert (∃ hm K, (if hc_not_initialised d then ((hc_heap d, ∅), ∅)
                   else (hc_map d, entries_of (hc_resourceKeyToFQDN d))) = (hm, K) ∧
    (if hc_not_initialised d then (∅, ∅)
     else (view (hc_map d), entries_of (resourceKeyToFQDN (cache_of d)))) = (view hm, K) ∧
    separated hm) as (hm & K & -> & -> & Hsep).
  { destruct (hc_not_initialised d); eexists _, _; (split; [done|]).
    - rewrite view_empty. split; [done|apply separated_empty].
    - by split. }
  destruct (canonicalize (Addresses e) (FQDN e)) as [addresses fqdn].
  destruct (hforget_old_view (ResourceKey e) (CanonicalName (FQDN e)) K hm Hsep) as [Hv1 Hs1].
  destruct (hput_entry_view spare (mkDNSCacheEntry (ResourceKey e) fqdn addresses)
    (CanonicalName (FQDN e)) _ Hs1) as [Hv2 Hs2].
  rewrite <-Hv1. unfold hc_ok, hc_map, cache_of. cbn [hc_heap hc_entries hc_resourceKeyToFQDN hc_isPopulated default from_option id].
  destruct (hput_entry _ _ _ _) as [h m]. cbn [fst snd] in *. split; [by rewrite Hv2|done].
Qed.

Lemma hDelete_refines fqdn d :
  hc_ok d → cache_of (hDelete fqdn d) = Delete fqdn (cache_of d) ∧ hc_ok (hDelete fqdn d).
Proof.
  intros Hok. unfold hDelete, Delete. rewrite cache_of_not_initialised, cache_of_entries.
  destruct (hc_not_initialised d); [done|]. rewrite hbucket_view.
  unfold hc_ok, cache_of, hc_map in *. cbn [hc_heap hc_entries hc_resourceKeyToFQDN hc_isPopulated fst snd from_option id].
  split; [by rewrite view_delete|by apply separated_delete].
Qed.

Lemma hDeleteByResourceKey_refines key d :
  hc_ok d → cache_of (hDeleteByResourceKey key d) = DeleteByResourceKey key (cache_of d) ∧
    hc_ok (hDeleteByResourceKey key d).
Proof.
  intros Hok. unfold hDeleteByResourceKey, DeleteByResourceKey.
  rewrite cache_of_not_initialised, cache_of_entries.
  destruct (hc_not_initialised d); [done|]. cbn [resourceKeyToFQDN cache_of isPopulated].
  destruct (entries_of (hc_resourceKeyToFQDN d) !! key) as [f|]; [|done].
  destruct (hdelete_loop_view key f 0 (hbucket (hc_map d) f) (hc_map d) Hok) as [Hv Hs]; [done|].
  rewrite <-hbucket_view, <-Hv. destruct (hdelete_loop _ _ _ _ _) as [h m]. by split.
Qed.

Lemma run_hop_refines op d :
  hc_ok d → cache_of (run_hop spare op d) = run_op op (cache_of d) ∧ hc_ok (run_hop spare op d).
Proof.
  intros Hok. destruct op; cbn [run_hop run_op].
  - by apply hUpsert_refines.
  - by apply hDelete_refines.
  - by apply hDeleteByResourceKey_refines.
  - by split.
Qed.

Lemma run_hops_refines ops :
  cache_of (run_hops spare ops) = run_ops ops ∧ hc_ok (run_hops spare ops).
Proof.
  unfold run_hops, run_ops.
  assert (cache_of new_HeapCache = new_DNSCache ∧ hc_ok new_HeapCache) as Hinit.
  { split; [done|]. apply separated_empty. }
  revert Hinit. generalize new_HeapCache new_DNSCache.
  induction ops as [|op ops IH]; intros d d' [<- Hok]; cbn; [done|].
  apply IH. by apply run_hop_refines.
Qed.

Lemma hlookup_wildcard_view h m labels :
  lookup_wildcard (view (h, m)) labels = read h <$> hlookup_wildcard m labels.
Proof.
  induction labels as [|l labels IH]; [done|]. cbn [lookup_wildcard hlookup_wildcard].
  rewrite IH. unfold view. cbn [fst snd]. rewrite lookup_fmap.
  by destruct (m !! wildcard_name labels).
Qed.

Lemma hLookup_reads q d :
  match hLookup q d with Some s => read (hc_heap d) s | None => [] end = Lookup q (cache_of d).
Proof.
  unfold hLookup, Lookup. rewrite cache_of_not_initialised, cache_of_entries.
  destruct (hc_not_initialised d); [done|]. unfold hc_map.
  rewrite hlookup_wildcard_view. unfold view. cbn [fst snd]. rewrite lookup_fmap.
  destruct (default ∅ (hc_entries d) !! CanonicalName q); [done|]. cbn.
  by destruct (hlookup_wildcard _ _).
Qed.

Lemma hLookupByResourceKey_reads key d :
  hLookupByResourceKey key d = LookupByResourceKey key (cache_of d).
Proof.
  unfold hLookupByResourceKey, LookupByResourceKey.
  rewrite cache_of_not_initialised, cache_of_entries. cbn [resourceKeyToFQDN cache_of].
  destruct (hc_not_initialised d); [done|]. destruct (_ !! key); [|done]. by rewrite hbucket_view.
Qed.

(** * Properties *)

(** C17: over slices that share backing arrays, whatever room [append] leaves
    itself, every sequence of operations computes the cache of lists, a slice
    read under the lock has the contents that [Lookup] promises, and the
    lookups by resource key and of the flag answer the same. *)
Theorem heap_cache_refines ops :
  cache_of (run_hops spare ops) = run_ops ops ∧
  (∀ q, match hLookup q (run_hops spare ops) with
        | Some s => read (hc_heap (run_hops spare ops)) s
        | None => []
        end = Lookup q (run_ops ops)) ∧
  (∀ key, hLookupByResourceKey key (run_hops spare ops) = LookupByResourceKey key (run_ops ops)) ∧
  hIsPopulated (run_hops spare ops) = IsPopulated (run_ops ops).
Proof.
  destruct (run_hops_refines ops) as [<- _]. split; [done|]. split; [|split; [|done]].
  - intros q. apply hLookup_reads.
  - intros key. apply hLookupByResourceKey_reads.
Qed.

(** C35: a slice that a reader got from [Lookup] changes under it.  When the
    entry [e] of its name is removed by key, the slice, which the reader goes on
    using without the lock, has the entries behind [e] moved down and its last
    entry twice; and a reader that is just behind [e] in its loop never sees
    the entry that followed, although that entry was in the cache all the
    time. *)
Theorem Lookup_slice_changes_under_reader ops m f key s pre e x post
    (Hm : hc_entries (run_hops spare ops) = Some m) (Hs : m !! f = Some s)
    (Hkey : entries_of (hc_resourceKeyToFQDN (run_hops spare ops)) !! key = Some f)
    (Hread : read (hc_heap (run_hops spare ops)) s = pre ++ e :: x :: post)
    (He : ResourceKey e = key) (Hpre : key ∉ keys_of pre) :
  read (hc_heap (hDeleteByResourceKey key (run_hops spare ops))) s =
    pre ++ (x :: post) ++ [default x (last post)] ∧
  take (S (length pre)) (read (hc_heap (run_hops spare ops)) s) ++
    drop (S (length pre)) (read (hc_heap (hDeleteByResourceKey key (run_hops spare ops))) s) =
    pre ++ e :: post ++ [default x (last post)].
Proof.
  destruct (run_hops_refines ops) as [Hc Hok]. set (d := run_hops spare ops) in *.
  assert (read (hc_heap (hDeleteByResourceKey key d)) s =
    pre ++ (x :: post) ++ [default x (last post)]) as Hafter.
  { assert (hbucket (hc_map d) f = pre ++ e :: x :: post) as Hb.
    { unfold hbucket, hc_map. rewrite Hm. cbn [fst snd from_option id]. by rewrite Hs. }
    assert (hc_not_initialised d = false) as Hi.
    { unfold hc_not_initialised. rewrite Hm. destruct (hc_resourceKeyToFQDN d); [done|].
      by discriminate Hkey. }
    unfold hDeleteByResourceKey. rewrite Hi, Hkey, Hb.
    rewrite (hdelete_loop_at key f pre e (x :: post) (hc_map d)) by done.
    unfold hcut_at, hc_map. rewrite Hm. cbn [fst snd from_option id]. rewrite Hs.
    pose proof (sep_len _ Hok f s) as Hl. unfold hc_map in Hl. rewrite Hm in Hl.
    specialize (Hl Hs). cbn [fst] in Hl.
    assert (len s = length (read (hc_heap d) s)) as Hlen
      by (unfold read; rewrite length_take; lia).
    rewrite Hread, length_app in Hlen. cbn [length] in Hlen.
    change (read (cut (hc_heap d) s (length pre)).1 s = pre ++ (x :: post) ++ [default x (last post)]).
    rewrite read_cut_stale, Hread by lia. rewrite Hlen. by apply cut_stale_list. }
  split; [done|]. rewrite Hafter, Hread.
  rewrite take_app, drop_app, take_ge by lia. rewrite (drop_ge pre) by lia.
  replace (S (length pre) - length pre)%nat with 1%nat by lia. cbn. by rewrite <-(assoc_L (++)).
Qed.

End cache.

(** * Witnesses *)

Definition shared_entry (key : string) : DNSCacheEntry := mkDNSCacheEntry key "a.b" ["1.2.3.4"].
Definition shared_ops : list cache_op := OpUpsert ∘ shared_entry <$> ["ns/a"; "ns/b"; "ns/c"].

(** [append] doubles the array. *)
Abbreviation shared_cache := (run_hops (λ n, n) shared_ops).

(** A reader of [a.b] that looked at [ns/a] when the entry was removed goes on
    with [ns/c] twice. *)
Lemma Lookup_slice_changes_under_reader_witness :
  ∃ s, hLookup "a.b" shared_cache = Some s ∧
    keys_of (read (hc_heap shared_cache) s) = ["ns/a"; "ns/b"; "ns/c"] ∧
    keys_of (take 1 (read (hc_heap shared_cache) s) ++
      drop 1 (read (hc_heap (hDeleteByResourceKey "ns/a" shared_cache)) s)) = ["ns/a"; "ns/c"; "ns/c"].
Proof.
  destruct (hLookup "a.b" shared_cache) as [s|] eqn:Hs; [|by vm_compute in Hs].
  exists s. vm_compute in Hs. injection Hs as <-.
  split; [done|]. split; [vm_compute; reflexivity|].
  pose proof (Lookup_slice_changes_under_reader (λ n, n) shared_ops
    (default ∅ (hc_entries shared_cache)) "a.b." "ns/a" (mkSlice 1 3) []
    (canonical_entry (shared_entry "ns/a")) (canonical_entry (shared_entry "ns/b"))
    [canonical_entry (shared_entry "ns/c")]) as Hw.
  refine (eq_trans (f_equal keys_of (proj2 (Hw _ _ _ _ _ _))) _);
    [vm_compute; reflexivity..|apply not_elem_of_nil|vm_compute; reflexivity].
Defined.
