(* ===== verification/K8s.v ===== *)
(** The Kubernetes objects the controllers read and write, the project's own
    API types ([apis/connectivity/v1alpha1]), and what they rely on of
    [k8s.io/apimachinery].

    The object types of [k8s.io/api] carry the fields the code reads, writes
    or compares; [EndpointSlice]s are compared whole by [reflect.DeepEqual],
    so [Endpoint] and [EndpointPort] have all their fields. *)
From S2P Require Import Prelude GoStrings.
#[local] Open Scope string_scope.
#[local] Open Scope list_scope.

(** * Names *)

(** [types.NamespacedName] *)
Record NamespacedName := mkNN { nn_namespace : string; nn_name : string }.

#[global] Instance NamespacedName_eq_dec : EqDecision NamespacedName.
Proof. solve_decision. Defined.
#[global] Instance NamespacedName_countable : Countable NamespacedName.
Proof.
  refine (inj_countable' (λ n, (nn_namespace n, nn_name n)) (λ p, mkNN p.1 p.2) _).
  by intros [].
Defined.

(** [NamespacedName.String]. *)
Class Naming : Type := { NamespacedName_String : NamespacedName → string }.

(** "String returns the general purpose string representation":
    namespace, separator, name. *)
Class NamingLaws `{Naming} : Prop := {
  NamespacedName_String_spec n :
    NamespacedName_String n = nn_namespace n +:+ "/" +:+ nn_name n;
}.

#[export] Instance slash_naming : Naming :=
  {| NamespacedName_String n := nn_namespace n +:+ "/" +:+ nn_name n |}.
#[export] Instance slash_naming_laws : NamingLaws.
Proof. split. reflexivity. Qed.

(** [k8serrors.IsNotFound] and [IsAlreadyExists] *)
Definition IsNotFound (e : error) : bool :=
  match e with ErrStatus ReasonNotFound _ => true | _ => false end.
Definition IsAlreadyExists (e : error) : bool :=
  match e with ErrStatus ReasonAlreadyExists _ => true | _ => false end.

(** * Objects *)

Record ObjectMeta := mkMeta {
  om_Name : string;
  om_Namespace : string;
  om_Annotations : gomap string;
  om_Labels : gomap string;
  om_ResourceVersion : string;
}.

Record ObjectReference := mkObjectReference {
  or_Kind : string; or_Namespace : string; or_Name : string; or_UID : string;
  or_APIVersion : string; or_ResourceVersion : string; or_FieldPath : string;
}.

Record EndpointConditions := mkEndpointConditions {
  ec_Ready : option bool; ec_Serving : option bool; ec_Terminating : option bool;
}.

(** [discoveryv1.Endpoint] *)
Record Endpoint := mkEndpoint {
  ep_Addresses : slice string;
  ep_Conditions : EndpointConditions;
  ep_Hostname : option string;
  ep_TargetRef : option ObjectReference;
  ep_DeprecatedTopology : gomap string;
  ep_NodeName : option string;
  ep_Zone : option string;
  ep_Hints : option (slice string);
}.

(** [discoveryv1.EndpointPort] *)
Record EndpointPort := mkEndpointPort {
  port_Name : option string; port_Protocol : option string;
  port_Port : option Z; port_AppProtocol : option string;
}.

(** [discoveryv1.EndpointSlice] *)
Record EndpointSlice := mkEndpointSlice {
  es_meta : ObjectMeta;
  es_AddressType : string;
  es_Endpoints : slice Endpoint;
  es_Ports : slice EndpointPort;
}.

Definition AddressTypeIPv4 : string := "IPv4".
Definition AddressTypeFQDN : string := "FQDN".

#[global] Instance ObjectMeta_eq_dec : EqDecision ObjectMeta.
Proof. solve_decision. Defined.
#[global] Instance ObjectReference_eq_dec : EqDecision ObjectReference.
Proof. solve_decision. Defined.
#[global] Instance EndpointConditions_eq_dec : EqDecision EndpointConditions.
Proof. solve_decision. Defined.
#[global] Instance Endpoint_eq_dec : EqDecision Endpoint.
Proof. solve_decision. Defined.
#[global] Instance EndpointPort_eq_dec : EqDecision EndpointPort.
Proof. solve_decision. Defined.
#[global] Instance EndpointSlice_eq_dec : EqDecision EndpointSlice.
Proof. solve_decision. Defined.

(** [discoveryv1.Endpoint{Addresses: addresses}] *)
Definition endpoint_of (addresses : slice string) : Endpoint :=
  mkEndpoint addresses (mkEndpointConditions None None None) None None None None None None.

(** The namespace and name of an object. *)
Definition meta_key (m : ObjectMeta) : NamespacedName := mkNN (om_Namespace m) (om_Name m).

(** [corev1.LoadBalancerIngress] and [corev1.Service] *)
Record LoadBalancerIngress := mkIngress { ing_IP : string; ing_Hostname : string }.

Record Service := mkService {
  svc_meta : ObjectMeta;
  svc_Type : string;
  svc_ClusterIP : string;
  svc_Ingress : slice LoadBalancerIngress;
}.

Definition ServiceTypeLoadBalancer : string := "LoadBalancer".

(** [clusterv1beta1.Cluster] *)
Record Cluster := mkCluster { cl_meta : ObjectMeta }.

#[global] Instance Cluster_eq_dec : EqDecision Cluster.
Proof. solve_decision. Defined.

(** * The project's API types *)

(** [apis/connectivity/v1alpha1/types.go] *)
Definition DNSHostnameAnnotation : string := "connectivity.tanzu.vmware.com/dns-hostname".
Definition GatewayDNSRefAnnotation : string := "connectivity.tanzu.vmware.com/gateway-dns-ref".

(** Label selectors of [apimachinery]: a selector in an object may be invalid. *)
Class LabelSelectors : Type := {
  LabelSelector : Type;
  Selector : Type;
  LabelSelectorAsSelector : LabelSelector → Selector + error;
  Selector_Matches : Selector → gmap string string → bool;
}.

(** [apis/connectivity/v1alpha1/gatewaydns_types.go] *)
Definition GatewayResolutionType : Type := string.
Definition ResolutionTypeLoadBalancer : GatewayResolutionType := "loadBalancer".

Record GatewayDNSSpec `{LabelSelectors} := mkGatewayDNSSpec {
  spec_ClusterSelector : LabelSelector;
  spec_Service : string;
  spec_ResolutionType : GatewayResolutionType;
}.

Record GatewayDNSStatus := mkGatewayDNSStatus {}.

Record GatewayDNS `{LabelSelectors} := mkGatewayDNS {
  gd_meta : ObjectMeta;
  gd_Spec : GatewayDNSSpec;
  gd_Status : GatewayDNSStatus;
}.

Record GatewayDNSList `{LabelSelectors} := mkGatewayDNSList { gdl_Items : list GatewayDNS }.

Arguments mkGatewayDNSSpec {_} _ _ _.
Arguments mkGatewayDNS {_} _ _ _.
Arguments mkGatewayDNSList {_} _.
