(* ===== verification/Kube.v ===== *)
(** The interface between the controllers and Kubernetes: the client calls they
    make ([sigs.k8s.io/controller-runtime/pkg/client] and the repository's
    [clientProvider]) as operations on a world [W], and the laws of an API
    server that answers every request. *)
From S2P Require Import Prelude GoStrings K8s.
#[local] Open Scope string_scope.
#[local] Open Scope list_scope.

(** * Calls *)

(** A client call returns a value or an error, and may change the world. *)
Definition Call (W A : Type) : Type := W → (A + error) * W.

(** A call whose error the caller returns. *)
Definition call {W A : Type} (c : Call W A) : M W A := λ w,
  match c w with
  | (inl a, w') => (Ok a, w')
  | (inr e, w') => (Err e, w')
  end.

(** [v, err := c()]: the caller looks at the error. *)
Definition call_try {W A : Type} (c : Call W A) : M W (A + error) := λ w,
  let '(r, w') := c w in (Ok r, w').

(** A computation that does not touch the world but may panic. *)
Definition lift {W A : Type} (o : outcome A) : M W A := λ w, (o, w).

(** The clients of workload clusters, and [clientProvider.GetClient]. *)
Class Kube (W : Type) : Type := {
  Client : Type;
  GetClient : NamespacedName → Call W Client;
  GetNamespace : Client → string → Call W unit;
  GetService : Client → NamespacedName → Call W Service;
  GetEndpointSlice : Client → NamespacedName → Call W EndpointSlice;
  ListEndpointSlices : Client → string → Call W (list EndpointSlice);
  CreateEndpointSlice : Client → EndpointSlice → Call W unit;
  UpdateEndpointSlice : Client → EndpointSlice → Call W unit;
  DeleteEndpointSlice : Client → EndpointSlice → Call W unit;
}.

(** The client of the management cluster. *)
Class Management (W : Type) `{LabelSelectors} : Type := {
  GetGatewayDNS : NamespacedName → Call W GatewayDNS;
  ListGatewayDNS : option string → Call W GatewayDNSList;
  ListClusters : option Selector → string → Call W (list Cluster);
}.

(** ** Controllers

    What [SetupWithManager] tells the builder of controller-runtime: the kind
    whose objects are reconciled by name, further sources of requests, and the
    reconciler.  [E] is the type of the objects in a channel's events, [V] the
    world the reconciler acts on. *)
Inductive watch (V E : Type) :=
  | WatchChannel (generic : E → list NamespacedName → list NamespacedName)
  | WatchKind (kind : string) (to_requests : ObjectMeta → M V (list NamespacedName)).
Arguments WatchChannel {V E} _.
Arguments WatchKind {V E} _ _.

Record controller (V E : Type) := mkController {
  For : string;
  Watches : list (watch V E);
  reconciler : NamespacedName → M V unit;
}.
Arguments mkController {V E} _ _ _.
Arguments For {V E} _.
Arguments Watches {V E} _.
Arguments reconciler {V E} _ _.

(** * An API server that answers *)

(** Two versions of an object: equal up to the resource version. *)
Definition same_content (s s' : EndpointSlice) : Prop :=
  om_Name (es_meta s) = om_Name (es_meta s') ∧
  om_Namespace (es_meta s) = om_Namespace (es_meta s') ∧
  om_Annotations (es_meta s) = om_Annotations (es_meta s') ∧
  om_Labels (es_meta s) = om_Labels (es_meta s') ∧
  es_AddressType s = es_AddressType s' ∧
  es_Endpoints s = es_Endpoints s' ∧
  es_Ports s = es_Ports s'.

Abbreviation slice_key s := (meta_key (es_meta s)).
Abbreviation slices := (gmap NamespacedName EndpointSlice).

(** The API semantics of one cluster's EndpointSlices seen through a client:
    [store] is what the cluster holds, [admissible] what validation accepts.
    Optimistic locking: an update must carry the stored resource version.  The
    address type of an EndpointSlice is immutable after creation. *)
Record api_server {W : Type} `{Kube W} (c : Client) (store : W → slices)
    (admissible : EndpointSlice → Prop) : Prop := {
  api_keys w n s : store w !! n = Some s → slice_key s = n;
  api_list w ns : ∃ l, ListEndpointSlices c ns w = (inl l, w) ∧
    l ≡ₚ filter (λ s, om_Namespace (es_meta s) = ns) (map_to_list (store w)).*2;
  api_get w n s : store w !! n = Some s → GetEndpointSlice c n w = (inl s, w);
  api_create w s : store w !! slice_key s = None → admissible s →
    ∃ s' w', CreateEndpointSlice c s w = (inl tt, w') ∧
      store w' = <[slice_key s := s']> (store w) ∧ same_content s s';
  api_create_exists w s : is_Some (store w !! slice_key s) →
    ∃ e, CreateEndpointSlice c s w = (inr e, w) ∧ IsAlreadyExists e = true;
  api_update w s o : store w !! slice_key s = Some o → admissible s →
    om_ResourceVersion (es_meta s) = om_ResourceVersion (es_meta o) →
    es_AddressType s = es_AddressType o →
    ∃ s' w', UpdateEndpointSlice c s w = (inl tt, w') ∧
      store w' = <[slice_key s := s']> (store w) ∧ same_content s s';
  api_delete w s : is_Some (store w !! slice_key s) →
    ∃ w', DeleteEndpointSlice c s w = (inl tt, w') ∧
      store w' = delete (slice_key s) (store w);
}.

(** Whatever a call on one cluster returns, it acts on that cluster only. *)
Record api_frame {W : Type} `{Kube W} (store : Client → W → slices) : Prop := {
  frame_client n w c : store c (GetClient n w).2 = store c w;
  frame_namespace c' ns w c : store c (GetNamespace c' ns w).2 = store c w;
  frame_service c' n w c : store c (GetService c' n w).2 = store c w;
  frame_get c' n w c : store c (GetEndpointSlice c' n w).2 = store c w;
  frame_list c' ns w c : store c (ListEndpointSlices c' ns w).2 = store c w;
  frame_create c' s w c : c ≠ c' → store c (CreateEndpointSlice c' s w).2 = store c w;
  frame_update c' s w c : c ≠ c' → store c (UpdateEndpointSlice c' s w).2 = store c w;
  frame_delete c' s w c : c ≠ c' → store c (DeleteEndpointSlice c' s w).2 = store c w;
}.

(** Of one cluster's slices a write touches the one of its name only, and that
    one gets the written content, if anything: whatever the call returns.  What
    a read returns has the name that was asked for. *)
Record api_keyed {W : Type} `{Kube W} (c : Client) (store : W → slices) : Prop := {
  keyed_get w n s w' : GetEndpointSlice c n w = (inl s, w') → slice_key s = n;
  keyed_create w s n : store (CreateEndpointSlice c s w).2 !! n = store w !! n ∨
    (n = slice_key s ∧ ∃ s', store (CreateEndpointSlice c s w).2 !! n = Some s' ∧ same_content s s');
  keyed_update w s n : store (UpdateEndpointSlice c s w).2 !! n = store w !! n ∨
    (n = slice_key s ∧ ∃ s', store (UpdateEndpointSlice c s w).2 !! n = Some s' ∧ same_content s s');
  keyed_delete w s n : store (DeleteEndpointSlice c s w).2 !! n = store w !! n ∨
    (n = slice_key s ∧ store (DeleteEndpointSlice c s w).2 !! n = None);
}.

(** The services of the clusters, by client: no cluster reports a service that
    it does not have or misses one that it has, and those named by [ok] answer. *)
Record service_api {W : Type} `{Kube W} (services : Client → W → gmap NamespacedName Service)
    (client_of : NamespacedName → Client) (ok : NamespacedName → bool) : Prop := {
  service_true c n w svc : (GetService c n w).1 = inl svc → services c w !! n = Some svc;
  service_absent c n w err : (GetService c n w).1 = inr err → IsNotFound err = true →
    services c w !! n = None;
  service_answers cl n w err : ok cl = true → (GetService (client_of cl) n w).1 = inr err →
    IsNotFound err = true;
}.

(** * Lemmas *)

#[export] Instance same_content_equiv : Equivalence same_content.
Proof.
  split; unfold same_content; [done| |]; repeat intros ?; destruct_and!; split_and!; congruence.
Qed.

#[export] Instance slice_key_proper : Proper (same_content ==> eq) (λ s, slice_key s).
Proof. intros s s' (? & ? & _). unfold meta_key. by f_equal. Qed.

Lemma call_ok {W A : Type} (c : Call W A) w a w' : c w = (inl a, w') → call c w = (Ok a, w').
Proof. unfold call. by intros ->. Qed.

Lemma call_err {W A : Type} (c : Call W A) w e w' : c w = (inr e, w') → call c w = (Err e, w').
Proof. unfold call. by intros ->. Qed.

Lemma call_try_eq {W A : Type} (c : Call W A) w r w' : c w = (r, w') → call_try c w = (Ok r, w').
Proof. unfold call_try. by intros ->. Qed.

(** A call respects what its change of the world does. *)
Section respects.
Context {W A : Type} (R : relation W).

Lemma respects_call (c : Call W A) : (∀ w, R w (c w).2) → respects R (call c).
Proof. intros Hc w. specialize (Hc w). unfold call. by destruct (c w) as [[a|e] w1]. Qed.

Lemma respects_call_try (c : Call W A) : (∀ w, R w (c w).2) → respects R (call_try c).
Proof. intros Hc w. specialize (Hc w). unfold call_try. by destruct (c w) as [r w1]. Qed.
End respects.

#[export] Hint Resolve respects_call respects_call_try : gocode.
