(* ===== verification/EndpointSliceDNS.v ===== *)
(** The controller that feeds the DNS server's cache,
    [pkg/controllers/endpointslicedns/controller.go].

    [Reconcile] runs on a state made of the cache and the log; the API server
    is the function [get] from names to what [r.Client.Get] answers. *)
From S2P Require Import Prelude GoStrings GoNet DNSLib Cache K8s Kube.
#[local] Open Scope string_scope.
#[local] Open Scope list_scope.

(** * Definitions *)

(** The log lines that tell an operator something the result does not. *)
Inductive log_event :=
  | LogDeleted (hostname : string)
  | LogFailedToGet (err : error)
  | LogInvalidIP (address : string)
  | LogUnhandledAddressType
  | LogSynced (hostname : string)
  | LogInvalidState (hostname : string).

(** [EndpointSliceReconciler]: the client is an argument of [Reconcile]. *)
Record EndpointSliceReconciler := mkReconciler {
  RecordsCache : DNSCache;
  Log : list log_event;
}.

Definition on_cache {A : Type} (f : DNSCache → A) : M EndpointSliceReconciler A :=
  gets (λ r, f (RecordsCache r)).
Definition update_cache (f : DNSCache → DNSCache) : M EndpointSliceReconciler unit :=
  modify (λ r, mkReconciler (f (RecordsCache r)) (Log r)).
Definition log (ev : log_event) : M EndpointSliceReconciler unit :=
  modify (λ r, mkReconciler (RecordsCache r) (Log r ++ [ev])).

(** The two address loops under [AddressTypeIPv4]: what parses is normalised
    and kept, what does not is logged and dropped. *)
Definition add_ipv4 (addresses : list string) (address : string)
    : M EndpointSliceReconciler (list string) :=
  match ParseIP address with
  | None => log (LogInvalidIP address) ≫= λ _, mret addresses
  | Some ip => mret (addresses ++ [IP_String ip])
  end.

Definition collect_ipv4 (endpoints : list Endpoint) : M EndpointSliceReconciler (list string) :=
  fold_each (λ addresses endpoint,
    fold_each add_ipv4 addresses (elems (ep_Addresses endpoint))) [] endpoints.

(** The loop under [AddressTypeFQDN]. *)
Definition collect_fqdn (endpoints : list Endpoint) : list string :=
  foldl (λ addresses endpoint, addresses ++ elems (ep_Addresses endpoint)) [] endpoints.

(** The part of [Reconcile] behind the address loops. *)
Definition sync `{DNSLib, Naming} (req : NamespacedName) (fqdn : string)
    (addresses : list string) : M EndpointSliceReconciler unit :=
  update_cache (Upsert (mkDNSCacheEntry (NamespacedName_String req) fqdn addresses)) ≫= λ _,
  log (LogSynced fqdn) ≫= λ _,
  on_cache (IsValid fqdn) ≫= λ valid,
  if negb valid then log (LogInvalidState fqdn) else mret tt.

Definition Reconcile `{DNSLib, Naming} (get : NamespacedName → EndpointSlice + error)
    (req : NamespacedName) : M EndpointSliceReconciler unit :=
  match get req with
  | inr err =>
      if IsNotFound err then
        on_cache (LookupByResourceKey (NamespacedName_String req)) ≫= λ entry,
        update_cache (DeleteByResourceKey (NamespacedName_String req)) ≫= λ _,
        match entry with
        | None => panic (* entry.FQDN on a nil entry *)
        | Some entry => log (LogDeleted (FQDN entry))
        end
      else log (LogFailedToGet err) ≫= λ _, throw err
  | inl endpointSlice =>
      match map_get (om_Annotations (es_meta endpointSlice)) DNSHostnameAnnotation with
      | None => mret tt
      | Some fqdn =>
          if decide (es_AddressType endpointSlice = AddressTypeIPv4) then
            collect_ipv4 (elems (es_Endpoints endpointSlice)) ≫= sync req fqdn
          else if decide (es_AddressType endpointSlice = AddressTypeFQDN) then
            sync req fqdn (collect_fqdn (elems (es_Endpoints endpointSlice)))
          else log LogUnhandledAddressType
      end
  end.

Definition SetupWithManager `{DNSLib, Naming} {X : Type}
    (Complete : controller EndpointSliceReconciler unit → M X unit)
    (get : NamespacedName → EndpointSlice + error) : M X unit :=
  Complete (mkController "EndpointSlice" [] (Reconcile get)).
