(* ===== verification/EndpointSliceDNSSpec.v ===== *)
(** What the DNS server's controller promises: each reconciliation moves the
    cache's records to what the EndpointSlice asks for, and reconciling a set
    of names leaves the records of the API server's current slices. *)
From S2P Require Import Prelude GoStrings GoNet GoNetSpec DNSLib Cache CacheSpec K8s.
From S2P Require Import EndpointSliceDNS.
#[local] Open Scope string_scope.
#[local] Open Scope list_scope.

(** * Definitions *)

Definition all_addresses (eps : list Endpoint) : list string :=
  eps ≫= λ ep, elems (ep_Addresses ep).

(** The normal form of an IP address, if it is one. *)
Definition normalise_ip (a : string) : option string := IP_String <$> ParseIP a.

(** The log lines for the addresses that are not IPs. *)
Definition invalid_ips (l : list string) : list log_event :=
  LogInvalidIP <$> filter (λ a, ParseIP a = None) l.

(** The addresses a slice contributes, if its address type is handled. *)
Definition wanted_addresses (s : EndpointSlice) : option (list string) :=
  if decide (es_AddressType s = AddressTypeIPv4) then
    Some (omap normalise_ip (all_addresses (elems (es_Endpoints s))))
  else if decide (es_AddressType s = AddressTypeFQDN) then
    Some (all_addresses (elems (es_Endpoints s)))
  else None.

(** The entry a slice asks for: none without the annotation or with an
    unhandled address type. *)
Definition wanted_entry (key : string) (s : EndpointSlice) : option DNSCacheEntry :=
  fqdn ← map_get (om_Annotations (es_meta s)) DNSHostnameAnnotation;
  addresses ← wanted_addresses s;
  Some (mkDNSCacheEntry key fqdn addresses).

Definition record_of `{DNSLib} (e : DNSCacheEntry) : string * DNSCacheEntry :=
  (CanonicalName (FQDN e), canonical_entry e).

(** One reconciliation on the abstract cache. *)
Definition spec_reconcile `{DNSLib, Naming} (get : NamespacedName → EndpointSlice + error)
    (req : NamespacedName) (r : records) : records :=
  match get req with
  | inr err => if IsNotFound err then delete (NamespacedName_String req) r else r
  | inl s =>
      match wanted_entry (NamespacedName_String req) s with
      | Some e => <[NamespacedName_String req := record_of e]> r
      | None => r
      end
  end.

(** The client of an API server that holds the slices [api]. *)
Definition get_from (api : gmap NamespacedName EndpointSlice) (n : NamespacedName)
    : EndpointSlice + error :=
  match api !! n with
  | Some s => inl s
  | None => inr (ErrStatus ReasonNotFound "not found")
  end.

(** The record a name has after it was reconciled. *)
Definition expected_record `{DNSLib, Naming} (api : gmap NamespacedName EndpointSlice)
    (r : records) (n : NamespacedName) : option (string * DNSCacheEntry) :=
  match api !! n with
  | None => None
  | Some s => match wanted_entry (NamespacedName_String n) s with
              | Some e => Some (record_of e)
              | None => r !! NamespacedName_String n
              end
  end.

(** A namespace without a slash, as the API server admits them. *)
Definition valid_nn (n : NamespacedName) : Prop := has_byte "/" (nn_namespace n) = false.

Abbreviation cache_records w := (abs (RecordsCache w)).

(** * Lemmas *)

Section controller.
Context `{DNSLibLaws, NamingLaws}.

Lemma NamespacedName_String_inj n1 n2 :
  valid_nn n1 → valid_nn n2 → NamespacedName_String n1 = NamespacedName_String n2 → n1 = n2.
Proof.
  unfold valid_nn. intros V1 V2 Heq. rewrite !NamespacedName_String_spec in Heq.
  destruct n1 as [ns1 nm1], n2 as [ns2 nm2]; cbn [nn_namespace nn_name] in *.
  apply (f_equal (λ s, Split s "/")) in Heq as Hs.
  change ("/" +:+ nm1) with (String "/" nm1) in *.
  change ("/" +:+ nm2) with (String "/" nm2) in *.
  rewrite !Split_app in Hs by done. injection Hs as -> _. f_equal.
  clear - Heq. induction ns2 as [|c ns2 IH]; [by injection Heq|].
  apply IH. by injection Heq.
Qed.

Lemma add_ipv4_loop acc l w :
  fold_each add_ipv4 acc l w =
    (Ok (acc ++ omap normalise_ip l),
     mkReconciler (RecordsCache w) (Log w ++ invalid_ips l)).
Proof.
  revert acc w. induction l as [|a l IH]; intros acc [d lg].
  { cbn. by rewrite !app_nil_r. }
  rewrite fold_each_cons. unfold add_ipv4 at 1, normalise_ip, invalid_ips.
  rewrite filter_cons. cbn [omap list_omap].
  destruct (ParseIP a) as [ip|] eqn:Ha; unfold log; run_m; rewrite IH.
  - rewrite decide_False by done. cbn. by rewrite <-app_assoc.
  - rewrite decide_True by done. cbn. by rewrite <-app_assoc.
Qed.

Lemma collect_ipv4_spec eps w :
  collect_ipv4 eps w =
    (Ok (omap normalise_ip (all_addresses eps)),
     mkReconciler (RecordsCache w) (Log w ++ invalid_ips (all_addresses eps))).
Proof.
  unfold collect_ipv4, all_addresses.
  assert (∀ acc w, fold_each (λ addresses endpoint,
      fold_each add_ipv4 addresses (elems (ep_Addresses endpoint))) acc eps w =
    (Ok (acc ++ omap normalise_ip (eps ≫= λ ep, elems (ep_Addresses ep))),
     mkReconciler (RecordsCache w)
       (Log w ++ invalid_ips (eps ≫= λ ep, elems (ep_Addresses ep))))) as Hloop; [|apply Hloop].
  induction eps as [|ep eps IH]; intros acc [d lg].
  { cbn. by rewrite !app_nil_r. }
  rewrite fold_each_cons, add_ipv4_loop, IH. cbn.
  unfold invalid_ips. rewrite filter_app, fmap_app, omap_app. by rewrite <-!app_assoc.
Qed.

Lemma collect_fqdn_spec eps : collect_fqdn eps = all_addresses eps.
Proof.
  unfold collect_fqdn, all_addresses.
  assert (∀ acc, foldl (λ addresses endpoint, addresses ++ elems (ep_Addresses endpoint)) acc eps =
    acc ++ (eps ≫= λ ep, elems (ep_Addresses ep))) as Hloop; [|apply Hloop].
  induction eps as [|ep eps IH]; intros acc; cbn.
  { by rewrite app_nil_r. }
  by rewrite IH, <-app_assoc.
Qed.

(** The tail of [Reconcile]: the upsert and the log lines. *)
Lemma sync_spec req fqdn addresses w :
  sync req fqdn addresses w =
    let d := Upsert (mkDNSCacheEntry (NamespacedName_String req) fqdn addresses)
               (RecordsCache w) in
    (Ok tt, mkReconciler d
       (Log w ++ LogSynced fqdn :: if IsValid fqdn d then [] else [LogInvalidState fqdn])).
Proof.
  unfold sync, update_cache, log, on_cache, modify, gets, mbind, M_bind. cbn.
  destruct (IsValid _ _); cbn; [done|]. by rewrite <-app_assoc.
Qed.

(** [Reconcile] on a slice, without its loops. *)
Lemma Reconcile_slice get req w s :
  get req = inl s →
  Reconcile get req w =
    match wanted_entry (NamespacedName_String req) s with
    | Some e =>
        let d := Upsert e (RecordsCache w) in
        (Ok tt, mkReconciler d
           (Log w ++ (if decide (es_AddressType s = AddressTypeIPv4)
                      then invalid_ips (all_addresses (elems (es_Endpoints s))) else [])
            ++ LogSynced (FQDN e) ::
               if IsValid (FQDN e) d then [] else [LogInvalidState (FQDN e)]))
    | None =>
        (Ok tt, mkReconciler (RecordsCache w)
           (Log w ++ match map_get (om_Annotations (es_meta s)) DNSHostnameAnnotation with
                     | Some _ => [LogUnhandledAddressType] | None => [] end))
    end.
Proof.
  intros Hget. unfold Reconcile, wanted_entry, wanted_addresses. rewrite Hget.
  destruct (map_get _ _) as [fqdn|]; cbn.
  2: { by destruct w; rewrite app_nil_r. }
  case_decide; [|case_decide]; cbn.
  - unfold mbind at 1, M_bind. rewrite collect_ipv4_spec, sync_spec. cbn.
    by rewrite <-app_assoc.
  - by rewrite sync_spec, collect_fqdn_spec.
  - done.
Qed.

Lemma Reconcile_gone get req w err :
  get req = inr err → IsNotFound err = true →
  Reconcile get req w =
    (match LookupByResourceKey (NamespacedName_String req) (RecordsCache w) with
     | Some e => (Ok tt, mkReconciler
                    (DeleteByResourceKey (NamespacedName_String req) (RecordsCache w))
                    (Log w ++ [LogDeleted (FQDN e)]))
     | None => (Panic, mkReconciler
                    (DeleteByResourceKey (NamespacedName_String req) (RecordsCache w)) (Log w))
     end).
Proof.
  intros Hget Herr. unfold Reconcile. rewrite Hget, Herr.
  unfold on_cache, gets, update_cache, modify, mbind, M_bind.
  by destruct (LookupByResourceKey _ _).
Qed.

Lemma Reconcile_failed get req w err :
  get req = inr err → IsNotFound err = false →
  Reconcile get req w = (Err err, mkReconciler (RecordsCache w) (Log w ++ [LogFailedToGet err])).
Proof. intros Hget Herr. unfold Reconcile. by rewrite Hget, Herr. Qed.

Lemma wanted_entry_key key s e : wanted_entry key s = Some e → ResourceKey e = key.
Proof.
  unfold wanted_entry. intros (fqdn & _ & (l & _ & [= <-])%bind_Some)%bind_Some. done.
Qed.

Lemma Reconcile_refine get req w :
  cache_inv (RecordsCache w) →
  cache_inv (RecordsCache (Reconcile get req w).2) ∧
  cache_records (Reconcile get req w).2 = spec_reconcile get req (cache_records w).
Proof.
  intros HI. unfold spec_reconcile. destruct (get req) as [s|err] eqn:Hget.
  - rewrite (Reconcile_slice get req w s Hget).
    destruct (wanted_entry _ s) as [e|] eqn:He; cbn; [|done].
    split; [by apply Upsert_inv|].
    pose proof (run_op_refines (OpUpsert e) _ HI) as Hr. cbn [run_op spec_step] in Hr.
    by rewrite Hr, (wanted_entry_key _ _ _ He).
  - destruct (IsNotFound err) eqn:Herr.
    + rewrite (Reconcile_gone get req w err) by done.
      pose proof (run_op_refines (OpDeleteByResourceKey (NamespacedName_String req)) _ HI) as Hr.
      cbn [run_op spec_step] in Hr.
      pose proof (DeleteByResourceKey_inv (NamespacedName_String req) _ HI).
      by destruct (LookupByResourceKey _ _).
    + by rewrite (Reconcile_failed get req w err).
Qed.

Lemma Reconcile_result get req w :
  cache_inv (RecordsCache w) →
  (Reconcile get req w).1 =
    match get req with
    | inl _ => Ok tt
    | inr err =>
        if IsNotFound err then
          if decide (cache_records w !! NamespacedName_String req = None) then Panic else Ok tt
        else Err err
    end.
Proof.
  intros HI. destruct (get req) as [s|err] eqn:Hget.
  - rewrite (Reconcile_slice get req w s Hget). by destruct (wanted_entry _ s).
  - destruct (IsNotFound err) eqn:Herr.
    + rewrite (Reconcile_gone get req w err), LookupByResourceKey_abs by done.
      by destruct (cache_records w !! _) as [[f e]|].
    + by rewrite (Reconcile_failed get req w err).
Qed.

(** Normalised addresses are stored as they are. *)
Lemma canonical_normalised (l : list string) :
  canonical_address <$> omap normalise_ip l = omap normalise_ip l.
Proof.
  induction l as [|a l IH]; [done|]. cbn [omap list_omap].
  destruct (normalise_ip a) as [x|] eqn:Hx; [|apply IH].
  apply fmap_Some in Hx as (ip & Ha & ->). cbn. rewrite IH. f_equal.
  unfold canonical_address. by rewrite (is_ip_String _ _ Ha).
Qed.

(** A reconciliation of [req] against an API server's slices. *)
Lemma Reconcile_from api req w :
  cache_inv (RecordsCache w) →
  (api !! req = None → is_Some (cache_records w !! NamespacedName_String req)) →
  ∃ w', Reconcile (get_from api) req w = (Ok tt, w') ∧ cache_inv (RecordsCache w') ∧
    cache_records w' !! NamespacedName_String req = expected_record api (cache_records w) req ∧
    ∀ key, key ≠ NamespacedName_String req →
      cache_records w' !! key = cache_records w !! key.
Proof.
  intros HI Hgone. destruct (Reconcile_refine (get_from api) req w HI) as [HI' Hrec].
  pose proof (Reconcile_result (get_from api) req w HI) as Hres.
  destruct (Reconcile (get_from api) req w) as [o w']. cbn [fst snd] in *.
  exists w'. rewrite Hrec. unfold spec_reconcile, expected_record in *.
  unfold get_from in *. destruct (api !! req) as [s|]; cbn [IsNotFound] in *.
  - subst o. split_and!; [done|done|..].
    + destruct (wanted_entry _ s); [apply lookup_insert_eq|done].
    + intros key Hk. destruct (wanted_entry _ s); [by apply lookup_insert_ne|done].
  - rewrite decide_False in Hres by (destruct (Hgone eq_refl) as [? ->]; done). subst o.
    split_and!; [done|done|apply lookup_delete_eq|]. intros key Hk. by apply lookup_delete_ne.
Qed.

(** * Properties *)

(** C11: one reconciliation takes the cache's records to what the EndpointSlice
    asks for: its record is filed, a deleted slice's record is removed, and on
    a client error, a missing annotation or an unhandled address type the
    records stay as they are. *)
Theorem Reconcile_refines_records (get : NamespacedName → EndpointSlice + error)
    (req : NamespacedName) (w : EndpointSliceReconciler) :
  cache_inv (RecordsCache w) →
  cache_records (Reconcile get req w).2 = spec_reconcile get req (cache_records w).
Proof. intros HI. by apply Reconcile_refine. Qed.

(** The result of a reconciliation: only a client error other than NotFound
    is returned, and a NotFound for a name without a record is the one way to
    crash. *)
Theorem Reconcile_outcome (get : NamespacedName → EndpointSlice + error)
    (req : NamespacedName) (w : EndpointSliceReconciler) :
  cache_inv (RecordsCache w) →
  (Reconcile get req w).1 =
    match get req with
    | inl _ => Ok tt
    | inr err =>
        if IsNotFound err then
          if decide (cache_records w !! NamespacedName_String req = None) then Panic else Ok tt
        else Err err
    end.
Proof. apply Reconcile_result. Qed.

(** C36: an EndpointSlice that never had the annotation and is then deleted
    crashes the DNS server: the deletion reads the FQDN of a nil entry. *)
Theorem Reconcile_delete_untracked_panics (api : gmap NamespacedName EndpointSlice)
    (req : NamespacedName) (s : EndpointSlice) (w : EndpointSliceReconciler) :
  cache_inv (RecordsCache w) → cache_records w !! NamespacedName_String req = None →
  map_get (om_Annotations (es_meta s)) DNSHostnameAnnotation = None →
  (Reconcile (get_from (<[req := s]> api)) req w).1 = Ok tt ∧
  (Reconcile (get_from (delete req api)) req
     (Reconcile (get_from (<[req := s]> api)) req w).2).1 = Panic.
Proof.
  intros HI Hnone Hs.
  pose proof (Reconcile_refine (get_from (<[req := s]> api)) req w HI) as [HI' Hrec].
  rewrite !Reconcile_result, Hrec by done. unfold spec_reconcile, get_from.
  rewrite lookup_insert_eq, lookup_delete_eq. split; [done|].
  cbn [IsNotFound]. unfold wanted_entry. rewrite Hs. cbn. by rewrite decide_True.
Qed.

(** When its annotation is removed, an EndpointSlice's record stays in the
    cache and its old name goes on resolving. *)
Theorem Reconcile_keeps_stale_record (get : NamespacedName → EndpointSlice + error)
    (req : NamespacedName) (s : EndpointSlice) (w : EndpointSliceReconciler) :
  get req = inl s →
  map_get (om_Annotations (es_meta s)) DNSHostnameAnnotation = None →
  Reconcile get req w = (Ok tt, w).
Proof.
  intros Hget Hs. rewrite (Reconcile_slice get req w s Hget).
  unfold wanted_entry. rewrite Hs. cbn. destruct w. by rewrite app_nil_r.
Qed.

(** From an annotated IPv4 slice the cache stores exactly the addresses that
    parse, in order and in normal form, and the log names those that do not. *)
Theorem Reconcile_ipv4 (get : NamespacedName → EndpointSlice + error)
    (req : NamespacedName) (s : EndpointSlice) (fqdn : string) (w : EndpointSliceReconciler) :
  cache_inv (RecordsCache w) → get req = inl s →
  map_get (om_Annotations (es_meta s)) DNSHostnameAnnotation = Some fqdn →
  es_AddressType s = AddressTypeIPv4 →
  Addresses <$> LookupByResourceKey (NamespacedName_String req)
                  (RecordsCache (Reconcile get req w).2) =
    Some (omap normalise_ip (all_addresses (elems (es_Endpoints s)))) ∧
  ∃ rest, Log (Reconcile get req w).2 =
    Log w ++ invalid_ips (all_addresses (elems (es_Endpoints s))) ++ LogSynced fqdn :: rest.
Proof.
  intros HI Hget Hs Htype. destruct (Reconcile_refine get req w HI) as [HI' Hrec].
  rewrite LookupByResourceKey_abs, Hrec by done. unfold spec_reconcile. rewrite Hget.
  rewrite (Reconcile_slice get req w s Hget).
  unfold wanted_entry, wanted_addresses. rewrite Hs, !decide_True by done. cbn.
  rewrite lookup_insert_eq. cbn. rewrite canonical_normalised. eauto.
Qed.

(** Reconciling each name of a list once, against an API server whose
    slices do not change meanwhile, neither fails nor crashes - provided a
    deleted slice has a record - and leaves every reconciled name with its
    expected record and every other name as it was, in whatever order the names
    came. *)
Theorem Reconcile_converges (api : gmap NamespacedName EndpointSlice)
    (reqs : list NamespacedName) (w : EndpointSliceReconciler) :
  cache_inv (RecordsCache w) → NoDup reqs → Forall valid_nn reqs →
  (∀ n, n ∈ reqs → api !! n = None → is_Some (cache_records w !! NamespacedName_String n)) →
  ∃ w', for_each (Reconcile (get_from api)) reqs w = (Ok tt, w') ∧
    ∀ n, valid_nn n →
      cache_records w' !! NamespacedName_String n =
        if decide (n ∈ reqs) then expected_record api (cache_records w) n
        else cache_records w !! NamespacedName_String n.
Proof.
  intros HI Hnd Hvalid Hgone. revert w HI Hgone.
  induction Hnd as [|req reqs Hni Hnd IH]; intros w HI Hgone.
  { exists w. split; [done|]. intros n _. rewrite decide_False; [done|apply not_elem_of_nil]. }
  apply Forall_cons in Hvalid as [Hv Hvalid].
  destruct (Reconcile_from api req w HI) as (w1 & Hr & HI1 & Hreq & Hother).
  { intros Hapi. apply Hgone; [by constructor|done]. }
  assert (∀ n, valid_nn n → n ≠ req →
    cache_records w1 !! NamespacedName_String n = cache_records w !! NamespacedName_String n)
    as Hn by (intros n Hvn Hne; apply Hother; intros ?%NamespacedName_String_inj; done).
  destruct (IH Hvalid w1 HI1) as (w' & Hrest & Hw').
  { intros n Hin Hapi. rewrite Hn; [apply Hgone; [by constructor|done]| |by intros ->].
    by eapply Forall_forall. }
  exists w'. split; [by rewrite for_each_cons, Hr|].
  intros n Hvn. rewrite Hw' by done. destruct (decide (n = req)) as [->|Hne].
  - rewrite decide_False, decide_True by (done || by constructor). done.
  - unfold expected_record. rewrite Hn by done.
    destruct (decide (n ∈ reqs)); [rewrite decide_True by (by constructor)|
      rewrite decide_False by (by rewrite not_elem_of_cons)]; done.
Qed.

(** After a slice was synced, the log warns exactly when the name's records
    are in a state that DNS cannot answer. *)
Theorem Reconcile_warns (get : NamespacedName → EndpointSlice + error)
    (req : NamespacedName) (s : EndpointSlice) (e : DNSCacheEntry)
    (w : EndpointSliceReconciler) :
  get req = inl s → wanted_entry (NamespacedName_String req) s = Some e →
  last (Log (Reconcile get req w).2) =
    Some (if IsValid (FQDN e) (RecordsCache (Reconcile get req w).2)
          then LogSynced (FQDN e) else LogInvalidState (FQDN e)).
Proof.
  intros Hget He. rewrite (Reconcile_slice get req w s Hget), He. cbn.
  rewrite app_assoc, last_app_cons. by destruct (IsValid _ _).
Qed.

End controller.

(** * Witnesses *)

Definition meta_of (ns name : string) (annotations : list (string * string)) : ObjectMeta :=
  mkMeta name ns (Some (list_to_map annotations)) None "".

Definition example_slice : EndpointSlice :=
  mkEndpointSlice (meta_of "xcc" "one" [(DNSHostnameAnnotation, "Foo.xcc.test")])
    AddressTypeIPv4
    (Some [endpoint_of (Some ["1.2.3.4"; "not.an.ip"]); endpoint_of (Some ["::0:1"])]) None.

Definition plain_slice : EndpointSlice :=
  mkEndpointSlice (meta_of "xcc" "two" []) AddressTypeIPv4 None None.

Definition example_api : gmap NamespacedName EndpointSlice :=
  {[ mkNN "xcc" "one" := example_slice; mkNN "xcc" "two" := plain_slice ]}.

Definition example_state : EndpointSliceReconciler :=
  mkReconciler (run_ops [OpUpsert (mkDNSCacheEntry "xcc/three" "bar.xcc.test" ["2.3.4.5"])]) [].

Lemma example_state_inv : cache_inv (RecordsCache example_state).
Proof. apply reachable_inv, run_ops_reachable. Qed.

Lemma Reconcile_refines_records_witness :
  cache_records (Reconcile (get_from example_api) (mkNN "xcc" "one") example_state).2 =
    spec_reconcile (get_from example_api) (mkNN "xcc" "one") (cache_records example_state).
Proof. apply Reconcile_refines_records. apply example_state_inv. Defined.

Lemma Reconcile_outcome_witness :
  (Reconcile (get_from example_api) (mkNN "xcc" "three") example_state).1 = Ok tt ∧
  (Reconcile (get_from example_api) (mkNN "xcc" "four") example_state).1 = Panic.
Proof.
  split; (rewrite Reconcile_outcome; [vm_compute; reflexivity|apply example_state_inv]).
Defined.

Lemma Reconcile_delete_untracked_panics_witness :
  (Reconcile (get_from (delete (mkNN "xcc" "two") example_api)) (mkNN "xcc" "two")
     (Reconcile (get_from (<[mkNN "xcc" "two" := plain_slice]> example_api))
        (mkNN "xcc" "two") example_state).2).1 = Panic.
Proof.
  apply (Reconcile_delete_untracked_panics example_api (mkNN "xcc" "two") plain_slice);
    [apply example_state_inv|vm_compute; reflexivity..].
Defined.

Lemma Reconcile_keeps_stale_record_witness :
  Reconcile (get_from example_api) (mkNN "xcc" "two") example_state = (Ok tt, example_state).
Proof.
  apply (Reconcile_keeps_stale_record _ _ plain_slice); vm_compute; reflexivity.
Defined.

Lemma Reconcile_ipv4_witness :
  Addresses <$> LookupByResourceKey (NamespacedName_String (mkNN "xcc" "one"))
    (RecordsCache (Reconcile (get_from example_api) (mkNN "xcc" "one") example_state).2) =
    Some ["1.2.3.4"; "::1"].
Proof.
  destruct (Reconcile_ipv4 (get_from example_api) (mkNN "xcc" "one") example_slice "Foo.xcc.test"
              example_state) as [Ha _]; [apply example_state_inv|vm_compute; reflexivity..|].
  rewrite Ha. vm_compute. reflexivity.
Defined.

Lemma Reconcile_converges_witness :
  ∃ w', for_each (Reconcile (get_from example_api))
          [mkNN "xcc" "one"; mkNN "xcc" "three"; mkNN "xcc" "two"] example_state = (Ok tt, w') ∧
    cache_records w' !! "xcc/three" = None.
Proof.
  destruct (Reconcile_converges example_api [mkNN "xcc" "one"; mkNN "xcc" "three"; mkNN "xcc" "two"]
              example_state) as (w' & Hrun & Hw').
  - apply example_state_inv.
  - apply (bool_decide_unpack _). vm_compute. exact I.
  - by repeat constructor.
  - intros n Hn Hapi. repeat apply elem_of_cons in Hn as [->|Hn];
      [vm_compute in Hapi; done|vm_compute; by eexists|vm_compute in Hapi; done|].
    by apply not_elem_of_nil in Hn.
  - exists w'. split; [exact Hrun|]. exact (Hw' (mkNN "xcc" "three") eq_refl).
Defined.

Lemma Reconcile_warns_witness :
  last (Log (Reconcile (get_from example_api) (mkNN "xcc" "one") example_state).2) =
    Some (LogSynced "Foo.xcc.test").
Proof.
  rewrite (Reconcile_warns (get_from example_api) (mkNN "xcc" "one") example_slice
             (mkDNSCacheEntry "xcc/one" "Foo.xcc.test" ["1.2.3.4"; "::1"]) example_state
             eq_refl); vm_compute; reflexivity.
Defined.
