(* ===== verification/ServerTrace.v ===== *)
(** The DNS server over time: EndpointSlices come, change and go on the API
    server while the controller reconciles names, some of its reads failing.
    Once the changes of a name are followed by a reconciliation of it, the
    cache holds what the slice asks for. *)
From S2P Require Import Prelude GoStrings GoNet DNSLib Cache CacheSpec K8s EndpointSliceDNS.
From S2P Require Import EndpointSliceDNSSpec.
#[local] Open Scope string_scope.
#[local] Open Scope list_scope.

(** * Definitions *)

Abbreviation api_slices := (gmap NamespacedName EndpointSlice).

Inductive server_event :=
  | SliceSet (n : NamespacedName) (s : EndpointSlice)
  | SliceRemoved (n : NamespacedName)
  | Reconciled (n : NamespacedName)
  | GetFailed (n : NamespacedName) (err : error).

Definition event_name (ev : server_event) : NamespacedName :=
  match ev with SliceSet n _ | SliceRemoved n | Reconciled n | GetFailed n _ => n end.

(** A failed read is no answer that the slice is gone. *)
Definition event_ok (ev : server_event) : Prop :=
  valid_nn (event_name ev) ∧ match ev with GetFailed _ err => IsNotFound err = false | _ => True end.

Definition api_event (api : api_slices) (ev : server_event) : api_slices :=
  match ev with
  | SliceSet n s => <[n := s]> api
  | SliceRemoved n => delete n api
  | _ => api
  end.

(** One event: an error of [Reconcile] goes back to the queue, a panic ends the
    server. *)
Definition server_step `{DNSLib, Naming} (ev : server_event)
    : M (api_slices * EndpointSliceReconciler) unit := λ w,
  let reconcile get n :=
    let '(res, r) := Reconcile get n w.2 in
    (match res with Panic => Panic | _ => Ok tt end, (w.1, r)) in
  match ev with
  | Reconciled n => reconcile (get_from w.1) n
  | GetFailed n err => reconcile (λ _, inr err) n
  | _ => (Ok tt, (api_event w.1 ev, w.2))
  end.

(** The abstract server. *)
Definition spec_event `{DNSLib, Naming} (ar : api_slices * records) (ev : server_event)
    : api_slices * records :=
  (api_event ar.1 ev,
   match ev with Reconciled n => spec_reconcile (get_from ar.1) n ar.2 | _ => ar.2 end).

(** No name is reconciled as gone that has no record: the server would crash on it. *)
Fixpoint tracked `{DNSLib, Naming} (evs : list server_event) (ar : api_slices * records) : bool :=
  match evs with
  | [] => true
  | ev :: evs =>
      match ev with
      | Reconciled n =>
          bool_decide (is_Some (ar.1 !! n) ∨ is_Some (ar.2 !! NamespacedName_String n))
      | _ => true
      end && tracked evs (spec_event ar ev)
  end.

(** Whether [n] waits for a reconciliation; at the start every name does. *)
Definition pending_after (n : NamespacedName) (p : bool) (ev : server_event) : bool :=
  if decide (event_name ev = n)
  then match ev with SliceSet _ _ | SliceRemoved _ => true | Reconciled _ => false | GetFailed _ _ => p end
  else p.
Definition pending (n : NamespacedName) (evs : list server_event) : bool :=
  foldl (pending_after n) true evs.

(** The record of [n] is the one its slice asks for.  A slice without the
    annotation or with another address type asks for nothing. *)
Definition up_to_date `{DNSLib, Naming} (api : api_slices) (r : records) (n : NamespacedName) : Prop :=
  match api !! n with
  | None => r !! NamespacedName_String n = None
  | Some s => ∀ e, wanted_entry (NamespacedName_String n) s = Some e →
      r !! NamespacedName_String n = Some (record_of e)
  end.

(** * Lemmas *)

Section server.
Context `{DNSLibLaws, NamingLaws}.

Lemma spec_reconcile_other api n r key :
  key ≠ NamespacedName_String n → spec_reconcile (get_from api) n r !! key = r !! key.
Proof.
  intros Hk. unfold spec_reconcile, get_from. destruct (api !! n) as [s|]; cbn [IsNotFound].
  - destruct (wanted_entry (NamespacedName_String n) s); [|done]. by rewrite lookup_insert_ne.
  - by rewrite lookup_delete_ne.
Qed.

Lemma spec_reconcile_here api n r : up_to_date api (spec_reconcile (get_from api) n r) n.
Proof.
  unfold up_to_date, spec_reconcile, get_from. destruct (api !! n) as [s|]; cbn [IsNotFound].
  - intros e He. by rewrite He, lookup_insert_eq.
  - by rewrite lookup_delete_eq.
Qed.

(** The invariant of the abstract server: who does not wait is up to date. *)
Lemma spec_event_inv ev ar (p : NamespacedName → bool) :
  event_ok ev →
  (∀ n, valid_nn n → p n = false → up_to_date ar.1 ar.2 n) →
  ∀ n, valid_nn n → pending_after n (p n) ev = false →
    up_to_date (spec_event ar ev).1 (spec_event ar ev).2 n.
Proof.
  intros [Hv Hev] Hp n Hn. unfold pending_after. destruct (decide (event_name ev = n)) as [<-|Hne].
  - destruct ev as [n s|n|n|n err]; cbn in *; try done.
    + intros _. apply spec_reconcile_here.
    + by apply Hp.
  - intros Hpn. specialize (Hp n Hn Hpn). destruct ev as [m s|m|m|m err]; cbn in *; unfold up_to_date in *.
    + by rewrite lookup_insert_ne.
    + by rewrite lookup_delete_ne.
    + rewrite spec_reconcile_other; [done|]. intros Heq%NamespacedName_String_inj; [by subst|done..].
    + done.
Qed.

Lemma spec_events_inv evs ar (p : NamespacedName → bool) :
  Forall event_ok evs →
  (∀ n, valid_nn n → p n = false → up_to_date ar.1 ar.2 n) →
  ∀ n, valid_nn n → foldl (pending_after n) (p n) evs = false →
    up_to_date (foldl spec_event ar evs).1 (foldl spec_event ar evs).2 n.
Proof.
  intros Hevs. revert ar p. induction Hevs as [|ev evs Hev Hevs IH]; intros ar p Hp n Hn; cbn.
  - by apply Hp.
  - apply (IH _ (λ n, pending_after n (p n) ev)); [|done]. by apply spec_event_inv.
Qed.

(** The server refines the abstract one. *)
Lemma server_step_refines ev api w :
  cache_inv (RecordsCache w) → event_ok ev → tracked [ev] (api, cache_records w) = true →
  ∃ w', server_step ev (api, w) = (Ok tt, (api_event api ev, w')) ∧ cache_inv (RecordsCache w') ∧
    cache_records w' = (spec_event (api, cache_records w) ev).2.
Proof.
  intros HI [_ Hev] Ht. destruct ev as [n s|n|n|n err];
    unfold server_step, spec_event; cbn [fst snd api_event tracked] in *; [by eexists..| |].
  - rewrite andb_true_r in Ht. apply bool_decide_eq_true in Ht.
    destruct (Reconcile_refine (get_from api) n w HI) as [HI' Hr].
    pose proof (Reconcile_result (get_from api) n w HI) as Hres.
    destruct (Reconcile (get_from api) n w) as [res w']. cbn in *. exists w'. split; [|done].
    unfold get_from in Hres. destruct (api !! n) as [s|]; [by subst res|]. cbn in Hres.
    rewrite decide_False in Hres by (destruct Ht as [[]|[? Hs]]; congruence). by subst res.
  - destruct (Reconcile_refine (λ _, inr err) n w HI) as [HI' Hr].
    pose proof (Reconcile_result (λ _, inr err) n w HI) as Hres.
    cbn beta iota in Hres. rewrite Hev in Hres.
    destruct (Reconcile (λ _, inr err) n w) as [res w']. cbn [fst snd] in *. subst res. exists w'.
    unfold spec_reconcile in Hr. by rewrite Hev in Hr.
Qed.

Lemma server_refines evs api w :
  cache_inv (RecordsCache w) → Forall event_ok evs → tracked evs (api, cache_records w) = true →
  ∃ w', for_each server_step evs (api, w) = (Ok tt, (foldl api_event api evs, w')) ∧
    cache_inv (RecordsCache w') ∧
    cache_records w' = (foldl spec_event (api, cache_records w) evs).2.
Proof.
  intros HI Hevs. revert api w HI. induction Hevs as [|ev evs Hev Hevs IH]; intros api w HI Ht.
  { by exists w. }
  cbn in Ht. apply andb_true_iff in Ht as [Ht1 Ht].
  destruct (server_step_refines ev api w HI Hev) as (w1 & Hstep & HI1 & Hr).
  { cbn. by rewrite Ht1. }
  unfold spec_event in Ht. cbn [fst snd] in Ht. unfold spec_event in Hr. cbn [fst snd] in Hr.
  rewrite <-Hr in Ht. destruct (IH _ _ HI1 Ht) as (w' & Hrun & HI' & Hr').
  exists w'. rewrite for_each_cons, Hstep, Hrun. split; [done|]. split; [done|].
  rewrite Hr'. cbn [foldl]. unfold spec_event at 3. cbn [fst snd]. by rewrite Hr.
Qed.

Lemma spec_api evs ar : (foldl spec_event ar evs).1 = foldl api_event ar.1 evs.
Proof. revert ar. induction evs as [|ev evs IH]; intros ar; [done|]. cbn. by rewrite IH. Qed.

(** The cache after a history, for the names that do not wait. *)
Lemma server_synced api w evs :
  cache_inv (RecordsCache w) → Forall event_ok evs → tracked evs (api, cache_records w) = true →
  ∃ w', for_each server_step evs (api, w) = (Ok tt, (foldl api_event api evs, w')) ∧
    cache_inv (RecordsCache w') ∧
    ∀ n, valid_nn n → pending n evs = false →
      up_to_date (foldl api_event api evs) (cache_records w') n.
Proof.
  intros Hinv Hevs Htracked.
  destruct (server_refines evs api w Hinv Hevs Htracked) as (w' & Hrun & HI & Hr).
  exists w'. split; [done|]. split; [done|]. intros n Hn Hp.
  rewrite Hr. pose proof (spec_events_inv evs (api, cache_records w) (λ _, true) Hevs) as Hup.
  rewrite spec_api in Hup. by apply Hup.
Qed.

(** * Properties *)


End server.

(** * Witnesses *)

(** A slice that is created, not read at first, read, changed and read again,
    and one that comes and goes. *)
Definition a_history : list server_event :=
  [SliceSet (mkNN "xcc" "one") plain_slice;
   GetFailed (mkNN "xcc" "one") (ErrStatus ReasonOther "timeout");
   SliceSet (mkNN "xcc" "one") example_slice; Reconciled (mkNN "xcc" "one");
   SliceSet (mkNN "xcc" "two") example_slice; Reconciled (mkNN "xcc" "two");
   SliceRemoved (mkNN "xcc" "two"); Reconciled (mkNN "xcc" "two")].

