(* ===== verification/KubeMem.v ===== *)
(** An in-memory instance of the interface of [Kube.v]: workload clusters as
    finite maps of slices, services and namespaces, some of them unreachable.
    It validates what is written and satisfies the laws of an API server, so
    the theorems that assume them can be applied to it. *)
From S2P Require Import Prelude GoStrings GoNet K8s Kube.
#[local] Open Scope string_scope.
#[local] Open Scope list_scope.

(** * Definitions *)

(** Equality based selectors; a requirement without a key is invalid. *)
#[export] Instance equality_selectors : LabelSelectors := {|
  LabelSelector := list (string * string);
  Selector := list (string * string);
  LabelSelectorAsSelector l :=
    if decide ("" ∈ l.*1) then inr (ErrNew "invalid label selector") else inl l;
  Selector_Matches l labels := forallb (λ r, bool_decide (labels !! r.1 = Some r.2)) l;
|}.

(** Which clusters are down and which namespaces there are does not change
    during a run. *)
Record MemNetwork := mkMemNetwork {
  mem_down : gset NamespacedName;
  mem_namespaces : gset (NamespacedName * string);
}.

Record MemWorld := mkMemWorld {
  mem_slices : gmap NamespacedName slices;
  mem_services : gmap (NamespacedName * NamespacedName) Service;
  mem_gatewaydns : gmap NamespacedName GatewayDNS;
  mem_clusters : gmap NamespacedName Cluster;
}.

(** The slices of a cluster: the objects kept under their own name. *)
Definition mem_store (c : NamespacedName) (w : MemWorld) : slices :=
  filter (λ p, slice_key p.2 = p.1) (default ∅ (mem_slices w !! c)).

Definition mem_put (c : NamespacedName) (m : slices) (w : MemWorld) : MemWorld :=
  mkMemWorld (<[c := m]> (mem_slices w)) (mem_services w) (mem_gatewaydns w) (mem_clusters w).

Definition with_version (v : string) (s : EndpointSlice) : EndpointSlice :=
  mkEndpointSlice
    (mkMeta (om_Name (es_meta s)) (om_Namespace (es_meta s)) (om_Annotations (es_meta s))
       (om_Labels (es_meta s)) v)
    (es_AddressType s) (es_Endpoints s) (es_Ports s).

Definition not_found : error := ErrStatus ReasonNotFound "not found".
Definition conflict : error := ErrStatus ReasonOther "the object has been modified".
Definition invalid : error := ErrStatus ReasonOther "field is immutable".
Definition exists_already : error := ErrStatus ReasonAlreadyExists "already exists".
Definition unreachable : error := ErrNew "cluster is unreachable".

Definition answer {A : Type} (o : option A) : A + error :=
  match o with Some a => inl a | None => inr not_found end.

(** What validation says of the addresses of an EndpointSlice: each endpoint has
    between one and a hundred, and those of an IPv4 slice are IPv4 addresses. *)
Definition valid_addresses_of (at_ : string) (ep : Endpoint) : bool :=
  let addresses := elems (ep_Addresses ep) in
  bool_decide (1 ≤ length addresses ≤ 100)%nat &&
  (bool_decide (at_ ≠ AddressTypeIPv4) ||
   forallb (λ a, bool_decide (is_Some (parseIPv4 (to_bytes a)))) addresses).

Definition valid_slice (s : EndpointSlice) : bool :=
  forallb (valid_addresses_of (es_AddressType s)) (elems (es_Endpoints s)).

Abbreviation valid := (λ s : EndpointSlice, valid_slice s = true).

Definition mem_GetClient (net : MemNetwork) (n : NamespacedName) : Call MemWorld NamespacedName := λ w,
  (if decide (n ∈ mem_down net) then inr unreachable else inl n, w).

Definition mem_GetNamespace (net : MemNetwork) (c : NamespacedName) (ns : string) : Call MemWorld unit := λ w,
  (if decide ((c, ns) ∈ mem_namespaces net) then inl tt else inr not_found, w).

Definition mem_List (c : NamespacedName) (ns : string) : Call MemWorld (list EndpointSlice) := λ w,
  (inl (filter (λ s, om_Namespace (es_meta s) = ns) (map_to_list (mem_store c w)).*2), w).

Definition mem_Create (c : NamespacedName) (s : EndpointSlice) : Call MemWorld unit := λ w,
  match mem_store c w !! slice_key s with
  | Some _ => (inr exists_already, w)
  | None =>
      if valid_slice s
      then (inl tt, mem_put c (<[slice_key s := with_version "1" s]> (mem_store c w)) w)
      else (inr invalid, w)
  end.

Definition mem_Update (c : NamespacedName) (s : EndpointSlice) : Call MemWorld unit := λ w,
  match mem_store c w !! slice_key s with
  | None => (inr not_found, w)
  | Some o =>
      if decide (om_ResourceVersion (es_meta s) ≠ om_ResourceVersion (es_meta o))
      then (inr conflict, w)
      else if decide (es_AddressType s ≠ es_AddressType o) then (inr invalid, w)
      else if negb (valid_slice s) then (inr invalid, w)
      else (inl tt, mem_put c (<[slice_key s :=
              with_version (om_ResourceVersion (es_meta o) +:+ "1") s]> (mem_store c w)) w)
  end.

Definition mem_Delete (c : NamespacedName) (s : EndpointSlice) : Call MemWorld unit := λ w,
  match mem_store c w !! slice_key s with
  | None => (inr not_found, w)
  | Some _ => (inl tt, mem_put c (delete (slice_key s) (mem_store c w)) w)
  end.

Definition mem_kube (net : MemNetwork) : Kube MemWorld := {|
  Client := NamespacedName;
  GetClient := mem_GetClient net;
  GetNamespace := mem_GetNamespace net;
  GetService c n := λ w, (answer (mem_services w !! (c, n)), w);
  GetEndpointSlice c n := λ w, (answer (mem_store c w !! n), w);
  ListEndpointSlices := mem_List;
  CreateEndpointSlice := mem_Create;
  UpdateEndpointSlice := mem_Update;
  DeleteEndpointSlice := mem_Delete;
|}.

Definition in_namespace (ns : option string) (m : ObjectMeta) : bool :=
  match ns with Some ns => bool_decide (om_Namespace m = ns) | None => true end.

Definition selected (sel : option Selector) (m : ObjectMeta) : bool :=
  match sel with Some sel => Selector_Matches sel (entries_of (om_Labels m)) | None => true end.

(** The objects of the management cluster kept under their own name. *)
Definition mem_gds (w : MemWorld) : gmap NamespacedName GatewayDNS :=
  filter (λ p, meta_key (gd_meta p.2) = p.1) (mem_gatewaydns w).
Definition mem_cls (w : MemWorld) : list Cluster :=
  (map_to_list (filter (λ p, meta_key (cl_meta p.2) = p.1) (mem_clusters w))).*2.

#[export] Instance mem_management : Management MemWorld := {|
  GetGatewayDNS n := λ w, (answer (mem_gds w !! n), w);
  ListGatewayDNS ns := λ w, (inl (mkGatewayDNSList
    (List.filter (λ gd, in_namespace ns (gd_meta gd)) (map_to_list (mem_gds w)).*2)), w);
  ListClusters sel ns := λ w, (inl
    (List.filter (λ c, in_namespace (Some ns) (cl_meta c) && selected sel (cl_meta c))
       (mem_cls w)), w);
|}.

(** * Lemmas *)

Lemma mem_store_put c c' m w :
  map_Forall (λ n s, slice_key s = n) m →
  mem_store c (mem_put c' m w) = if decide (c = c') then m else mem_store c w.
Proof.
  intros Hm. unfold mem_store, mem_put. cbn. case_decide as Hc.
  - subst c'. rewrite lookup_insert_eq. cbn. apply map_filter_id. intros n s Hs. by apply Hm.
  - by rewrite lookup_insert_ne by done.
Qed.

Lemma mem_keys c w : map_Forall (λ n s, slice_key s = n) (mem_store c w).
Proof. intros n s [_ Hk]%map_lookup_filter_Some. exact Hk. Qed.

#[local] Hint Resolve mem_keys : core.

Lemma mem_keys_insert c w n s :
  slice_key s = n → map_Forall (λ n s, slice_key s = n) (<[n := s]> (mem_store c w)).
Proof. intros Hk. by apply map_Forall_insert_2. Qed.

Lemma with_version_same v s : same_content s (with_version v s).
Proof. done. Qed.

#[export] Instance with_version_proper v : Proper (same_content ==> same_content) (with_version v).
Proof. intros s s' Hs. exact Hs. Qed.

Lemma mem_api_server net c : api_server (W := MemWorld) (H := mem_kube net) c (mem_store c) valid.
Proof.
  split; cbn.
  - intros w n s Hs. by apply (mem_keys c w).
  - intros w ns. by eexists.
  - intros w n s ->. done.
  - intros w s Hs Hv. unfold mem_Create. rewrite Hs, Hv.
    eexists _, _. split; [done|]. split; [|apply with_version_same].
    rewrite mem_store_put by by apply mem_keys_insert. by rewrite decide_True.
  - intros w s [o Ho]. unfold mem_Create. rewrite Ho. by eexists.
  - intros w s o Ho Hs Hv Hat. unfold mem_Update. rewrite Ho, !decide_False, Hs by tauto. cbn.
    eexists _, _. split; [done|]. split; [|apply with_version_same].
    rewrite mem_store_put by by apply mem_keys_insert. by rewrite decide_True.
  - intros w s [o Ho]. unfold mem_Delete. rewrite Ho. eexists. split; [done|].
    rewrite mem_store_put by by apply map_Forall_delete. by rewrite decide_True.
Qed.

Lemma mem_api_frame net : api_frame (W := MemWorld) (H := mem_kube net) mem_store.
Proof.
  split; try done; cbn; intros c' s w c Hc.
  - unfold mem_Create. destruct (mem_store c' w !! slice_key s); [done|]. destruct (valid_slice s); [|done]. cbn.
    rewrite mem_store_put by by apply mem_keys_insert. by rewrite decide_False.
  - unfold mem_Update. destruct (mem_store c' w !! slice_key s) as [o|]; [|done].
    repeat case_decide; try done. destruct (valid_slice s); [|done]. cbn.
    rewrite mem_store_put by by apply mem_keys_insert. by rewrite decide_False.
  - unfold mem_Delete. destruct (mem_store c' w !! slice_key s); [|done]. cbn.
    rewrite mem_store_put by by apply map_Forall_delete. by rewrite decide_False.
Qed.

Lemma mem_api_keyed net c : api_keyed (W := MemWorld) (H := mem_kube net) c (mem_store c).
Proof.
  split; cbn.
  - intros w n s w'. destruct (mem_store c w !! n) as [o|] eqn:Ho; [|done]. cbn.
    intros [= -> _]. by apply (mem_keys c w).
  - intros w s n. unfold mem_Create. destruct (mem_store c w !! slice_key s); [by left|].
    destruct (valid_slice s); [|by left]. cbn.
    rewrite mem_store_put, decide_True by (done || by apply mem_keys_insert).
    destruct (decide (slice_key s = n)) as [<-|Hne].
    + right. split; [done|]. eexists. by rewrite lookup_insert_eq.
    + left. by rewrite lookup_insert_ne.
  - intros w s n. unfold mem_Update. destruct (mem_store c w !! slice_key s) as [o|]; [|by left].
    repeat case_decide; [by left..|]. destruct (valid_slice s); [|by left]. cbn.
    rewrite mem_store_put, decide_True by (done || by apply mem_keys_insert).
    destruct (decide (slice_key s = n)) as [<-|Hne].
    + right. split; [done|]. eexists. by rewrite lookup_insert_eq.
    + left. by rewrite lookup_insert_ne.
  - intros w s n. unfold mem_Delete. destruct (mem_store c w !! slice_key s); [|by left]. cbn.
    rewrite mem_store_put, decide_True by (done || by apply map_Forall_delete).
    destruct (decide (slice_key s = n)) as [<-|Hne].
    + right. split; [done|]. by rewrite lookup_delete_eq.
    + left. by rewrite lookup_delete_ne.
Qed.

(** The services of a cluster. *)
Definition mem_services_of (c : NamespacedName) (w : MemWorld) : gmap NamespacedName Service :=
  list_to_map (omap (λ p, if decide (p.1.1 = c) then Some (p.1.2, p.2) else None)
    (map_to_list (mem_services w))).

Lemma mem_services_lookup c n w : mem_services_of c w !! n = mem_services w !! (c, n).
Proof.
  unfold mem_services_of. apply option_eq. intros svc.
  assert (∀ l : list (NamespacedName * NamespacedName * Service),
    NoDup l.*1 → NoDup (omap (λ p, if decide (p.1.1 = c) then Some (p.1.2, p.2) else None) l).*1 ∧
    ((n, svc) ∈ omap (λ p, if decide (p.1.1 = c) then Some (p.1.2, p.2) else None) l ↔ ((c, n), svc) ∈ l))
    as Hl.
  { intros l Hnd. split.
    - induction l as [|[[c' n'] s'] l IH]; cbn in Hnd |- *; [constructor|].
      apply NoDup_cons in Hnd as [Hni Hnd]. specialize (IH Hnd). case_decide as Hc; [|done].
      cbn. apply NoDup_cons. split; [|done]. subst c'. intros Hin. apply Hni.
      apply list_elem_of_fmap in Hin as ([n2 s2] & -> & Hin).
      apply list_elem_of_omap in Hin as ([[c3 n3] s3] & Hin & Hd). cbn in Hd.
      case_decide; [|done]. injection Hd as -> ->. subst c3.
      apply list_elem_of_fmap. by exists ((c, n2), s2).
    - rewrite list_elem_of_omap. split.
      + intros ([[c' n'] s'] & Hin & Hd). cbn in Hd. case_decide; [|done].
        injection Hd as -> ->. by subst c'.
      + intros Hin. exists ((c, n), svc). split; [done|]. cbn. by rewrite decide_True. }
  destruct (Hl (map_to_list (mem_services w)) (NoDup_fst_map_to_list _)) as [Hnd Hin].
  rewrite <-(elem_of_map_to_list (mem_services w)), <-Hin. split.
  - apply elem_of_list_to_map_2.
  - by apply elem_of_list_to_map_1.
Qed.

Lemma mem_service_api net ok :
  service_api (W := MemWorld) (H := mem_kube net) mem_services_of (λ n, n) ok.
Proof.
  split; cbn.
  - intros c n w svc. rewrite mem_services_lookup.
    destruct (mem_services w !! (c, n)); cbn; [by intros [= ->]|done].
  - intros c n w err. rewrite mem_services_lookup. by destruct (mem_services w !! (c, n)).
  - intros cl n w err _. destruct (mem_services w !! (cl, n)); cbn; [done|]. by intros [= <-].
Qed.
