(* ===== verification/ClusterGateway.v ===== *)
(** The gateways of workload clusters:
    [pkg/controllers/gatewaydns/cluster_gateway.go],
    [cluster_gateway_collector.go] and [cluster_searcher.go]. *)
From S2P Require Import Prelude GoStrings K8s Kube.
#[local] Open Scope string_scope.
#[local] Open Scope list_scope.

(** * Definitions *)

(** ** [cluster_gateway.go] *)

Record ClusterGateway := mkClusterGateway {
  ClusterNamespacedName : NamespacedName;
  Gateway : option Service;
  Unreachable : bool;
  DomainSuffix : string;
  ControllerNamespace : string;
  GatewayDNSNamespacedName : NamespacedName;
}.

Definition endpointSliceName (cg : ClusterGateway) : string :=
  nn_namespace (ClusterNamespacedName cg) +:+ "-" +:+
  nn_name (ClusterNamespacedName cg) +:+ "-gateway".

Definition gateway_hostname (cg : ClusterGateway) : string :=
  "*.gateway." +:+ nn_name (ClusterNamespacedName cg) +:+ "." +:+
  nn_namespace (ClusterNamespacedName cg) +:+ ".clusters." +:+ DomainSuffix cg.

(** Reading the status of a nil [Gateway] panics. *)
Definition ToEndpointSlice `{Naming} (cg : ClusterGateway) : outcome EndpointSlice :=
  match Gateway cg with
  | None => Panic
  | Some gateway =>
      let addresses := ing_IP <$> elems (svc_Ingress gateway) in
      Ok (mkEndpointSlice
            (mkMeta (endpointSliceName cg) (ControllerNamespace cg)
               (Some {[ DNSHostnameAnnotation := gateway_hostname cg;
                        GatewayDNSRefAnnotation :=
                          NamespacedName_String (GatewayDNSNamespacedName cg) ]})
               (Some {[ "kubernetes.io/service-name" := endpointSliceName cg ]}) "")
            AddressTypeIPv4 (Some [endpoint_of (Some addresses)]) None)
  end.

Definition ClusterGateway_EndpointSliceKey (cg : ClusterGateway) : string :=
  ControllerNamespace cg +:+ "/" +:+ endpointSliceName cg.

Definition EndpointSliceKey (s : EndpointSlice) : string :=
  om_Namespace (es_meta s) +:+ "/" +:+ om_Name (es_meta s).

(** ** [cluster_gateway_collector.go] *)

Record ClusterGatewayCollector := mkCollector {
  col_DomainSuffix : string;
  col_Namespace : string;
}.

Definition newNamespacedNameFromString (s : string) : NamespacedName :=
  match Split s "/" with
  | [ns; name] => mkNN ns name
  | _ => mkNN "" ""
  end.

Definition isLoadBalancerWithExternalIP (service : Service) : bool :=
  if decide (svc_Type service ≠ ServiceTypeLoadBalancer) then false
  else if decide (length (elems (svc_Ingress service)) = 0) then false
  else true.

Definition getExternalIPsFromStatus (service : Service) : list string :=
  ing_IP <$> elems (svc_Ingress service).

Section collector.
Context {W : Type} `{Kube W}.

(** The Go function returns a service pointer and an error: nil and nil is
    [Ok None]. *)
Definition getLoadBalancerServiceForCluster (serviceNamespacedName : NamespacedName)
    (cluster : Cluster) : M W (option Service) :=
  call (GetClient (meta_key (cl_meta cluster))) ≫= λ clusterClient,
  call_try (GetService clusterClient serviceNamespacedName) ≫= λ r,
  match r with
  | inr err => if IsNotFound err then mret None else throw err
  | inl service =>
      if isLoadBalancerWithExternalIP service then mret (Some service) else mret None
  end.

(** One iteration of the loop of [GetGatewaysForClusters]. *)
Definition collect_gateway (e : ClusterGatewayCollector) (gatewayDNS : NamespacedName)
    (service : NamespacedName) (clusterGateways : list ClusterGateway) (cluster : Cluster)
    : M W (list ClusterGateway) :=
  try (getLoadBalancerServiceForCluster service cluster) ≫= λ r,
  let service := match r with inl service => service | inr _ => None end in
  let err := match r with inl _ => false | inr _ => true end in
  let clusterGateway :=
    mkClusterGateway (meta_key (cl_meta cluster)) service err
      (col_DomainSuffix e) (col_Namespace e) gatewayDNS in
  if err || bool_decide (is_Some service)
  then mret (clusterGateways ++ [clusterGateway])
  else mret clusterGateways.

Definition GetGatewaysForClusters `{LabelSelectors} (e : ClusterGatewayCollector)
    (gatewayDNS : GatewayDNS) (clusters : list Cluster) : M W (list ClusterGateway) :=
  let gatewayDNSSpecService := newNamespacedNameFromString (spec_Service (gd_Spec gatewayDNS)) in
  fold_each
    (collect_gateway e (meta_key (gd_meta gatewayDNS)) gatewayDNSSpecService) [] clusters.

End collector.

(** ** [cluster_searcher.go] *)

Definition ListMatchingClusters {W : Type} `{Management W} (gatewayDNS : GatewayDNS)
    : M W (list Cluster) :=
  match LabelSelectorAsSelector (spec_ClusterSelector (gd_Spec gatewayDNS)) with
  | inr err => throw err
  | inl selector =>
      call (ListClusters (Some selector) (om_Namespace (gd_meta gatewayDNS)))
  end.
