(* ===== verification/ClusterGatewaySpec.v ===== *)
(** What the gateway collection promises: how a service reference is read, which
    gateways are collected, and that every reachable one can be turned into
    the EndpointSlice filed under its key. *)
From S2P Require Import Prelude GoStrings K8s Kube KubeMem ClusterGateway.
#[local] Open Scope string_scope.
#[local] Open Scope list_scope.

(** * Definitions *)

Definition slash_free (n : NamespacedName) : Prop :=
  has_byte "/" (nn_namespace n) = false ∧ has_byte "/" (nn_name n) = false.

(** What holds of every collected gateway. *)
Definition gateway_ok `{LabelSelectors} (e : ClusterGatewayCollector) (gd : GatewayDNS)
    (cg : ClusterGateway) : Prop :=
  DomainSuffix cg = col_DomainSuffix e ∧
  ControllerNamespace cg = col_Namespace e ∧
  GatewayDNSNamespacedName cg = meta_key (gd_meta gd) ∧
  if Unreachable cg then Gateway cg = None
  else ∃ svc, Gateway cg = Some svc ∧ svc_Type svc = ServiceTypeLoadBalancer ∧
         getExternalIPsFromStatus svc ≠ [].

(** The gateway of one cluster, as a function of the answers of its API. *)
Definition gateway_of {W : Type} `{Kube W, LabelSelectors} (e : ClusterGatewayCollector)
    (gd : GatewayDNS) (w : W) (cluster : Cluster) : option ClusterGateway :=
  let service := newNamespacedNameFromString (spec_Service (gd_Spec gd)) in
  let gateway svc failed := Some (mkClusterGateway (meta_key (cl_meta cluster)) svc failed
    (col_DomainSuffix e) (col_Namespace e) (meta_key (gd_meta gd))) in
  match fst (GetClient (meta_key (cl_meta cluster)) w) with
  | inr _ => gateway None true
  | inl c =>
      match fst (GetService c service w) with
      | inr err => if IsNotFound err then None else gateway None true
      | inl svc => if isLoadBalancerWithExternalIP svc then gateway (Some svc) false else None
      end
  end.

(** A load balancer that has published an address or a host name. *)
Definition load_balancer (svc : Service) : Prop :=
  svc_Type svc = ServiceTypeLoadBalancer ∧ elems (svc_Ingress svc) ≠ [].

(** The gateway of a cluster by the outcome of looking for its service. *)
Definition lookup_gateway (e : ClusterGatewayCollector) (gd : NamespacedName) (cluster : Cluster)
    (r : outcome (option Service)) : option ClusterGateway :=
  let gateway svc failed := Some (mkClusterGateway (meta_key (cl_meta cluster)) svc failed
    (col_DomainSuffix e) (col_Namespace e) gd) in
  match r with
  | Ok (Some svc) => gateway (Some svc) false
  | Ok None => None
  | _ => gateway None true
  end.

(** * Lemmas *)

(** A string that holds the separator splits in at least two. *)
Lemma Split_one s sep b : Split s sep = [b] → has_byte sep s = false ∧ s = b.
Proof.
  revert b. induction s as [|c s IH]; intros b; cbn; [by intros [= <-]|].
  case_decide as Hc; [intros [= _ Hnil]; by apply Split_not_nil in Hnil|].
  rewrite bool_decide_eq_false_2 by done. cbn.
  pose proof (Split_not_nil s sep) as Hnil.
  destruct (Split s sep) as [|h t]; [done|]. intros [= <- ->]. by destruct (IH h) as [-> ->].
Qed.

Lemma Split_two s sep a b :
  Split s sep = [a; b] ↔
  s = a +:+ String sep b ∧ has_byte sep a = false ∧ has_byte sep b = false.
Proof.
  split; [|intros (-> & Ha & Hb); by rewrite Split_app, Split_none].
  revert a. induction s as [|c s IH]; intros a; cbn; [done|].
  case_decide as Hc.
  - subst c. intros [= <- [Hb ->]%Split_one]. done.
  - pose proof (Split_not_nil s sep) as Hnil.
    destruct (Split s sep) as [|h t]; [done|]. intros [= <- ->].
    destruct (IH h) as (-> & Ha & Hb); [done|]. split; [done|]. cbn.
    by rewrite bool_decide_eq_false_2, Ha.
Qed.

Section collector.
Context {W : Type} `{Kube W, LabelSelectors}.
Implicit Types (e : ClusterGatewayCollector) (gd : GatewayDNS).

Lemma isLoadBalancerWithExternalIP_true svc :
  isLoadBalancerWithExternalIP svc = true ↔
  svc_Type svc = ServiceTypeLoadBalancer ∧ getExternalIPsFromStatus svc ≠ [].
Proof.
  unfold isLoadBalancerWithExternalIP, getExternalIPsFromStatus.
  destruct (elems (svc_Ingress svc)); repeat case_decide; naive_solver.
Qed.

(** The lookup of the service never panics and finds a load balancer or nothing. *)
Lemma getLoadBalancerService_result n cl w :
  match getLoadBalancerServiceForCluster n cl w with
  | (Ok (Some svc), _) => isLoadBalancerWithExternalIP svc = true
  | (Ok None, _) | (Err _, _) => True
  | (Panic, _) => False
  end.
Proof.
  unfold getLoadBalancerServiceForCluster, call, call_try. run_m.
  destruct (GetClient _ w) as [[c|err] w1]; [|done].
  destruct (GetService c n w1) as [[svc|err] w2].
  - by destruct (isLoadBalancerWithExternalIP svc) eqn:Hlb.
  - by destruct (IsNotFound err).
Qed.

(** One iteration of the loop. *)
Lemma collect_gateway_step e gd n acc cl w :
  ∃ new w', collect_gateway e (meta_key (gd_meta gd)) n acc cl w = (Ok (acc ++ new), w') ∧
    Forall (gateway_ok e gd) new ∧
    (ClusterNamespacedName <$> new) `sublist_of` [meta_key (cl_meta cl)].
Proof.
  unfold collect_gateway. run_m. pose proof (getLoadBalancerService_result n cl w) as Hres.
  destruct (getLoadBalancerServiceForCluster n cl w) as [[[svc|]|err|] w'];
    [|..|done]; cbn.
  - apply isLoadBalancerWithExternalIP_true in Hres as [Hty Hip].
    eexists [_], w'. split; [done|]. split; [|done].
    apply Forall_singleton. split_and!; try done. by exists svc.
  - exists [], w'. rewrite app_nil_r. split; [done|]. split; [done|]. apply sublist_nil_l.
  - eexists [_], w'. split; [done|]. split; [|done].
    by apply Forall_singleton.
Qed.

Lemma collect_loop e gd n clusters w acc :
  ∃ gws w', fold_each (collect_gateway e (meta_key (gd_meta gd)) n) acc clusters w
      = (Ok (acc ++ gws), w') ∧ Forall (gateway_ok e gd) gws ∧
    (ClusterNamespacedName <$> gws) `sublist_of` ((λ c, meta_key (cl_meta c)) <$> clusters).
Proof.
  revert w acc. induction clusters as [|cl clusters IH]; intros w acc.
  { exists [], w. by rewrite app_nil_r. }
  rewrite fold_each_cons.
  destruct (collect_gateway_step e gd n acc cl w) as (new & w1 & -> & Hnew & Hsub).
  destruct (IH w1 (acc ++ new)) as (gws & w' & -> & Hgws & Hsub').
  exists (new ++ gws), w'. rewrite (assoc_L (++)), fmap_app. split; [done|].
  split; [by apply Forall_app|]. cbn. by apply (sublist_app _ [_]).
Qed.

Lemma isLoadBalancerWithExternalIP_spec svc : isLoadBalancerWithExternalIP svc = true ↔ load_balancer svc.
Proof.
  rewrite isLoadBalancerWithExternalIP_true. unfold load_balancer, getExternalIPsFromStatus.
  destruct (elems (svc_Ingress svc)); naive_solver.
Qed.

(** The gateways of the loop, by the lookups it makes in worlds that [R]
    relates to the first one. *)
Lemma collect_results (R : relation W) `{!PreOrder R} e (gd n : NamespacedName) clusters w acc :
  (∀ n w, R w (GetClient n w).2) → (∀ c n w, R w (GetService c n w).2) →
  ∃ gs w', fold_each (collect_gateway e gd n) acc clusters w = (Ok (acc ++ omap id gs), w') ∧
    R w w' ∧
    Forall2 (λ cl g, ∃ wi, R w wi ∧
      g = lookup_gateway e gd cl (getLoadBalancerServiceForCluster n cl wi).1) clusters gs.
Proof.
  intros Hclient Hservice. revert w acc. induction clusters as [|cl clusters IH]; intros w acc.
  { exists [], w. by rewrite app_nil_r. }
  set (r := getLoadBalancerServiceForCluster n cl w).
  assert (collect_gateway e gd n acc cl w = (Ok (acc ++ omap id [lookup_gateway e gd cl r.1]), r.2))
    as Hstep.
  { unfold collect_gateway. run_m. fold r. pose proof (getLoadBalancerService_result n cl w) as Hres.
    fold r in Hres. destruct r as [[[svc|]|err|] w1]; [done| |done|done]. cbn. by rewrite app_nil_r. }
  assert (R w r.2) as Hr.
  { unfold r, getLoadBalancerServiceForCluster, call, call_try. run_m. specialize (Hclient (meta_key (cl_meta cl)) w).
    destruct (GetClient _ w) as [[c|err] w1]; cbn in *; [|done].
    specialize (Hservice c n w1). destruct (GetService c n w1) as [[svc|err] w2]; cbn in *.
    - destruct (isLoadBalancerWithExternalIP svc); cbn; by etrans.
    - destruct (IsNotFound err); cbn; by etrans. }
  rewrite fold_each_cons, Hstep.
  destruct (IH r.2 (acc ++ omap id [lookup_gateway e gd cl r.1])) as (gs & w' & -> & Hw' & Hgs).
  exists (lookup_gateway e gd cl r.1 :: gs), w'. rewrite <-(assoc_L (++)), <-omap_app.
  split; [done|]. split; [by etrans|]. constructor; [by exists w|].
  eapply Forall2_impl; [exact Hgs|]. intros cl' g (wi & Hwi & ->). exists wi. split; [by etrans|done].
Qed.

(** What the gateway becomes when it is propagated. *)
Lemma ToEndpointSlice_ok `{Naming} cg svc :
  Gateway cg = Some svc →
  ∃ d, ToEndpointSlice cg = Ok d ∧
    EndpointSliceKey d = ClusterGateway_EndpointSliceKey cg ∧
    slice_key d = mkNN (ControllerNamespace cg) (endpointSliceName cg) ∧
    es_AddressType d = AddressTypeIPv4 ∧
    es_Endpoints d = Some [endpoint_of (Some (getExternalIPsFromStatus svc))] ∧
    map_get (om_Annotations (es_meta d)) DNSHostnameAnnotation = Some (gateway_hostname cg) ∧
    map_get (om_Annotations (es_meta d)) GatewayDNSRefAnnotation =
      Some (NamespacedName_String (GatewayDNSNamespacedName cg)).
Proof.
  intros Hg. unfold ToEndpointSlice. rewrite Hg. eexists. split; [done|].
  by split_and!.
Qed.

(** * Properties *)

(** C30: [newNamespacedNameFromString] reads exactly the strings
    ["namespace/name"] with one slash; any other string is read as the empty
    name. *)
Theorem newNamespacedNameFromString_spec `{NamingLaws} s n :
  newNamespacedNameFromString s = n ↔
  (slash_free n ∧ s = NamespacedName_String n) ∨
  (n = mkNN "" "" ∧ ∀ n', slash_free n' → s ≠ NamespacedName_String n').
Proof.
  assert (∀ n', Split s "/" = [nn_namespace n'; nn_name n'] ↔
            slash_free n' ∧ s = NamespacedName_String n') as Hsplit.
  { intros n'. rewrite Split_two, NamespacedName_String_spec. unfold slash_free. naive_solver. }
  unfold newNamespacedNameFromString.
  assert (∀ n', Split s "/" ≠ [nn_namespace n'; nn_name n'] →
            slash_free n' → s ≠ NamespacedName_String n') as Hno.
  { intros n' Hne Hn' Hs. by apply Hne, Hsplit. }
  destruct (Split s "/") as [|a [|b [|c l]]].
  1,2,4: split; [intros <-; right; split; [done|]; intros n'; by apply Hno
                |intros [[=]%Hsplit|[-> _]]; done].
  split.
  - intros <-. left. by apply Hsplit.
  - intros [[= -> ->]%Hsplit|[_ Hnone]]; [by destruct n|].
    exfalso. destruct (Hsplit (mkNN a b)) as [(Hn & Hs) _]; [done|]. by eapply Hnone.
Qed.

(** C28: collecting the gateways of a list of clusters always succeeds, whatever
    the clusters answer.  The gateways are of distinct positions of the
    list, in its order, and each one is either marked unreachable, or can be
    turned into an EndpointSlice that is filed under the gateway's key and
    carries the load balancer's addresses, of which there is at least one. *)
Theorem GetGatewaysForClusters_total `{Naming} e gd clusters w :
  ∃ gws w', GetGatewaysForClusters e gd clusters w = (Ok gws, w') ∧
    (ClusterNamespacedName <$> gws) `sublist_of` ((λ c, meta_key (cl_meta c)) <$> clusters) ∧
    Forall (λ cg, gateway_ok e gd cg ∧
      (Unreachable cg = false → ∃ svc d, Gateway cg = Some svc ∧ ToEndpointSlice cg = Ok d ∧
        EndpointSliceKey d = ClusterGateway_EndpointSliceKey cg ∧
        es_Endpoints d = Some [endpoint_of (Some (getExternalIPsFromStatus svc))] ∧
        getExternalIPsFromStatus svc ≠ [])) gws.
Proof.
  destruct (collect_loop e gd (newNamespacedNameFromString (spec_Service (gd_Spec gd)))
    clusters w []) as (gws & w' & Hrun & Hok & Hsub).
  exists gws, w'. split; [done|]. split; [done|].
  eapply Forall_impl; [exact Hok|]. intros cg Hcg. split; [done|]. intros Hu.
  destruct Hcg as (_ & _ & _ & Hg). rewrite Hu in Hg. destruct Hg as (svc & Hg & _ & Hip).
  destruct (ToEndpointSlice_ok cg svc Hg) as (d & Hd & Hk & _ & _ & Hep & _).
  exists svc, d. naive_solver.
Qed.

(** When the clients' reads do not change the clusters, the collected
    gateways are a function of the clusters' answers: an unreachable gateway
    for a cluster that cannot be queried, the load balancer service with at
    least one ingress where there is one, and nothing for a missing or
    another kind of service. *)
Theorem GetGatewaysForClusters_reads e gd clusters w
    (Hclient : ∀ n w, (GetClient n w).2 = w)
    (Hservice : ∀ c n w, (GetService c n w).2 = w) :
  GetGatewaysForClusters e gd clusters w = (Ok (omap (gateway_of e gd w) clusters), w).
Proof.
  unfold GetGatewaysForClusters. change (omap _ clusters) with ([] ++ omap (gateway_of e gd w) clusters).
  generalize (@nil ClusterGateway).
  induction clusters as [|cl clusters IH]; intros acc; [cbn; by rewrite app_nil_r|].
  rewrite fold_each_cons. cbn [omap list_omap].
  unfold collect_gateway at 1, getLoadBalancerServiceForCluster, gateway_of, call, call_try. run_m.
  specialize (Hclient (meta_key (cl_meta cl)) w).
  destruct (GetClient (meta_key (cl_meta cl)) w) as [[c|err] w1]; cbn in Hclient |- *; subst w1.
  2: { rewrite IH. by rewrite <-(assoc_L (++)). }
  specialize (Hservice c (newNamespacedNameFromString (spec_Service (gd_Spec gd))) w).
  destruct (GetService _ _ w) as [[svc|err] w1]; cbn in Hservice |- *; subst w1.
  - destruct (isLoadBalancerWithExternalIP svc); cbn; rewrite IH; [|done].
    by rewrite <-(assoc_L (++)).
  - destruct (IsNotFound err); cbn; rewrite IH; [done|]. by rewrite <-(assoc_L (++)).
Qed.

End collector.

(** Two gateways in one namespace whose clusters are in one namespace get
    the same key only if the clusters are the same. *)
Lemma EndpointSliceKey_inj (cg1 cg2 : ClusterGateway)
    (Hns : nn_namespace (ClusterNamespacedName cg1) = nn_namespace (ClusterNamespacedName cg2))
    (Hctl : ControllerNamespace cg1 = ControllerNamespace cg2) :
  ClusterGateway_EndpointSliceKey cg1 = ClusterGateway_EndpointSliceKey cg2 ↔
  ClusterNamespacedName cg1 = ClusterNamespacedName cg2.
Proof.
  unfold ClusterGateway_EndpointSliceKey, endpointSliceName.
  destruct (ClusterNamespacedName cg1) as [ns1 n1], (ClusterNamespacedName cg2) as [ns2 n2].
  cbn [nn_namespace nn_name] in *. subst ns2. rewrite Hctl. split; [|by intros [= ->]].
  intros Heq. do 4 apply string_app_inj_l in Heq. apply string_app_inj_r in Heq. by subst.
Qed.

(** Across namespaces the name does not tell where the namespace ends. *)
Lemma endpointSliceName_collision a b c svc u dom ns gd :
  endpointSliceName (mkClusterGateway (mkNN (a +:+ "-" +:+ b) c) svc u dom ns gd) =
  endpointSliceName (mkClusterGateway (mkNN a (b +:+ "-" +:+ c)) svc u dom ns gd).
Proof.
  unfold endpointSliceName. cbn [nn_namespace nn_name ClusterNamespacedName].
  by rewrite <-!string_app_assoc.
Qed.

(** A load balancer that only publishes a host name, as on AWS, passes the
    test for an external IP, and its EndpointSlice carries the empty string as
    an IPv4 address. *)
Theorem hostname_ingress_yields_empty_address `{Naming} cg svc host
    (Hty : svc_Type svc = ServiceTypeLoadBalancer)
    (Hing : svc_Ingress svc = Some [mkIngress "" host])
    (Hg : Gateway cg = Some svc) :
  isLoadBalancerWithExternalIP svc = true ∧
  ∃ d, ToEndpointSlice cg = Ok d ∧ es_AddressType d = AddressTypeIPv4 ∧
       es_Endpoints d = Some [endpoint_of (Some [""])].
Proof.
  split; [unfold isLoadBalancerWithExternalIP; by rewrite Hty, Hing|].
  destruct (ToEndpointSlice_ok cg svc Hg) as (d & Hd & _ & _ & Hat & Hep & _).
  exists d. split; [done|]. split; [done|]. rewrite Hep. unfold getExternalIPsFromStatus.
  by rewrite Hing.
Qed.

(** * Witnesses *)

Definition lb_service (ip host : string) : Service :=
  mkService (mkMeta "envoy" "gateways" None None "1") ServiceTypeLoadBalancer "10.0.0.1"
    (Some [mkIngress ip host]).

Definition a_cluster (ns name : string) : Cluster := mkCluster (mkMeta name ns None None "1").

Definition a_gateway_dns : GatewayDNS :=
  mkGatewayDNS (mkMeta "gd" "dev" None None "1")
    (mkGatewayDNSSpec [] "gateways/envoy" ResolutionTypeLoadBalancer) mkGatewayDNSStatus.

Definition a_collector : ClusterGatewayCollector := mkCollector "xcc.test" "xcc-dns".

(** Two clusters, one of them down. *)
Definition a_network : MemNetwork :=
  mkMemNetwork {[ mkNN "dev" "two" ]} {[ (mkNN "dev" "one", "xcc-dns") ]}.
#[export] Instance a_kube : Kube MemWorld := mem_kube a_network.

Definition a_mem : MemWorld :=
  mkMemWorld ∅ {[ (mkNN "dev" "one", mkNN "gateways" "envoy") := lb_service "1.2.3.4" "" ]}
    {[ meta_key (gd_meta a_gateway_dns) := a_gateway_dns ]}
    {[ mkNN "dev" "one" := a_cluster "dev" "one"; mkNN "dev" "two" := a_cluster "dev" "two" ]}.

Definition one_gateway : ClusterGateway :=
  mkClusterGateway (mkNN "dev" "one") (Some (lb_service "1.2.3.4" "")) false "xcc.test"
    "xcc-dns" (mkNN "dev" "gd").
Definition two_gateway : ClusterGateway :=
  mkClusterGateway (mkNN "dev" "two") None true "xcc.test" "xcc-dns" (mkNN "dev" "gd").

Lemma GetGatewaysForClusters_reads_witness :
  GetGatewaysForClusters a_collector a_gateway_dns (mem_cls a_mem) a_mem =
    (Ok [one_gateway; two_gateway], a_mem).
Proof.
  rewrite GetGatewaysForClusters_reads; [|done..]. vm_compute. reflexivity.
Defined.

Lemma hostname_ingress_yields_empty_address_witness :
  isLoadBalancerWithExternalIP (lb_service "" "lb.example.com") = true ∧
  ∃ d, ToEndpointSlice (mkClusterGateway (mkNN "dev" "one")
         (Some (lb_service "" "lb.example.com")) false "xcc.test" "xcc-dns" (mkNN "dev" "gd")) =
       Ok d ∧ es_AddressType d = AddressTypeIPv4 ∧
       es_Endpoints d = Some [endpoint_of (Some [""])].
Proof.
  by apply (hostname_ingress_yields_empty_address _ _ "lb.example.com").
Defined.

Lemma newNamespacedNameFromString_spec_witness :
  newNamespacedNameFromString "gateways/envoy" = mkNN "gateways" "envoy".
Proof.
  apply (newNamespacedNameFromString_spec "gateways/envoy" (mkNN "gateways" "envoy")).
  left. by repeat split.
Defined.

Lemma GetGatewaysForClusters_total_witness :
  ∃ gws w', GetGatewaysForClusters a_collector a_gateway_dns (mem_cls a_mem) a_mem = (Ok gws, w') ∧
    Forall (λ cg, gateway_ok a_collector a_gateway_dns cg) gws.
Proof.
  destruct (GetGatewaysForClusters_total a_collector a_gateway_dns (mem_cls a_mem) a_mem)
    as (gws & w' & Hrun & _ & Hall).
  exists gws, w'. split; [exact Hrun|]. eapply Forall_impl; [exact Hall|]. by intros cg [Hcg _].
Defined.
