(* ===== verification/Converge.v ===== *)
(** Converging the EndpointSlices of the workload clusters,
    [pkg/controllers/gatewaydns/endpoint_slice_reconciler.go].

    Go ranges over a map in an unspecified order; the order of each such loop
    is an argument. *)
From S2P Require Import Prelude GoStrings K8s Kube ClusterGateway.
#[local] Open Scope string_scope.
#[local] Open Scope list_scope.

(** * Definitions *)

(** [EndpointSliceReconciler]: the client provider is the class [Kube]. *)
Record EndpointSliceReconciler := mkEndpointSliceReconciler { esr_Namespace : string }.

Record ClusterDiff := mkClusterDiff {
  undesired : list EndpointSlice;
  missing : list EndpointSlice;
  changed : list EndpointSlice;
}.

(** The order in which one run of [diffCluster] ranges over its two maps. *)
Record RangeOrder := mkRangeOrder {
  range_desired : gmap string ClusterGateway → list ClusterGateway;
  range_existing : gmap string EndpointSlice → list EndpointSlice;
}.

(** A range visits every value of the map once. *)
Definition valid_order (o : RangeOrder) : Prop :=
  (∀ m, range_desired o m ≡ₚ (map_to_list m).*2) ∧
  (∀ m, range_existing o m ≡ₚ (map_to_list m).*2).

(** [merge(source, dest)]: a nil annotation map becomes a fresh one; an
    annotation the source lacks is written as the empty string. *)
Definition merge (source dest : EndpointSlice) : EndpointSlice :=
  let m := es_meta dest in
  let src := om_Annotations (es_meta source) in
  let annotations := entries_of (om_Annotations m) in
  let annotations := <[DNSHostnameAnnotation := map_get0 src DNSHostnameAnnotation]> annotations in
  let annotations := <[GatewayDNSRefAnnotation := map_get0 src GatewayDNSRefAnnotation]> annotations in
  mkEndpointSlice
    (mkMeta (om_Name m) (om_Namespace m) (Some annotations) (om_Labels m) (om_ResourceVersion m))
    (es_AddressType source) (es_Endpoints source) (es_Ports source).

(** [reflect.DeepEqual] on values without cycles is equality of the models. *)
Definition compareEndpointSlices (a b : EndpointSlice) : bool :=
  bool_decide (map_get0 (om_Annotations (es_meta a)) DNSHostnameAnnotation =
               map_get0 (om_Annotations (es_meta b)) DNSHostnameAnnotation) &&
  bool_decide (es_AddressType a = es_AddressType b) &&
  bool_decide (es_Endpoints a = es_Endpoints b) &&
  bool_decide (es_Ports a = es_Ports b).

Definition flattenEndpoints (endpoints : list Endpoint) : list string :=
  foldl (λ addresses endpoint, addresses ++ elems (ep_Addresses endpoint)) [] endpoints.

Section reconciler.
Context {W : Type} `{Kube W, Naming}.

(** The slices of the listing that this GatewayDNS owns, by key. *)
Definition add_existing (gatewayDNS : NamespacedName) (m : gmap string EndpointSlice)
    (s : EndpointSlice) : gmap string EndpointSlice :=
  match map_get (om_Annotations (es_meta s)) DNSHostnameAnnotation with
  | None => m
  | Some _ =>
      match map_get (om_Annotations (es_meta s)) GatewayDNSRefAnnotation with
      | None => m
      | Some ref =>
          if decide (ref ≠ NamespacedName_String gatewayDNS) then m
          else <[EndpointSliceKey s := s]> m
      end
  end.

Definition existing_map (gatewayDNS : NamespacedName) (items : list EndpointSlice)
    : gmap string EndpointSlice :=
  foldl (add_existing gatewayDNS) ∅ items.

Definition desired_map (desired : list ClusterGateway) : gmap string ClusterGateway :=
  foldl (λ m cg, <[ClusterGateway_EndpointSliceKey cg := cg]> m) ∅ desired.

(** The loop over the desired gateways: what is missing and what changed. *)
Definition diff_desired (existing : gmap string EndpointSlice) (d : ClusterDiff)
    (cg : ClusterGateway) : M W ClusterDiff :=
  if Unreachable cg then mret d
  else
    lift (ToEndpointSlice cg) ≫= λ desiredEndpointSlice,
    match existing !! ClusterGateway_EndpointSliceKey cg with
    | Some existingItem =>
        if negb (compareEndpointSlices desiredEndpointSlice existingItem) then
          mret (mkClusterDiff (undesired d) (missing d)
                  (changed d ++ [merge desiredEndpointSlice existingItem]))
        else mret d
    | None =>
        mret (mkClusterDiff (undesired d) (missing d ++ [desiredEndpointSlice]) (changed d))
    end.

(** The loop over the existing slices: what is there without being desired. *)
Definition diff_existing (desired : gmap string ClusterGateway) (d : ClusterDiff)
    (s : EndpointSlice) : ClusterDiff :=
  match desired !! EndpointSliceKey s with
  | Some _ => d
  | None => mkClusterDiff (undesired d ++ [s]) (missing d) (changed d)
  end.

Definition diffCluster (o : RangeOrder) (e : EndpointSliceReconciler)
    (gatewayDNS : NamespacedName) (clusterClient : Client)
    (desiredClusterGateways : list ClusterGateway) : M W ClusterDiff :=
  call (ListEndpointSlices clusterClient (esr_Namespace e)) ≫= λ items,
  let existing := existing_map gatewayDNS items in
  let desired := desired_map desiredClusterGateways in
  fold_each (diff_desired existing) (mkClusterDiff [] [] []) (range_desired o desired) ≫= λ d,
  mret (foldl (diff_existing desired) d (range_existing o existing)).

(** The body of the loop over the missing slices: an existing slice with the
    wanted name is taken over. *)
Definition create_missing (clusterClient : Client) (s : EndpointSlice) : M W unit :=
  call_try (CreateEndpointSlice clusterClient s) ≫= λ r,
  match r with
  | inl _ => mret tt
  | inr err =>
      if IsAlreadyExists err then
        call (GetEndpointSlice clusterClient (slice_key s)) ≫= λ existing,
        call (UpdateEndpointSlice clusterClient (merge s existing))
      else throw err
  end.

Definition convergeCluster (o : RangeOrder) (e : EndpointSliceReconciler)
    (gatewayDNS : NamespacedName) (clusterClient : Client)
    (desiredClusterGateways : list ClusterGateway) : M W unit :=
  diffCluster o e gatewayDNS clusterClient desiredClusterGateways ≫= λ clusterDiff,
  for_each (create_missing clusterClient) (missing clusterDiff) ≫= λ _,
  for_each (λ s, call (UpdateEndpointSlice clusterClient s)) (changed clusterDiff) ≫= λ _,
  for_each (λ s, call (DeleteEndpointSlice clusterClient s)) (undesired clusterDiff).

(** One iteration of the loop of [ConvergeToClusters]: an error is recorded and
    the loop goes on with the next cluster. *)
Definition converge_one (e : EndpointSliceReconciler) (gatewayDNS : NamespacedName)
    (desiredClusterGateways : list ClusterGateway) (errors : list error)
    (ocluster : RangeOrder * Cluster) : M W (list error) :=
  let '(o, cluster) := ocluster in
  call_try (GetClient (meta_key (cl_meta cluster))) ≫= λ r,
  match r with
  | inr err => mret (errors ++ [err])
  | inl clusterClient =>
      call_try (GetNamespace clusterClient (esr_Namespace e)) ≫= λ r,
      match r with
      | inr err => if IsNotFound err then mret errors else mret (errors ++ [err])
      | inl _ =>
          try (convergeCluster o e gatewayDNS clusterClient desiredClusterGateways) ≫= λ r,
          match r with
          | inr err => mret (errors ++ [err])
          | inl _ => mret errors
          end
      end
  end.

(** The clusters come paired with the range orders of their runs. *)
Definition ConvergeToClusters (e : EndpointSliceReconciler)
    (clusters : list (RangeOrder * Cluster)) (gatewayDNS : NamespacedName)
    (desiredClusterGateways : list ClusterGateway) : M W (list error) :=
  fold_each (converge_one e gatewayDNS desiredClusterGateways) [] clusters.

End reconciler.
