(* ===== verification/ConvergeSpec.v ===== *)
(** What the convergence of a workload cluster promises: against an API server
    that answers, one run takes every slice to the state the desired gateways
    ask for and leaves the rest alone; a second run changes nothing. *)
From S2P Require Import Prelude GoStrings K8s Kube KubeMem ClusterGateway ClusterGatewaySpec.
From S2P Require Import Converge.
#[local] Open Scope string_scope.
#[local] Open Scope list_scope.

(** * Definitions *)

(** The key of a name in the maps of [diffCluster]. *)
Definition key_of (n : NamespacedName) : string := nn_namespace n +:+ "/" +:+ nn_name n.

(** A slice this GatewayDNS may change or delete. *)
Definition owned `{Naming} (gd : NamespacedName) (s : EndpointSlice) : bool :=
  match map_get (om_Annotations (es_meta s)) DNSHostnameAnnotation,
        map_get (om_Annotations (es_meta s)) GatewayDNSRefAnnotation with
  | Some _, Some ref => bool_decide (ref = NamespacedName_String gd)
  | _, _ => false
  end.

(** The slice a gateway asks for: none while its cluster cannot be queried. *)
Definition desired_slice `{Naming} (cg : ClusterGateway) : option EndpointSlice :=
  if Unreachable cg then None
  else match ToEndpointSlice cg with Ok d => Some d | _ => None end.

(** The stored slice [s] has the contents of the desired slice [d] and belongs to
    this GatewayDNS. *)
Record in_sync `{Naming} (gd : NamespacedName) (d s : EndpointSlice) : Prop := {
  sync_hostname : ∃ host, map_get (om_Annotations (es_meta d)) DNSHostnameAnnotation = Some host ∧
    map_get (om_Annotations (es_meta s)) DNSHostnameAnnotation = Some host;
  sync_owner : map_get (om_Annotations (es_meta s)) GatewayDNSRefAnnotation =
    Some (NamespacedName_String gd);
  sync_type : es_AddressType s = es_AddressType d;
  sync_endpoints : es_Endpoints s = es_Endpoints d;
  sync_ports : es_Ports s = es_Ports d;
}.

(** The name under which the slice of a gateway is stored. *)
Definition slice_name (cg : ClusterGateway) : NamespacedName :=
  mkNN (ControllerNamespace cg) (endpointSliceName cg).

(** The gateway that asks for the slice [n]; of several the last. *)
Definition filed_under (gws : list ClusterGateway) (n : NamespacedName) : option ClusterGateway :=
  last (filter (λ cg, slice_name cg = n) gws).

(** The state of the slice [n] after a run, given its state before. *)
Definition converged `{Naming} (ns : string) (gd : NamespacedName)
    (gws : list ClusterGateway) (n : NamespacedName)
    (before after : option EndpointSlice) : Prop :=
  if decide (nn_namespace n = ns) then
    match filed_under gws n with
    | Some cg =>
        match desired_slice cg with
        | Some d => ∃ s, after = Some s ∧ in_sync gd d s
        | None => after = before
        end
    | None =>
        match before with
        | Some s => if owned gd s then after = None else after = before
        | None => after = None
        end
    end
  else after = before.

(** What a run may do to the slice [n] whatever the calls return: it writes
    slices of its own that a gateway asks for, and deletes its own that
    none asks for. *)
Definition confined `{Naming} (ns : string) (gd : NamespacedName) (gws : list ClusterGateway)
    (n : NamespacedName) (before after : option EndpointSlice) : Prop :=
  after = before ∨
  nn_namespace n = ns ∧
    match filed_under gws n with
    | Some _ => ∃ s, after = Some s ∧ owned gd s = true
    | None => after = None ∧ ∃ s, before = Some s ∧ owned gd s = true
    end.

(** The gateways a run is given: collected for this GatewayDNS with the
    namespace of the reconciler, so that none of them lacks its service. *)
Definition gateways_ok (ns : string) (gd : NamespacedName) (gws : list ClusterGateway) : Prop :=
  Forall (λ cg, ControllerNamespace cg = ns ∧ GatewayDNSNamespacedName cg = gd ∧
    (Unreachable cg = false → is_Some (Gateway cg))) gws.

(** What the API accepts: the desired slices, and their contents written into
    the slices stored under their names, of the same address type. *)
Definition acceptable `{Naming} (admissible : EndpointSlice → Prop) (m : slices)
    (gws : list ClusterGateway) : Prop :=
  ∀ cg d, cg ∈ gws → desired_slice cg = Some d →
    admissible d ∧ ∀ o, m !! slice_key d = Some o →
      es_AddressType o = es_AddressType d ∧ admissible (merge d o).

(** * Lemmas *)

(** ** Keys, ownership and merging *)

Section slices.
Context `{NamingLaws}.
Implicit Types (cg : ClusterGateway) (s d o : EndpointSlice) (gd : NamespacedName).

Lemma key_of_inj n1 n2 : nn_namespace n1 = nn_namespace n2 → key_of n1 = key_of n2 → n1 = n2.
Proof.
  unfold key_of. destruct n1 as [ns1 n1], n2 as [ns2 n2]. cbn [nn_namespace nn_name].
  intros -> Heq. do 2 apply string_app_inj_l in Heq. by subst.
Qed.

Lemma add_existing_owned gd m s :
  add_existing gd m s = if owned gd s then <[EndpointSliceKey s := s]> m else m.
Proof.
  unfold add_existing, owned.
  destruct (map_get (om_Annotations (es_meta s)) DNSHostnameAnnotation) as [h|]; [|done].
  destruct (map_get (om_Annotations (es_meta s)) GatewayDNSRefAnnotation) as [r|]; [|done].
  case_decide; case_bool_decide; naive_solver.
Qed.

Lemma existing_map_lookup gd items k s :
  NoDup (EndpointSliceKey <$> items) →
  existing_map gd items !! k = Some s ↔ s ∈ items ∧ owned gd s = true ∧ EndpointSliceKey s = k.
Proof.
  unfold existing_map. induction items as [|x items IH] using rev_ind; intros Hnd.
  { cbn. rewrite lookup_empty, elem_of_nil. naive_solver. }
  rewrite foldl_app. cbn. rewrite add_existing_owned.
  rewrite fmap_app in Hnd. apply NoDup_app in Hnd as (Hnd & Hdis & _).
  specialize (IH Hnd). rewrite elem_of_app, list_elem_of_singleton.
  assert (s ∈ items → EndpointSliceKey s ≠ EndpointSliceKey x) as Hne.
  { intros Hs Heq. eapply Hdis; [by apply list_elem_of_fmap_2|]. rewrite Heq. by constructor. }
  destruct (owned gd x) eqn:Hx; [rewrite lookup_insert_Some|]; rewrite IH.
  - split.
    + intros [(<- & <-)|(Hk & Hin & Ho & <-)]; auto.
    + intros ([Hin| ->] & Ho & <-); [right|by left]. split; [|done].
      intros Heq. by apply Hne.
  - split.
    + intros (Hin & Ho & Hk). auto.
    + intros ([Hin| ->] & Ho & Hk); [done|congruence].
Qed.

(** Without a condition on the listing. *)
Lemma existing_map_sound gd items k s :
  existing_map gd items !! k = Some s → s ∈ items ∧ owned gd s = true ∧ EndpointSliceKey s = k.
Proof.
  unfold existing_map. induction items as [|x items IH] using rev_ind; [done|].
  rewrite foldl_app. cbn. rewrite add_existing_owned, elem_of_app, list_elem_of_singleton.
  destruct (owned gd x) eqn:Hx; [rewrite lookup_insert_Some|]; intros Hs.
  - destruct Hs as [[<- <-]|[_ Hs]]; [by auto|]. apply IH in Hs. tauto.
  - apply IH in Hs. tauto.
Qed.

Lemma desired_map_some gws cg :
  cg ∈ gws → is_Some (desired_map gws !! ClusterGateway_EndpointSliceKey cg).
Proof.
  unfold desired_map. induction gws as [|x gws IH] using rev_ind; [by intros ?%not_elem_of_nil|].
  rewrite foldl_app, elem_of_app, list_elem_of_singleton. cbn. intros Hin.
  destruct (decide (ClusterGateway_EndpointSliceKey x = ClusterGateway_EndpointSliceKey cg)) as [->|Hne].
  - rewrite lookup_insert_eq. eauto.
  - rewrite lookup_insert_ne by done. destruct Hin as [Hin| ->]; [by apply IH|done].
Qed.

Lemma desired_map_lookup gws k cg :
  desired_map gws !! k = Some cg → cg ∈ gws ∧ ClusterGateway_EndpointSliceKey cg = k.
Proof.
  unfold desired_map. induction gws as [|x gws IH] using rev_ind; [done|].
  rewrite foldl_app. cbn. rewrite elem_of_app, list_elem_of_singleton, lookup_insert_Some.
  naive_solver.
Qed.

Lemma merge_key d o : slice_key (merge d o) = slice_key o.
Proof. done. Qed.

Lemma merge_annotation d o k :
  k = DNSHostnameAnnotation ∨ k = GatewayDNSRefAnnotation →
  map_get (om_Annotations (es_meta (merge d o))) k =
    Some (map_get0 (om_Annotations (es_meta d)) k).
Proof.
  unfold map_get at 1, merge, entries_of. cbn [om_Annotations es_meta from_option id].
  intros [->| ->]; [|by rewrite lookup_insert_eq].
  by rewrite lookup_insert_ne, lookup_insert_eq.
Qed.

Lemma filed_under_lookup gws n cg : filed_under gws n = Some cg → cg ∈ gws ∧ slice_name cg = n.
Proof.
  unfold filed_under. intros Hcg%last_Some_elem_of.
  apply list_elem_of_filter in Hcg. tauto.
Qed.

Lemma filed_under_some gws cg : cg ∈ gws → is_Some (filed_under gws (slice_name cg)).
Proof.
  intros Hin. unfold filed_under. apply last_is_Some. intros Hnil.
  apply (not_elem_of_nil cg). rewrite <-Hnil. by apply list_elem_of_filter.
Qed.

(** The map of the code is an index of this. *)
Lemma desired_map_at ns gws n :
  Forall (λ cg, ControllerNamespace cg = ns) gws → nn_namespace n = ns →
  desired_map gws !! key_of n = filed_under gws n.
Proof.
  intros Hall Hn. unfold desired_map, filed_under.
  induction gws as [|x gws IH] using rev_ind; [apply lookup_empty|].
  apply Forall_app in Hall as [Hall Hx]. rewrite Forall_singleton in Hx. specialize (IH Hall).
  rewrite foldl_app, filter_app. cbn [foldl]. rewrite filter_cons, filter_nil. case_decide as Hk.
  - subst n. by rewrite lookup_insert_eq, last_snoc.
  - rewrite app_nil_r, lookup_insert_ne; [done|]. intros Hkey. apply Hk.
    apply key_of_inj; [|exact Hkey]. rewrite Hn. exact Hx.
Qed.

Lemma gateways_namespace ns gd gws :
  gateways_ok ns gd gws → Forall (λ cg, ControllerNamespace cg = ns) gws.
Proof. intros Hgws. eapply Forall_impl; [exact Hgws|]. by intros cg (? & _). Qed.

Lemma owned_spec gd s :
  owned gd s = true ↔ is_Some (map_get (om_Annotations (es_meta s)) DNSHostnameAnnotation) ∧
    map_get (om_Annotations (es_meta s)) GatewayDNSRefAnnotation = Some (NamespacedName_String gd).
Proof.
  unfold owned. destruct (map_get _ DNSHostnameAnnotation) as [h|], (map_get _ GatewayDNSRefAnnotation);
    try case_bool_decide; split; try done; naive_solver.
Qed.

Lemma in_sync_owned gd d s : in_sync gd d s → owned gd s = true.
Proof. intros [(h & _ & Hh) Hr _ _ _]. apply owned_spec. by rewrite Hh. Qed.

(** What the code compares. *)
Lemma in_sync_compare gd d s :
  owned gd d = true → compareEndpointSlices d s = true ∧ owned gd s = true ↔ in_sync gd d s.
Proof.
  intros [[h Hh] _]%owned_spec. unfold compareEndpointSlices.
  rewrite !andb_true_iff, !bool_decide_eq_true, owned_spec. unfold map_get0. rewrite Hh. split.
  - intros ((((Hhost & Hat) & Hep) & Hp) & [h' Hh'] & Hr). rewrite Hh' in Hhost. cbn in Hhost.
    subst h'. split; [by exists h|done..].
  - intros [(h' & Hd & Hs) Hr -> -> ->]. rewrite Hh in Hd. injection Hd as ->. by rewrite Hs.
Qed.

Lemma merge_in_sync gd d o : owned gd d = true → in_sync gd d (merge d o).
Proof.
  intros [[h Hh] Hr]%owned_spec. split; [|by rewrite merge_annotation by auto; unfold map_get0; rewrite Hr|done..].
  exists h. split; [done|]. rewrite merge_annotation by auto. unfold map_get0. by rewrite Hh.
Qed.

#[local] Instance owned_proper gd : Proper (same_content ==> eq) (owned gd).
Proof. intros s s' (_ & _ & Ha & _). unfold owned. by rewrite Ha. Qed.

#[local] Instance in_sync_proper gd d : Proper (same_content ==> iff) (in_sync gd d).
Proof.
  intros s s' (_ & _ & Ha & _ & Ht & He & Hp).
  split; intros [Hh Hr Hat Hep Hpo]; split; first [by rewrite <-Ha|by rewrite Ha|congruence].
Qed.

Lemma owned_exclusive gd gd' s :
  NamespacedName_String gd' ≠ NamespacedName_String gd → owned gd s = true → owned gd' s = false.
Proof.
  intros Hne. unfold owned. destruct (map_get _ DNSHostnameAnnotation); [|done].
  destruct (map_get _ GatewayDNSRefAnnotation); [|done].
  intros ->%bool_decide_eq_true. by apply bool_decide_eq_false_2.
Qed.

Lemma in_sync_refl gd d : owned gd d = true → in_sync gd d d.
Proof.
  intros Hd. apply in_sync_compare; [done|]. split; [|done]. unfold compareEndpointSlices.
  by rewrite !bool_decide_eq_true_2.
Qed.

(** What is known of the slice a gateway asks for. *)
Lemma desired_slice_spec gd ns cg d :
  ControllerNamespace cg = ns → GatewayDNSNamespacedName cg = gd → desired_slice cg = Some d →
  Unreachable cg = false ∧ owned gd d = true ∧
  slice_key d = mkNN ns (endpointSliceName cg) ∧
  key_of (slice_key d) = ClusterGateway_EndpointSliceKey cg.
Proof.
  intros <- <-. unfold desired_slice. destruct (Unreachable cg); [done|].
  destruct (Gateway cg) as [svc|] eqn:Hg; [|by unfold ToEndpointSlice; rewrite Hg].
  destruct (ToEndpointSlice_ok cg svc Hg) as (d' & -> & Hk & Hsk & _ & _ & Hh & Hr).
  intros [= ->]. split; [done|]. split; [|by split].
  unfold owned. rewrite Hh, Hr. by apply bool_decide_eq_true_2.
Qed.

Lemma desired_slice_total cg :
  (Unreachable cg = false → is_Some (Gateway cg)) →
  desired_slice cg = None ↔ Unreachable cg = true.
Proof.
  intros Hg. unfold desired_slice. destruct (Unreachable cg); [done|].
  destruct Hg as [svc Hg]; [done|].
  by destruct (ToEndpointSlice_ok cg svc Hg) as (d' & -> & _).
Qed.

End slices.

#[export] Existing Instance owned_proper.
#[export] Existing Instance in_sync_proper.

(** ** The loops of [diffCluster] *)

(** What a gateway adds to the missing and to the changed slices. *)
Definition missing_for `{Naming} (existing : gmap string EndpointSlice) (cg : ClusterGateway)
    : option EndpointSlice :=
  match desired_slice cg, existing !! ClusterGateway_EndpointSliceKey cg with
  | Some d, None => Some d
  | _, _ => None
  end.

Definition changed_for `{Naming} (existing : gmap string EndpointSlice) (cg : ClusterGateway)
    : option EndpointSlice :=
  match desired_slice cg, existing !! ClusterGateway_EndpointSliceKey cg with
  | Some d, Some o => if compareEndpointSlices d o then None else Some (merge d o)
  | _, _ => None
  end.

Definition not_desired (desired : gmap string ClusterGateway) (s : EndpointSlice) : Prop :=
  desired !! EndpointSliceKey s = None.
#[export] Instance not_desired_dec desired s : Decision (not_desired desired s).
Proof. unfold not_desired. apply _. Defined.

Definition diff_of `{Naming} (o : RangeOrder) (existing : gmap string EndpointSlice)
    (desired : gmap string ClusterGateway) : ClusterDiff :=
  mkClusterDiff
    (filter (not_desired desired) (range_existing o existing))
    (omap (missing_for existing) (range_desired o desired))
    (omap (changed_for existing) (range_desired o desired)).

Section diff.
Context {W : Type} `{Kube W, NamingLaws}.

Lemma diff_desired_loop existing l d (w : W) :
  Forall (λ cg, Unreachable cg = false → is_Some (Gateway cg)) l →
  fold_each (diff_desired existing) d l w =
    (Ok (mkClusterDiff (undesired d) (missing d ++ omap (missing_for existing) l)
           (changed d ++ omap (changed_for existing) l)), w).
Proof.
  intros Hl. revert d. induction Hl as [|cg l Hcg Hl IH]; intros [u m c].
  { cbn. by rewrite !app_nil_r. }
  rewrite fold_each_cons. cbn [omap list_omap].
  unfold diff_desired at 1, missing_for at 1, changed_for at 1, desired_slice, lift.
  run_m. destruct (Unreachable cg); [by rewrite IH|].
  destruct Hcg as [svc Hg]; [done|].
  destruct (ToEndpointSlice_ok cg svc Hg) as (d & -> & _).
  destruct (existing !! _) as [o|].
  - destruct (compareEndpointSlices d o); cbn; rewrite IH; [done|]. cbn. by rewrite <-(assoc_L (++)).
  - rewrite IH. cbn. by rewrite <-(assoc_L (++)).
Qed.

Lemma diff_existing_loop desired l d :
  foldl (diff_existing desired) d l =
    mkClusterDiff (undesired d ++ filter (not_desired desired) l) (missing d) (changed d).
Proof.
  revert d. induction l as [|s l IH]; intros [u m c]; [cbn; by rewrite app_nil_r|].
  cbn [foldl]. rewrite IH, filter_cons. unfold diff_existing.
  destruct (decide (not_desired desired s)) as [Hd|Hd]; unfold not_desired in Hd.
  - rewrite Hd. cbn. by rewrite <-(assoc_L (++)).
  - by destruct (desired !! EndpointSliceKey s).
Qed.

(** One run of [diffCluster], given the listing. *)
Lemma diffCluster_eq o e gd c gws items (w w' : W) :
  valid_order o → ListEndpointSlices c (esr_Namespace e) w = (inl items, w') →
  Forall (λ cg, Unreachable cg = false → is_Some (Gateway cg)) gws →
  diffCluster o e gd c gws w = (Ok (diff_of o (existing_map gd items) (desired_map gws)), w').
Proof.
  intros [Hod _] Hlist Hgws. unfold diffCluster. run_m. rewrite (call_ok _ _ _ _ Hlist).
  rewrite diff_desired_loop; [by rewrite diff_existing_loop|].
  apply Forall_forall. intros cg Hin.
  apply (elem_of_map_values (desired_map gws)) in Hin as [k Hk]; [|apply Hod].
  apply desired_map_lookup in Hk as [Hk _]. by eapply Forall_forall in Hgws.
Qed.

End diff.

(** ** The entries of a diff *)

Section entries.
Context `{NamingLaws}.
Context (o : RangeOrder) (Ho : valid_order o) (ns : string) (gd : NamespacedName).
Context (m : slices) (Hkeys : ∀ n s, m !! n = Some s → slice_key s = n).
Context (items : list EndpointSlice).
Context (Hitems : items ≡ₚ filter (λ s, om_Namespace (es_meta s) = ns) (map_to_list m).*2).
Context (gws : list ClusterGateway) (Hgws : gateways_ok ns gd gws).

Abbreviation existing := (existing_map gd items).
Abbreviation desired := (desired_map gws).
Abbreviation diff := (diff_of o existing desired).

Lemma items_spec s : s ∈ items ↔ m !! slice_key s = Some s ∧ om_Namespace (es_meta s) = ns.
Proof using Hitems Hkeys.
  rewrite Hitems, list_elem_of_filter, (elem_of_map_values m) by done. split.
  - intros (Hns & k & Hk). split; [|done]. by rewrite (Hkeys _ _ Hk).
  - intros [Hk Hns]. eauto.
Qed.

Lemma items_NoDup : NoDup (EndpointSliceKey <$> items).
Proof using Hitems Hkeys.
  assert (NoDup ((λ s, slice_key s) <$> items)) as Hnd.
  { rewrite Hitems. eapply (sublist_NoDup _ ((λ s, slice_key s) <$> (map_to_list m).*2)).
    - by apply (NoDup_map_values _ m).
    - apply fmap_sublist, sublist_filter. }
  assert (∀ s, s ∈ items → nn_namespace (slice_key s) = ns) as Hns.
  { intros s Hs. by apply items_spec in Hs as [_ Hs]. }
  clear - Hnd Hns. induction items as [|s l IH]; cbn in Hnd |- *; [by apply NoDup_nil|].
  apply NoDup_cons in Hnd as [Hni Hnd]. apply NoDup_cons. split.
  - intros (s' & Hk & Hin)%list_elem_of_fmap. apply Hni. apply list_elem_of_fmap.
    exists s'. split; [|done]. apply key_of_inj; [|exact Hk].
    rewrite !Hns; [done|by constructor|by constructor].
  - apply IH; [done|]. intros s' Hs'. apply Hns. by constructor.
Qed.

Lemma existing_spec k s :
  existing !! k = Some s ↔
  m !! slice_key s = Some s ∧ om_Namespace (es_meta s) = ns ∧ owned gd s = true ∧
  EndpointSliceKey s = k.
Proof using Hitems Hkeys.
  rewrite existing_map_lookup by apply items_NoDup. rewrite items_spec. tauto.
Qed.

(** The lookup of a name of the namespace is a lookup in the store. *)
Lemma existing_at n :
  nn_namespace n = ns →
  existing !! key_of n = match m !! n with
                         | Some s => if owned gd s then Some s else None
                         | None => None
                         end.
Proof using Hitems Hkeys.
  intros Hn. destruct (existing !! key_of n) as [s|] eqn:Hs.
  - apply existing_spec in Hs as (Hm & Hns & Hown & Hk).
    assert (slice_key s = n) as <- by (apply key_of_inj; [by rewrite Hn|exact Hk]).
    by rewrite Hm, Hown.
  - destruct (m !! n) as [s|] eqn:Hm; [|done]. destruct (owned gd s) eqn:Hown; [|done].
    assert (existing !! key_of n = Some s) as Hsome; [|congruence].
    pose proof (Hkeys _ _ Hm) as Hk. apply existing_spec. subst n. by split_and!.
Qed.

Lemma desired_spec k cg :
  desired !! k = Some cg →
  cg ∈ gws ∧ k = key_of (mkNN ns (endpointSliceName cg)) ∧
  ControllerNamespace cg = ns ∧ GatewayDNSNamespacedName cg = gd.
Proof using Hgws.
  intros [Hin <-]%desired_map_lookup. split; [done|].
  eapply Forall_forall in Hgws as (<- & <- & _); [|done]. done.
Qed.

Lemma missing_spec d :
  d ∈ missing diff ↔ nn_namespace (slice_key d) = ns ∧
    existing !! key_of (slice_key d) = None ∧
    ∃ cg, desired !! key_of (slice_key d) = Some cg ∧ desired_slice cg = Some d.
Proof using Hgws Ho.
  cbn [missing changed diff_of]. rewrite list_elem_of_omap. split.
  - intros (cg & [k Hk]%(elem_of_map_values desired) & Hd); [|apply Ho].
    destruct (desired_spec k cg Hk) as (_ & -> & Hns & Hgd). unfold missing_for in Hd.
    destruct (desired_slice cg) as [d'|] eqn:Hds; [|done].
    destruct (desired_slice_spec gd ns cg d' Hns Hgd Hds) as (_ & _ & Hsk & Hkey).
    rewrite <-Hkey in Hd. destruct (existing !! _) eqn:Hex; [done|]. injection Hd as ->.
    rewrite Hsk in *. split_and!; eauto.
  - intros (_ & Hex & cg & Hk & Hds). exists cg. split.
    { apply (elem_of_map_values desired); [apply Ho|eauto]. }
    destruct (desired_spec _ cg Hk) as (_ & _ & Hns & Hgd).
    destruct (desired_slice_spec gd ns cg d Hns Hgd Hds) as (_ & _ & _ & Hkey).
    unfold missing_for. by rewrite Hds, <-Hkey, Hex.
Qed.

Lemma changed_spec s :
  s ∈ changed diff ↔ ∃ cg d x, desired !! key_of (slice_key s) = Some cg ∧
    existing !! key_of (slice_key s) = Some x ∧ desired_slice cg = Some d ∧
    compareEndpointSlices d x = false ∧ s = merge d x.
Proof using Hgws Ho Hitems Hkeys.
  cbn [missing changed diff_of]. rewrite list_elem_of_omap. split.
  - intros (cg & [k Hk]%(elem_of_map_values desired) & Hd); [|apply Ho].
    destruct (desired_spec k cg Hk) as (_ & -> & Hns & Hgd). unfold changed_for in Hd.
    destruct (desired_slice cg) as [d|] eqn:Hds; [|done].
    destruct (desired_slice_spec gd ns cg d Hns Hgd Hds) as (_ & _ & Hsk & Hkey).
    rewrite <-Hkey in Hd. destruct (existing !! _) as [x|] eqn:Hex; [|done].
    destruct (compareEndpointSlices d x) eqn:Hcmp; [done|]. injection Hd as <-.
    pose proof Hex as (_ & _ & _ & Hxk)%existing_spec.
    assert (key_of (slice_key (merge d x)) = key_of (slice_key d)) as -> by exact Hxk.
    rewrite Hsk in *. eauto 10.
  - intros (cg & d & x & Hk & Hex & Hds & Hcmp & ->). exists cg. split.
    { apply (elem_of_map_values desired); [apply Ho|eauto]. }
    destruct (desired_spec _ cg Hk) as (_ & Hkk & Hns & Hgd).
    destruct (desired_slice_spec gd ns cg d Hns Hgd Hds) as (_ & _ & Hsk & Hkey).
    unfold changed_for. rewrite Hds, <-Hkey, Hsk, <-Hkk, Hex. by rewrite Hcmp.
Qed.

(** What is written belongs to this GatewayDNS. *)
Lemma missing_owned d : d ∈ missing diff → owned gd d = true.
Proof using Hgws Ho.
  intros (_ & _ & cg & Hcg & Hd)%missing_spec.
  destruct (desired_spec _ _ Hcg) as (_ & _ & Hcns & Hcgd).
  by destruct (desired_slice_spec gd _ cg d Hcns Hcgd Hd) as (_ & ? & _).
Qed.

Lemma changed_owned s : s ∈ changed diff → owned gd s = true.
Proof using Hgws Ho Hitems Hkeys.
  intros (cg & d & x & Hcg & _ & Hd & _ & ->)%changed_spec.
  destruct (desired_spec _ _ Hcg) as (_ & _ & Hcns & Hcgd).
  destruct (desired_slice_spec gd _ cg d Hcns Hcgd Hd) as (_ & Hown & _).
  by apply (in_sync_owned gd d), merge_in_sync.
Qed.

Lemma undesired_spec s :
  s ∈ undesired diff ↔ existing !! key_of (slice_key s) = Some s ∧
    desired !! key_of (slice_key s) = None.
Proof using Ho Hitems Hkeys.
  cbn [undesired diff_of]. rewrite list_elem_of_filter, (elem_of_map_values existing) by apply Ho.
  unfold not_desired. split.
  - intros (Hd & k & Hk). pose proof Hk as (_ & _ & _ & <-)%existing_spec. by split.
  - intros [Hex Hd]. eauto.
Qed.

Lemma missing_NoDup : NoDup ((λ s, slice_key s) <$> missing diff).
Proof using Hgws Ho.
  apply (NoDup_fmap_1 key_of). rewrite <-list_fmap_compose.
  eapply (NoDup_omap_key ClusterGateway_EndpointSliceKey).
  { apply (NoDup_map_values _ desired); [apply Ho|]. by intros k cg [_ Hk]%desired_map_lookup. }
  intros cg d [k Hk]%(elem_of_map_values desired) Hd; [|apply Ho].
  destruct (desired_spec k cg Hk) as (_ & _ & Hns & Hgd). unfold missing_for in Hd.
  destruct (desired_slice cg) as [d'|] eqn:Hds; [|done].
  destruct (existing !! _); [done|]. injection Hd as ->.
  by destruct (desired_slice_spec gd ns cg d Hns Hgd Hds) as (_ & _ & _ & Hkey).
Qed.

Lemma changed_NoDup : NoDup ((λ s, slice_key s) <$> changed diff).
Proof using Hgws Ho Hitems Hkeys.
  apply (NoDup_fmap_1 key_of). rewrite <-list_fmap_compose.
  eapply (NoDup_omap_key ClusterGateway_EndpointSliceKey).
  { apply (NoDup_map_values _ desired); [apply Ho|]. by intros k cg [_ Hk]%desired_map_lookup. }
  intros cg s [k Hk]%(elem_of_map_values desired) Hs; [|apply Ho]. unfold changed_for in Hs.
  destruct (desired_slice cg) as [d|] eqn:Hds; [|done].
  destruct (existing !! _) as [x|] eqn:Hex; [|done].
  apply existing_spec in Hex as (_ & _ & _ & Hxk).
  destruct (compareEndpointSlices d x); [done|]. injection Hs as <-. exact Hxk.
Qed.

Lemma undesired_NoDup : NoDup ((λ s, slice_key s) <$> undesired diff).
Proof using Ho Hitems Hkeys.
  eapply (sublist_NoDup _ ((λ s, slice_key s) <$> range_existing o existing)).
  - apply (NoDup_fmap_1 key_of). rewrite <-list_fmap_compose.
    apply (NoDup_map_values _ existing); [apply Ho|].
    by intros k s (_ & _ & _ & Hk)%existing_spec.
  - apply fmap_sublist, sublist_filter.
Qed.

(** The names the three lists hold. *)
Abbreviation names l := ((λ s, slice_key s) <$> l).

Lemma missing_names n :
  n ∈ names (missing diff) →
  nn_namespace n = ns ∧ existing !! key_of n = None ∧
  ∃ cg d, desired !! key_of n = Some cg ∧ desired_slice cg = Some d.
Proof using Hgws Ho.
  intros (d & -> & (? & ? & ? & ? & ?)%missing_spec)%list_elem_of_fmap. eauto 10.
Qed.

Lemma changed_names n :
  n ∈ names (changed diff) →
  ∃ cg d x, nn_namespace n = ns ∧ existing !! key_of n = Some x ∧
    desired !! key_of n = Some cg ∧ desired_slice cg = Some d ∧
    compareEndpointSlices d x = false.
Proof using Hgws Ho Hitems Hkeys.
  intros (s & -> & (cg & d & x & Hcg & Hx & Hd & Hcmp & ->)%changed_spec)%list_elem_of_fmap.
  exists cg, d, x. by pose proof Hx as (_ & Hns & _)%existing_spec.
Qed.

Lemma undesired_names n :
  n ∈ names (undesired diff) →
  nn_namespace n = ns ∧ is_Some (existing !! key_of n) ∧ desired !! key_of n = None.
Proof using Ho Hitems Hkeys.
  intros (s & -> & [Hx Hd]%undesired_spec)%list_elem_of_fmap.
  pose proof Hx as (_ & Hns & _)%existing_spec. eauto.
Qed.

(** ** The state after the diff was applied *)

Context (after : slices).
Context (HM : ∀ d, d ∈ missing diff → owned gd d = true →
  ∃ s, after !! slice_key d = Some s ∧ in_sync gd d s).
Context (HC : ∀ s, s ∈ changed diff → ∃ s', after !! slice_key s = Some s' ∧ same_content s s').
Context (HU : ∀ s, s ∈ undesired diff → after !! slice_key s = None).
Context (Hother : ∀ n, n ∉ names (missing diff) → n ∉ names (changed diff) →
  n ∉ names (undesired diff) → after !! n = m !! n).

Lemma desired_converged n cg :
  nn_namespace n = ns → desired !! key_of n = Some cg →
  match desired_slice cg with
  | Some d => ∃ s, after !! n = Some s ∧ in_sync gd d s
  | None => after !! n = m !! n
  end.
Proof using All.
  intros Hns Hcg. destruct (desired_slice cg) as [d|] eqn:Hd.
  2: { apply Hother; intros Hin.
       - apply missing_names in Hin. naive_solver.
       - apply changed_names in Hin. naive_solver.
       - apply undesired_names in Hin. naive_solver. }
  destruct (desired_spec _ cg Hcg) as (Hin & Hk & Hcns & Hcgd).
  destruct (desired_slice_spec gd ns cg d Hcns Hcgd Hd) as (_ & Hown & Hsk & Hkey).
  assert (slice_key d = n) as Hdn by (rewrite Hsk; apply key_of_inj; [by rewrite Hns|done]).
  destruct (existing !! key_of n) as [x|] eqn:Hx.
  - pose proof Hx as (Hm & Hxns & Hox & Hxk)%existing_spec.
    assert (slice_key x = n) as Hxn by (apply key_of_inj; [by rewrite Hns|done]).
    rewrite Hxn in Hm. destruct (compareEndpointSlices d x) eqn:Hcmp.
    + exists x. split; [|by apply in_sync_compare]. rewrite <-Hm. apply Hother; intros Hn.
      * apply missing_names in Hn. naive_solver.
      * apply changed_names in Hn. naive_solver congruence.
      * apply undesired_names in Hn. naive_solver.
    + destruct (HC (merge d x)) as (s' & Hs' & Hsame).
      { apply changed_spec. rewrite merge_key, Hxn. eauto 10. }
      exists s'. rewrite merge_key, Hxn in Hs'. split; [done|].
      apply (in_sync_proper gd d _ _ Hsame). by apply merge_in_sync.
  - rewrite <-Hdn in Hx, Hcg, Hns |- *. apply HM; [|done]. apply missing_spec. eauto.
Qed.

Lemma undesired_converged n :
  nn_namespace n = ns → desired !! key_of n = None →
  match m !! n with
  | Some s => if owned gd s then after !! n = None else after !! n = Some s
  | None => after !! n = None
  end.
Proof using All.
  intros Hns Hd. pose proof (existing_at n Hns) as Hex.
  assert (existing !! key_of n = None → after !! n = m !! n) as Hsame.
  { intros Hx. apply Hother; intros Hn.
    - apply missing_names in Hn. naive_solver congruence.
    - apply changed_names in Hn. naive_solver congruence.
    - apply undesired_names in Hn as (_ & [? ?] & _). congruence. }
  destruct (m !! n) as [s|] eqn:Hm; [|by apply Hsame].
  destruct (owned gd s); [|by apply Hsame].
  rewrite <-(Hkeys _ _ Hm). apply HU, undesired_spec. by rewrite (Hkeys _ _ Hm).
Qed.

Lemma applied_converged n : converged ns gd gws n (m !! n) (after !! n).
Proof using All.
  unfold converged. case_decide as Hns.
  - rewrite <-(desired_map_at ns gws n (gateways_namespace _ _ _ Hgws) Hns).
    destruct (desired !! key_of n) as [cg|] eqn:Hcg; [by apply desired_converged|].
    pose proof (undesired_converged n Hns Hcg) as Hu. by destruct (m !! n).
  - apply Hother; intros Hn.
    + apply missing_names in Hn. naive_solver.
    + apply changed_names in Hn. naive_solver.
    + apply undesired_names in Hn. naive_solver.
Qed.

End entries.

(** ** The three loops of [convergeCluster] *)

(** What a loop over the slices of a diff needs of the stored slice of the
    same name, and what it makes of it. *)
Definition create_pre (admissible : EndpointSlice → Prop) (d : EndpointSlice)
    (v : option EndpointSlice) : Prop :=
  admissible d ∧ ∀ x, v = Some x → es_AddressType x = es_AddressType d ∧ admissible (merge d x).
Definition create_post `{Naming} (gd : NamespacedName) (d : EndpointSlice)
    (_ v' : option EndpointSlice) : Prop :=
  owned gd d = true → ∃ s, v' = Some s ∧ in_sync gd d s.

Definition update_pre (admissible : EndpointSlice → Prop) (s : EndpointSlice)
    (v : option EndpointSlice) : Prop :=
  admissible s ∧ ∃ x, v = Some x ∧
    om_ResourceVersion (es_meta s) = om_ResourceVersion (es_meta x) ∧
    es_AddressType s = es_AddressType x.
Definition update_post (s : EndpointSlice) (_ v' : option EndpointSlice) : Prop :=
  ∃ s', v' = Some s' ∧ same_content s s'.

Definition delete_pre (_ : EndpointSlice) (v : option EndpointSlice) : Prop := is_Some v.
Definition delete_post (_ : EndpointSlice) (_ v' : option EndpointSlice) : Prop := v' = None.

Section loops.
Context {W : Type} `{Kube W, NamingLaws}.
Context (c : Client) (store : W → slices) (admissible : EndpointSlice → Prop).
Context (Hapi : api_server c store admissible).
Implicit Types (w : W) (s d : EndpointSlice).

Lemma create_missing_effect gd :
  keyed_effect store (create_missing c) (λ s, slice_key s)
    (create_pre admissible) (create_post gd).
Proof using Hapi.
  intros d w [Had Hv]. unfold create_missing, call_try. run_m.
  destruct (store w !! slice_key d) as [x|] eqn:Hx.
  - destruct (api_create_exists _ _ _ Hapi w d) as (e & -> & ->); [by rewrite Hx|].
    rewrite (call_ok _ _ _ _ (api_get _ _ _ Hapi w (slice_key d) x Hx)).
    destruct (Hv x) as [Hat Hadm]; [done|].
    destruct (api_update _ _ _ Hapi w (merge d x) x) as (s & w' & Hrun & Hst & Hs);
      [by rewrite merge_key, (api_keys _ _ _ Hapi w _ _ Hx)|done|done|done|].
    exists w'. rewrite (call_ok _ _ _ _ Hrun), Hst, merge_key, (api_keys _ _ _ Hapi w _ _ Hx).
    split; [done|]. split; [|by intros k Hk; rewrite lookup_insert_ne].
    intros Hd. exists s. rewrite lookup_insert_eq. split; [done|].
    apply (in_sync_proper gd d (merge d x) s Hs). by apply merge_in_sync.
  - destruct (api_create _ _ _ Hapi w d Hx Had) as (s & w' & -> & Hst & Hs).
    exists w'. rewrite Hst. split; [done|]. split; [|by intros k Hk; rewrite lookup_insert_ne].
    intros Hd. exists s. rewrite lookup_insert_eq. split; [done|].
    apply (in_sync_proper gd d d s Hs). by apply in_sync_refl.
Qed.

Lemma update_effect :
  keyed_effect store (λ s, call (UpdateEndpointSlice c s)) (λ s, slice_key s)
    (update_pre admissible) update_post.
Proof using Hapi.
  intros s w (Hadm & x & Hx & Hv & Hat).
  destruct (api_update _ _ _ Hapi w s x Hx Hadm Hv Hat) as (s' & w' & Hrun & Hst & Hs).
  exists w'. rewrite (call_ok _ _ _ _ Hrun), Hst. split; [done|].
  split; [|by intros k Hk; rewrite lookup_insert_ne]. exists s'. by rewrite lookup_insert_eq.
Qed.

Lemma delete_effect :
  keyed_effect store (λ s, call (DeleteEndpointSlice c s)) (λ s, slice_key s)
    delete_pre delete_post.
Proof using Hapi.
  intros s w Hs. destruct (api_delete _ _ _ Hapi w s Hs) as (w' & Hrun & Hst).
  exists w'. rewrite (call_ok _ _ _ _ Hrun), Hst. split; [done|].
  split; [by apply lookup_delete_eq|]. intros k Hk. by rewrite lookup_delete_ne.
Qed.

(** The run on a diff whose three lists have distinct names. *)
Lemma apply_diff gd (df : ClusterDiff) w :
  NoDup ((λ s, slice_key s) <$> missing df) →
  NoDup ((λ s, slice_key s) <$> changed df) →
  NoDup ((λ s, slice_key s) <$> undesired df) →
  (∀ d s, d ∈ missing df → s ∈ changed df → slice_key d ≠ slice_key s) →
  (∀ d s, d ∈ missing df → s ∈ undesired df → slice_key d ≠ slice_key s) →
  (∀ d s, d ∈ changed df → s ∈ undesired df → slice_key d ≠ slice_key s) →
  (∀ d, d ∈ missing df → create_pre admissible d (store w !! slice_key d)) →
  (∀ s, s ∈ changed df → update_pre admissible s (store w !! slice_key s)) →
  (∀ s, s ∈ undesired df → is_Some (store w !! slice_key s)) →
  ∃ w', (for_each (create_missing c) (missing df) ≫= λ _,
         for_each (λ s, call (UpdateEndpointSlice c s)) (changed df) ≫= λ _,
         for_each (λ s, call (DeleteEndpointSlice c s)) (undesired df)) w = (Ok tt, w') ∧
    (∀ d, d ∈ missing df → create_post gd d None (store w' !! slice_key d)) ∧
    (∀ s, s ∈ changed df → update_post s None (store w' !! slice_key s)) ∧
    (∀ s, s ∈ undesired df → store w' !! slice_key s = None) ∧
    (∀ n, n ∉ (λ s, slice_key s) <$> missing df → n ∉ (λ s, slice_key s) <$> changed df →
          n ∉ (λ s, slice_key s) <$> undesired df → store w' !! n = store w !! n).
Proof using Hapi.
  intros HndM HndC HndU HMC HMU HCU HM HC HU.
  assert (∀ (l : list EndpointSlice) s, (∀ d, d ∈ l → slice_key d ≠ slice_key s) →
            slice_key s ∉ (λ s, slice_key s) <$> l) as Hni.
  { intros l s Hl (d & Heq & Hd)%list_elem_of_fmap. by eapply Hl. }
  destruct (for_each_keyed store (create_missing c) (λ s, slice_key s) _ _ (missing df) w
    (create_missing_effect gd) HndM HM) as (w1 & Hr1 & Hp1 & Ho1).
  destruct (for_each_keyed store (λ s, call (UpdateEndpointSlice c s)) (λ s, slice_key s)
    _ _ (changed df) w1 update_effect HndC) as (w2 & Hr2 & Hp2 & Ho2).
  { intros s Hs. rewrite Ho1; [by apply HC|]. apply Hni. intros d Hd. by apply HMC. }
  destruct (for_each_keyed store (λ s, call (DeleteEndpointSlice c s)) (λ s, slice_key s)
    _ _ (undesired df) w2 delete_effect HndU) as (w3 & Hr3 & Hp3 & Ho3).
  { intros s Hs. unfold delete_pre. rewrite Ho2, Ho1; [by apply HU|..].
    - apply Hni. intros d Hd. by apply HMU.
    - apply Hni. intros d Hd. by apply HCU. }
  exists w3. split; [run_m; by rewrite Hr1, Hr2|]. split_and!.
  - intros d Hd. rewrite Ho3, Ho2; [by apply (Hp1 d Hd)|apply Hni..].
    + intros s Hs Heq. by eapply HMC.
    + intros s Hs Heq. by eapply HMU.
  - intros s Hs. rewrite Ho3; [by apply (Hp2 s Hs)|apply Hni].
    intros d Hd Heq. by eapply HCU.
  - exact Hp3.
  - intros n HnM HnC HnU. by rewrite Ho3, Ho2, Ho1.
Qed.

End loops.

(** ** One run of [convergeCluster] *)

Section run.
Context {W : Type} `{Kube W, NamingLaws}.
Context (c : Client) (store : W → slices) (admissible : EndpointSlice → Prop).
Context (Hapi : api_server c store admissible).
Context (e : EndpointSliceReconciler) (gd : NamespacedName) (gws : list ClusterGateway).
Context (Hgws : gateways_ok (esr_Namespace e) gd gws).
Implicit Types (w : W) (s d : EndpointSlice).

Abbreviation ns := (esr_Namespace e).
Abbreviation desired := (desired_map gws).

(** The listing of a run and the diff it leads to. *)
Lemma run_listing w :
  ∃ items, ListEndpointSlices c ns w = (inl items, w) ∧
    items ≡ₚ filter (λ s, om_Namespace (es_meta s) = ns) (map_to_list (store w)).*2.
Proof using Hapi. exact (api_list _ _ _ Hapi w ns). Qed.

Lemma run_diff o w items :
  valid_order o → ListEndpointSlices c ns w = (inl items, w) →
  diffCluster o e gd c gws w = (Ok (diff_of o (existing_map gd items) desired), w).
Proof using Hgws.
  intros Ho Hlist. apply (diffCluster_eq _ _ _ _ _ _ _ _ Ho Hlist).
  eapply Forall_impl; [exact Hgws|]. naive_solver.
Qed.

Lemma converge_run o w :
  valid_order o → acceptable admissible (store w) gws →
  ∃ w', convergeCluster o e gd c gws w = (Ok tt, w') ∧
    ∀ n, converged ns gd gws n (store w !! n) (store w' !! n).
Proof using All.
  intros Ho Hacc. destruct (run_listing w) as (items & Hlist & Hitems).
  pose proof (api_keys _ _ _ Hapi w) as Hkeys.
  pose proof (missing_spec o Ho ns gd items gws Hgws) as HM.
  pose proof (changed_spec o Ho ns gd _ Hkeys items Hitems gws Hgws) as HC.
  pose proof (undesired_spec o Ho ns gd _ Hkeys items Hitems gws) as HU.
  unfold convergeCluster. unfold mbind at 1, M_bind at 1. rewrite (run_diff o w items Ho Hlist).
  destruct (apply_diff c store admissible Hapi gd (diff_of o (existing_map gd items) desired) w)
    as (w' & Hrun & Hpost).
  - by apply missing_NoDup with ns.
  - by apply changed_NoDup with ns (store w).
  - by apply undesired_NoDup with ns (store w).
  - intros d s (_ & Hx & _)%HM (? & ? & ? & _ & Hx' & _)%HC Heq. congruence.
  - intros d s (_ & Hx & _)%HM [Hx' _]%HU Heq. congruence.
  - intros d s (? & ? & ? & Hd & _)%HC [_ Hd']%HU Heq. congruence.
  - intros d (_ & _ & cg & Hcg & Hd)%HM. apply (Hacc cg d); [|done].
    by apply desired_map_lookup in Hcg as [Hcg _].
  - intros s (cg & d & x & Hcg & (Hx & Hxns & _)%(existing_spec ns gd _ Hkeys items Hitems)
      & Hd & Hcmp & ->)%HC.
    destruct (desired_spec ns gd gws Hgws _ cg Hcg) as (Hin & Hk & Hcns & Hcgd).
    destruct (desired_slice_spec gd ns cg d Hcns Hcgd Hd) as (_ & _ & Hsk & _).
    assert (slice_key d = slice_key x) as Hdx.
    { rewrite Hsk. apply key_of_inj; [by symmetry|done]. }
    destruct (Hacc cg d Hin Hd) as [_ Hm]. rewrite merge_key.
    destruct (Hm x) as [Hat Ham]; [by rewrite Hdx|].
    split; [done|]. exists x. done.
  - intros s [Hx _]%HU. apply (existing_spec ns gd _ Hkeys items Hitems) in Hx as (-> & _). done.
  - exists w'. split; [exact Hrun|]. destruct Hpost as (H1' & H2' & H3' & H4').
    apply (applied_converged o Ho ns gd _ Hkeys items Hitems gws Hgws); [exact H1'|exact H2'|..].
    + exact H3'.
    + exact H4'.
Qed.
End run.

(** ** The fleet *)

(** The tracker hands out one client per cluster. *)
Record client_tracker {W : Type} `{Kube W} (client_of : NamespacedName → Client) : Prop := {
  tracker_client n (w : W) c : (GetClient n w).1 = inl c → c = client_of n;
  tracker_inj : Inj (=) (=) client_of;
}.

(** A cluster that can be reached, has the namespace, and answers. *)
Record healthy {W : Type} `{Kube W} (client_of : NamespacedName → Client)
    (store : Client → W → slices) (admissible : EndpointSlice → Prop) (ns : string)
    (n : NamespacedName) : Prop := {
  healthy_client w : (GetClient n w).1 = inl (client_of n);
  healthy_namespace w : (GetNamespace (client_of n) ns w).1 = inl tt;
  healthy_api : api_server (client_of n) (store (client_of n)) admissible;
}.

Section fleet.
Context {W : Type} `{Kube W, NamingLaws}.
Context (client_of : NamespacedName → Client) (store : Client → W → slices).
Context (Htracker : client_tracker client_of) (Hframe : api_frame store).
Context (e : EndpointSliceReconciler) (gd : NamespacedName) (gws : list ClusterGateway).
Context (Hgws : gateways_ok (esr_Namespace e) gd gws).
Abbreviation cluster_key oc := (meta_key (cl_meta (snd oc))).

(** Any run on the client [c'], failing or not, leaves the other clusters
    alone and does not panic. *)
Lemma convergeCluster_respects (R : relation W) `{!PreOrder R} o c' :
  valid_order o →
  (∀ ns w, R w (ListEndpointSlices c' ns w).2) → (∀ n w, R w (GetEndpointSlice c' n w).2) →
  (∀ s w, R w (CreateEndpointSlice c' s w).2) → (∀ s w, R w (UpdateEndpointSlice c' s w).2) →
  (∀ s w, R w (DeleteEndpointSlice c' s w).2) →
  respects R (convergeCluster o e gd c' gws).
Proof using Hgws.
  intros Ho Hl Hg Hc Hu Hd. unfold convergeCluster, diffCluster.
  repeat (apply respects_bind; [apply _|..]; intros); auto with gocode.
  - apply respects_fold_each; [apply _|]. intros b cg Hin.
    apply (elem_of_map_values (desired_map gws)) in Hin as [k [Hin _]%desired_map_lookup]; [|apply Ho].
    eapply Forall_forall in Hgws as (_ & _ & Hgw); [|done].
    unfold diff_desired. destruct (Unreachable cg); [auto with gocode|].
    destruct Hgw as [svc Hsvc]; [done|].
    destruct (ToEndpointSlice_ok cg svc Hsvc) as (d & Hd' & _). intros w. unfold lift. run_m.
    rewrite Hd'. destruct (_ !! _); [destruct (negb _)|]; by split.
  - apply respects_for_each; [apply _|]. intros s _. unfold create_missing.
    apply respects_bind; [apply _|auto with gocode|]. intros [?|err]; [auto with gocode|].
    destruct (IsAlreadyExists err); [|auto with gocode].
    apply respects_bind; [apply _|auto with gocode|]. intros x. auto with gocode.
Qed.

(** One cluster: at most one error, and only its own slices change. *)
Lemma converge_one_frame errors o cl w :
  valid_order o →
  ∃ errs w', converge_one e gd gws errors (o, cl) w = (Ok (errors ++ errs), w') ∧
    (length errs ≤ 1)%nat ∧
    ∀ c, c ≠ client_of (meta_key (cl_meta cl)) → store c w' = store c w.
Proof using All.
  intros Ho. unfold converge_one, call_try, try. run_m.
  destruct (GetClient (meta_key (cl_meta cl)) w) as [[c'|err] w1] eqn:Hgc;
    pose proof (λ c, frame_client _ Hframe (meta_key (cl_meta cl)) w c) as Hw1;
    rewrite Hgc in Hw1; cbn in Hw1.
  2: { exists [err], w1. auto. }
  assert (c' = client_of (meta_key (cl_meta cl))) as ->.
  { apply (tracker_client _ Htracker _ w). by rewrite Hgc. }
  set (c' := client_of _).
  destruct (GetNamespace c' (esr_Namespace e) w1) as [r w2] eqn:Hns;
    pose proof (λ c, frame_namespace _ Hframe c' (esr_Namespace e) w1 c) as Hw2;
    rewrite Hns in Hw2; cbn in Hw2.
  destruct r as [[]|err].
  2: { destruct (IsNotFound err).
       - exists [], w2. rewrite app_nil_r. split; [done|]. split; [auto with lia|]. intros. by rewrite Hw2.
       - exists [err], w2. split; [done|]. split; [auto with lia|]. intros. by rewrite Hw2. }
  pose proof (λ R P H1 H2 H3 H4 H5, convergeCluster_respects R (PreOrder0 := P) o c' Ho
    H1 H2 H3 H4 H5 w2) as Hresp.
  destruct (convergeCluster o e gd c' gws w2) as [r w3]. cbn in Hresp.
  assert (∀ c, c ≠ c' → store c w3 = store c w) as Hw3.
  { intros c Hc. rewrite <-Hw1, <-Hw2. symmetry.
    apply (Hresp (λ w w', store c w = store c w')).
    - split; repeat intros ?; congruence.
    - intros. symmetry. apply Hframe.
    - intros. symmetry. apply Hframe.
    - intros. symmetry. by apply Hframe.
    - intros. symmetry. by apply Hframe.
    - intros. symmetry. by apply Hframe. }
  destruct r as [[]|err|].
  - exists [], w3. rewrite app_nil_r. auto with lia.
  - exists [err], w3. auto.
  - exfalso. by eapply (Hresp (λ _ _, True)); [split; repeat intros ?|..].
Qed.

(** A healthy cluster converges without an error. *)
Lemma converge_one_healthy admissible errors o cl w :
  valid_order o → healthy client_of store admissible (esr_Namespace e) (meta_key (cl_meta cl)) →
  acceptable admissible (store (client_of (meta_key (cl_meta cl))) w) gws →
  ∃ w', converge_one e gd gws errors (o, cl) w = (Ok errors, w') ∧
    ∀ n, converged (esr_Namespace e) gd gws n
      (store (client_of (meta_key (cl_meta cl))) w !! n)
      (store (client_of (meta_key (cl_meta cl))) w' !! n).
Proof using All.
  intros Ho Hh Hacc. unfold converge_one, call_try, try. run_m.
  pose proof (healthy_client _ _ _ _ _ Hh w) as Hgc.
  pose proof (frame_client _ Hframe (meta_key (cl_meta cl)) w (client_of (meta_key (cl_meta cl)))) as Hw1.
  destruct (GetClient (meta_key (cl_meta cl)) w) as [r w1]. cbn in Hgc, Hw1. subst r.
  pose proof (healthy_namespace _ _ _ _ _ Hh w1) as Hns.
  pose proof (frame_namespace _ Hframe (client_of (meta_key (cl_meta cl))) (esr_Namespace e) w1
    (client_of (meta_key (cl_meta cl)))) as Hw2.
  destruct (GetNamespace _ _ w1) as [r w2]. cbn in Hns, Hw2. subst r.
  rewrite <-Hw1, <-Hw2 in Hacc |- *.
  destruct (converge_run _ _ _ (healthy_api _ _ _ _ _ Hh) e gd gws Hgws o w2 Ho Hacc)
    as (w3 & -> & Hconv).
  by exists w3.
Qed.

(** The loop over the clusters, [ok] telling which of them have the
    postcondition [Post] one by one; [clean] when these report no errors. *)
Lemma converge_loop_each (ok : NamespacedName → bool) (clean : bool)
    (Post : NamespacedName → slices → slices → Prop) clusters errors w :
  Forall (λ oc, valid_order (fst oc)) clusters →
  NoDup ((λ oc, cluster_key oc) <$> clusters) →
  (∀ o cl errors w1, valid_order o → ok (meta_key (cl_meta cl)) = true →
     meta_key (cl_meta cl) ∈ (λ oc, cluster_key oc) <$> clusters →
     store (client_of (meta_key (cl_meta cl))) w1 = store (client_of (meta_key (cl_meta cl))) w →
     ∃ errs w2, converge_one e gd gws errors (o, cl) w1 = (Ok (errors ++ errs), w2) ∧
       (clean = true → errs = []) ∧
       Post (meta_key (cl_meta cl)) (store (client_of (meta_key (cl_meta cl))) w1)
         (store (client_of (meta_key (cl_meta cl))) w2)) →
  ∃ errs w', fold_each (converge_one e gd gws) errors clusters w = (Ok (errors ++ errs), w') ∧
    (clean = true →
       (length errs ≤ length (filter (λ oc, ok (cluster_key oc) = false) clusters))%nat) ∧
    (∀ n, ok n = true → n ∈ (λ oc, cluster_key oc) <$> clusters →
       Post n (store (client_of n) w) (store (client_of n) w')) ∧
    (∀ c, (∀ n, n ∈ (λ oc, cluster_key oc) <$> clusters → c ≠ client_of n) →
       store c w' = store c w).
Proof using All.
  intros Ho. revert errors w. induction Ho as [|[o cl] clusters Ho Hos IH]; intros errors w Hnd Hone.
  { exists [], w. rewrite app_nil_r. split_and!; [done|done| |done]. by intros n _ ?%not_elem_of_nil. }
  cbn [fmap list_fmap] in Hnd. apply NoDup_cons in Hnd as [Hni Hnd]. cbn [snd] in Hni.
  rewrite fold_each_cons. cbn [fst] in Ho.
  destruct (converge_one_frame errors o cl w Ho) as (errs1 & w1 & Hrun & Hlen & Hfr).
  rewrite Hrun.
  assert (∀ n, n ∈ (λ oc, cluster_key oc) <$> clusters →
            store (client_of n) w1 = store (client_of n) w) as Hrest.
  { intros n Hn. apply Hfr. intros Heq%(tracker_inj _ Htracker). by subst n. }
  assert (ok (meta_key (cl_meta cl)) = true → (clean = true → errs1 = []) ∧
    Post (meta_key (cl_meta cl)) (store (client_of (meta_key (cl_meta cl))) w)
      (store (client_of (meta_key (cl_meta cl))) w1)) as Hhere.
  { intros Hok. destruct (Hone o cl errors w) as (errs & w2 & Hrun' & Hclean & Hpost);
      [done|done|cbn; by constructor|done|].
    rewrite Hrun in Hrun'. injection Hrun' as ->%(app_inv_head errors) <-. by split. }
  destruct (IH (errors ++ errs1) w1 Hnd) as (errs2 & w2 & -> & Hlen2 & Hpost & Hfr2).
  { intros o' cl' errors' w' Ho' Hok' Hin Hw'. apply Hone; [done|done|cbn; by constructor|].
    by rewrite Hw', Hrest. }
  exists (errs1 ++ errs2), w2. rewrite (assoc_L (++)). split; [done|]. split_and!.
  - intros Hc. specialize (Hlen2 Hc). rewrite length_app, filter_cons. case_decide as Hbad; [cbn; lia|].
    cbn [snd] in Hbad. apply not_false_iff_true in Hbad. destruct (Hhere Hbad) as [-> _]; done.
  - intros n Hn [->|Hin]%elem_of_cons.
    + cbn [snd] in *. rewrite Hfr2; [by apply Hhere|].
      intros n' Hin Heq%(tracker_inj _ Htracker). by subst n'.
    + rewrite <-(Hrest n Hin). by apply Hpost.
  - intros c Hc. rewrite Hfr2, Hfr; [done|..].
    + apply Hc. by constructor.
    + intros n Hin. apply Hc. by constructor.
Qed.

Lemma converge_loop admissible (ok : NamespacedName → bool) clusters errors w :
  Forall (λ oc, valid_order (fst oc)) clusters →
  NoDup ((λ oc, cluster_key oc) <$> clusters) →
  (∀ n, ok n = true → n ∈ (λ oc, cluster_key oc) <$> clusters →
     healthy client_of store admissible (esr_Namespace e) n ∧
     acceptable admissible (store (client_of n) w) gws) →
  ∃ errs w', fold_each (converge_one e gd gws) errors clusters w = (Ok (errors ++ errs), w') ∧
    (length errs ≤ length (filter (λ oc, ok (cluster_key oc) = false) clusters))%nat ∧
    (∀ n, ok n = true → n ∈ (λ oc, cluster_key oc) <$> clusters →
       ∀ k, converged (esr_Namespace e) gd gws k
              (store (client_of n) w !! k) (store (client_of n) w' !! k)) ∧
    (∀ c, (∀ n, n ∈ (λ oc, cluster_key oc) <$> clusters → c ≠ client_of n) →
       store c w' = store c w).
Proof using All.
  intros Ho Hnd Hok.
  destruct (converge_loop_each ok true
    (λ _ m m', ∀ k, converged (esr_Namespace e) gd gws k (m !! k) (m' !! k)) clusters errors w Ho Hnd)
    as (errs & w' & Hrun & Hlen & Hconv & Hfr).
  { intros o cl errors' w1 Hvo Hcok Hin Hw1. destruct (Hok _ Hcok Hin) as [Hh Hacc].
    rewrite <-Hw1 in Hacc.
    destruct (converge_one_healthy admissible errors' o cl w1 Hvo Hh Hacc) as (w2 & Hrun & Hconv).
    exists [], w2. by rewrite app_nil_r. }
  exists errs, w'. split; [done|]. split; [by apply Hlen|done].
Qed.

(** ** What a run may touch, whatever the calls return *)

Section touched.
Context (c' : Client) (Hkeyed : api_keyed c' (store c')).

(** Only the slices [writes] were written, with this GatewayDNS as the owner,
    and only the slices [removes] were removed. *)
Definition touched (writes removes : list NamespacedName) (w1 w2 : W) : Prop :=
  ∀ n, store c' w2 !! n = store c' w1 !! n ∨
    (n ∈ writes ∧ ∃ s, store c' w2 !! n = Some s ∧ owned gd s = true) ∨
    (n ∈ removes ∧ store c' w2 !! n = None).

#[local] Instance touched_preorder writes removes : PreOrder (touched writes removes).
Proof.
  split; [by left|]. intros w1 w2 w3 H12 H23 k. destruct (H23 k) as [->|?]; [apply H12|by right].
Qed.

Lemma written_touched writes removes s w1 w2 :
  slice_key s ∈ writes → owned gd s = true →
  (∀ n, store c' w2 !! n = store c' w1 !! n ∨
     (n = slice_key s ∧ ∃ s', store c' w2 !! n = Some s' ∧ same_content s s')) →
  touched writes removes w1 w2.
Proof.
  intros Hin Hs Hw n. destruct (Hw n) as [?|(-> & s' & Hs' & Heq)]; [by left|].
  right. left. split; [done|]. exists s'. split; [done|]. by rewrite <-(owned_proper gd s s' Heq).
Qed.

Lemma create_missing_touched writes removes d :
  slice_key d ∈ writes → owned gd d = true → respects (touched writes removes) (create_missing c' d).
Proof using Hframe Hkeyed.
  intros Hin Hd w1. unfold create_missing, call_try, call. run_m.
  pose proof (written_touched writes removes d w1 _ Hin Hd (keyed_create _ _ Hkeyed w1 d)) as Hc.
  destruct (CreateEndpointSlice c' d w1) as [[[]|err] w2]; cbn in Hc; [by split|].
  destruct (IsAlreadyExists err); [|by split].
  pose proof (frame_get _ Hframe c' (slice_key d) w2 c') as Hg.
  destruct (GetEndpointSlice c' (slice_key d) w2) as [[x|err'] w3] eqn:Hget; cbn in Hg |- *.
  2: { split; [|done]. intros k. rewrite Hg. apply Hc. }
  pose proof (keyed_get _ _ Hkeyed _ _ _ _ Hget) as Hx.
  assert (touched writes removes w3 (UpdateEndpointSlice c' (merge d x) w3).2) as Hu.
  { eapply written_touched; [| |apply (keyed_update _ _ Hkeyed)]; [by rewrite merge_key, Hx|].
    by apply (in_sync_owned gd d), merge_in_sync. }
  destruct (UpdateEndpointSlice c' (merge d x) w3) as [[[]|err'] w4]; cbn in Hu |- *;
    (split; [|done]); (etrans; [exact Hc|]); intros k; rewrite <-Hg; apply Hu.
Qed.

(** The three loops, whatever the difference is. *)
Lemma apply_touched (df : ClusterDiff) writes removes :
  (∀ s, s ∈ missing df ∨ s ∈ changed df → slice_key s ∈ writes ∧ owned gd s = true) →
  (∀ s, s ∈ undesired df → slice_key s ∈ removes) →
  respects (touched writes removes)
    (for_each (create_missing c') (missing df) ≫= λ _,
     for_each (λ s, call (UpdateEndpointSlice c' s)) (changed df) ≫= λ _,
     for_each (λ s, call (DeleteEndpointSlice c' s)) (undesired df)).
Proof using Hframe Hkeyed.
  intros Hw Hr.
  apply respects_bind; [apply _|apply respects_for_each; [apply _|]|intros _;
    apply respects_bind; [apply _|apply respects_for_each; [apply _|]|intros _;
      apply respects_for_each; [apply _|]]].
  - intros d Hd. destruct (Hw d) as [Hin Hown]; [by left|]. by apply create_missing_touched.
  - intros s Hs. destruct (Hw s) as [Hin Hown]; [by right|]. apply respects_call. intros w1.
    eapply written_touched; [exact Hin|exact Hown|apply (keyed_update _ _ Hkeyed)].
  - intros s Hs. apply respects_call. intros w1 k.
    destruct (keyed_delete _ _ Hkeyed w1 s k) as [?|[-> ?]]; [by left|].
    right. right. split; [by apply Hr|done].
Qed.

Lemma convergeCluster_confined admissible o w :
  valid_order o → api_server c' (store c') admissible →
  ∀ n, confined (esr_Namespace e) gd gws n (store c' w !! n)
    (store c' (convergeCluster o e gd c' gws w).2 !! n).
Proof using Hframe Hkeyed Hgws.
  intros Ho Hapi n.
  destruct (run_listing c' (store c') admissible Hapi e w) as (items & Hlist & Hitems).
  pose proof (api_keys _ _ _ Hapi w) as Hkeys.
  pose proof (λ n, desired_map_at _ gws n (gateways_namespace _ _ _ Hgws)) as Hfiled.
  set (df := diff_of o (existing_map gd items) (desired_map gws)).
  assert (touched (((λ s, slice_key s) <$> missing df) ++ ((λ s, slice_key s) <$> changed df)) (((λ s, slice_key s) <$> undesired df)) w
    (convergeCluster o e gd c' gws w).2) as Hrun.
  { unfold convergeCluster. unfold mbind at 1, M_bind at 1.
    rewrite (run_diff c' e gd gws Hgws o w items Ho Hlist). fold df. apply apply_touched.
    - intros s Hs. rewrite elem_of_app. destruct Hs as [Hs|Hs]; (split;
        [(left + right); by apply (list_elem_of_fmap_2 (λ s, slice_key s))|]).
      + by apply (missing_owned o Ho (esr_Namespace e) gd items gws Hgws).
      + by apply (changed_owned o Ho (esr_Namespace e) gd _ Hkeys items Hitems gws Hgws).
    - intros s. by apply (list_elem_of_fmap_2 (λ s, slice_key s)). }
  destruct (Hrun n) as [?|[[Hin Hs]|[Hin Hs]]]; [by left|..]; right.
  - assert (nn_namespace n = esr_Namespace e ∧ is_Some (desired_map gws !! key_of n)) as [Hns [cg Hcg]].
    { apply elem_of_app in Hin as [Hin|Hin].
      - apply (missing_names o Ho _ gd items gws Hgws) in Hin as (? & _ & cg & _ & ? & _). eauto.
      - apply (changed_names o Ho _ gd _ Hkeys items Hitems gws Hgws) in Hin
          as (cg & _ & _ & ? & _ & ? & _). eauto. }
    split; [done|]. by rewrite <-Hfiled, Hcg.
  - apply (undesired_names o Ho _ gd _ Hkeys items Hitems gws) in Hin as (Hns & [x Hx] & Hd).
    split; [done|]. rewrite <-Hfiled, Hd by done. split; [done|].
    rewrite (existing_at _ gd _ Hkeys items Hitems) in Hx by done.
    destruct (store c' w !! n) as [s|]; [|done]. destruct (owned gd s) eqn:Hown; [|done]. by exists s.
Qed.
End touched.

Lemma converge_one_confined admissible errors o cl w :
  valid_order o → healthy client_of store admissible (esr_Namespace e) (meta_key (cl_meta cl)) →
  api_keyed (client_of (meta_key (cl_meta cl))) (store (client_of (meta_key (cl_meta cl)))) →
  ∃ errs w', converge_one e gd gws errors (o, cl) w = (Ok (errors ++ errs), w') ∧
    ∀ n, confined (esr_Namespace e) gd gws n
      (store (client_of (meta_key (cl_meta cl))) w !! n)
      (store (client_of (meta_key (cl_meta cl))) w' !! n).
Proof using All.
  intros Ho Hh Hkeyed. unfold converge_one, call_try, try. run_m.
  pose proof (healthy_client _ _ _ _ _ Hh w) as Hgc.
  pose proof (frame_client _ Hframe (meta_key (cl_meta cl)) w (client_of (meta_key (cl_meta cl)))) as Hw1.
  destruct (GetClient (meta_key (cl_meta cl)) w) as [r w1]. cbn in Hgc, Hw1. subst r.
  pose proof (healthy_namespace _ _ _ _ _ Hh w1) as Hns.
  pose proof (frame_namespace _ Hframe (client_of (meta_key (cl_meta cl))) (esr_Namespace e) w1
    (client_of (meta_key (cl_meta cl)))) as Hw2.
  destruct (GetNamespace _ _ w1) as [r w2]. cbn in Hns, Hw2. subst r.
  rewrite <-Hw1, <-Hw2.
  pose proof (convergeCluster_confined _ Hkeyed admissible o w2 Ho (healthy_api _ _ _ _ _ Hh)) as Hconf.
  pose proof (convergeCluster_respects (λ _ _, True) (PreOrder0 := ltac:(split; repeat intros ?; done))
    o (client_of (meta_key (cl_meta cl))) Ho ltac:(done) ltac:(done) ltac:(done) ltac:(done) ltac:(done) w2) as [_ Hp].
  destruct (convergeCluster o e gd _ gws w2) as [[[]|err|] w3]; [..|done]; cbn in Hconf.
  - exists [], w3. by rewrite app_nil_r.
  - by exists [err], w3.
Qed.

End fleet.

(** * Properties *)

Section properties.
Context {W : Type} `{Kube W, NamingLaws}.
Implicit Types (w : W) (e : EndpointSliceReconciler) (gd : NamespacedName).

(** C3: one run of [convergeCluster] against an API server that answers, and
    whose validation accepts the slices of the gateways given, succeeds and takes every slice of the cluster to its place: a desired
    gateway's slice is there with the desired host name, address type,
    endpoints and ports and belongs to this GatewayDNS (created, rewritten
    or taken over); a slice of this GatewayDNS that no gateway asks for is
    gone; the slice of a gateway whose cluster cannot be queried, the slices of
    others and of other namespaces are what they were. *)
Theorem convergeCluster_converges o e gd c store admissible gws w
    (Ho : valid_order o) (Hapi : api_server c store admissible)
    (Hgws : gateways_ok (esr_Namespace e) gd gws)
    (Hacc : acceptable admissible (store w) gws) :
  ∃ w', convergeCluster o e gd c gws w = (Ok tt, w') ∧
    ∀ n, converged (esr_Namespace e) gd gws n (store w !! n) (store w' !! n).
Proof. by apply (converge_run c store admissible). Qed.

Lemma converged_desired e gd gws cg d before after :
  gateways_ok (esr_Namespace e) gd gws →
  desired_map gws !! ClusterGateway_EndpointSliceKey cg = Some cg → desired_slice cg = Some d →
  converged (esr_Namespace e) gd gws (slice_key d) before after →
  ∃ s, after = Some s ∧ in_sync gd d s.
Proof.
  intros Hgws Hcg Hd. destruct (desired_spec _ _ _ Hgws _ _ Hcg) as (_ & _ & Hcns & Hcgd).
  destruct (desired_slice_spec gd _ cg d Hcns Hcgd Hd) as (_ & _ & Hsk & Hkey).
  assert (filed_under gws (slice_key d) = Some cg) as Hf.
  { rewrite <-(desired_map_at _ gws _ (gateways_namespace _ _ _ Hgws)); [by rewrite Hkey|by rewrite Hsk]. }
  unfold converged. rewrite Hf, Hd, Hsk. by rewrite decide_True.
Qed.

(** Nothing is left to do when every name is in its place. *)
Lemma converged_diff o e gd c store admissible gws w before :
  valid_order o → api_server c store admissible → gateways_ok (esr_Namespace e) gd gws →
  (∀ n, converged (esr_Namespace e) gd gws n (before n) (store w !! n)) →
  diffCluster o e gd c gws w = (Ok (mkClusterDiff [] [] []), w).
Proof.
  intros Ho Hapi Hgws Hconv. pose proof (api_keys _ _ _ Hapi w) as Hkeys.
  pose proof (λ n, desired_map_at _ gws n (gateways_namespace _ _ _ Hgws)) as Hfiled.
  destruct (run_listing c store admissible Hapi e w) as (items & Hlist & Hitems).
  rewrite (run_diff c e gd gws Hgws o w items Ho Hlist).
  pose proof (missing_spec o Ho (esr_Namespace e) gd items gws Hgws) as HM.
  pose proof (changed_spec o Ho (esr_Namespace e) gd _ Hkeys items Hitems gws Hgws) as HC.
  pose proof (undesired_spec o Ho (esr_Namespace e) gd _ Hkeys items Hitems gws) as HU.
  destruct (diff_of _ _ _) as [u m ch]. cbn [undesired missing changed] in HM, HC, HU.
  assert (m = [] ∧ ch = [] ∧ u = []) as (-> & -> & ->); [|done].
  split_and!; apply elem_of_nil_inv; intros s Hs.
  - apply HM in Hs as (Hns & Hx & cg & Hcg & Hd). specialize (Hconv (slice_key s)).
    rewrite (existing_at (esr_Namespace e) gd _ Hkeys items Hitems) in Hx by done.
    unfold converged in Hconv. rewrite decide_True in Hconv by done.
    rewrite <-Hfiled, Hcg, Hd in Hconv by done.
    destruct Hconv as (s' & Hs' & Hown%in_sync_owned). by rewrite Hs', Hown in Hx.
  - apply HC in Hs as (cg & d & x & Hcg & Hx & Hd & Hcmp & Hs). specialize (Hconv (slice_key s)).
    apply (existing_spec (esr_Namespace e) gd _ Hkeys items Hitems) in Hx as (Hx & Hns & _).
    subst s. rewrite merge_key in *. unfold converged in Hconv.
    rewrite decide_True in Hconv by done. rewrite <-Hfiled, Hcg, Hd in Hconv by done.
    destruct (desired_spec _ _ _ Hgws _ _ Hcg) as (_ & _ & Hcns & Hcgd).
    destruct (desired_slice_spec gd _ cg d Hcns Hcgd Hd) as (_ & Hown & _).
    destruct Hconv as (s' & Hs' & [Hcmp' _]%in_sync_compare); [|done]. congruence.
  - apply HU in Hs as [Hx Hd]. specialize (Hconv (slice_key s)).
    apply (existing_spec (esr_Namespace e) gd _ Hkeys items Hitems) in Hx as (Hx & Hns & Hown & _).
    unfold converged in Hconv. rewrite decide_True in Hconv by done.
    rewrite <-Hfiled, Hd, Hx in Hconv by done.
    destruct (before _) as [s'|]; [|done]. destruct (owned gd s') eqn:Hown'; [done|]. congruence.
Qed.

(** C13: a second run with the same gateways, in whatever order it goes over
    its maps, makes no write: the world is exactly what the first run left. *)
Theorem convergeCluster_stable o o' e gd c store admissible gws w w'
    (Ho : valid_order o) (Ho' : valid_order o') (Hapi : api_server c store admissible)
    (Hgws : gateways_ok (esr_Namespace e) gd gws)
    (Hacc : acceptable admissible (store w) gws)
    (Hrun : convergeCluster o e gd c gws w = (Ok tt, w')) :
  convergeCluster o' e gd c gws w' = (Ok tt, w').
Proof.
  destruct (converge_run c store admissible Hapi e gd gws Hgws o w Ho Hacc)
    as (w1 & Hrun' & Hconv).
  rewrite Hrun in Hrun'. injection Hrun' as <-.
  unfold convergeCluster. unfold mbind at 1, M_bind at 1.
  by rewrite (converged_diff o' e gd c store admissible gws w' (λ n, store w !! n)).
Qed.

(** C14: whatever the API server answers, a run only deletes slices of the
    listing that belong to this GatewayDNS and that no desired gateway,
    reachable or not, is filed under; and it only rewrites slices of the listing
    that belong to this GatewayDNS and differ from the slice wanted under
    their key. *)
Theorem diffCluster_sound o e gd c gws w df w'
    (Ho : valid_order o)
    (Hgws : Forall (λ cg, Unreachable cg = false → is_Some (Gateway cg)) gws)
    (Hrun : diffCluster o e gd c gws w = (Ok df, w')) :
  ∃ items, ListEndpointSlices c (esr_Namespace e) w = (inl items, w') ∧
    (∀ s, s ∈ undesired df → s ∈ items ∧ owned gd s = true ∧
       ∀ cg, cg ∈ gws → ClusterGateway_EndpointSliceKey cg ≠ EndpointSliceKey s) ∧
    (∀ s, s ∈ changed df → ∃ x cg d, x ∈ items ∧ owned gd x = true ∧ cg ∈ gws ∧
       Unreachable cg = false ∧ ToEndpointSlice cg = Ok d ∧ s = merge d x ∧
       ClusterGateway_EndpointSliceKey cg = EndpointSliceKey x ∧
       compareEndpointSlices d x = false).
Proof.
  assert (∃ items, ListEndpointSlices c (esr_Namespace e) w = (inl items, w')) as [items Hlist].
  { revert Hrun. unfold diffCluster, call. run_m.
    destruct (ListEndpointSlices c (esr_Namespace e) w) as [[items|err] w1]; [|done].
    rewrite diff_desired_loop; [intros [= _ <-]; eauto|]. apply Forall_forall. intros cg Hin.
    apply (elem_of_map_values (desired_map gws)) in Hin as [k [Hk _]%desired_map_lookup];
      [|apply Ho]. by eapply Forall_forall in Hgws. }
  rewrite (diffCluster_eq o e gd c gws items w w' Ho Hlist Hgws) in Hrun. injection Hrun as <-.
  exists items. split; [done|].
  assert (∀ k x, existing_map gd items !! k = Some x →
            x ∈ items ∧ owned gd x = true ∧ EndpointSliceKey x = k) as Hex.
  { intros k x. apply existing_map_sound. }
  split; cbn [undesired changed diff_of]; intros s Hs.
  - apply list_elem_of_filter in Hs as [Hd Hs].
    apply (elem_of_map_values (existing_map gd items)) in Hs as [k Hk]; [|apply Ho].
    apply Hex in Hk as (Hin & Hown & <-). split; [done|]. split; [done|].
    intros cg Hcg Heq. destruct (desired_map_some gws cg Hcg) as [cg' Hcg'].
    unfold not_desired in Hd. rewrite Heq in Hcg'. congruence.
  - apply list_elem_of_omap in Hs as (cg & Hin & Hs).
    apply (elem_of_map_values (desired_map gws)) in Hin as [k [Hin _]%desired_map_lookup];
      [|apply Ho].
    unfold changed_for, desired_slice in Hs. destruct (Unreachable cg) eqn:Hu; [done|].
    destruct (ToEndpointSlice cg) as [d|err|] eqn:Hd; [|done..].
    destruct (existing_map gd items !! _) as [x|] eqn:Hx; [|done].
    destruct (compareEndpointSlices d x) eqn:Hcmp; [done|]. injection Hs as <-.
    apply Hex in Hx as (Hxin & Hown & Hkey). exists x, cg, d. by split_and!.
Qed.

(** C12: convergence of a fleet isolates failures.  Whatever some clusters
    answer, the loop visits every cluster without panicking; a cluster known to be
    healthy converges and reports no error, so that there are at most as many errors
    as other clusters; clusters that are not in the list do not change. *)
Theorem ConvergeToClusters_isolates e gd gws client_of store admissible ok clusters w
    (Htracker : client_tracker client_of) (Hframe : api_frame store)
    (Hgws : gateways_ok (esr_Namespace e) gd gws)
    (Ho : Forall (λ oc, valid_order (fst oc)) clusters)
    (Hnd : NoDup ((λ oc, meta_key (cl_meta (snd oc))) <$> clusters))
    (Hok : ∀ n, ok n = true → n ∈ (λ oc, meta_key (cl_meta (snd oc))) <$> clusters →
       healthy client_of store admissible (esr_Namespace e) n ∧
       acceptable admissible (store (client_of n) w) gws) :
  ∃ errors w', ConvergeToClusters e clusters gd gws w = (Ok errors, w') ∧
    (length errors ≤
       length (filter (λ oc, ok (meta_key (cl_meta (snd oc))) = false) clusters))%nat ∧
    (∀ n, ok n = true → n ∈ (λ oc, meta_key (cl_meta (snd oc))) <$> clusters →
       ∀ k, converged (esr_Namespace e) gd gws k
              (store (client_of n) w !! k) (store (client_of n) w' !! k)) ∧
    (∀ c, (∀ n, n ∈ (λ oc, meta_key (cl_meta (snd oc))) <$> clusters → c ≠ client_of n) →
       store c w' = store c w).
Proof.
  by apply (converge_loop client_of store Htracker Hframe e gd gws Hgws admissible ok clusters []).
Qed.

(** C33: two GatewayDNS resources that select the same cluster take the slice
    of its gateway from each other: after the first has converged, the run
    of the second makes it its own, and the first owns it no longer. *)
Theorem two_gateway_dns_take_turns o1 o2 e gd1 gd2 c store admissible gws1 gws2 cg1 cg2 d1 d2 w
    (Hne : NamespacedName_String gd1 ≠ NamespacedName_String gd2)
    (Ho1 : valid_order o1) (Ho2 : valid_order o2) (Hapi : api_server c store admissible)
    (Hgws1 : gateways_ok (esr_Namespace e) gd1 gws1)
    (Hgws2 : gateways_ok (esr_Namespace e) gd2 gws2)
    (Hacc1 : acceptable admissible (store w) gws1)
    (Hacc2 : ∀ w1, convergeCluster o1 e gd1 c gws1 w = (Ok tt, w1) →
               acceptable admissible (store w1) gws2)
    (Hcg1 : desired_map gws1 !! ClusterGateway_EndpointSliceKey cg1 = Some cg1)
    (Hcg2 : desired_map gws2 !! ClusterGateway_EndpointSliceKey cg2 = Some cg2)
    (Hd1 : desired_slice cg1 = Some d1) (Hd2 : desired_slice cg2 = Some d2)
    (Hkey : slice_key d1 = slice_key d2) :
  ∃ w1 w2 s1 s2, convergeCluster o1 e gd1 c gws1 w = (Ok tt, w1) ∧
    convergeCluster o2 e gd2 c gws2 w1 = (Ok tt, w2) ∧
    store w1 !! slice_key d1 = Some s1 ∧ in_sync gd1 d1 s1 ∧
    store w2 !! slice_key d1 = Some s2 ∧ in_sync gd2 d2 s2 ∧ owned gd1 s2 = false.
Proof.
  destruct (converge_run c store admissible Hapi e gd1 gws1 Hgws1 o1 w Ho1 Hacc1)
    as (w1 & Hr1 & Hc1).
  destruct (converge_run c store admissible Hapi e gd2 gws2 Hgws2 o2 w1 Ho2 (Hacc2 w1 Hr1))
    as (w2 & Hr2 & Hc2).
  destruct (converged_desired e gd1 gws1 cg1 d1 _ _ Hgws1 Hcg1 Hd1 (Hc1 (slice_key d1)))
    as (s1 & Hs1 & Hsync1).
  rewrite Hkey in Hs1 |- *.
  destruct (converged_desired e gd2 gws2 cg2 d2 _ _ Hgws2 Hcg2 Hd2 (Hc2 (slice_key d2)))
    as (s2 & Hs2 & Hsync2).
  exists w1, w2, s1, s2. split_and!; try done.
  apply (owned_exclusive gd2); [done|]. by eapply in_sync_owned.
Qed.

End properties.

(** * Witnesses *)

Definition list_order : RangeOrder :=
  mkRangeOrder (λ m, (map_to_list m).*2) (λ m, (map_to_list m).*2).
Definition reverse_order : RangeOrder :=
  mkRangeOrder (λ m, reverse (map_to_list m).*2) (λ m, reverse (map_to_list m).*2).

Lemma list_order_valid : valid_order list_order.
Proof. done. Qed.
Lemma reverse_order_valid : valid_order reverse_order.
Proof. split; intros m; apply reverse_Permutation. Qed.

Definition a_reconciler : EndpointSliceReconciler := mkEndpointSliceReconciler "xcc-dns".
Definition a_gd : NamespacedName := mkNN "dev" "gd".
Definition other_gd : NamespacedName := mkNN "dev" "other".
Definition gateways : list ClusterGateway := [one_gateway; two_gateway].

(** The gateway of cluster "one" as the other GatewayDNS collected it. *)
Definition other_gateway : ClusterGateway :=
  mkClusterGateway (mkNN "dev" "one") (Some (lb_service "5.6.7.8" "")) false "xcc.test"
    "xcc-dns" other_gd.

Definition stored_slice (name host ref : string) : EndpointSlice :=
  mkEndpointSlice
    (mkMeta name "xcc-dns"
       (Some {[ DNSHostnameAnnotation := host; GatewayDNSRefAnnotation := ref ]}) None "7")
    AddressTypeIPv4 None None.

(** Cluster "one" holds an outdated slice, one that nothing asks for and one
    of another GatewayDNS. *)
Definition one_slices : slices :=
  list_to_map ((λ s, (slice_key s, s)) <$>
    [stored_slice "dev-one-gateway" "*.old.example" "dev/gd";
     stored_slice "dev-gone-gateway" "*.gone.example" "dev/gd";
     stored_slice "dev-three-gateway" "*.three.example" "dev/other"]).
Definition one_world : MemWorld :=
  mkMemWorld {[ mkNN "dev" "one" := one_slices ]} ∅ ∅ ∅.

Definition client_one : @Client MemWorld a_kube := mkNN "dev" "one".

Abbreviation one_store := (mem_store (mkNN "dev" "one")).
Abbreviation converge_one_cluster o gd gws :=
  (convergeCluster (W := MemWorld) o a_reconciler gd client_one gws).

Lemma gateways_are_ok : gateways_ok "xcc-dns" a_gd gateways.
Proof. repeat (apply Forall_cons; split; [split_and!; [done|done|]; cbn; eauto || done|]). by apply Forall_nil. Qed.

Lemma other_gateways_are_ok : gateways_ok "xcc-dns" other_gd [other_gateway].
Proof. apply Forall_singleton. split_and!; [done|done|]. cbn. eauto. Qed.

(** Every slice these worlds hold is an IPv4 slice. *)
Definition all_ipv4 (m : slices) : bool :=
  forallb (λ s, bool_decide (es_AddressType s = AddressTypeIPv4)) (map_to_list m).*2.

(** The slices that gateways ask for pass validation. *)
Definition valid_gateways `{Naming} (gws : list ClusterGateway) : bool :=
  forallb (λ cg, match desired_slice cg with Some d => valid_slice d | None => true end) gws.

Lemma ipv4_acceptable `{Naming} m gws :
  all_ipv4 m = true → valid_gateways gws = true → acceptable valid m gws.
Proof.
  intros Hm Hgws cg d Hin Hd.
  assert (valid_slice d = true) as Hv.
  { unfold valid_gateways in Hgws. apply Is_true_true_2, forallb_True in Hgws.
    eapply Forall_forall in Hgws; [|exact Hin]. rewrite Hd in Hgws. by apply Is_true_true_1. }
  split; [exact Hv|]. intros o Ho. split; [|exact Hv].
  transitivity AddressTypeIPv4.
  - unfold all_ipv4 in Hm. apply Is_true_true_2, forallb_True in Hm.
    eapply Forall_forall in Hm; [by apply bool_decide_unpack in Hm|].
    apply (elem_of_map_values m); [done|eauto].
  - unfold desired_slice, ToEndpointSlice in Hd.
    destruct (Unreachable cg), (Gateway cg); try done. by injection Hd as <-.
Qed.

Lemma convergeCluster_converges_witness :
  ∃ w', converge_one_cluster list_order a_gd gateways one_world = (Ok tt, w') ∧
    ∀ n, converged "xcc-dns" a_gd gateways n
           (one_store one_world !! n) (one_store w' !! n).
Proof.
  apply (convergeCluster_converges list_order a_reconciler a_gd _ _ valid gateways one_world).
  - exact list_order_valid.
  - apply mem_api_server.
  - exact gateways_are_ok.
  - apply ipv4_acceptable; vm_compute; reflexivity.
Defined.

Definition one_converged : MemWorld := (converge_one_cluster list_order a_gd gateways one_world).2.

Lemma convergeCluster_stable_witness :
  converge_one_cluster reverse_order a_gd gateways one_converged = (Ok tt, one_converged).
Proof.
  apply (convergeCluster_stable list_order reverse_order a_reconciler a_gd _
           one_store valid gateways one_world).
  - exact list_order_valid.
  - exact reverse_order_valid.
  - apply mem_api_server.
  - exact gateways_are_ok.
  - apply ipv4_acceptable; vm_compute; reflexivity.
  - vm_compute. reflexivity.
Defined.

(** In between, the outdated slice was rewritten and the unwanted one deleted. *)
Example one_converged_slices :
  om_Name ∘ es_meta <$> (map_to_list (one_store one_converged)).*2 ≡ₚ
    ["dev-one-gateway"; "dev-three-gateway"].
Proof. apply (bool_decide_unpack _). vm_compute. reflexivity. Qed.

(** The one gateway that is no longer wanted. *)
Lemma one_undesired :
  ∃ df w', diffCluster list_order a_reconciler a_gd client_one gateways one_world = (Ok df, w') ∧
    length (undesired df) = 1%nat.
Proof. eexists _, _. split; [vm_compute; reflexivity|reflexivity]. Qed.

Lemma diffCluster_sound_witness :
  ∃ df w' items, diffCluster list_order a_reconciler a_gd client_one
           gateways one_world = (Ok df, w') ∧
    ListEndpointSlices client_one "xcc-dns" one_world =
      (inl items, w') ∧ length (undesired df) = 1%nat ∧
    (∀ s, s ∈ undesired df → s ∈ items ∧ owned a_gd s = true ∧
       ∀ cg, cg ∈ gateways → ClusterGateway_EndpointSliceKey cg ≠ EndpointSliceKey s).
Proof.
  destruct one_undesired as (df & w' & Hrun & Hone).
  destruct (diffCluster_sound list_order a_reconciler a_gd client_one gateways one_world df w')
    as (items & Hlist & Hundesired & _).
  - exact list_order_valid.
  - eapply Forall_impl; [exact gateways_are_ok|]. by intros cg (_ & _ & Hg).
  - exact Hrun.
  - exists df, w', items. split; [done|]. split; [exact Hlist|]. split; [|exact Hundesired].
    exact Hone.
Defined.

Definition own_client (n : NamespacedName) : @Client MemWorld a_kube := n.

(** Cluster "one" answers; cluster "two" is down. *)
Definition fleet : list (RangeOrder * Cluster) :=
  [(list_order, a_cluster "dev" "two"); (list_order, a_cluster "dev" "one")].

Lemma ConvergeToClusters_isolates_witness :
  ∃ errors w', ConvergeToClusters (W := MemWorld) a_reconciler fleet a_gd gateways one_world =
      (Ok errors, w') ∧ (length errors ≤ 1)%nat ∧
    ∀ k, converged "xcc-dns" a_gd gateways k
           (one_store one_world !! k) (one_store w' !! k).
Proof.
  destruct (ConvergeToClusters_isolates (W := MemWorld) a_reconciler a_gd gateways own_client mem_store
    valid (λ n, bool_decide (n = mkNN "dev" "one")) fleet one_world)
    as (errors & w' & Hrun & Hlen & Hconv & _).
  - split; [|by intros n1 n2].
    intros n w c. cbn. unfold mem_GetClient. cbn. case_decide; [done|]. by intros [= ->].
  - apply mem_api_frame.
  - exact gateways_are_ok.
  - by repeat apply Forall_cons_2.
  - apply (bool_decide_unpack _). vm_compute. reflexivity.
  - intros n ->%bool_decide_eq_true _. split; [|apply ipv4_acceptable; vm_compute; reflexivity].
    split; [done|done|]. apply mem_api_server.
  - exists errors, w'. split; [exact Hrun|]. split; [exact Hlen|].
    apply (Hconv (mkNN "dev" "one")); [done|]. cbn. by right; left.
Defined.

Lemma two_gateway_dns_take_turns_witness :
  ∃ w1 w2 s1 s2, converge_one_cluster list_order a_gd gateways one_world = (Ok tt, w1) ∧
    converge_one_cluster list_order other_gd [other_gateway] w1 = (Ok tt, w2) ∧
    one_store w1 !! mkNN "xcc-dns" "dev-one-gateway" = Some s1 ∧ owned a_gd s1 = true ∧
    one_store w2 !! mkNN "xcc-dns" "dev-one-gateway" = Some s2 ∧ owned a_gd s2 = false.
Proof.
  destruct (ToEndpointSlice one_gateway) as [d1| |] eqn:Hd1; [|by vm_compute in Hd1..].
  destruct (ToEndpointSlice other_gateway) as [d2| |] eqn:Hd2; [|by vm_compute in Hd2..].
  assert (slice_key d1 = mkNN "xcc-dns" "dev-one-gateway") as Hk by by injection Hd1 as <-.
  destruct (two_gateway_dns_take_turns list_order list_order a_reconciler a_gd other_gd
    client_one one_store valid gateways [other_gateway]
    one_gateway other_gateway d1 d2 one_world)
    as (w1 & w2 & s1 & s2 & Hr1 & Hr2 & Hs1 & Hsync1 & Hs2 & _ & Ho2).
  - done.
  - exact list_order_valid.
  - exact list_order_valid.
  - apply mem_api_server.
  - exact gateways_are_ok.
  - exact other_gateways_are_ok.
  - apply ipv4_acceptable; vm_compute; reflexivity.
  - intros w1 Hr1. assert (w1 = one_converged) as -> by (unfold one_converged; by rewrite Hr1).
    apply ipv4_acceptable; vm_compute; reflexivity.
  - vm_compute. reflexivity.
  - vm_compute. reflexivity.
  - unfold desired_slice. by rewrite Hd1.
  - unfold desired_slice. by rewrite Hd2.
  - injection Hd1 as <-. injection Hd2 as <-. reflexivity.
  - apply in_sync_owned in Hsync1. rewrite Hk in Hs1, Hs2.
    exists w1, w2, s1, s2.
    exact (conj Hr1 (conj Hr2 (conj Hs1 (conj Hsync1 (conj Hs2 Ho2))))).
Defined.
