(* ===== verification/GatewayDNS.v ===== *)
(** The controller of the GatewayDNS resources,
    [pkg/controllers/gatewaydns/controller.go]: one reconciliation, the events
    a cluster triggers, and the polling loop. *)
From S2P Require Import Prelude GoStrings GoTime K8s Kube ClusterGateway Converge.
#[local] Open Scope string_scope.
#[local] Open Scope list_scope.

(** * Definitions *)

(** [GatewayDNSReconciler]: the clients are the classes [Management] and
    [Kube], the searcher has no other state. *)
Record GatewayDNSReconciler := mkGatewayDNSReconciler {
  gr_EndpointSliceReconciler : EndpointSliceReconciler;
  gr_ClusterGatewayCollector : ClusterGatewayCollector;
  PollingInterval : Duration;
}.

(** [reconcile.Request] *)
Abbreviation Request := NamespacedName.

Definition failed_to_converge : error := ErrNew "Failed to converge EndpointSlices".

Definition clustersToNames (clusters : list Cluster) : list string :=
  foldl (λ names cluster,
    names ++ [om_Namespace (cl_meta cluster) +:+ "/" +:+ om_Name (cl_meta cluster)]) [] clusters.

Section controller.
Context {W : Type} `{Management W} `{!Kube W, Naming}.

(** The [i]th cluster of the listing is converged with the range orders
    [orders i]. *)
Definition convergeOnClustersForGatewayDNS (orders : nat → RangeOrder)
    (r : GatewayDNSReconciler) (namespacedName : NamespacedName)
    (clusterGateways : list ClusterGateway) : M W unit :=
  call (ListClusters None (nn_namespace namespacedName)) ≫= λ clustersInGatewayDNSNamespace,
  ConvergeToClusters (gr_EndpointSliceReconciler r)
    (imap (λ i cluster, (orders i, cluster)) clustersInGatewayDNSNamespace)
    namespacedName clusterGateways ≫= λ errs,
  if decide (0 < length errs)%nat then throw failed_to_converge else mret tt.

Definition Reconcile (orders : nat → RangeOrder) (r : GatewayDNSReconciler) (req : Request)
    : M W unit :=
  call_try (GetGatewayDNS req) ≫= λ res,
  match res with
  | inr err =>
      if IsNotFound err then convergeOnClustersForGatewayDNS orders r req [] else throw err
  | inl gatewayDNS =>
      ListMatchingClusters gatewayDNS ≫= λ clustersWithEndpoints,
      GetGatewaysForClusters (gr_ClusterGatewayCollector r) gatewayDNS clustersWithEndpoints
        ≫= λ clusterGateways,
      convergeOnClustersForGatewayDNS orders r req clusterGateways
  end.

(** One iteration of the loop of [ClusterToGatewayDNS]. *)
Definition match_gateway_dns (clusterLabels : gmap string string) (matching : list Request)
    (gatewayDNS : GatewayDNS) : list Request :=
  match LabelSelectorAsSelector (spec_ClusterSelector (gd_Spec gatewayDNS)) with
  | inr _ => matching
  | inl selector =>
      if Selector_Matches selector clusterLabels
      then matching ++ [meta_key (gd_meta gatewayDNS)]
      else matching
  end.

(** A failed listing enqueues nothing. *)
Definition ClusterToGatewayDNS (o : ObjectMeta) : M W (list Request) :=
  call_try (ListGatewayDNS (Some (om_Namespace o))) ≫= λ res,
  match res with
  | inr _ => mret []
  | inl gatewayDNSList =>
      mret (foldl (match_gateway_dns (entries_of (om_Labels o))) [] (gdl_Items gatewayDNSList))
  end.

(** ** The polling loop

    The goroutine of [PollGatewayDNS] waits for the interval, lists, and sends
    one event per item on an unbuffered channel. *)
Definition polling_interval (r : GatewayDNSReconciler) : Duration :=
  if decide (PollingInterval r = 0%Z) then (30 * Second)%Z else PollingInterval r.

Inductive poll_pc :=
  | Waiting (until : Z)
  | Sending (pending : list GatewayDNS).

Record poll_state := mkPollState {
  pc : poll_pc;
  now : Z;                       (* the clock *)
  world : W;
  polls : list (Z * (GatewayDNSList + error)); (* when the loop listed, and what it got *)
  events : list Request;         (* what was received from the channel *)
}.

Definition poll_init (r : GatewayDNSReconciler) (start : Z) (w : W) : poll_state :=
  mkPollState (Waiting (start + polling_interval r)%Z) start w [] [].

(** The handler of the channel enqueues the name of the event's object. *)
Inductive PollGatewayDNS (r : GatewayDNSReconciler) : poll_state → poll_state → Prop :=
  | poll_elapse s t w' : (now s ≤ t)%Z →
      (* time passes; the rest of the program changes the world *)
      PollGatewayDNS r s (mkPollState (pc s) t w' (polls s) (events s))
  | poll_list_ok s until l w' :
      pc s = Waiting until → (until ≤ now s)%Z →
      ListGatewayDNS None (world s) = (inl l, w') →
      PollGatewayDNS r s
        (mkPollState (Sending (gdl_Items l)) (now s) w' (polls s ++ [(now s, inl l)]) (events s))
  | poll_list_err s until err w' :
      pc s = Waiting until → (until ≤ now s)%Z →
      ListGatewayDNS None (world s) = (inr err, w') →
      PollGatewayDNS r s
        (mkPollState (Waiting (now s + polling_interval r)%Z) (now s) w'
           (polls s ++ [(now s, inr err)]) (events s))
  | poll_send s gd rest :
      pc s = Sending (gd :: rest) →
      PollGatewayDNS r s
        (mkPollState (Sending rest) (now s) (world s) (polls s)
           (events s ++ [meta_key (gd_meta gd)]))
  | poll_done s :
      pc s = Sending [] →
      PollGatewayDNS r s
        (mkPollState (Waiting (now s + polling_interval r)%Z) (now s) (world s) (polls s) (events s)).

(** ** Registration

    The handler of the channel's events, and what the manager is told;
    [Complete] stands for the builder's last call. *)
Definition enqueue_gateway_dns (gatewayDNS : GatewayDNS) (q : list Request) : list Request :=
  q ++ [mkNN (om_Namespace (gd_meta gatewayDNS)) (om_Name (gd_meta gatewayDNS))].

Definition SetupWithManager {X : Type} (Complete : controller W GatewayDNS → M X unit)
    (orders : nat → RangeOrder) (r : GatewayDNSReconciler) : M X unit :=
  Complete (mkController "GatewayDNS"
    [WatchChannel enqueue_gateway_dns; WatchKind "Cluster" ClusterToGatewayDNS]
    (Reconcile orders r)).

End controller.
