(* ===== verification/GatewayDNSSpec.v ===== *)
(** What the GatewayDNS controller promises: a reconciliation leaves every
    healthy cluster of the namespace with the slices of the collected
    gateways, or without any when the GatewayDNS is gone; the events of a
    cluster name exactly the GatewayDNS resources whose search finds it; and
    polling enqueues every listed GatewayDNS once per round. *)
From S2P Require Import Prelude GoStrings GoTime K8s Kube KubeMem ClusterGateway ClusterGatewaySpec.
From S2P Require Import Converge ConvergeSpec GatewayDNS.
From Stdlib Require Import Sorted.
#[local] Open Scope string_scope.
#[local] Open Scope list_scope.

(** * Definitions *)

(** The API server of the management cluster, which holds the GatewayDNS
    resources [gds] and the clusters [cls]. *)
Record management_api {W : Type} `{Management W} (gds : W → gmap NamespacedName GatewayDNS)
    (cls : W → list Cluster) : Prop := {
  mgmt_keys w n gd : gds w !! n = Some gd → meta_key (gd_meta gd) = n;
  mgmt_get w n gd : gds w !! n = Some gd → GetGatewayDNS n w = (inl gd, w);
  mgmt_get_missing w n : gds w !! n = None →
    ∃ e, GetGatewayDNS n w = (inr e, w) ∧ IsNotFound e = true;
  mgmt_list w ns : ∃ l, ListGatewayDNS (Some ns) w = (inl (mkGatewayDNSList l), w) ∧
    ∀ gd, gd ∈ l ↔ gds w !! meta_key (gd_meta gd) = Some gd ∧ om_Namespace (gd_meta gd) = ns;
  mgmt_clusters w sel ns : ∃ l, ListClusters sel ns w = (inl l, w) ∧
    (∀ c, c ∈ l ↔ c ∈ cls w ∧ om_Namespace (cl_meta c) = ns ∧
       ∀ s, sel = Some s → Selector_Matches s (entries_of (om_Labels (cl_meta c))) = true) ∧
    NoDup ((λ c, meta_key (cl_meta c)) <$> l);
}.

(** The reads of workload clusters change neither the clusters that the
    management cluster lists nor the services. *)
Definition quiet_reads {W : Type} `{Kube W} (cls : W → list Cluster)
    (services : Client → W → gmap NamespacedName Service) : Prop :=
  (∀ n w, cls (GetClient n w).2 = cls w ∧ ∀ c, services c (GetClient n w).2 = services c w) ∧
  (∀ c' n w, cls (GetService c' n w).2 = cls w ∧
     ∀ c, services c (GetService c' n w).2 = services c w).

(** What one request has to do with one object. *)
Definition selects `{LabelSelectors} (gd : GatewayDNS) (m : ObjectMeta) : Prop :=
  ∃ sel, LabelSelectorAsSelector (spec_ClusterSelector (gd_Spec gd)) = inl sel ∧
    Selector_Matches sel (entries_of (om_Labels m)) = true.

(** The service that a GatewayDNS names. *)
Definition service_ref `{LabelSelectors} (gd : GatewayDNS) : NamespacedName :=
  newNamespacedNameFromString (spec_Service (gd_Spec gd)).

(** The gateway of a cluster: its load balancer, or none while the cluster
    cannot be queried. *)
Definition gateway_for `{LabelSelectors} (col : ClusterGatewayCollector) (gd : GatewayDNS)
    (n : NamespacedName) (svc : option Service) : ClusterGateway :=
  mkClusterGateway n svc (bool_decide (svc = None)) (col_DomainSuffix col) (col_Namespace col)
    (meta_key (gd_meta gd)).

(** [gws] are the gateways of a GatewayDNS, as the clusters have them: one for
    each cluster of its namespace that it selects and in which the service it names is a
    load balancer with an address, and that is the service of the gateway.  Of
    the clusters for which [ok] does not vouch, some are marked unreachable instead. *)
Record gathered {W : Type} `{Kube W, LabelSelectors} (cls : W → list Cluster)
    (services : Client → W → gmap NamespacedName Service) (client_of : NamespacedName → Client)
    (ok : NamespacedName → bool) (col : ClusterGatewayCollector)
    (w : W) (gd : GatewayDNS) (gws : list ClusterGateway) : Prop := {
  gathered_once : NoDup (ClusterNamespacedName <$> gws);
  gathered_sound cg : cg ∈ gws → gateway_ok col gd cg ∧
    ∃ c, c ∈ cls w ∧ om_Namespace (cl_meta c) = om_Namespace (gd_meta gd) ∧
      selects gd (cl_meta c) ∧ ClusterNamespacedName cg = meta_key (cl_meta c) ∧
      (∀ svc, Gateway cg = Some svc →
         services (client_of (meta_key (cl_meta c))) w !! service_ref gd = Some svc) ∧
      (ok (meta_key (cl_meta c)) = true → Unreachable cg = false);
  gathered_all c svc : c ∈ cls w → om_Namespace (cl_meta c) = om_Namespace (gd_meta gd) →
    selects gd (cl_meta c) →
    services (client_of (meta_key (cl_meta c))) w !! service_ref gd = Some svc → load_balancer svc →
    gateway_for col gd (meta_key (cl_meta c)) (Some svc) ∈ gws ∨
    (ok (meta_key (cl_meta c)) = false ∧ gateway_for col gd (meta_key (cl_meta c)) None ∈ gws);
}.

(** What reaches a controller from the manager: the objects of one event (the
    old and the new one of an update), or an event from a channel. *)
Inductive source_event (E : Type) :=
  | ObjectEvent (kind : string) (metas : list ObjectMeta)
  | ChannelEvent (e : E).
Arguments ObjectEvent {E} _ _.
Arguments ChannelEvent {E} _.

(** The requests of an event: [For] enqueues the objects' names,
    [EnqueueRequestsFromMapFunc] what the function maps each object to. *)
Definition watch_requests {V E : Type} (ev : source_event E) (wt : watch V E)
    : M V (list NamespacedName) :=
  match wt, ev with
  | WatchChannel generic, ChannelEvent e => mret (generic e [])
  | WatchKind kind f, ObjectEvent kind' metas =>
      if decide (kind = kind')
      then fold_each (λ q m, f m ≫= λ l, mret (q ++ l)) [] metas
      else mret []
  | _, _ => mret []
  end.

Definition controller_requests {V E : Type} (ctl : controller V E) (ev : source_event E)
    : M V (list NamespacedName) :=
  fold_each (λ q wt, watch_requests ev wt ≫= λ l, mret (q ++ l))
    match ev with
    | ObjectEvent kind metas => if decide (kind = For ctl) then meta_key <$> metas else []
    | ChannelEvent _ => []
    end (Watches ctl).

(** * Lemmas *)

(** A loop over a function that reads the world and lists what [P] says. *)
Lemma map_loop {V : Type} (f : ObjectMeta → M V (list NamespacedName))
    (P : ObjectMeta → V → list NamespacedName → Prop) :
  (∀ m w, ∃ l, f m w = (Ok l, w) ∧ P m w l) →
  ∀ metas q w, ∃ q', fold_each (λ q m, f m ≫= λ l, mret (q ++ l)) q metas w = (Ok q', w) ∧
    ((∀ m l l', P m w l → P m w l' → ∀ n, n ∈ l ↔ n ∈ l') →
     ∀ n, n ∈ q' ↔ n ∈ q ∨ ∃ m l, m ∈ metas ∧ P m w l ∧ n ∈ l).
Proof.
  intros Hf metas. induction metas as [|m metas IH]; intros q w.
  { exists q. split; [done|]. intros _ n. split; [by left|].
    by intros [?|(m & l & []%not_elem_of_nil & _)]. }
  destruct (Hf m w) as (l & Hm & HP). destruct (IH (q ++ l) w) as (q' & Hrun & Hq').
  exists q'. rewrite fold_each_cons. unfold mbind at 1, M_bind at 1. rewrite Hm. split; [done|].
  intros Hdet n. rewrite (Hq' Hdet), elem_of_app. split.
  - intros [[?|Hn]|(m' & l' & Hin & ?)]; [by left| |]; right.
    + exists m, l. split; [by constructor|done].
    + exists m', l'. split; [by constructor|done].
  - intros [?|(m' & l' & [->|Hin]%elem_of_cons & HP' & Hn)]; [by left; left| |].
    + left. right. by apply (Hdet m l' l).
    + right. by exists m', l'.
Qed.

Lemma match_gateway_dns_loop `{LabelSelectors} labels l acc n :
  n ∈ foldl (match_gateway_dns labels) acc l ↔
  n ∈ acc ∨ ∃ gd sel, gd ∈ l ∧ n = meta_key (gd_meta gd) ∧
    LabelSelectorAsSelector (spec_ClusterSelector (gd_Spec gd)) = inl sel ∧
    Selector_Matches sel labels = true.
Proof.
  revert acc. induction l as [|gd l IH]; intros acc; cbn.
  { split; [by left|]. intros [?|(? & ? & []%not_elem_of_nil & _)]; done. }
  rewrite IH. unfold match_gateway_dns.
  destruct (LabelSelectorAsSelector _) as [sel|err] eqn:Hsel;
    [destruct (Selector_Matches sel labels) eqn:Hm|].
  - rewrite elem_of_app, list_elem_of_singleton. split.
    + intros [[?| ->]|(gd' & sel' & ? & ?)]; [by left|..]; right.
      * exists gd, sel. split; [by constructor|done].
      * exists gd', sel'. split; [by constructor|done].
    + intros [?|(gd' & sel' & [->|Hin]%elem_of_cons & Hn & ?)]; [by left; left|..].
      * left. by right.
      * right. by exists gd', sel'.
  - split.
    + intros [?|(gd' & sel' & ? & ?)]; [by left|right]. exists gd', sel'.
      split; [by constructor|done].
    + intros [?|(gd' & sel' & [->|Hin]%elem_of_cons & Hn & Hs & Hm')]; [by left|congruence|].
      right. by exists gd', sel'.
  - split.
    + intros [?|(gd' & sel' & ? & ?)]; [by left|right]. exists gd', sel'.
      split; [by constructor|done].
    + intros [?|(gd' & sel' & [->|Hin]%elem_of_cons & Hn & Hs & Hm')]; [by left|congruence|].
      right. by exists gd', sel'.
Qed.

(** ** Collecting gateways *)

Lemma gateways_ok_of `{LabelSelectors} e gd gws :
  Forall (gateway_ok e gd) gws → gateways_ok (col_Namespace e) (meta_key (gd_meta gd)) gws.
Proof.
  intros Hall. eapply Forall_impl; [exact Hall|]. intros cg (_ & Hns & Hgd & Hg).
  split_and!; [done|done|]. intros Hu. rewrite Hu in Hg. naive_solver.
Qed.

Section collect.
Context {W : Type} `{Kube W, LabelSelectors}.
Context (cls : W → list Cluster) (services : Client → W → gmap NamespacedName Service).
Context (client_of : NamespacedName → Client) (store : Client → W → slices).
Context (Htracker : client_tracker client_of) (Hframe : api_frame store).
Context (Hquiet : quiet_reads cls services) (ok : NamespacedName → bool).
Context (Hservices : service_api services client_of ok).
Context (col : ClusterGatewayCollector) (gd : GatewayDNS).

Abbreviation gd_key := (meta_key (gd_meta gd)).

(** What the reads leave as it is. *)
Definition same_fleet (w w' : W) : Prop :=
  cls w' = cls w ∧ (∀ c, services c w' = services c w) ∧ ∀ c, store c w' = store c w.

#[local] Instance same_fleet_preorder : PreOrder same_fleet.
Proof.
  split; unfold same_fleet; [done|]. intros w1 w2 w3 (Hc & Hs & Ht) (Hc' & Hs' & Ht').
  split_and!; [by rewrite Hc'|intros c; by rewrite Hs'|intros c; by rewrite Ht'].
Qed.

Lemma client_same n w : same_fleet w (GetClient n w).2.
Proof using Hquiet Hframe.
  destruct Hquiet as [Hq _]. destruct (Hq n w) as [? ?]. split_and!; [done|done|].
  intros c. apply (frame_client _ Hframe).
Qed.

Lemma service_same c' n w : same_fleet w (GetService c' n w).2.
Proof using Hquiet Hframe.
  destruct Hquiet as [_ Hq]. destruct (Hq c' n w) as [? ?]. split_and!; [done|done|].
  intros c. apply (frame_service _ Hframe).
Qed.

(** What the lookup in one cluster says of its service. *)
Lemma lookup_truth cl w wi :
  same_fleet w wi →
  (∀ w, ok (meta_key (cl_meta cl)) = true →
     (GetClient (meta_key (cl_meta cl)) w).1 = inl (client_of (meta_key (cl_meta cl)))) →
  let svcs := services (client_of (meta_key (cl_meta cl))) w in
  match (getLoadBalancerServiceForCluster (service_ref gd) cl wi).1 with
  | Ok (Some svc) => svcs !! service_ref gd = Some svc ∧ load_balancer svc
  | Ok None => ∀ svc, svcs !! service_ref gd = Some svc → ¬ load_balancer svc
  | _ => ok (meta_key (cl_meta cl)) = false
  end.
Proof using Htracker Hquiet Hservices Hframe.
  intros Hwi Hclient svcs. unfold getLoadBalancerServiceForCluster, call, call_try. run_m.
  pose proof (client_same (meta_key (cl_meta cl)) wi) as Hw1.
  pose proof (Hclient wi) as Hans.
  destruct (GetClient (meta_key (cl_meta cl)) wi) as [[c|err] w1] eqn:Hget; cbn in *.
  2: { apply not_true_iff_false. intros Hok. by specialize (Hans Hok). }
  assert (c = client_of (meta_key (cl_meta cl))) as ->.
  { apply (tracker_client _ Htracker _ wi). by rewrite Hget. }
  assert (services (client_of (meta_key (cl_meta cl))) w1 = svcs) as Heq.
  { destruct Hwi as (_ & Hs & _), Hw1 as (_ & Hs1 & _). by rewrite Hs1, Hs. }
  pose proof (service_true _ _ _ Hservices (client_of (meta_key (cl_meta cl))) (service_ref gd) w1) as Htrue.
  pose proof (service_absent _ _ _ Hservices (client_of (meta_key (cl_meta cl))) (service_ref gd) w1) as Habs.
  pose proof (λ err, service_answers _ _ _ Hservices (meta_key (cl_meta cl)) (service_ref gd) w1 err) as Hansw.
  rewrite Heq in Htrue, Habs.
  destruct (GetService _ (service_ref gd) w1) as [[svc|err] w2]; cbn in *.
  - specialize (Htrue svc eq_refl).
    destruct (isLoadBalancerWithExternalIP svc) eqn:Hlb; cbn.
    + split; [done|]. by apply isLoadBalancerWithExternalIP_spec.
    + intros svc' Hsvc' Hlb'%isLoadBalancerWithExternalIP_spec. congruence.
  - destruct (IsNotFound err) eqn:Hnf; cbn.
    + intros svc. by rewrite (Habs err eq_refl Hnf).
    + apply not_true_iff_false. intros Hok. by rewrite (Hansw err Hok eq_refl) in Hnf.
Qed.

(** The gateway, if any, that the service of a cluster calls for. *)
Definition gateway_truth (cl : Cluster) (w : W) (g : option ClusterGateway) : Prop :=
  let svcs := services (client_of (meta_key (cl_meta cl))) w in
  match g with
  | Some cg =>
      (Unreachable cg = true ∧ ok (meta_key (cl_meta cl)) = false ∧
         cg = gateway_for col gd (meta_key (cl_meta cl)) None) ∨
      ∃ svc, svcs !! service_ref gd = Some svc ∧
         cg = gateway_for col gd (meta_key (cl_meta cl)) (Some svc)
  | None => ∀ svc, svcs !! service_ref gd = Some svc → ¬ load_balancer svc
  end.

Lemma lookup_gateway_truth cl w wi :
  same_fleet w wi →
  (∀ w, ok (meta_key (cl_meta cl)) = true →
     (GetClient (meta_key (cl_meta cl)) w).1 = inl (client_of (meta_key (cl_meta cl)))) →
  gateway_truth cl w (lookup_gateway col gd_key cl
    (getLoadBalancerServiceForCluster (service_ref gd) cl wi).1).
Proof using Htracker Hquiet Hservices Hframe.
  intros Hwi Hclient. pose proof (lookup_truth cl w wi Hwi Hclient) as Ht. cbn in Ht.
  unfold gateway_truth.
  destruct (getLoadBalancerServiceForCluster _ cl wi).1 as [[svc|]|err|]; cbn; [right|done|left..].
  - exists svc. by destruct Ht.
  - done.
  - done.
Qed.

(** The collection finds what there is. *)
Lemma collect_gathered l w :
  (∀ c, c ∈ l ↔ c ∈ cls w ∧ om_Namespace (cl_meta c) = om_Namespace (gd_meta gd) ∧
     selects gd (cl_meta c)) →
  NoDup ((λ c, meta_key (cl_meta c)) <$> l) →
  (∀ c w', c ∈ l → ok (meta_key (cl_meta c)) = true →
     (GetClient (meta_key (cl_meta c)) w').1 = inl (client_of (meta_key (cl_meta c)))) →
  ∃ gws w1, GetGatewaysForClusters col gd l w = (Ok gws, w1) ∧ same_fleet w w1 ∧
    gathered cls services client_of ok col w gd gws.
Proof using All.
  intros Hl Hnd Hclient.
  destruct (collect_loop col gd (service_ref gd) l w []) as (gws & w1 & Hrun & Hok & Hsub).
  destruct (collect_results same_fleet col gd_key (service_ref gd) l w [] client_same service_same)
    as (gs & w1' & Hrun' & Hw1 & Hgs).
  rewrite Hrun in Hrun'. injection Hrun' as -> <-.
  exists (omap id gs), w1. split; [exact Hrun|]. split; [done|].
  assert (∀ c g, c ∈ l → (∃ wi, same_fleet w wi ∧ g = lookup_gateway col gd_key c
    (getLoadBalancerServiceForCluster (service_ref gd) c wi).1) → gateway_truth c w g) as Htruth.
  { intros c g Hc (wi & Hwi & ->). apply lookup_gateway_truth; [done|].
    intros w' Hok'. by apply Hclient. }
  split.
  - by eapply sublist_NoDup.
  - intros cg Hcg. split; [by eapply Forall_forall in Hok|].
    apply list_elem_of_omap in Hcg as (g & Hg & Hcg). cbn in Hcg. subst g.
    apply list_elem_of_lookup in Hg as [i Hi].
    destruct (Forall2_lookup_r _ _ _ _ _ Hgs Hi) as (c & Hc%list_elem_of_lookup_2 & Hwi).
    destruct (proj1 (Hl c) Hc) as (Hc1 & Hc2 & Hc3). exists c.
    destruct (Htruth c _ Hc Hwi) as [(Hu & Hbad & ->)|(svc & Hsvc & ->)].
    + split_and!; [done..|by intros ? [=]|]. rewrite Hbad. by intros [=].
    + split_and!; [done..| |done]. by intros svc' [= <-].
  - intros c svc Hc Hcns Hsel Hsvc Hlb.
    assert (c ∈ l) as Hin by by apply Hl.
    apply list_elem_of_lookup in Hin as [i Hi].
    destruct (Forall2_lookup_l _ _ _ _ _ Hgs Hi) as (g & Hg%list_elem_of_lookup_2 & Hwi).
    apply list_elem_of_lookup_2 in Hi.
    specialize (Htruth c g Hi Hwi). cbn in Htruth. destruct g as [cg|]; [|by destruct (Htruth svc)].
    assert (cg ∈ omap id gs) as Hcg by (apply list_elem_of_omap; by exists (Some cg)).
    destruct Htruth as [(_ & Hbad & ->)|(svc' & Hsvc' & ->)].
    + right. by rewrite Hbad.
    + left. by rewrite Hsvc in Hsvc'; injection Hsvc' as <-.
Qed.
End collect.

(** ** One reconciliation *)

Section reconcile.
Context {W : Type} `{Management W} `{!Kube W, NamingLaws}.
Context (gds : W → gmap NamespacedName GatewayDNS) (cls : W → list Cluster).
Context (Hmgmt : management_api gds cls).
Context (services : Client → W → gmap NamespacedName Service).
Context (client_of : NamespacedName → Client) (store : Client → W → slices).
Context (Htracker : client_tracker client_of) (Hframe : api_frame store).
Context (r : GatewayDNSReconciler) (req : Request).
Context (orders : nat → RangeOrder) (Horders : ∀ i, valid_order (orders i)).
Context (admissible : EndpointSlice → Prop) (ok : NamespacedName → bool).

Abbreviation cluster_key oc := (meta_key (cl_meta (snd oc))).
Abbreviation ns := (esr_Namespace (gr_EndpointSliceReconciler r)).
Abbreviation slices_of c w := (store (client_of (meta_key (cl_meta c))) w).

(** The clusters of the GatewayDNS' namespace, healthy where [ok] says so. *)
Definition fleet_healthy (w : W) : Prop :=
  ∀ c, c ∈ cls w → om_Namespace (cl_meta c) = nn_namespace req →
    ok (meta_key (cl_meta c)) = true →
    healthy client_of store admissible ns (meta_key (cl_meta c)).

(** Validation accepts the slices of the given gateways in the healthy clusters. *)
Definition fleet_accepts (gws : list ClusterGateway) (w : W) : Prop :=
  ∀ c, c ∈ cls w → om_Namespace (cl_meta c) = nn_namespace req →
    ok (meta_key (cl_meta c)) = true → acceptable admissible (slices_of c w) gws.

(** Where the healthy clusters end. *)
Definition fleet_converged (gws : list ClusterGateway) (w w' : W) : Prop :=
  ∀ c, c ∈ cls w → om_Namespace (cl_meta c) = nn_namespace req →
    ok (meta_key (cl_meta c)) = true →
    ∀ k, converged ns req gws k (slices_of c w !! k) (slices_of c w' !! k).

(** What may have happened to them whatever validation said. *)
Definition fleet_confined (gws : list ClusterGateway) (w w' : W) : Prop :=
  ∀ c, c ∈ cls w → om_Namespace (cl_meta c) = nn_namespace req →
    ok (meta_key (cl_meta c)) = true →
    ∀ k, confined ns req gws k (slices_of c w !! k) (slices_of c w' !! k).

Definition all_ok (w : W) : Prop :=
  ∀ c, c ∈ cls w → om_Namespace (cl_meta c) = nn_namespace req → ok (meta_key (cl_meta c)) = true.

(** The loop over the clusters, given what it does to one healthy cluster. *)
Lemma converge_fleet_each (clean : bool) (Post : slices → slices → Prop) gws w :
  gateways_ok ns req gws →
  (∀ c o cl errors w1, c ∈ cls w → om_Namespace (cl_meta c) = nn_namespace req →
     ok (meta_key (cl_meta c)) = true → meta_key (cl_meta cl) = meta_key (cl_meta c) →
     valid_order o → slices_of cl w1 = slices_of c w →
     ∃ errs w2, converge_one (gr_EndpointSliceReconciler r) req gws errors (o, cl) w1 =
         (Ok (errors ++ errs), w2) ∧
       (clean = true → errs = []) ∧ Post (slices_of cl w1) (slices_of cl w2)) →
  ∃ res w', convergeOnClustersForGatewayDNS orders r req gws w = (res, w') ∧
    (res = Ok tt ∨ res = Err failed_to_converge) ∧
    (clean = true → all_ok w → res = Ok tt) ∧
    (∀ c, c ∈ cls w → om_Namespace (cl_meta c) = nn_namespace req →
       ok (meta_key (cl_meta c)) = true → Post (slices_of c w) (slices_of c w')) ∧
    ∀ c, (∀ cl, cl ∈ cls w → om_Namespace (cl_meta cl) = nn_namespace req →
            c ≠ client_of (meta_key (cl_meta cl))) → store c w' = store c w.
Proof using H2 Hmgmt Htracker Hframe Horders.
  intros Hgws Heach.
  destruct (mgmt_clusters _ _ Hmgmt w None (nn_namespace req)) as (l & Hlist & Hl & Hnd).
  unfold convergeOnClustersForGatewayDNS. run_m. rewrite (call_ok _ _ _ _ Hlist).
  set (cl := imap (λ i cluster, (orders i, cluster)) l).
  assert ((λ oc, meta_key (cl_meta oc.2)) <$> cl = (λ c, meta_key (cl_meta c)) <$> l) as Hkeys.
  { unfold cl. rewrite fmap_imap, <-imap_const. by apply imap_ext. }
  destruct (converge_loop_each client_of store Htracker Hframe (gr_EndpointSliceReconciler r) req gws
    Hgws ok clean (λ _, Post) cl [] w) as (errs & w' & Hrun & Hlen & Hpost & Hfr).
  - apply Forall_forall. intros oc (i & c & -> & _)%elem_of_lookup_imap. apply Horders.
  - by rewrite Hkeys.
  - rewrite Hkeys. intros o c errors w1 Ho Hn (c' & Heq & Hc)%list_elem_of_fmap Hw1.
    apply Hl in Hc as (Hc & Hns & _). rewrite Heq in Hn. apply (Heach c'); try done.
    by rewrite Hw1, Heq.
  - unfold ConvergeToClusters. rewrite Hrun, app_nil_l.
    assert (∀ c, c ∈ cls w → om_Namespace (cl_meta c) = nn_namespace req →
      ok (meta_key (cl_meta c)) = true → Post (slices_of c w) (slices_of c w')) as Hfleet.
    { intros c Hc Hns Hn. apply Hpost; [done|]. rewrite Hkeys.
      apply (list_elem_of_fmap_2 (λ c, meta_key (cl_meta c))), Hl. naive_solver. }
    assert (clean = true → all_ok w → length errs = 0%nat) as Hnone.
    { intros Hclean Hall. assert (filter (λ oc, ok (cluster_key oc) = false) cl = []) as Hnil.
      { apply elem_of_nil_inv. intros oc [Hbad Hin]%list_elem_of_filter.
        apply elem_of_lookup_imap in Hin as (i & c & -> & Hc%list_elem_of_lookup_2).
        apply Hl in Hc as (Hc & Hns & _). cbn [snd] in Hbad. by rewrite (Hall c) in Hbad. }
      specialize (Hlen Hclean). rewrite Hnil in Hlen. cbn in Hlen. lia. }
    assert (∀ c, (∀ cl, cl ∈ cls w → om_Namespace (cl_meta cl) = nn_namespace req →
            c ≠ client_of (meta_key (cl_meta cl))) → store c w' = store c w) as Hother.
    { intros c Hc. apply Hfr. rewrite Hkeys. intros n (cl' & -> & Hcl)%list_elem_of_fmap.
      apply Hl in Hcl as (Hcl & Hns & _). by apply Hc. }
    case_decide as Herrs; eexists _, w'; (split; [reflexivity|]); split_and!; auto.
    intros Hclean Hall. specialize (Hnone Hclean Hall). lia.
Qed.

Lemma converge_fleet gws w :
  gateways_ok ns req gws → fleet_healthy w → fleet_accepts gws w →
  ∃ res w', convergeOnClustersForGatewayDNS orders r req gws w = (res, w') ∧
    (res = Ok tt ∨ res = Err failed_to_converge) ∧ (all_ok w → res = Ok tt) ∧
    fleet_converged gws w w'.
Proof using H2 Hmgmt Htracker Hframe Horders.
  intros Hgws Hok Hacc.
  destruct (converge_fleet_each true (λ m m', ∀ k, converged ns req gws k (m !! k) (m' !! k)) gws w Hgws)
    as (res & w' & Hrun & Hres & Hall & Hconv & _).
  - intros c o cl errors w1 Hc Hns Hn Hkey Ho Hw1.
    destruct (converge_one_healthy client_of store Htracker Hframe (gr_EndpointSliceReconciler r) req gws Hgws
      admissible errors o cl w1) as (w2 & Hrun & Hconv).
    + done.
    + rewrite Hkey. by apply Hok.
    + rewrite Hw1. by apply Hacc.
    + exists [], w2. by rewrite app_nil_r.
  - exists res, w'. split_and!; [done|done|by apply Hall|exact Hconv].
Qed.

Lemma converge_fleet_confined gws w :
  gateways_ok ns req gws → fleet_healthy w → (∀ c, api_keyed c (store c)) →
  ∃ res w', convergeOnClustersForGatewayDNS orders r req gws w = (res, w') ∧
    (res = Ok tt ∨ res = Err failed_to_converge) ∧ fleet_confined gws w w' ∧
    ∀ c, (∀ cl, cl ∈ cls w → om_Namespace (cl_meta cl) = nn_namespace req →
            c ≠ client_of (meta_key (cl_meta cl))) → store c w' = store c w.
Proof using H2 Hmgmt Htracker Hframe Horders.
  intros Hgws Hok Hkeyed.
  destruct (converge_fleet_each false (λ m m', ∀ k, confined ns req gws k (m !! k) (m' !! k)) gws w Hgws)
    as (res & w' & Hrun & Hres & _ & Hconf & Hother).
  - intros c o cl errors w1 Hc Hns Hn Hkey Ho Hw1.
    destruct (converge_one_confined client_of store Htracker Hframe (gr_EndpointSliceReconciler r) req gws Hgws
      admissible errors o cl w1) as (errs & w2 & Hrun & Hconf).
    + done.
    + rewrite Hkey. by apply Hok.
    + apply Hkeyed.
    + by exists errs, w2.
  - by exists res, w'.
Qed.

Context (Hquiet : quiet_reads cls services) (Hservices : service_api services client_of ok).
Abbreviation gathered := (gathered cls services client_of ok (gr_ClusterGatewayCollector r)).

(** The gateways that a reconciliation works with. *)
Lemma gather gd sel w :
  gds w !! req = Some gd → LabelSelectorAsSelector (spec_ClusterSelector (gd_Spec gd)) = inl sel →
  fleet_healthy w →
  ∃ l gws w1, ListMatchingClusters gd w = (Ok l, w) ∧
    GetGatewaysForClusters (gr_ClusterGatewayCollector r) gd l w = (Ok gws, w1) ∧
    same_fleet cls services store w w1 ∧ gathered w gd gws.
Proof using Hmgmt Htracker Hframe Hquiet Hservices.
  intros Hgd Hsel Hok.
  destruct (mgmt_clusters _ _ Hmgmt w (Some sel) (om_Namespace (gd_meta gd)))
    as (l & Hlist & Hl & Hnd).
  destruct (collect_gathered cls services client_of store Htracker Hframe Hquiet ok Hservices
    (gr_ClusterGatewayCollector r) gd l w) as (gws & w1 & Hcol & Hsame & Hgws).
  - intros c. rewrite Hl. unfold selects. rewrite Hsel. naive_solver.
  - done.
  - intros c w' (Hc & Hns & _)%Hl Hn. apply (healthy_client _ _ _ _ _ (Hok c Hc ltac:(by
      rewrite Hns, <-(mgmt_keys _ _ Hmgmt w req gd Hgd)) Hn)).
  - exists l, gws, w1. split; [|done]. unfold ListMatchingClusters.
    by rewrite Hsel, (call_ok _ _ _ _ Hlist).
Qed.

Lemma gathered_gateways_ok w gd gws :
  col_Namespace (gr_ClusterGatewayCollector r) = ns → gds w !! req = Some gd →
  gathered w gd gws → gateways_ok ns req gws.
Proof using Hmgmt.
  intros Hns Hgd Hg. rewrite <-Hns, <-(mgmt_keys _ _ Hmgmt w req gd Hgd). apply gateways_ok_of.
  apply Forall_forall. intros cg Hcg. by apply Hg in Hcg as [? _].
Qed.

(** One reconciliation of a GatewayDNS that is there. *)
Lemma reconcile_gathered gd sel w :
  gds w !! req = Some gd →
  LabelSelectorAsSelector (spec_ClusterSelector (gd_Spec gd)) = inl sel →
  col_Namespace (gr_ClusterGatewayCollector r) = ns → fleet_healthy w →
  ∃ gws, gathered w gd gws ∧
    (fleet_accepts gws w →
     ∃ res w', Reconcile orders r req w = (res, w') ∧
       (res = Ok tt ∨ res = Err failed_to_converge) ∧ (all_ok w → res = Ok tt) ∧
       fleet_converged gws w w').
Proof using All.
  intros Hgd Hsel Hns Hok.
  destruct (gather gd sel w Hgd Hsel Hok) as (l & gws & w1 & Hmatch & Hcol & (Hcls & _ & Hst) & Hgws).
  exists gws. split; [done|]. intros Hacc.
  destruct (converge_fleet gws w1) as (res & w' & Hrun & Hres & Hall & Hconv).
  - by eapply gathered_gateways_ok.
  - intros c. rewrite Hcls. apply Hok.
  - intros c. rewrite Hcls, Hst. apply Hacc.
  - exists res, w'. unfold Reconcile, call_try. run_m.
    rewrite (mgmt_get _ _ Hmgmt w req gd Hgd), Hmatch, Hcol. split; [exact Hrun|].
    split; [done|]. split; [by unfold all_ok in *; rewrite Hcls in Hall|].
    intros c Hc Hcns Hn k. specialize (Hconv c). rewrite Hcls, Hst in Hconv. auto.
Qed.

(** * Properties *)

(** C10: reconciling a GatewayDNS whose selector is valid collects its gateways
    as the clusters have them - one for each selected cluster whose service
    is a load balancer with an address; a cluster that cannot be queried counts as unreachable -
    and takes every healthy cluster of the namespace, selected or not, to the
    slices of these gateways, provided that validation accepts the slices of
    the gateways that are there to collect; only a cluster that is not healthy
    can make it return an error, which asks for another attempt. *)
Theorem Reconcile_propagates gd sel w
    (Hgd : gds w !! req = Some gd)
    (Hsel : LabelSelectorAsSelector (spec_ClusterSelector (gd_Spec gd)) = inl sel)
    (Hns : col_Namespace (gr_ClusterGatewayCollector r) = ns)
    (Hok : fleet_healthy w) (Hacc : ∀ gws, gathered w gd gws → fleet_accepts gws w) :
  ∃ gws res w', Reconcile orders r req w = (res, w') ∧
    (res = Ok tt ∨ res = Err failed_to_converge) ∧ (all_ok w → res = Ok tt) ∧
    gathered w gd gws ∧ fleet_converged gws w w'.
Proof using All.
  destruct (reconcile_gathered gd sel w Hgd Hsel Hns Hok) as (gws & Hgws & Hrun).
  destruct (Hrun (Hacc gws Hgws)) as (res & w' & ? & ? & ? & ?). by exists gws, res, w'.
Qed.

(** C15: once a GatewayDNS is gone, its reconciliation leaves no slice of it in
    the controller's namespace of any healthy cluster of its namespace, and
    changes no other slice there. *)
Theorem Reconcile_deleted w (Hgd : gds w !! req = None) (Hok : fleet_healthy w) :
  ∃ res w', Reconcile orders r req w = (res, w') ∧ (all_ok w → res = Ok tt) ∧
    ∀ c, c ∈ cls w → om_Namespace (cl_meta c) = nn_namespace req →
      ok (meta_key (cl_meta c)) = true → ∀ k s,
      slices_of c w' !! k = Some s ↔
      slices_of c w !! k = Some s ∧ ¬ (nn_namespace k = ns ∧ owned req s = true).
Proof using H2 Hmgmt Htracker Hframe Horders.
  unfold Reconcile, call_try. run_m.
  destruct (mgmt_get_missing _ _ Hmgmt w req Hgd) as (e & -> & ->).
  destruct (converge_fleet [] w) as (res & w' & Hrun & _ & Hall & Hconv); [by apply Forall_nil|done| |].
  { intros c _ _ _ cg d []%not_elem_of_nil. }
  exists res, w'. split; [exact Hrun|]. split; [done|]. intros c Hc Hns Hn k s.
  specialize (Hconv c Hc Hns Hn k). unfold converged in Hconv.
  case_decide as Hk; [|rewrite Hconv; naive_solver].
  change (filed_under [] k) with (@None ClusterGateway) in Hconv.
  destruct (slices_of c w !! k) as [s'|]; [destruct (owned req s') eqn:Hown|];
    rewrite Hconv; naive_solver congruence.
Qed.

(** The requests of a cluster, whatever its labels: those of the GatewayDNS
    resources of its namespace that select it. *)
Lemma ClusterToGatewayDNS_spec m w :
  ∃ reqs, ClusterToGatewayDNS m w = (Ok reqs, w) ∧
    ∀ n, n ∈ reqs ↔ ∃ gd, gds w !! n = Some gd ∧ om_Namespace m = nn_namespace n ∧ selects gd m.
Proof using Hmgmt.
  destruct (mgmt_list _ _ Hmgmt w (om_Namespace m)) as (l & Hlist & Hl).
  unfold ClusterToGatewayDNS, call_try. run_m. rewrite Hlist. eexists. split; [done|].
  intros n. cbn [gdl_Items]. rewrite match_gateway_dns_loop. split.
  - intros [[]%not_elem_of_nil|(gd & sel & Hin & -> & Hsel & Hm)].
    apply Hl in Hin as [Hgd Hns]. exists gd. split; [done|]. split; [done|]. by exists sel.
  - intros (gd & Hgd & Hns & sel & Hsel & Hm). right. exists gd, sel.
    pose proof (mgmt_keys _ _ Hmgmt w n gd Hgd) as Hkey. split; [|done].
    apply Hl. rewrite Hkey. split; [done|]. by rewrite Hns, <-Hkey.
Qed.

(** C24: the events of a cluster and the search of a GatewayDNS agree: the
    requests that a change of a cluster triggers name exactly the GatewayDNS
    resources whose [ListMatchingClusters] lists the cluster. *)
Theorem ClusterToGatewayDNS_searches c w (Hc : c ∈ cls w) :
  ∃ reqs, ClusterToGatewayDNS (cl_meta c) w = (Ok reqs, w) ∧
    ∀ n, n ∈ reqs ↔ ∃ gd l, gds w !! n = Some gd ∧
      ListMatchingClusters gd w = (Ok l, w) ∧ c ∈ l.
Proof using Hmgmt.
  destruct (ClusterToGatewayDNS_spec (cl_meta c) w) as (reqs & Hrun & Hreqs).
  exists reqs. split; [done|]. intros n. rewrite Hreqs. unfold ListMatchingClusters. split.
  - intros (gd & Hgd & Hns & sel & Hsel & Hm). exists gd.
    destruct (mgmt_clusters _ _ Hmgmt w (Some sel) (om_Namespace (gd_meta gd))) as (l & Hlist & Hl & _).
    exists l. split; [done|]. rewrite Hsel, (call_ok _ _ _ _ Hlist). split; [done|].
    apply Hl. rewrite <-(mgmt_keys _ _ Hmgmt w n gd Hgd) in Hns. split_and!; [done|done|].
    by intros s [= <-].
  - intros (gd & l & Hgd & Hrun' & Hin). exists gd. split; [done|].
    destruct (LabelSelectorAsSelector _) as [sel|err] eqn:Hsel; [|done].
    destruct (mgmt_clusters _ _ Hmgmt w (Some sel) (om_Namespace (gd_meta gd))) as (l' & Hlist & Hl & _).
    rewrite (call_ok _ _ _ _ Hlist) in Hrun'. injection Hrun' as ->.
    apply Hl in Hin as (_ & Hns & Hm). split; [by rewrite Hns, <-(mgmt_keys _ _ Hmgmt w n gd Hgd)|].
    exists sel. auto.
Qed.

(** The registration asks for a reconciliation whenever the GatewayDNS
    resource or the clusters it selects change: an event of a GatewayDNS and a
    poll request that resource, an event of a cluster - with its old and its
    new labels, or the ones it was created or deleted with - requests exactly the
    GatewayDNS resources of its namespace that select one of them; and what is
    requested is given to [Reconcile]. *)
Theorem SetupWithManager_requests :
  ∃ ctl, (∀ (Complete : controller W GatewayDNS → M W unit),
      SetupWithManager Complete orders r = Complete ctl) ∧
    reconciler ctl = Reconcile orders r ∧
    (∀ gd w, controller_requests ctl (ChannelEvent gd) w = (Ok [meta_key (gd_meta gd)], w)) ∧
    (∀ metas w, controller_requests ctl (ObjectEvent "GatewayDNS" metas) w =
       (Ok (meta_key <$> metas), w)) ∧
    (∀ metas w, ∃ reqs, controller_requests ctl (ObjectEvent "Cluster" metas) w = (Ok reqs, w) ∧
       ∀ n, n ∈ reqs ↔ ∃ m gd, m ∈ metas ∧ gds w !! n = Some gd ∧
         om_Namespace m = nn_namespace n ∧ selects gd m).
Proof using Hmgmt.
  eexists. split; [intros Complete; reflexivity|]. split; [done|]. split; [done|].
  split.
  { intros metas w. unfold controller_requests. cbn. run_m.
    rewrite decide_False, decide_True by done. by rewrite !app_nil_r. }
  intros metas w.
  destruct (map_loop ClusterToGatewayDNS (λ m w reqs, ∀ n, n ∈ reqs ↔
    ∃ gd, gds w !! n = Some gd ∧ om_Namespace m = nn_namespace n ∧ selects gd m)
    ClusterToGatewayDNS_spec metas [] w) as (reqs & Hrun & Hreqs).
  exists reqs. split.
  { unfold controller_requests. cbn. run_m.
    rewrite (decide_True (P := "Cluster" = "Cluster")), (decide_False (P := "Cluster" = "GatewayDNS"))
      by done.
    unfold mbind, M_bind, mret, M_ret in Hrun. by rewrite Hrun. }
  intros n. rewrite Hreqs, elem_of_nil by (intros m l l' Hl Hl' n'; by rewrite Hl, Hl'). split.
  - intros [[]|(m & reqs' & Hin & Hr & Hn)]. apply Hr in Hn as (gd & ?). by exists m, gd.
  - intros (m & gd & Hin & Hgd). right. destruct (ClusterToGatewayDNS_spec m w) as (reqs' & _ & Hr).
    exists m, reqs'. split_and!; [done|done|]. apply Hr. by exists gd.
Qed.

End reconcile.

(** ** Polling *)

Section polling.
Context {W : Type} `{Management W}.
Context (r : GatewayDNSReconciler).

(** The requests of the listings the loop made. *)
Definition listed (polls : list (Z * (GatewayDNSList + error))) : list Request :=
  polls ≫= λ p, match p.2 with
                | inl l => (λ gd, meta_key (gd_meta gd)) <$> gdl_Items l
                | inr _ => []
                end.

Definition pending (p : poll_pc) : list Request :=
  match p with
  | Waiting _ => []
  | Sending l => (λ gd, meta_key (gd_meta gd)) <$> l
  end.

(** Two listings are at least an interval apart. *)
Definition spaced (times : list Z) : Prop :=
  StronglySorted (λ a b, (a + polling_interval r ≤ b)%Z) times.

Record poll_inv (start : Z) (s : poll_state (W := W)) : Prop := {
  poll_events : events s ++ pending (pc s) = listed (polls s);
  poll_times : spaced (start :: (polls s).*1);
  poll_past t : t ∈ start :: (polls s).*1 → (t ≤ now s)%Z;
  poll_next t until : pc s = Waiting until → t ∈ start :: (polls s).*1 →
    (t + polling_interval r ≤ until)%Z;
}.

Lemma listed_snoc polls t res :
  listed (polls ++ [(t, res)]) =
    listed polls ++ match res with
                    | inl l => (λ gd, meta_key (gd_meta gd)) <$> gdl_Items l
                    | inr _ => []
                    end.
Proof. unfold listed. rewrite bind_app. cbn. by rewrite app_nil_r. Qed.

Lemma spaced_snoc times t :
  spaced times → (∀ t', t' ∈ times → (t' + polling_interval r ≤ t)%Z) → spaced (times ++ [t]).
Proof.
  intros Hs Ht. induction Hs as [|a times Hs IH Ha]; cbn.
  { constructor; constructor. }
  constructor.
  - apply IH. intros t' Hin. apply Ht. by constructor.
  - apply Forall_app. split; [done|]. apply Forall_singleton, Ht. by constructor.
Qed.

Lemma poll_inv_list start s until res (w' : W) pc' :
  poll_inv start s → pc s = Waiting until → (until ≤ now s)%Z →
  pending pc' = match res with
                | inl l => (λ gd, meta_key (gd_meta gd)) <$> gdl_Items l
                | inr _ => []
                end →
  (∀ t, pc' = Waiting t → t = (now s + polling_interval r)%Z) →
  poll_inv start (mkPollState pc' (now s) w' (polls s ++ [(now s, res)]) (events s)).
Proof.
  intros [He Ht Hp Hn] Hpc Hu Hpend Hnext.
  assert (start :: (polls s ++ [(now s, res)]).*1 = (start :: (polls s).*1) ++ [now s])
    as Htimes by by rewrite fmap_app.
  split; cbn [pc now polls events].
  - rewrite listed_snoc, <-He, Hpc, Hpend. cbn [pending]. by rewrite app_nil_r.
  - rewrite Htimes. apply spaced_snoc; [done|].
    intros t Hin. specialize (Hn t until Hpc Hin). lia.
  - intros t. rewrite Htimes, elem_of_app, list_elem_of_singleton.
    intros [Hin| ->]; [by apply Hp|done].
  - intros t until' Hw. rewrite Htimes, elem_of_app, list_elem_of_singleton.
    rewrite (Hnext _ Hw). intros [Hin%Hp| ->]; [lia|done].
Qed.

Lemma poll_inv_step start s s' :
  poll_inv start s → PollGatewayDNS r s s' → poll_inv start s'.
Proof.
  intros Hinv Hstep.
  destruct Hstep as [s t w' Hle|s until l w' Hpc Hu Hl|s until err w' Hpc Hu Hl|s gd rest Hpc|s Hpc].
  - destruct Hinv as [He Ht Hp Hn]. split; cbn [pc now polls events]; try done.
    intros t' Hin%Hp. lia.
  - by apply (poll_inv_list start s until).
  - apply (poll_inv_list start s until); [done..|]. by intros t [= <-].
  - destruct Hinv as [He Ht Hp Hn]. split; cbn [pc now polls events]; try done.
    rewrite <-He, Hpc. cbn. by rewrite <-(assoc_L (++)).
  - destruct Hinv as [He Ht Hp Hn]. split; cbn [pc now polls events]; try done.
    + rewrite <-He, Hpc. done.
    + intros t until [= <-] Hin%Hp. lia.
Qed.

(** C25: in every state the polling loop reaches, the events received so far and
    the ones still to be sent are the GatewayDNS resources of the successful
    listings, each once per listing and in order, and two listings are at
    least the polling interval apart, which is 30 seconds when it is not
    configured. *)
Theorem PollGatewayDNS_complete start w s
    (Hreach : rtc (PollGatewayDNS r) (poll_init r start w) s) :
  events s ++ pending (pc s) = listed (polls s) ∧
  StronglySorted (λ a b, (a + polling_interval r ≤ b)%Z) (start :: (polls s).*1) ∧
  (PollingInterval r = 0%Z → polling_interval r = 30000000000%Z).
Proof.
  assert (poll_inv start s) as [He Ht _ _].
  { assert (poll_inv start (poll_init r start w)) as Hinit.
    { split; cbn; try done.
      - constructor; constructor.
      - by intros t ->%list_elem_of_singleton.
      - by intros t until [= <-] ->%list_elem_of_singleton. }
    revert Hinit. induction Hreach as [s|s s' s'' Hstep _ IH]; intros Hs; [done|].
    apply IH. by eapply poll_inv_step. }
  split; [done|]. split; [done|]. intros Hunset. unfold polling_interval. by rewrite decide_True.
Qed.

(** Without time passing, the loop sends what it has listed and is back at its wait. *)
Lemma poll_send_all l t (w : W) ps es :
  rtc (PollGatewayDNS r) (mkPollState (Sending l) t w ps es)
    (mkPollState (Waiting (t + polling_interval r)%Z) t w ps
       (es ++ ((λ gd, meta_key (gd_meta gd)) <$> l))).
Proof.
  revert es. induction l as [|gd l IH]; intros es.
  - rewrite app_nil_r. apply rtc_once. by apply (poll_done r (mkPollState _ _ _ _ _)).
  - eapply rtc_l; [by apply (poll_send r (mkPollState _ _ _ _ _) gd l)|]. cbn.
    specialize (IH (es ++ [meta_key (gd_meta gd)])). by rewrite <-(assoc_L (++)) in IH.
Qed.

Lemma poll_round until t (w : W) ps es :
  (until ≤ t)%Z →
  ∃ w' res es', rtc (PollGatewayDNS r) (mkPollState (Waiting until) t w ps es)
    (mkPollState (Waiting (t + polling_interval r)%Z) t w' (ps ++ [(t, res)]) es').
Proof.
  intros Hu. destruct (ListGatewayDNS None w) as [[l|err] w'] eqn:Hl.
  - exists w', (inl l). eexists. eapply rtc_l; [by eapply (poll_list_ok r (mkPollState _ _ _ _ _))|].
    apply poll_send_all.
  - exists w', (inr err), es. apply rtc_once. by eapply (poll_list_err r (mkPollState _ _ _ _ _)).
Qed.

(** C39: a negative polling interval, which the environment variable may set, is
    no interval at all: from its start on the loop can list any number of times
    without time passing. *)
Theorem negative_interval_never_waits start (w : W) n :
  (PollingInterval r < 0)%Z →
  ∃ s, rtc (PollGatewayDNS r) (poll_init r start w) s ∧ now s = start ∧ length (polls s) = n.
Proof.
  intros Hneg. assert (polling_interval r < 0)%Z as Hint.
  { unfold polling_interval. case_decide; lia. }
  assert (∃ w' ps es, rtc (PollGatewayDNS r) (poll_init r start w)
    (mkPollState (Waiting (start + polling_interval r)%Z) start w' ps es) ∧ length ps = n)
    as (w' & ps & es & Hs & Hn); [|by eexists].
  induction n as [|n (w' & ps & es & Hs & Hn)].
  - by exists w, [], [].
  - destruct (poll_round (start + polling_interval r) start w' ps es) as (w2 & res & es2 & Hround);
      [lia|].
    exists w2, (ps ++ [(start, res)]), es2. split; [by etrans|]. rewrite length_app, Hn. cbn. lia.
Qed.

End polling.

(** * Witnesses *)

Lemma list_filter_In {A : Type} (p : A → bool) l x :
  x ∈ List.filter p l ↔ x ∈ l ∧ p x = true.
Proof. by rewrite !list_elem_of_In, List.filter_In. Qed.

Lemma list_filter_sublist {A : Type} (p : A → bool) l : List.filter p l `sublist_of` l.
Proof.
  induction l as [|x l IH]; cbn; [done|]. destruct (p x); by constructor.
Qed.

Lemma mem_cls_NoDup w : NoDup ((λ c, meta_key (cl_meta c)) <$> mem_cls w).
Proof.
  unfold mem_cls. eapply NoDup_map_values; [reflexivity|]. intros k c Hk. by apply map_lookup_filter_Some in Hk as [_ Hk].
Qed.

Lemma mem_management_api : management_api (W := MemWorld) mem_gds mem_cls.
Proof.
  split.
  - intros w n gd [_ Hk]%map_lookup_filter_Some. exact Hk.
  - intros w n gd Hgd. cbn. by rewrite Hgd.
  - intros w n Hn. cbn. rewrite Hn. by eexists.
  - intros w ns. eexists. split; [done|]. intros gd.
    rewrite list_filter_In, (elem_of_map_values (mem_gds w)) by done. cbn.
    rewrite bool_decide_eq_true. split.
    + intros [[k Hk] Hns]. split; [|done].
      assert (meta_key (gd_meta gd) = k) as -> by by apply map_lookup_filter_Some in Hk as [_ Hk].
      done.
    + intros [Hk Hns]. eauto.
  - intros w sel ns. eexists. split; [done|]. split.
    + intros c. rewrite list_filter_In. cbn. rewrite andb_true_iff, bool_decide_eq_true.
      unfold selected. destruct sel as [sel|]; [|naive_solver].
      split; [|naive_solver]. intros (? & ? & ?). split_and!; [done|done|]. by intros s [= <-].
    + eapply (sublist_NoDup _ ((λ c, meta_key (cl_meta c)) <$> mem_cls w)); [apply mem_cls_NoDup|].
      apply fmap_sublist, list_filter_sublist.
Qed.

Lemma mem_tracker net : client_tracker (W := MemWorld) (H := mem_kube net) (λ n, n).
Proof.
  split; [|by intros n1 n2]. intros n w c. cbn. unfold mem_GetClient.
  case_decide; [done|]. by intros [= ->].
Qed.

Lemma mem_quiet net : quiet_reads (W := MemWorld) (H := mem_kube net) mem_cls mem_services_of.
Proof. done. Qed.

(** The load balancers of these worlds have IPv4 addresses, so that validation
    accepts the slices of all gateways there are to collect. *)
Definition valid_service (svc : Service) : bool :=
  valid_addresses_of AddressTypeIPv4 (endpoint_of (Some (getExternalIPsFromStatus svc))).
Definition valid_services (w : MemWorld) : bool :=
  forallb valid_service (map_to_list (mem_services w)).*2.

Lemma mem_gathered_valid (net : MemNetwork) ok col w gd gws :
  valid_services w = true →
  gathered (W := MemWorld) (H := mem_kube net) mem_cls mem_services_of (λ n, n) ok col w gd gws →
  valid_gateways gws = true.
Proof.
  intros Hall Hg. apply Is_true_true_1, forallb_True, Forall_forall. intros cg Hcg.
  destruct (gathered_sound _ _ _ _ _ _ _ _ Hg cg Hcg) as (_ & c & _ & _ & _ & _ & Hsvc & _).
  unfold desired_slice. destruct (Unreachable cg); [done|].
  destruct (Gateway cg) as [svc|] eqn:Hgw; [|by unfold ToEndpointSlice; rewrite Hgw].
  specialize (Hsvc svc eq_refl). rewrite mem_services_lookup in Hsvc.
  assert (valid_service svc = true) as Hv.
  { apply Is_true_true_2, forallb_True in Hall. apply Is_true_true_1.
    eapply Forall_forall in Hall; [exact Hall|].
    apply (elem_of_map_values (mem_services w)); [done|eauto]. }
  destruct (ToEndpointSlice_ok cg svc Hgw) as (d & -> & _ & _ & Hat & Hep & _).
  unfold valid_slice. rewrite Hat, Hep. change (Is_true (valid_service svc && true)).
  by rewrite Hv.
Qed.

Lemma mem_accepts net ok r req w gd gws :
  valid_services w = true →
  (∀ n, ok n = true → all_ipv4 (mem_store n w) = true) →
  gathered (W := MemWorld) (H := mem_kube net) mem_cls mem_services_of (λ n, n) ok
    (gr_ClusterGatewayCollector r) w gd gws →
  fleet_accepts (Kube0 := mem_kube net) mem_cls (λ n, n) mem_store req valid ok gws w.
Proof.
  intros Hall Hipv4 Hg c _ _ Hn. apply ipv4_acceptable; [by apply Hipv4|by eapply mem_gathered_valid].
Qed.

(** A management cluster with one GatewayDNS and two clusters, one of which
    is down; the other one holds the slices of [one_slices]. *)
Definition dev_world : MemWorld :=
  mkMemWorld {[ mkNN "dev" "one" := one_slices ]} (mem_services a_mem) (mem_gatewaydns a_mem)
    (mem_clusters a_mem).
Definition a_controller : GatewayDNSReconciler :=
  mkGatewayDNSReconciler a_reconciler a_collector 0%Z.
Definition is_one (n : NamespacedName) : bool := bool_decide (n = mkNN "dev" "one").

Definition own_services (c : @Client MemWorld a_kube) : MemWorld → gmap NamespacedName Service :=
  mem_services_of c.

Lemma dev_healthy req w :
  fleet_healthy mem_cls own_client mem_store a_controller req valid is_one w.
Proof.
  intros c _ _ Hone%bool_decide_eq_true. rewrite Hone. split; [done|done|]. apply mem_api_server.
Qed.

Lemma one_ipv4 w n :
  all_ipv4 (mem_store (mkNN "dev" "one") w) = true → is_one n = true → all_ipv4 (mem_store n w) = true.
Proof. by intros Hw ->%bool_decide_eq_true. Qed.

Lemma dev_ipv4 : all_ipv4 (mem_store (mkNN "dev" "one") dev_world) = true.
Proof. vm_compute. reflexivity. Qed.
Lemma dev_services : valid_services dev_world = true.
Proof. vm_compute. reflexivity. Qed.
Lemma dev_fails :
  (Reconcile (λ _, list_order) a_controller a_gd dev_world).1 = Err failed_to_converge.
Proof. vm_compute. reflexivity. Qed.

Lemma dev_gathered gws :
  gathered (W := MemWorld) mem_cls own_services own_client is_one a_collector dev_world
    a_gateway_dns gws → one_gateway ∈ gws.
Proof.
  intros Hg.
  destruct (gathered_all _ _ _ _ _ _ _ _ Hg (a_cluster "dev" "one") (lb_service "1.2.3.4" ""))
    as [Hin|[Hbad _]].
  - apply (bool_decide_unpack _). vm_compute. exact I.
  - reflexivity.
  - exists []. split; vm_compute; reflexivity.
  - unfold own_services. rewrite mem_services_lookup. vm_compute. reflexivity.
  - split; [reflexivity|discriminate].
  - exact Hin.
  - vm_compute in Hbad. discriminate Hbad.
Qed.

Lemma Reconcile_propagates_witness :
  ∃ gws w', one_gateway ∈ gws ∧
    Reconcile (λ _, list_order) a_controller a_gd dev_world = (Err failed_to_converge, w') ∧
    fleet_converged mem_cls own_client mem_store a_controller a_gd is_one gws dev_world w'.
Proof.
  destruct (Reconcile_propagates mem_gds mem_cls mem_management_api own_services own_client mem_store
    (mem_tracker a_network) (mem_api_frame a_network) a_controller a_gd (λ _, list_order)
    (λ _, list_order_valid) valid is_one (mem_quiet a_network) (mem_service_api a_network is_one)
    a_gateway_dns [] dev_world)
    as (gws & res & w' & Hrun & _ & _ & Hgws & Hconv).
  - reflexivity.
  - reflexivity.
  - reflexivity.
  - apply dev_healthy.
  - intros gws. apply (mem_accepts a_network); [exact dev_services|].
    intros n. apply one_ipv4, dev_ipv4.
  - exists gws, w'. split; [exact (dev_gathered gws Hgws)|]. split; [|exact Hconv].
    pose proof dev_fails as Hres. rewrite Hrun in Hres. cbn in Hres. by rewrite Hrun, Hres.
Defined.

(** The slices of cluster "one" after it: the gateway's address is there. *)
Example dev_world_reconciled :
  (λ s, (om_Name (es_meta s), flattenEndpoints (elems (es_Endpoints s)))) <$>
    (map_to_list (mem_store (mkNN "dev" "one")
       (Reconcile (λ _, list_order) a_controller a_gd dev_world).2)).*2 ≡ₚ
  [("dev-one-gateway", ["1.2.3.4"]); ("dev-three-gateway", [])].
Proof. apply (bool_decide_unpack _). vm_compute. reflexivity. Qed.

Definition gone_world : MemWorld :=
  mkMemWorld {[ mkNN "dev" "one" := one_slices ]} ∅ ∅ (mem_clusters a_mem).

Lemma Reconcile_deleted_witness :
  ∃ res w', Reconcile (λ _, list_order) a_controller a_gd gone_world = (res, w') ∧
    mem_store (mkNN "dev" "one") w' !! mkNN "xcc-dns" "dev-one-gateway" = None ∧
    is_Some (mem_store (mkNN "dev" "one") w' !! mkNN "xcc-dns" "dev-three-gateway").
Proof.
  destruct (Reconcile_deleted mem_gds mem_cls mem_management_api own_client mem_store
    (mem_tracker a_network) (mem_api_frame a_network) a_controller a_gd (λ _, list_order)
    (λ _, list_order_valid) valid is_one gone_world)
    as (res & w' & Hrun & _ & Hstore).
  - reflexivity.
  - apply dev_healthy.
  - exists res, w'. split; [exact Hrun|].
    specialize (Hstore (a_cluster "dev" "one")). cbn [a_cluster cl_meta] in Hstore.
    assert (a_cluster "dev" "one" ∈ mem_cls gone_world) as Hin.
    { apply (bool_decide_unpack _). vm_compute. reflexivity. }
    specialize (Hstore Hin eq_refl eq_refl). split.
    + apply eq_None_not_Some. intros [s [Hs Hno]%Hstore]. apply Hno. split; [reflexivity|].
      vm_compute in Hs. injection Hs as <-. reflexivity.
    + exists (stored_slice "dev-three-gateway" "*.three.example" "dev/other").
      apply Hstore. split; [vm_compute; reflexivity|]. intros [_ Hown]. discriminate Hown.
Defined.

Lemma ClusterToGatewayDNS_searches_witness :
  ∃ reqs, ClusterToGatewayDNS (cl_meta (a_cluster "dev" "one")) dev_world = (Ok reqs, dev_world) ∧
    a_gd ∈ reqs.
Proof.
  destruct (ClusterToGatewayDNS_searches mem_gds mem_cls mem_management_api
    (a_cluster "dev" "one") dev_world) as (reqs & Hrun & Hreqs).
  - apply (bool_decide_unpack _). vm_compute. reflexivity.
  - exists reqs. split; [exact Hrun|]. apply Hreqs.
    exists a_gateway_dns, (mem_cls dev_world). split; [vm_compute; reflexivity|].
    split; [vm_compute; reflexivity|]. apply (bool_decide_unpack _). vm_compute. reflexivity.
Defined.

Lemma SetupWithManager_requests_witness :
  ∃ (ctl : controller MemWorld GatewayDNS) reqs,
    (∀ Complete : controller MemWorld GatewayDNS → M MemWorld unit,
       SetupWithManager Complete (λ _, list_order) a_controller = Complete ctl) ∧
    controller_requests ctl (ObjectEvent "Cluster" [cl_meta (a_cluster "dev" "three")]) dev_world =
      (Ok reqs, dev_world) ∧ a_gd ∈ reqs.
Proof.
  destruct (SetupWithManager_requests mem_gds mem_cls mem_management_api a_controller
    (λ _, list_order)) as (ctl & Hctl & _ & _ & _ & Hcl).
  destruct (Hcl [cl_meta (a_cluster "dev" "three")] dev_world) as (reqs & Hrun & Hreqs).
  exists ctl, reqs. split; [exact Hctl|]. split; [exact Hrun|]. apply Hreqs.
  exists (cl_meta (a_cluster "dev" "three")), a_gateway_dns. split; [by constructor|].
  split; [vm_compute; reflexivity|]. split; [reflexivity|].
  exists []. split; vm_compute; reflexivity.
Defined.

(** One round of polling after 30 seconds. *)
Lemma PollGatewayDNS_complete_witness :
  ∃ s, rtc (PollGatewayDNS a_controller) (poll_init a_controller 0 dev_world) s ∧
    events s = [a_gd] ∧ events s ++ pending (pc s) = listed (polls s).
Proof.
  assert (∃ s, rtc (PollGatewayDNS a_controller) (poll_init a_controller 0 dev_world) s ∧
            events s = [a_gd]) as (s & Hs & He).
  { eexists. split; [|shelve].
    eapply rtc_l; [apply (poll_elapse _ _ 30000000000 dev_world); vm_compute; discriminate|].
    eapply rtc_l; [apply (poll_list_ok _ _ 30000000000 (mkGatewayDNSList [a_gateway_dns]) dev_world);
      [reflexivity|vm_compute; discriminate|vm_compute; reflexivity]|].
    eapply rtc_l; [apply (poll_send _ _ a_gateway_dns []); reflexivity|]. apply rtc_refl.
    Unshelve. reflexivity. }
  exists s. split; [exact Hs|]. split; [exact He|].
  by destruct (PollGatewayDNS_complete a_controller 0 dev_world s Hs) as [Hev _].
Defined.

Definition hasty_controller : GatewayDNSReconciler :=
  mkGatewayDNSReconciler a_reconciler a_collector (-1 * Second)%Z.

Lemma negative_interval_never_waits_witness :
  ParseDuration "-1s" = inl (PollingInterval hasty_controller) ∧
  ∃ s, rtc (PollGatewayDNS hasty_controller) (poll_init hasty_controller 0 dev_world) s ∧
    now s = 0%Z ∧ length (polls s) = 1000.
Proof.
  split; [vm_compute; reflexivity|]. by apply (negative_interval_never_waits hasty_controller 0 dev_world).
Defined.
