(* ===== verification/Fleet.v ===== *)
(** Several GatewayDNS resources that share one fleet of workload clusters: what
    it means that a cluster agrees with one of them, and that the
    reconciliation of another one, which selects other clusters, keeps that. *)
From S2P Require Import Prelude GoStrings K8s Kube KubeMem ClusterGateway ClusterGatewaySpec.
From S2P Require Import Converge ConvergeSpec EndpointSliceDNSSpec GatewayDNS GatewayDNSSpec.
#[local] Open Scope string_scope.
#[local] Open Scope list_scope.

(** * Definitions *)

(** The slices of one cluster agree with one GatewayDNS: every gateway that can
    be queried has its slice, and the GatewayDNS has no slice that none of
    its gateways asks for. *)
Definition settled `{Naming} (ns : string) (req : Request) (gws : list ClusterGateway)
    (m : slices) : Prop :=
  ∀ k, nn_namespace k = ns →
    match filed_under gws k with
    | Some cg =>
        match desired_slice cg with
        | Some d => ∃ s, m !! k = Some s ∧ in_sync req d s
        | None => True
        end
    | None => ∀ s, m !! k = Some s → owned req s = false
    end.

(** No slice name is asked for by gateways of both lists. *)
Definition apart (gws1 gws2 : list ClusterGateway) : Prop :=
  ∀ k cg1 cg2, filed_under gws1 k = Some cg1 → filed_under gws2 k = Some cg2 → False.

(** ** Lemmas on one cluster *)

Section cluster.
Context `{NamingLaws}.
Implicit Types (m : slices) (gws : list ClusterGateway).

Lemma converged_settled ns req gws m m' :
  (∀ k, converged ns req gws k (m !! k) (m' !! k)) → settled ns req gws m'.
Proof.
  intros Hconv k Hk. specialize (Hconv k). unfold converged in Hconv. rewrite decide_True in Hconv by done.
  destruct (filed_under gws k) as [cg|]; [by destruct (desired_slice cg)|].
  intros s Hs. destruct (m !! k) as [o|]; [destruct (owned req o) eqn:Ho|]; congruence.
Qed.

(** A run of one GatewayDNS, complete or not, leaves another one settled that
    asks for other slices. *)
Lemma settled_confined ns req1 req2 gws1 gws2 m m' :
  NamespacedName_String req1 ≠ NamespacedName_String req2 → apart gws1 gws2 →
  settled ns req1 gws1 m → (∀ k, confined ns req2 gws2 k (m !! k) (m' !! k)) →
  settled ns req1 gws1 m'.
Proof.
  intros Hne Hdis Hset Hconf k Hk. specialize (Hset k Hk).
  destruct (Hconf k) as [->|[_ Hk2]]; [done|].
  destruct (filed_under gws2 k) as [cg2|] eqn:H2.
  - destruct Hk2 as (s & -> & Hown).
    destruct (filed_under gws1 k) as [cg1|] eqn:H1; [by destruct (Hdis _ _ _ H1 H2)|].
    intros s' [= <-]. by apply (owned_exclusive req2 req1).
  - destruct Hk2 as (-> & s & Hs & Hown). rewrite Hs in Hset.
    destruct (filed_under gws1 k) as [cg1|]; [|done].
    destruct (desired_slice cg1) as [d|]; [|done]. destruct Hset as (s' & [= <-] & Hsync).
    apply in_sync_owned in Hsync. by rewrite (owned_exclusive req1 req2) in Hown.
Qed.

(** It also leaves validation as accepting as it was. *)
Lemma acceptable_confined ns req1 req2 gws1 gws2 (admissible : EndpointSlice → Prop) m m' :
  apart gws1 gws2 → gateways_ok ns req1 gws1 → acceptable admissible m gws1 →
  (∀ k, confined ns req2 gws2 k (m !! k) (m' !! k)) → acceptable admissible m' gws1.
Proof.
  intros Hdis Hgws Hacc Hconf cg d Hin Hd. destruct (Hacc cg d Hin Hd) as [Had Hmerge].
  split; [done|]. intros o Ho. apply Hmerge.
  eapply Forall_forall in Hgws as (Hctl & Hgd & _); [|exact Hin].
  destruct (desired_slice_spec req1 ns cg d Hctl Hgd Hd) as (_ & _ & Hk & _).
  destruct (filed_under_some gws1 cg Hin) as [cg1 H1].
  assert (slice_key d = slice_name cg) as Hkey by (rewrite Hk; unfold slice_name; by rewrite Hctl).
  destruct (Hconf (slice_key d)) as [<-|[_ Hk2]]; [done|]. rewrite Hkey in Hk2, Ho.
  destruct (filed_under gws2 (slice_name cg)) as [cg2|] eqn:H2; [by destruct (Hdis _ _ _ H1 H2)|].
  destruct Hk2 as [Hnone _]. congruence.
Qed.
End cluster.

(** ** The management cluster during a run *)

Section fleet.
Context {W : Type} `{Management W} `{!Kube W, NamingLaws}.
Context (gds : W → gmap NamespacedName GatewayDNS) (cls : W → list Cluster).
Context (Hmgmt : management_api gds cls).
Context (services : Client → W → gmap NamespacedName Service).
Context (client_of : NamespacedName → Client) (store : Client → W → slices).
Context (Htracker : client_tracker client_of) (Hframe : api_frame store).
Context (Hkeyed : ∀ c, api_keyed c (store c)).

(** What the calls of a reconciliation leave alone. *)
Definition same_mgmt (w w' : W) : Prop :=
  gds w' = gds w ∧ cls w' = cls w ∧ ∀ c, services c w' = services c w.

#[export] Instance same_mgmt_equivalence : Equivalence same_mgmt.
Proof.
  split; unfold same_mgmt.
  - done.
  - intros w w' (-> & -> & Hs). by split_and!.
  - intros w1 w2 w3 (-> & -> & Hs) (-> & -> & Hs'). split_and!; [done..|]. intros c. by rewrite Hs'.
Qed.

(** Calls on workload clusters do not change the management cluster. *)
Record calls_respect (R : relation W) : Prop := {
  respect_client n w : R w (GetClient n w).2;
  respect_namespace c ns w : R w (GetNamespace c ns w).2;
  respect_service c n w : R w (GetService c n w).2;
  respect_get c n w : R w (GetEndpointSlice c n w).2;
  respect_list c ns w : R w (ListEndpointSlices c ns w).2;
  respect_create c s w : R w (CreateEndpointSlice c s w).2;
  respect_update c s w : R w (UpdateEndpointSlice c s w).2;
  respect_delete c s w : R w (DeleteEndpointSlice c s w).2;
}.

Context (Hrespect : calls_respect same_mgmt).
Context (r : GatewayDNSReconciler).
Context (orders : nat → RangeOrder) (Horders : ∀ i, valid_order (orders i)).
Context (admissible : EndpointSlice → Prop) (ok : NamespacedName → bool).
Context (Hservices : service_api services client_of ok).

Abbreviation ns := (esr_Namespace (gr_EndpointSliceReconciler r)).
Abbreviation slices_of c w := (store (client_of (meta_key (cl_meta c))) w).

Context (Hns : col_Namespace (gr_ClusterGatewayCollector r) = ns).

Lemma quiet_of : quiet_reads cls services.
Proof using Hrespect.
  split; [intros n w; destruct (respect_client _ Hrespect n w) as (_ & ? & ?)|
    intros c n w; destruct (respect_service _ Hrespect c n w) as (_ & ? & ?)]; by split.
Qed.

(** The clusters that [ok] names answer. *)
Definition all_healthy (w : W) : Prop :=
  ∀ c, c ∈ cls w → ok (meta_key (cl_meta c)) = true →
    healthy client_of store admissible ns (meta_key (cl_meta c)).

(** The gateways of a request: none once the GatewayDNS is gone. *)
Definition gathered_for (w : W) (req : Request) (gws : list ClusterGateway) : Prop :=
  match gds w !! req with
  | None => gws = []
  | Some gd => gathered cls services client_of ok (gr_ClusterGatewayCollector r) w gd gws
  end.

(** Validation accepts the slices of the gateways there are to collect. *)
Definition accepted (w : W) (req : Request) : Prop :=
  ∀ gws, gathered_for w req gws → fleet_accepts cls client_of store req admissible ok gws w.

(** The clusters a GatewayDNS selects, in its own namespace. *)
Definition selected_by (w : W) (req : Request) (n : NamespacedName) : Prop :=
  ∃ gd c, gds w !! req = Some gd ∧ c ∈ cls w ∧ meta_key (cl_meta c) = n ∧
    om_Namespace (cl_meta c) = nn_namespace req ∧ selects gd (cl_meta c).

Definition valid_selector (w : W) (req : Request) : Prop :=
  ∀ gd, gds w !! req = Some gd →
    ∃ sel, LabelSelectorAsSelector (spec_ClusterSelector (gd_Spec gd)) = inl sel.

Lemma gathered_same w w' req gws : same_mgmt w w' → gathered_for w req gws → gathered_for w' req gws.
Proof using Type.
  intros (Hg & Hc & Hs). unfold gathered_for. rewrite Hg. destruct (gds w !! req) as [gd|]; [|done].
  intros [Honce Hsound Hall]. split; [done|..].
  - intros cg Hcg. destruct (Hsound cg Hcg) as (Hok & c & Hin & ?). split; [done|].
    exists c. rewrite Hc. split; [done|]. by rewrite Hs.
  - intros c svc. rewrite Hc, Hs. apply Hall.
Qed.

Lemma selected_same w w' req n : same_mgmt w w' → selected_by w' req n ↔ selected_by w req n.
Proof using Type. intros (Hg & Hc & _). unfold selected_by. by rewrite Hg, Hc. Qed.

Lemma selected_namespace w req n : selected_by w req n → nn_namespace n = nn_namespace req.
Proof using Type. by intros (gd & c & _ & _ & <- & <- & _). Qed.

(** What was gathered are gateways of selected clusters. *)
Lemma gathered_for_ok w req gws :
  gathered_for w req gws →
  gateways_ok ns req gws ∧ ∀ cg, cg ∈ gws → selected_by w req (ClusterNamespacedName cg).
Proof using Hmgmt Hns.
  unfold gathered_for. destruct (gds w !! req) as [gd|] eqn:Hgd.
  2: { intros ->. split; [by apply Forall_nil|]. by intros cg ?%not_elem_of_nil. }
  intros Hg. split; [by eapply gathered_gateways_ok|]. intros cg Hcg.
  destruct (gathered_sound _ _ _ _ _ _ _ _ Hg cg Hcg) as (_ & c & Hc & Hcns & Hsel & Hkey & _).
  exists gd, c. split_and!; [done..| |done]. by rewrite Hcns, <-(mgmt_keys _ _ Hmgmt w req gd Hgd).
Qed.

(** Two requests that select no cluster in common ask for different slices. *)
Lemma gathered_apart w req1 req2 gws1 gws2 :
  nn_namespace req1 = nn_namespace req2 →
  gathered_for w req1 gws1 → gathered_for w req2 gws2 →
  (∀ n, selected_by w req1 n → selected_by w req2 n → False) → apart gws1 gws2.
Proof using Hmgmt Hns.
  intros Hn Hg1 Hg2 Hdis k cg1 cg2 [Hin1 Hk1]%filed_under_lookup [Hin2 Hk2]%filed_under_lookup.
  apply gathered_for_ok in Hg1 as [Hok1 Hs1], Hg2 as [Hok2 Hs2].
  pose proof (Hs1 _ Hin1) as Hsel1. pose proof (Hs2 _ Hin2) as Hsel2.
  eapply Forall_forall in Hok1 as (Hc1 & _ & _); [|exact Hin1].
  eapply Forall_forall in Hok2 as (Hc2 & _ & _); [|exact Hin2].
  assert (ClusterNamespacedName cg1 = ClusterNamespacedName cg2) as Heq.
  { apply EndpointSliceKey_inj; [|congruence|].
    - by rewrite (selected_namespace _ _ _ Hsel1), (selected_namespace _ _ _ Hsel2).
    - unfold ClusterGateway_EndpointSliceKey. unfold slice_name in Hk1, Hk2. congruence. }
  rewrite Heq in Hsel1. by apply (Hdis _ Hsel1).
Qed.

Lemma converge_one_mgmt req gws errors o cl :
  gateways_ok ns req gws → valid_order o →
  respects same_mgmt (converge_one (gr_EndpointSliceReconciler r) req gws errors (o, cl)).
Proof using Hrespect.
  intros Hgws Ho. unfold converge_one.
  apply respects_bind; [apply _|apply respects_call_try; intros; apply Hrespect|].
  intros [c|err]; [|by apply respects_ret, _].
  apply respects_bind; [apply _|apply respects_call_try; intros; apply Hrespect|].
  intros [[]|err]; [|destruct (IsNotFound err); by apply respects_ret, _].
  apply respects_bind; [apply _|apply respects_try; [apply _|]|].
  - apply convergeCluster_respects; try apply _; try done; intros; apply Hrespect.
  - intros [[]|err]; by apply respects_ret, _.
Qed.

(** Whatever happens, a reconciliation leaves the management cluster alone. *)
Lemma converge_mgmt req gws w :
  gateways_ok ns req gws →
  same_mgmt w (convergeOnClustersForGatewayDNS orders r req gws w).2.
Proof using Hrespect Hmgmt Horders.
  intros Hgws. destruct (mgmt_clusters _ _ Hmgmt w None (nn_namespace req)) as (l & Hlist & _).
  unfold convergeOnClustersForGatewayDNS. unfold mbind, M_bind. rewrite (call_ok _ _ _ _ Hlist).
  unfold ConvergeToClusters.
  pose proof (respects_fold_each same_mgmt
    (converge_one (gr_EndpointSliceReconciler r) req gws) []
    (imap (λ i cluster, (orders i, cluster)) l)) as Hfold.
  destruct (Hfold ltac:(intros errs [o cl] (i & c & [= -> ->] & _)%elem_of_lookup_imap;
    by apply converge_one_mgmt) w) as [Hsame _].
  destruct (fold_each _ _ _ w) as [[errs|e|] w']; cbn in Hsame |- *; [|done..].
  by case_decide.
Qed.

(** What one reconciliation did to the fleet. *)
Record run_effect (req : Request) (gws : list ClusterGateway) (w w' : W) (res : outcome unit) : Prop := {
  run_result : res = Ok tt ∨ res = Err failed_to_converge;
  run_mgmt : same_mgmt w w';
  run_confined : fleet_confined cls client_of store r req ok gws w w';
  run_outside c : c ∈ cls w → om_Namespace (cl_meta c) ≠ nn_namespace req →
    slices_of c w' = slices_of c w;
  run_accepted : fleet_accepts cls client_of store req admissible ok gws w →
    fleet_converged cls client_of store r req ok gws w w' ∧ (all_ok cls req ok w → res = Ok tt);
}.

(** The converging half: [w1] differs from [w] by the reads of the collection. *)
Lemma converge_from req gws w w1 :
  all_healthy w → gateways_ok ns req gws → same_mgmt w w1 → (∀ c, store c w1 = store c w) →
  ∃ res w', convergeOnClustersForGatewayDNS orders r req gws w1 = (res, w') ∧
    run_effect req gws w w' res.
Proof using All.
  intros Hready Hgws Hsame Hst. pose proof Hsame as (_ & Hcls & _).
  assert (fleet_healthy cls client_of store r req admissible ok w1) as Hok.
  { intros c Hc _. rewrite Hcls in Hc. by apply Hready. }
  destruct (converge_fleet_confined gds cls Hmgmt client_of store Htracker Hframe r req orders
    Horders admissible ok gws w1 Hgws Hok Hkeyed) as (res & w' & Hrun & Hres & Hconf & Hfr).
  pose proof (converge_mgmt req gws w1 Hgws) as Hm. rewrite Hrun in Hm.
  exists res, w'. split; [done|]. split.
  - done.
  - by etrans.
  - intros c Hc Hcns Hn k. rewrite <-Hst. apply Hconf; [by rewrite Hcls|done..].
  - intros c Hc Hcns. rewrite <-Hst. apply Hfr. intros cl Hcl Hclns Heq%(tracker_inj _ Htracker).
    unfold meta_key in Heq. congruence.
  - intros Hacc.
    destruct (converge_fleet gds cls Hmgmt client_of store Htracker Hframe r req orders
      Horders admissible ok gws w1 Hgws Hok) as (res' & w'' & Hrun' & _ & Hall & Hconv).
    { intros c. rewrite Hcls, Hst. apply Hacc. }
    rewrite Hrun in Hrun'. injection Hrun' as <- <-. split.
    + intros c Hc Hcns Hn k. rewrite <-Hst. apply Hconv; [by rewrite Hcls|done..].
    + intros Hall'. apply Hall. intros c. rewrite Hcls. apply Hall'.
Qed.

(** What one reconciliation does to the fleet. *)
Lemma reconcile_one req w :
  all_healthy w → valid_selector w req →
  ∃ gws res w', Reconcile orders r req w = (res, w') ∧ gathered_for w req gws ∧
    run_effect req gws w w' res.
Proof using All.
  intros Hready Hsel. unfold Reconcile, call_try, mbind, M_bind.
  destruct (gds w !! req) as [gd|] eqn:Hgd.
  - destruct (Hsel gd Hgd) as [sel Hs].
    destruct (gather gds cls Hmgmt services client_of store Htracker Hframe r req admissible ok
      quiet_of Hservices gd sel w Hgd Hs) as (l & gws & w1 & Hmatch & Hcol & (_ & _ & Hst) & Hg).
    { intros c Hc _. by apply Hready. }
    assert (same_mgmt w w1) as Hsame.
    { destruct (collect_results same_mgmt (gr_ClusterGatewayCollector r) (meta_key (gd_meta gd))
        (service_ref gd) l w [] (λ n w, respect_client _ Hrespect n w)
        (λ c n w, respect_service _ Hrespect c n w)) as (gs & w1' & Hrun & Hm & _).
      pose proof (eq_trans (eq_sym Hcol) Hrun) as Heq. by injection Heq as _ ->. }
    assert (gathered_for w req gws) as Hgf by (unfold gathered_for; by rewrite Hgd).
    destruct (converge_from req gws w w1 Hready (proj1 (gathered_for_ok _ _ _ Hgf)) Hsame Hst)
      as (res & w' & Hrun & Heff).
    rewrite (mgmt_get _ _ Hmgmt w req gd Hgd), Hmatch, Hcol. by exists gws, res, w'.
  - destruct (mgmt_get_missing _ _ Hmgmt w req Hgd) as (e & -> & ->).
    destruct (converge_from req [] w w Hready) as (res & w' & Hrun & Heff);
      [by apply Forall_nil|done|done|].
    exists [], res, w'. split; [exact Hrun|]. split; [|done]. unfold gathered_for. by rewrite Hgd.
Qed.

End fleet.

(** * Witnesses *)

(** Two GatewayDNS resources, each with a cluster of its own; the second
    cluster is down. *)
Definition tier_cluster (name tier : string) : Cluster :=
  mkCluster (mkMeta name "dev" None (Some {[ "tier" := tier ]}) "1").
Definition tier_gateway_dns (name tier : string) : GatewayDNS :=
  mkGatewayDNS (mkMeta name "dev" None None "1")
    (mkGatewayDNSSpec [("tier", tier)] "gateways/envoy" ResolutionTypeLoadBalancer)
    mkGatewayDNSStatus.
Definition front : Request := mkNN "dev" "front".
Definition back : Request := mkNN "dev" "back".

Definition tier_world : MemWorld :=
  mkMemWorld {[ mkNN "dev" "one" := one_slices ]} (mem_services a_mem)
    {[ front := tier_gateway_dns "front" "f"; back := tier_gateway_dns "back" "b" ]}
    {[ mkNN "dev" "one" := tier_cluster "one" "f"; mkNN "dev" "two" := tier_cluster "two" "b" ]}.

Lemma mem_calls_respect net :
  calls_respect (W := MemWorld) (Kube0 := mem_kube net)
    (same_mgmt (W := MemWorld) (Kube0 := mem_kube net) mem_gds mem_cls mem_services_of).
Proof.
  split; intros; cbn; try reflexivity;
    unfold mem_Create, mem_Update, mem_Delete, mem_put;
    destruct (mem_store _ _ !! _); repeat case_decide; try destruct (valid_slice _);
    (split; [reflexivity|split; [reflexivity|intros c'; reflexivity]]).
Qed.

Abbreviation front_dns := (tier_gateway_dns "front" "f").
Abbreviation back_dns := (tier_gateway_dns "back" "b").

Lemma front_stored : mem_gds tier_world !! front = Some front_dns.
Proof. vm_compute. reflexivity. Qed.
Lemma back_stored : mem_gds tier_world !! back = Some back_dns.
Proof. vm_compute. reflexivity. Qed.

Lemma tier_stored req gd :
  req ∈ [back; front] → mem_gds tier_world !! req = Some gd →
  (req = front ∧ gd = front_dns) ∨ (req = back ∧ gd = back_dns).
Proof.
  intros [->|[->|[]%not_elem_of_nil]%elem_of_cons]%elem_of_cons; [rewrite back_stored|rewrite front_stored];
    intros [= <-]; auto.
Qed.

Lemma tier_selectors : Forall (valid_selector (W := MemWorld) mem_gds tier_world) [back; front].
Proof.
  apply Forall_cons; split; [|apply Forall_singleton]; intros gd Hgd;
    [rewrite back_stored in Hgd|rewrite front_stored in Hgd]; injection Hgd as <-;
    eexists; reflexivity.
Qed.

Lemma tier_clusters c :
  c ∈ mem_cls tier_world → c = tier_cluster "one" "f" ∨ c = tier_cluster "two" "b".
Proof.
  assert (mem_cls tier_world ≡ₚ [tier_cluster "one" "f"; tier_cluster "two" "b"]) as ->.
  { apply (bool_decide_unpack _). vm_compute. reflexivity. }
  by intros [->|[->|[]%not_elem_of_nil]%elem_of_cons]%elem_of_cons; [left|right].
Qed.

Lemma tier_selected req n :
  req ∈ [back; front] →
  selected_by (W := MemWorld) mem_gds mem_cls tier_world req n →
  (req = front ∧ n = mkNN "dev" "one") ∨ (req = back ∧ n = mkNN "dev" "two").
Proof.
  intros Hreq (gd & c & Hgd & Hc & <- & _ & sel & Hsel & Hm).
  destruct (tier_stored req gd Hreq Hgd) as [[-> ->]|[-> ->]];
    assert (Some sel = match LabelSelectorAsSelector (spec_ClusterSelector (gd_Spec _)) with
                       | inl s => Some s | inr _ => None end) as Hs by (by rewrite Hsel);
    vm_compute in Hs; injection Hs as ->;
    destruct (tier_clusters c Hc) as [-> | ->]; try (vm_compute in Hm; discriminate Hm); auto.
Qed.

Lemma tier_disjoint req1 req2 n :
  req1 ∈ [back; front] → req2 ∈ [back; front] →
  selected_by (W := MemWorld) mem_gds mem_cls tier_world req1 n →
  selected_by (W := MemWorld) mem_gds mem_cls tier_world req2 n → req1 = req2.
Proof.
  intros Hin1 Hin2 H1%tier_selected H2%tier_selected; [|done..].
  destruct H1 as [[-> ->]|[-> ->]], H2 as [[-> Hn]|[-> Hn]]; congruence || discriminate Hn.
Qed.

Lemma tier_healthy w :
  all_healthy (W := MemWorld) mem_cls own_client mem_store a_controller valid is_one w.
Proof.
  intros c _ Hone%bool_decide_eq_true. rewrite Hone. split; [done|done|]. apply mem_api_server.
Qed.

(** Validation accepts the gateways of every request in these worlds. *)
Lemma mem_accepted w req :
  valid_services w = true → all_ipv4 (mem_store (mkNN "dev" "one") w) = true →
  accepted (W := MemWorld) mem_gds mem_cls own_services own_client mem_store a_controller valid is_one
    w req.
Proof.
  intros Hs Hw gws. unfold gathered_for. destruct (mem_gds w !! req) as [gd|].
  - apply (mem_accepts a_network is_one); [exact Hs|]. intros n. by apply one_ipv4.
  - intros -> c _ _ _ cg d []%not_elem_of_nil.
Qed.
