(* ===== verification/Worker.v ===== *)
(** The GatewayDNS controller with its queue: what changes around it, what it
    hears of, its worker, and its restarts, as one step relation.

    [Fleet] has what one reconciliation does to the fleet; here the worker takes
    any request that waits, an error puts the request back, and the world
    changes between two reconciliations. *)
From S2P Require Import Prelude GoStrings K8s Kube KubeMem ClusterGateway ClusterGatewaySpec.
From S2P Require Import Converge ConvergeSpec EndpointSliceDNSSpec GatewayDNS GatewayDNSSpec Fleet.
#[local] Open Scope string_scope.
#[local] Open Scope list_scope.

(** * Definitions *)

(** The world and the requests that wait.  [cs_dirty] is not in the program:
    the requests that may be unsettled, because a change that concerns them
    came after their last reconciliation, or because validation had a reason
    to refuse what that one wrote. *)
Record controller_state (W : Type) := mkControllerState {
  cs_world : W;
  cs_queue : gset Request;
  cs_dirty : gset Request;
}.
Arguments mkControllerState {W} _ _ _.
Arguments cs_world {W} _.
Arguments cs_queue {W} _.
Arguments cs_dirty {W} _.

Section controller.
Context {W : Type} `{Management W} `{!Kube W, NamingLaws}.
Context (gds : W → gmap NamespacedName GatewayDNS) (cls : W → list Cluster).
Context (services : Client → W → gmap NamespacedName Service).
Context (client_of : NamespacedName → Client) (store : Client → W → slices).
Context (r : GatewayDNSReconciler).
Context (admissible : EndpointSlice → Prop) (ok : NamespacedName → bool).

Abbreviation ns := (esr_Namespace (gr_EndpointSliceReconciler r)).
Abbreviation slices_of c w := (store (client_of (meta_key (cl_meta c))) w).
Abbreviation collects := (gathered_for gds cls services client_of r ok).
Abbreviation accepts := (accepted gds cls services client_of store r admissible ok).
Abbreviation same_mgmt := (same_mgmt gds cls services).
Abbreviation chosen := (selected_by gds cls).
Abbreviation controller_state := (controller_state W).

(** A request is clean once it was reconciled in a world in which validation
    accepts the slices of all its gateways. *)
Inductive cleans (w : W) (req : Request) (D : gset Request) : gset Request → Prop :=
  | cleans_accepted : accepts w req → cleans w req D (D ∖ {[ req ]})
  | cleans_refused : ¬ accepts w req → cleans w req D (D ∪ {[ req ]}).

(** The one worker takes a request that waits.  An error puts it back. *)
Inductive controller_work : controller_state → controller_state → Prop :=
  | cw_done w Q D D' req orders w' :
      req ∈ Q → (∀ i, valid_order (orders i)) → Reconcile orders r req w = (Ok tt, w') →
      cleans w req D D' →
      controller_work (mkControllerState w Q D) (mkControllerState w' (Q ∖ {[ req ]}) D')
  | cw_again w Q D D' req orders err w' :
      req ∈ Q → (∀ i, valid_order (orders i)) → Reconcile orders r req w = (Err err, w') →
      cleans w req D D' →
      controller_work (mkControllerState w Q D) (mkControllerState w' Q D').

(** The worlds that occur: the healthy clusters answer, selectors parse, names
    have no slash, and no cluster is selected by two GatewayDNS resources. *)
Record sane (w : W) : Prop := {
  sane_healthy : all_healthy cls client_of store r admissible ok w;
  sane_selectors req : valid_selector gds w req;
  sane_names req : is_Some (gds w !! req) → valid_nn req;
  sane_disjoint req1 req2 n : chosen w req1 n → chosen w req2 n → req1 = req2;
}.

(** The slices of a cluster changed, but none that [req] wants or owns then. *)
Definition elsewhere (req : Request) (gws : list ClusterGateway) (m m' : slices) : Prop :=
  ∀ k, m' !! k = m !! k ∨
    (filed_under gws k = None ∧ ∀ s, m' !! k = Some s → owned req s = false).

(** A change that is none for [req]: the same gateways are collected for it,
    and the slices that concern it are the same.  A cluster that is new in its
    namespace has none, and none is wanted there. *)
Definition unaffected (w w' : W) (req : Request) : Prop :=
  ∀ gws, collects w req gws → collects w' req gws ∧
    ∀ c, c ∈ cls w' → om_Namespace (cl_meta c) = nn_namespace req →
      (∃ c0, c0 ∈ cls w ∧ meta_key (cl_meta c0) = meta_key (cl_meta c) ∧
         elsewhere req gws (slices_of c w) (slices_of c w')) ∨
      (gws = [] ∧ settled ns req [] (slices_of c w')).

(** A controller that starts queues every GatewayDNS; what was unsettled
    before still is. *)
Definition controller_started (w : W) (D : gset Request) : controller_state :=
  mkControllerState w (dom (gds w)) D.

Inductive controller_step : controller_state → controller_state → Prop :=
  | cs_work s s' : controller_work s s' → controller_step s s'
  | cs_change w w' Q D E :
      sane w' → (∀ req, req ∉ E → unaffected w w' req) →
      controller_step (mkControllerState w Q D) (mkControllerState w' Q (D ∪ E))
  | cs_hear w Q D E :
      set_Forall valid_nn E →
      controller_step (mkControllerState w Q D) (mkControllerState w (Q ∪ E) D)
  | cs_restart s : controller_step s (controller_started (cs_world s) (cs_dirty s)).

(** The first start: what may be there of a GatewayDNS that is gone, or was
    not reconciled yet, is in [D]. *)
Definition controller_initial (s : controller_state) : Prop :=
  ∃ w D, s = controller_started w D ∧ sane w ∧ dom (gds w) ⊆ D ∧
    ∀ req c, valid_nn req → req ∉ D → c ∈ cls w → om_Namespace (cl_meta c) = nn_namespace req →
      settled ns req [] (slices_of c w).

Definition controller_reachable (s : controller_state) : Prop :=
  ∃ s0, controller_initial s0 ∧ rtc controller_step s0 s.

(** [req] is settled in the world as it is. *)
Definition settled_now (req : Request) (w : W) : Prop :=
  ∃ gws, collects w req gws ∧
    ∀ c, c ∈ cls w → om_Namespace (cl_meta c) = nn_namespace req →
      ok (meta_key (cl_meta c)) = true → settled ns req gws (slices_of c w).

Record controller_ok (s : controller_state) : Prop := {
  ok_sane : sane (cs_world s);
  ok_names : set_Forall valid_nn (cs_queue s);
  ok_settled req : valid_nn req → req ∉ cs_dirty s → settled_now req (cs_world s);
}.

(** * Lemmas *)

Lemma settled_elsewhere req gws m m' :
  elsewhere req gws m m' → settled ns req gws m → settled ns req gws m'.
Proof.
  intros Hels Hset k Hk. specialize (Hset k Hk). destruct (Hels k) as [-> | [Hd Hown]]; [done|].
  by rewrite Hd.
Qed.

Lemma settled_unaffected req w w' :
  unaffected w w' req → settled_now req w → settled_now req w'.
Proof.
  intros Hun (gws & Hg & Hset). destruct (Hun gws Hg) as [Hg' Hc]. exists gws. split; [done|].
  intros c Hin Hcns Hok. destruct (Hc c Hin Hcns) as [(c0 & Hc0 & Hkey & Hels)|[-> Hs]]; [|done].
  eapply settled_elsewhere; [exact Hels|]. rewrite <-Hkey. apply Hset; [done| |by rewrite Hkey].
  unfold meta_key in Hkey. congruence.
Qed.

Lemma sane_same w w' : same_mgmt w w' → sane w → sane w'.
Proof.
  intros Hm [Hhealthy Hsel Hnames Hdis]. pose proof Hm as (Hg & Hc & _). split.
  - intros c. rewrite Hc. apply Hhealthy.
  - intros req. unfold valid_selector. rewrite Hg. apply Hsel.
  - intros req. rewrite Hg. apply Hnames.
  - intros req1 req2 n Hn1%(selected_same _ _ _ _ _ _ _ Hm) Hn2%(selected_same _ _ _ _ _ _ _ Hm).
    by eapply Hdis.
Qed.

Context (Hmgmt : management_api gds cls).
Context (Htracker : client_tracker client_of) (Hframe : api_frame store).
Context (Hkeyed : ∀ c, api_keyed c (store c)).
Context (Hrespect : calls_respect same_mgmt).
Context (Hservices : service_api services client_of ok).
Context (Hns : col_Namespace (gr_ClusterGatewayCollector r) = ns).

(** What a reconciliation keeps of the other requests. *)
Lemma run_keeps req req1 gws w w' res :
  sane w → valid_nn req → valid_nn req1 → req1 ≠ req →
  collects w req gws → run_effect gds cls services client_of store r admissible ok req gws w w' res →
  (settled_now req1 w → settled_now req1 w') ∧ (accepts w req1 → accepts w' req1).
Proof using Hmgmt Hns H2.
  intros Hsane Hreq Hreq1 Hne Hg Heff. pose proof (run_mgmt _ _ _ _ _ _ _ _ _ _ _ _ _ Heff) as Hm.
  pose proof Hm as (_ & Hcls & _).
  assert (∀ gws1 c, collects w req1 gws1 → om_Namespace (cl_meta c) = nn_namespace req1 →
    om_Namespace (cl_meta c) = nn_namespace req → apart gws1 gws) as Hapart.
  { intros gws1 c Hg1 Hc1 Hc. eapply (gathered_apart gds cls Hmgmt services client_of r ok Hns w req1 req);
      [congruence|done|done|].
    intros n Hn1 Hn2. apply Hne. by eapply sane_disjoint. }
  split.
  - intros (gws1 & Hg1 & Hset). exists gws1. split; [by eapply gathered_same|].
    intros c. rewrite Hcls. intros Hc Hcns Hok. specialize (Hset c Hc Hcns Hok).
    destruct (decide (om_Namespace (cl_meta c) = nn_namespace req)) as [Hcns'|Hcns'].
    + eapply settled_confined; [|by eapply Hapart|exact Hset|].
      * by intros ?%NamespacedName_String_inj.
      * by apply (run_confined _ _ _ _ _ _ _ _ _ _ _ _ _ Heff).
    + by rewrite (run_outside _ _ _ _ _ _ _ _ _ _ _ _ _ Heff).
  - intros Hacc gws1 Hg1 c. rewrite Hcls. intros Hc Hcns Hok.
    assert (collects w req1 gws1) as Hg0 by (eapply gathered_same; [symmetry; exact Hm|done]).
    specialize (Hacc gws1 Hg0 c Hc Hcns Hok).
    destruct (gathered_for_ok gds cls Hmgmt services client_of r ok Hns w req1 gws1 Hg0) as [Hgws1 _].
    destruct (decide (om_Namespace (cl_meta c) = nn_namespace req)) as [Hcns'|Hcns'].
    + eapply acceptable_confined; [by eapply Hapart|exact Hgws1|exact Hacc|].
      by apply (run_confined _ _ _ _ _ _ _ _ _ _ _ _ _ Heff).
    + by rewrite (run_outside _ _ _ _ _ _ _ _ _ _ _ _ _ Heff).
Qed.

(** One reconciliation. *)
Lemma reconcile_now req orders w :
  sane w → valid_nn req → (∀ i, valid_order (orders i)) →
  ∃ res w', Reconcile orders r req w = (res, w') ∧
    (res = Ok tt ∨ res = Err failed_to_converge) ∧ same_mgmt w w' ∧ sane w' ∧
    (accepts w req → settled_now req w' ∧ (all_ok cls req ok w → res = Ok tt)) ∧
    ∀ req1, valid_nn req1 → req1 ≠ req →
      (settled_now req1 w → settled_now req1 w') ∧ (accepts w req1 → accepts w' req1).
Proof using All.
  intros Hsane Hreq Ho.
  destruct (reconcile_one gds cls Hmgmt services client_of store Htracker Hframe Hkeyed Hrespect r
    orders Ho admissible ok Hservices Hns req w) as (gws & res & w' & Hrun & Hg & Heff);
    [apply Hsane|by apply sane_selectors|].
  pose proof Heff as [Hres Hm _ _ Hacc]. pose proof Hm as (_ & Hcls & _).
  exists res, w'. split_and!; [done..|by eapply sane_same| |].
  - intros Ha. destruct (Hacc (Ha gws Hg)) as [Hconv Hall]. split; [|done].
    exists gws. split; [by eapply gathered_same|]. intros c. rewrite Hcls. intros Hc Hcns Hok.
    eapply converged_settled. by apply Hconv.
  - intros req1 Hreq1 Hne. by apply (run_keeps req req1 gws w w' res).
Qed.

Lemma cleans_ok w w' req D D' :
  cleans w req D D' → (accepts w req → settled_now req w') →
  (∀ req1, valid_nn req1 → req1 ≠ req → settled_now req1 w → settled_now req1 w') →
  (∀ req1, valid_nn req1 → req1 ∉ D → settled_now req1 w) →
  ∀ req1, valid_nn req1 → req1 ∉ D' → settled_now req1 w'.
Proof.
  intros Hcleans Hnow Hkeep Hset req1 Hreq1 Hd. destruct Hcleans as [Ha|_].
  - destruct (decide (req1 = req)) as [->|Hne]; [by apply Hnow|].
    apply Hkeep; [done..|]. apply Hset; [done|]. set_solver.
  - apply not_elem_of_union in Hd as [Hd Hne%not_elem_of_singleton]. by auto.
Qed.

Lemma controller_work_ok s s' :
  controller_ok s → controller_work s s' →
  controller_ok s' ∧ same_mgmt (cs_world s) (cs_world s').
Proof using All.
  intros [Hsane Hnames Hset] Hwork.
  destruct Hwork as [w Q D D' req orders w' Hin Ho Hrun Hcl|w Q D D' req orders err w' Hin Ho Hrun Hcl];
    cbn in *;
    (destruct (reconcile_now req orders w Hsane (Hnames _ Hin) Ho)
      as (res & w1 & Hrun1 & _ & Hm & Hsane' & Hnow & Hkeep));
    rewrite Hrun in Hrun1; injection Hrun1 as <- <-; (split; [|done]); split; cbn; try done.
  1: intros req1 [Hin1 _]%elem_of_difference; by apply Hnames.
  all: eapply cleans_ok; [exact Hcl|by intros Ha; apply Hnow| |exact Hset];
    intros req1 Hreq1 Hne; by apply Hkeep.
Qed.

Lemma controller_started_ok s : controller_ok s → controller_ok (controller_started (cs_world s) (cs_dirty s)).
Proof.
  intros [Hsane Hnames Hset]. split; cbn; [done| |done].
  intros req Hreq%elem_of_dom. by eapply sane_names.
Qed.

Lemma controller_step_ok s s' : controller_ok s → controller_step s s' → controller_ok s'.
Proof using All.
  intros Hok Hstep. destruct Hstep as [s s' Hwork|w w' Q D E Hsane' Hun|w Q D E HE|s].
  - by eapply controller_work_ok.
  - destruct Hok as [Hsane Hnames Hset]. split; cbn in *; [done..|].
    intros req Hreq [HD HE]%not_elem_of_union. by eapply settled_unaffected; [apply Hun|apply Hset].
  - destruct Hok as [Hsane Hnames Hset]. split; cbn in *; [done| |done]. by apply set_Forall_union.
  - by apply controller_started_ok.
Qed.

Lemma controller_initial_ok s : controller_initial s → controller_ok s.
Proof.
  intros (w & D & -> & Hsane & HD & Hset). split; cbn; [done|..].
  - intros req Hreq%elem_of_dom. by eapply sane_names.
  - intros req Hreq Hd. exists []. split; [|by intros c ? ? _; apply Hset].
    unfold gathered_for. destruct (gds w !! req) eqn:Hg; [|done].
    destruct Hd. apply HD. apply elem_of_dom. by eexists.
Qed.

Lemma controller_reachable_ok s : controller_reachable s → controller_ok s.
Proof using All.
  intros (s0 & Hs0 & Hsteps). apply controller_initial_ok in Hs0.
  induction Hsteps as [s|s1 s2 s3 Hstep _ IH]; [done|]. apply IH. by eapply controller_step_ok.
Qed.

(** ** Working off the queue *)

(** Every request that may be unsettled waits, its clusters are healthy, and
    validation accepts the slices of its gateways. *)
Definition heard (s : controller_state) : Prop :=
  cs_dirty s ⊆ cs_queue s ∧
  ∀ req, req ∈ cs_queue s → all_ok cls req ok (cs_world s) ∧ accepts (cs_world s) req.

Lemma controller_work_drains s s' :
  controller_ok s → heard s → controller_work s s' →
  heard s' ∧ size (cs_queue s) = S (size (cs_queue s')).
Proof using All.
  intros [Hsane Hnames Hset] [Hdirty Hall] Hwork.
  destruct Hwork as [w Q D D' req orders w' Hin Ho Hrun Hcl|w Q D D' req orders err w' Hin Ho Hrun Hcl];
    cbn in *;
    (destruct (reconcile_now req orders w Hsane (Hnames _ Hin) Ho)
      as (res & w1 & Hrun1 & _ & (_ & Hc & _) & _ & Hdone & Hkeep));
    rewrite Hrun in Hrun1; injection Hrun1 as <- <-; destruct (Hall _ Hin) as [Hok Ha];
    destruct (Hdone Ha) as [_ Hres]; [|by discriminate (Hres Hok)].
  destruct Hcl as [_|Hno]; [|done]. split; [split; cbn|].
  - by apply difference_mono_r.
  - intros req1 [Hin1 Hne%not_elem_of_singleton]%elem_of_difference. destruct (Hall req1 Hin1) as [Hok1 Ha1].
    split; [by unfold all_ok; rewrite Hc|]. apply Hkeep; [by apply Hnames|done|done].
  - rewrite size_difference by set_solver. rewrite size_singleton.
    assert (size Q ≠ 0) by (intros ?%size_empty_inv; set_solver). lia.
Qed.

Lemma controller_work_steps k s s' :
  controller_ok s → heard s → nsteps controller_work k s s' →
  controller_ok s' ∧ heard s' ∧ same_mgmt (cs_world s) (cs_world s') ∧
  size (cs_queue s) = (k + size (cs_queue s'))%nat.
Proof using All.
  intros Hok Hheard Hsteps. induction Hsteps as [s|k s1 s2 s3 Hwork _ IH]; [by split_and!|].
  destruct (controller_work_ok s1 s2 Hok Hwork) as [Hok2 Hm].
  destruct (controller_work_drains s1 s2 Hok Hheard Hwork) as [Hheard2 Hsize].
  destruct (IH Hok2 Hheard2) as (Hok3 & Hheard3 & Hm3 & Hsize3).
  split_and!; [done|done|by etrans|lia].
Qed.

Lemma controller_work_possible s :
  controller_ok s → heard s → (∃ s', controller_work s s') ∨ cs_queue s = ∅.
Proof using All.
  intros [Hsane Hnames Hset] [_ Hall]. destruct (set_choose_or_empty (cs_queue s)) as [[req Hin]|Hq];
    [|right; by apply leibniz_equiv].
  left. destruct (reconcile_now req (λ _, list_order) (cs_world s) Hsane (Hnames _ Hin)
    (λ _, list_order_valid)) as (res & w' & Hrun & Hres & _).
  destruct (Hall req Hin) as [_ Ha]. destruct s as [w Q D], Hres as [-> | ->]; eexists.
  - eapply (cw_done w Q D _ req (λ _, list_order));
      [done|intros _; apply list_order_valid|exact Hrun|by apply cleans_accepted].
  - eapply (cw_again w Q D _ req (λ _, list_order));
      [done|intros _; apply list_order_valid|exact Hrun|by apply cleans_accepted].
Qed.

(** ** A deletion that nobody noticed *)

(** What the controller does on its own: it works, lists again, restarts. *)
Inductive controller_alone : controller_state → controller_state → Prop :=
  | ca_work s s' : controller_work s s' → controller_alone s s'
  | ca_list w Q D :
      controller_alone (mkControllerState w Q D) (mkControllerState w (Q ∪ dom (gds w)) D)
  | ca_restart s : controller_alone s (controller_started (cs_world s) (cs_dirty s)).

(** No GatewayDNS wants a slice called [k]. *)
Definition unwanted (w : W) (k : NamespacedName) : Prop :=
  ∀ req cg, chosen w req (ClusterNamespacedName cg) → ControllerNamespace cg = ns →
    slice_name cg ≠ k.

(** The reconciliation of another GatewayDNS leaves the slice. *)
Lemma reconcile_leaves req req1 orders w res w' c k e :
  sane w → valid_nn req → valid_nn req1 → req1 ≠ req → (∀ i, valid_order (orders i)) →
  Reconcile orders r req1 w = (res, w') → unwanted w k →
  c ∈ cls w → ok (meta_key (cl_meta c)) = true →
  slices_of c w !! k = Some e → owned req e = true → slices_of c w' !! k = Some e.
Proof using All.
  intros Hsane Hreq Hreq1 Hne Ho Hrun Hk Hc Hok He Hown.
  destruct (reconcile_one gds cls Hmgmt services client_of store Htracker Hframe Hkeyed Hrespect r
    orders Ho admissible ok Hservices Hns req1 w) as (gws & res1 & w1 & Hrun1 & Hg & Heff);
    [apply Hsane|by apply sane_selectors|].
  rewrite Hrun in Hrun1. injection Hrun1 as <- <-.
  destruct (decide (om_Namespace (cl_meta c) = nn_namespace req1)) as [Hcns|Hcns].
  2: by rewrite (run_outside _ _ _ _ _ _ _ _ _ _ _ _ _ Heff).
  destruct (run_confined _ _ _ _ _ _ _ _ _ _ _ _ _ Heff c Hc Hcns Hok k) as [->|[_ Hw]]; [done|].
  exfalso. destruct (filed_under gws k) as [cg|] eqn:Hd.
  - apply filed_under_lookup in Hd as [Hin Hkey].
    destruct (gathered_for_ok gds cls Hmgmt services client_of r ok Hns w req1 gws Hg) as [Hgws Hby].
    eapply Forall_forall in Hgws as (Hctl & _ & _); [|exact Hin].
    by apply (Hk req1 cg (Hby cg Hin)).
  - destruct Hw as (_ & s & Hs & Hown1). rewrite He in Hs. injection Hs as <-.
    rewrite (owned_exclusive req req1) in Hown1; [done| |done].
    by intros ?%NamespacedName_String_inj.
Qed.

(** * Properties *)


(** C37: a GatewayDNS that is deleted while the controller does not hear of it,
    because it is down or because it restarts before the clusters were cleaned
    up, leaves its slices behind for good: however long the controller works,
    lists and restarts, they stay as they are in healthy clusters, whatever
    validation says of the slices of the others. *)
Theorem missed_deletion_leaves_slices s s' req c k e
    (Hs : controller_reachable s) (Hreq : valid_nn req)
    (Hgone : gds (cs_world s) !! req = None) (Hmissed : req ∉ cs_queue s)
    (Halone : rtc controller_alone s s') (Hk : unwanted (cs_world s) k)
    (Hc : c ∈ cls (cs_world s)) (Hok : ok (meta_key (cl_meta c)) = true)
    (He : slices_of c (cs_world s) !! k = Some e) (Hown : owned req e = true) :
  slices_of c (cs_world s') !! k = Some e.
Proof using All.
  apply controller_reachable_ok in Hs.
  induction Halone as [s|s1 s2 s3 Hstep _ IH]; [done|].
  destruct Hstep as [s1 s2 Hwork|w Q D|s1].
  - destruct (controller_work_ok s1 s2 Hs Hwork) as [Hs2 Hm]. pose proof Hm as (Hg & Hcl & _).
    destruct Hs as [Hsane Hnames _].
    assert (slices_of c (cs_world s2) !! k = Some e ∧ req ∉ cs_queue s2) as [He2 Hq2].
    { destruct Hwork as [w Q D D' req1 orders w' Hin Ho Hrun _|w Q D D' req1 orders err w' Hin Ho Hrun _];
        cbn in *;
        (split; [|set_solver]); (eapply reconcile_leaves; [exact Hsane|exact Hreq|by apply Hnames| |done..]);
        by intros ->. }
    apply IH; [done|by rewrite Hg|done| |by rewrite Hcl|done].
    intros req1 cg Hsel. apply (Hk req1 cg). by apply (selected_same _ _ _ _ _ _ _ Hm).
  - apply IH; try done; cbn in *.
    + destruct Hs as [Hsane Hnames Hset]. split; cbn in *; [done| |done].
      apply set_Forall_union; [done|]. intros req1 Hreq1%elem_of_dom. by eapply sane_names.
    + by apply not_elem_of_union; split; [|apply not_elem_of_dom].
  - apply IH; try done; [by apply controller_started_ok|]. cbn. by apply not_elem_of_dom.
Qed.

End controller.

(** * Witnesses *)

Abbreviation mem_sane := (sane (W := MemWorld) mem_gds mem_cls own_client mem_store a_controller
  valid is_one).
Abbreviation mem_initial := (controller_initial (W := MemWorld) mem_gds mem_cls own_client mem_store
  a_controller valid is_one).
Abbreviation mem_reachable := (controller_reachable (W := MemWorld) mem_gds mem_cls own_services
  own_client mem_store a_controller valid is_one).
Abbreviation mem_cleans := (cleans (W := MemWorld) mem_gds mem_cls own_services own_client mem_store
  a_controller valid is_one).
Abbreviation mem_work := (controller_work (W := MemWorld) mem_gds mem_cls own_services own_client
  mem_store a_controller valid is_one).

(** The owners of the slices that cluster "one" starts with. *)
Definition gd_request : Request := mkNN "dev" "gd".
Definition other_request : Request := mkNN "dev" "other".
Definition old_owners : gset Request := {[ gd_request; other_request ]}.

Definition owned_by_old (s : EndpointSlice) : bool :=
  match map_get (om_Annotations (es_meta s)) GatewayDNSRefAnnotation with
  | Some ref => bool_decide (ref ∈ NamespacedName_String <$> [gd_request; other_request])
  | None => true
  end.

Lemma owned_by_old_settled m req :
  forallb owned_by_old (map_to_list m).*2 = true → valid_nn req → req ∉ old_owners →
  settled "xcc-dns" req [] m.
Proof.
  intros Hall Hreq Hold k _ s Hs.
  apply Is_true_true_2, forallb_True in Hall.
  eapply Forall_forall in Hall; [|apply (elem_of_map_values m); [done|eauto]].
  unfold owned. destruct (map_get _ DNSHostnameAnnotation); [|done]. unfold owned_by_old in Hall.
  destruct (map_get _ GatewayDNSRefAnnotation) as [ref|]; [|done].
  apply bool_decide_eq_false. intros ->. apply bool_decide_unpack in Hall. apply Hold.
  apply elem_of_cons in Hall as [Heq|[Heq|[]%not_elem_of_nil]%elem_of_cons];
    apply NamespacedName_String_inj in Heq as ->; try done; set_solver.
Qed.

(** Worlds with some of the resources and clusters of [tier_world]. *)
Lemma tier_sane w :
  mem_gds w ⊆ mem_gds tier_world → mem_cls w ⊆ mem_cls tier_world → mem_sane w.
Proof.
  intros Hg Hc.
  assert (∀ req gd, mem_gds w !! req = Some gd → req ∈ [back; front]) as Hreqs.
  { intros req gd Hgd. eapply lookup_weaken in Hgd; [|exact Hg]. unfold mem_gds in Hgd.
    apply map_lookup_filter_Some in Hgd as [Hgd _]. unfold tier_world in Hgd. cbn [mem_gatewaydns] in Hgd.
    apply lookup_insert_Some in Hgd as [[<- _]|[_ [<- _]%lookup_singleton_Some]].
    - apply list_elem_of_further, list_elem_of_here.
    - apply list_elem_of_here. }
  assert (∀ req n, selected_by (W := MemWorld) mem_gds mem_cls w req n →
    req ∈ [back; front] ∧ selected_by (W := MemWorld) mem_gds mem_cls tier_world req n) as Hsel.
  { intros req n (gd & c & Hgd & Hin & Hrest). split; [by eapply Hreqs|].
    exists gd, c. split; [by eapply lookup_weaken|]. by split; [apply Hc|]. }
  split.
  - apply tier_healthy.
  - intros req gd Hgd. assert (req ∈ [back; front]) as Hreq by by eapply Hreqs.
    eapply Forall_forall in Hreq; [|exact tier_selectors]. apply Hreq. by eapply lookup_weaken.
  - intros req [gd Hgd%Hreqs]. revert Hgd.
    by intros [->|[->|[]%not_elem_of_nil]%elem_of_cons]%elem_of_cons.
  - intros req1 req2 n [Hr1 H1]%Hsel [Hr2 H2]%Hsel. by eapply tier_disjoint.
Qed.

Lemma tier_initial w D :
  mem_gds w ⊆ mem_gds tier_world → mem_cls w ⊆ mem_cls tier_world →
  forallb owned_by_old (map_to_list (mem_store (mkNN "dev" "one") w)).*2 = true →
  forallb owned_by_old (map_to_list (mem_store (mkNN "dev" "two") w)).*2 = true →
  dom (mem_gds w) ⊆ D → old_owners ⊆ D → mem_initial (controller_started mem_gds w D).
Proof.
  intros Hg Hc Hone Htwo HD Hold. exists w, D. split; [done|]. split; [by apply tier_sane|].
  split; [done|]. intros req c Hreq Hd Hin _. apply owned_by_old_settled; [|done|by intros ?%Hold].
  by apply Hc, tier_clusters in Hin as [-> | ->].
Qed.

(** Cluster "one" with the GatewayDNS that selects it; the owners of its slices
    are gone. *)
Definition front_world : MemWorld :=
  mkMemWorld {[ mkNN "dev" "one" := one_slices ]} (mem_services a_mem)
    {[ front := front_dns ]} {[ mkNN "dev" "one" := tier_cluster "one" "f" ]}.
Definition front_dirty : gset Request := {[ front ]} ∪ old_owners.
Definition front_started : controller_state MemWorld :=
  controller_started mem_gds front_world front_dirty.

Lemma front_clusters c : c ∈ mem_cls front_world → c = tier_cluster "one" "f".
Proof.
  assert (mem_cls front_world = [tier_cluster "one" "f"]) as -> by (vm_compute; reflexivity).
  apply list_elem_of_singleton.
Qed.

Lemma front_dom : dom (mem_gds front_world) = {[ front ]}.
Proof. apply (bool_decide_unpack _). vm_compute. exact I. Qed.

Lemma front_gds : mem_gds front_world ⊆ mem_gds tier_world.
Proof.
  apply map_subseteq_spec. intros req gd [Hgd _]%map_lookup_filter_Some.
  unfold front_world in Hgd. cbn [mem_gatewaydns] in Hgd.
  apply lookup_singleton_Some in Hgd as [<- <-]. exact front_stored.
Qed.

Lemma front_started_reachable : mem_reachable front_started.
Proof.
  exists front_started. split; [|apply rtc_refl]. apply tier_initial.
  - exact front_gds.
  - intros c ->%front_clusters. apply (bool_decide_unpack _). vm_compute. exact I.
  - vm_compute. reflexivity.
  - vm_compute. reflexivity.
  - rewrite front_dom. apply union_subseteq_l.
  - apply union_subseteq_r.
Qed.

(** The next state when [req] is reconciled. *)
Definition reconciled (req : Request) (w : MemWorld) : MemWorld :=
  (Reconcile (λ _, list_order) a_controller req w).2.

Lemma mem_cleans_accepted w req D :
  valid_services w = true → all_ipv4 (mem_store (mkNN "dev" "one") w) = true →
  mem_cleans w req D (D ∖ {[ req ]}).
Proof. intros Hs Hw. by apply cleans_accepted, mem_accepted. Qed.

Lemma reconciled_work w Q D req :
  valid_services w = true → all_ipv4 (mem_store (mkNN "dev" "one") w) = true →
  req ∈ Q → (Reconcile (λ _, list_order) a_controller req w).1 = Ok tt →
  mem_work (mkControllerState w Q D)
    (mkControllerState (reconciled req w) (Q ∖ {[ req ]}) (D ∖ {[ req ]})).
Proof.
  intros Hs Hw Hin Hok.
  apply (cw_done _ _ _ _ _ _ _ _ _ _ _ _ _ (λ _, list_order));
    [done|intros _; apply list_order_valid| |by apply mem_cleans_accepted].
  rewrite <-Hok. apply surjective_pairing.
Qed.

(** The deletions are heard of, and three requests are worked off. *)
Definition front_heard : controller_state MemWorld :=
  mkControllerState front_world ({[ front ]} ∪ old_owners) front_dirty.

Lemma front_heard_reachable : mem_reachable front_heard.
Proof.
  destruct front_started_reachable as (s0 & Hs0 & Hsteps). exists s0. split; [exact Hs0|].
  eapply rtc_r; [exact Hsteps|].
  replace front_heard with (mkControllerState front_world (dom (mem_gds front_world) ∪ old_owners)
    front_dirty) by (unfold front_heard; by rewrite front_dom).
  apply cs_hear. apply set_Forall_union; apply set_Forall_singleton; reflexivity.
Qed.

Lemma front_is_heard :
  heard (W := MemWorld) mem_gds mem_cls own_services own_client mem_store a_controller valid is_one
    front_heard.
Proof.
  split; [done|]. intros req _. split.
  - intros c ->%front_clusters _. vm_compute. reflexivity.
  - apply mem_accepted; vm_compute; reflexivity.
Qed.

Definition front_end : MemWorld :=
  reconciled other_request (reconciled gd_request (reconciled front front_world)).

Lemma front_works : nsteps mem_work 3 front_heard
  (mkControllerState front_end
    (((({[ front ]} ∪ old_owners) ∖ {[ front ]}) ∖ {[ gd_request ]}) ∖ {[ other_request ]})
    (((front_dirty ∖ {[ front ]}) ∖ {[ gd_request ]}) ∖ {[ other_request ]})).
Proof.
  eapply nsteps_l; [apply (reconciled_work _ _ _ front); vm_compute; reflexivity|].
  eapply nsteps_l; [apply (reconciled_work _ _ _ gd_request); vm_compute; reflexivity|].
  eapply nsteps_l; [apply (reconciled_work _ _ _ other_request); vm_compute; reflexivity|].
  apply nsteps_O.
Qed.


(** The controller works off what it knows of, lists, and restarts. *)
Definition front_later : controller_state MemWorld :=
  controller_started mem_gds (reconciled front front_world) (front_dirty ∖ {[ front ]}).

Lemma front_left_alone :
  rtc (controller_alone (W := MemWorld) mem_gds mem_cls own_services own_client mem_store a_controller
    valid is_one) front_started front_later.
Proof.
  eapply rtc_l.
  { apply ca_work, (reconciled_work _ _ _ front); vm_compute; reflexivity. }
  eapply rtc_l; [apply ca_list|]. apply rtc_once.
  exact (ca_restart _ _ _ _ _ _ _ _
    (mkControllerState (reconciled front front_world) _ (front_dirty ∖ {[ front ]}))).
Qed.

Definition gone_slice : EndpointSlice := stored_slice "dev-gone-gateway" "*.gone.example" "dev/gd".

Lemma front_unwanted :
  unwanted (W := MemWorld) mem_gds mem_cls a_controller front_world (slice_key gone_slice).
Proof.
  intros req cg (gd & c & _ & ->%front_clusters & Hkey & _) Hns.
  unfold slice_name, endpointSliceName. rewrite <-Hkey, Hns.
  apply (bool_decide_unpack _). vm_compute. exact I.
Qed.

Lemma missed_deletion_leaves_slices_witness :
  mem_store (mkNN "dev" "one") (reconciled front front_world) !! slice_key gone_slice =
    Some gone_slice.
Proof.
  apply (missed_deletion_leaves_slices mem_gds mem_cls own_services own_client mem_store a_controller
    valid is_one mem_management_api (mem_tracker a_network) (mem_api_frame a_network)
    (mem_api_keyed a_network) (mem_calls_respect a_network) (mem_service_api a_network is_one) eq_refl
    front_started front_later
    gd_request (tier_cluster "one" "f") (slice_key gone_slice) gone_slice).
  - exact front_started_reachable.
  - reflexivity.
  - vm_compute. reflexivity.
  - apply (bool_decide_unpack _). vm_compute. exact I.
  - exact front_left_alone.
  - exact front_unwanted.
  - apply (bool_decide_unpack _). vm_compute. exact I.
  - vm_compute. reflexivity.
  - vm_compute. reflexivity.
  - vm_compute. reflexivity.
Defined.
