(* ===== verification/DNSConfig.v ===== *)
(** Forwarding a zone of the cluster's DNS: [pkg/dnsconfig/corefile_patcher.go],
    [dns_service_watcher.go] and the program that runs them,
    [cmd/dns-config-patcher/main.go]. *)
From S2P Require Import Prelude GoStrings K8s Kube.
#[local] Open Scope string_scope.
#[local] Open Scope list_scope.

(** * Definitions *)

Definition newline : string := String (ascii_of_nat 10) "".
Definition dquote : string := String (ascii_of_nat 34) "".

(** [err.Error()] *)
Definition error_message (e : error) : string :=
  match e with ErrStatus _ msg | ErrVar _ msg | ErrNew msg => msg end.

(** [corev1.ConfigMap] *)
Record ConfigMap := mkConfigMap { cm_meta : ObjectMeta; cm_Data : gomap string }.

(** The client of the cluster the program runs in. *)
Class ConfigClient (W : Type) : Type := {
  GetConfigMap : NamespacedName → Call W ConfigMap;
  UpdateConfigMap : ConfigMap → Call W unit;
  GetDNSService : NamespacedName → Call W Service;
}.

(** ** [corefile_patcher.go] *)

Record CorefilePatcher := mkCorefilePatcher {
  cp_DomainSuffix : string;
  cp_Namespace : string;
  cp_ConfigMapName : string;
}.

Definition sectionBegin : string := "### BEGIN CROSS CLUSTER CONNECTIVITY".
Definition sectionEnd : string := "### END CROSS CLUSTER CONNECTIVITY".

(** [fmt.Sprintf(xccForwardBlockTemplate, sectionBegin, domain, ip, sectionEnd)] *)
Definition xccForwardBlock (domainSuffix forwardingIP : string) : string :=
  sectionBegin +:+ newline +:+
  domainSuffix +:+ " {" +:+ newline +:+
  "    forward . " +:+ forwardingIP +:+ newline +:+
  "    reload" +:+ newline +:+
  "}" +:+ newline +:+
  sectionEnd.

(** The pattern of [serverBlockRegexp]: a space, the begin marker, the longest run
    of any characters that an end marker follows. *)
Definition serverBlockRegexp : regexp :=
  RCat (RClass re_space)
    (RCat (RLit (to_bytes sectionBegin)) (RCat RAnyStar (RLit (to_bytes sectionEnd)))).

Definition stripXCCBlock (corefile : string) : string :=
  TrimSpace (ReplaceAllWithEmpty serverBlockRegexp corefile).

(** The new contents of the Corefile: [None] when it is up to date. *)
Definition patchCorefile (corefile xccBlock : string) : option string :=
  if Contains corefile xccBlock then None
  else Some (stripXCCBlock corefile +:+ newline +:+ xccBlock +:+ newline).

(** Writing to the nil [Data] of an empty ConfigMap panics. *)
Definition AppendStubDomainBlock {W : Type} `{ConfigClient W} (c : CorefilePatcher)
    (forwardingIP : string) : M W unit :=
  call (GetConfigMap (mkNN (cp_Namespace c) (cp_ConfigMapName c))) ≫= λ configMap,
  match patchCorefile (map_get0 (cm_Data configMap) "Corefile")
          (xccForwardBlock (cp_DomainSuffix c) forwardingIP) with
  | None => mret tt
  | Some corefile =>
      match cm_Data configMap with
      | None => panic
      | Some data =>
          call (UpdateConfigMap (mkConfigMap (cm_meta configMap)
            (Some (<["Corefile" := corefile]> data))))
      end
  end.

(** ** [dns_service_watcher.go]

    The loop runs on a clock (nanoseconds).  What the program does not
    control is an argument: how long each request takes, how the world changes while the
    loop waits, and which case [select] picks when both are ready. *)
Record DNSServiceWatcher := mkDNSServiceWatcher {
  dw_Namespace : string;
  dw_ServiceName : string;
  dw_PollingInterval : Z;
}.

Record Environment (W : Type) := mkEnvironment {
  latency : nat → Z;
  meanwhile : nat → W → W;
  done_first : nat → bool;
}.
Arguments mkEnvironment {W} _ _ _.
Arguments latency {W} _ _.
Arguments meanwhile {W} _ _ _.
Arguments done_first {W} _ _.

(** What one poll found: an address, or the error to report. *)
Definition poll_answer (d : DNSServiceWatcher) (r : Service + error) : string + string :=
  match r with
  | inl svc =>
      if decide (svc_ClusterIP svc ≠ "") then inl (svc_ClusterIP svc)
      else inr ("service " +:+ dquote +:+ dw_Namespace d +:+ "/" +:+ dw_ServiceName d +:+ dquote
                +:+ " does not have a ClusterIP")
  | inr err => inr (error_message err)
  end.

Definition timed_out (d : DNSServiceWatcher) (helpfulError : string) : error :=
  ErrNew ("Timed out obtaining ClusterIP from service " +:+ dquote +:+ dw_Namespace d +:+ "/"
          +:+ dw_ServiceName d +:+ dquote +:+ ": " +:+ helpfulError).

(** [select] at time [t]: the context is done at [deadline], the timer fires
    after the interval.  True when the loop gives up. *)
Definition gives_up (d : DNSServiceWatcher) (deadline t : Z) (tie : bool) : bool :=
  let done := Z.max t deadline in
  let timer := (t + Z.max 0 (dw_PollingInterval d))%Z in
  (done <? timer)%Z || ((done =? timer)%Z && tie).

(** The [i]th iteration starts at [t].  [None] when the fuel runs out;
    otherwise the result, the world and the number of polls. *)
Fixpoint GetDNSServiceClusterIP {W : Type} `{ConfigClient W} (fuel : nat) (env : Environment W)
    (d : DNSServiceWatcher) (deadline : Z) (i : nat) (t : Z) (w : W)
    : option (outcome string * W * nat) :=
  match fuel with
  | 0 => None
  | S fuel =>
      let '(r, w) := GetDNSService (mkNN (dw_Namespace d) (dw_ServiceName d)) w in
      let t := (t + latency env i)%Z in
      match poll_answer d r with
      | inl ip => Some (Ok ip, w, S i)
      | inr helpfulError =>
          if gives_up d deadline t (done_first env i)
          then Some (Err (timed_out d helpfulError), w, S i)
          else GetDNSServiceClusterIP fuel env d deadline (S i)
                 (t + Z.max 0 (dw_PollingInterval d))%Z (meanwhile env i w)
      end
  end%nat.

(** ** [cmd/dns-config-patcher/main.go]

    [Err] is the exit with status 1 after the error was logged. *)
Definition getEnvVarOrDie {W : Type} (lookupEnv : string → option string)
    (name description : string) : M W string :=
  match lookupEnv name with
  | Some envVar => mret envVar
  | None => throw (ErrNew (name +:+ " environment variable unset. " +:+ description))
  end.

Definition dns_service_watcher (dnsServiceNamespace dnsServiceName : string) : DNSServiceWatcher :=
  mkDNSServiceWatcher dnsServiceNamespace dnsServiceName 500000000.

(** The loop under the context of 5 seconds that starts at [start]. *)
Definition watch_dns_service {W : Type} `{ConfigClient W} (fuel : nat) (env : Environment W)
    (d : DNSServiceWatcher) (start : Z) : M W string := λ w,
  match GetDNSServiceClusterIP fuel env d (start + 5000000000)%Z 0 start w with
  | Some (r, w', _) => (r, w')
  | None => (Panic, w)
  end.

(** [client_new] stands for [client.New(ctrl.GetConfigOrDie(), ...)]. *)
Definition main {W : Type} `{ConfigClient W} (fuel : nat) (env : Environment W) (start : Z)
    (lookupEnv : string → option string) (client_new : Call W unit) : M W unit :=
  getEnvVarOrDie lookupEnv "DNS_SERVICE_NAMESPACE"
    "Must be set to the namespace of the DNS service that will handle DNS lookups for the provided DOMAIN_SUFFIX."
    ≫= λ dnsServiceNamespace,
  getEnvVarOrDie lookupEnv "DNS_SERVICE_NAME"
    "Must be set to the name of the DNS service that will handle DNS lookups for the provided DOMAIN_SUFFIX."
    ≫= λ dnsServiceName,
  getEnvVarOrDie lookupEnv "COREFILE_CONFIGMAP_NAMESPACE"
    "Must be set to the namespace of the ConfigMap containing the Corefile to be patched."
    ≫= λ corefileConfigMapNamespace,
  getEnvVarOrDie lookupEnv "COREFILE_CONFIGMAP_NAME"
    "Must be set to the name of the ConfigMap containing the Corefile to be patched."
    ≫= λ corefileConfigMapName,
  getEnvVarOrDie lookupEnv "DOMAIN_SUFFIX"
    "Must be set to the domain suffix of the zone that is handled by another DNS service."
    ≫= λ domainSuffix,
  call client_new ≫= λ _,
  watch_dns_service fuel env (dns_service_watcher dnsServiceNamespace dnsServiceName) start
    ≫= λ dnsServiceClusterIP,
  AppendStubDomainBlock
    (mkCorefilePatcher domainSuffix corefileConfigMapNamespace corefileConfigMapName)
    dnsServiceClusterIP.
