(* ===== verification/DNSConfigSpec.v ===== *)
(** What the Corefile patcher and the service watcher promise: the stub domain
    block is in the Corefile exactly once, patching again changes nothing, a
    new address replaces the old block and keeps the rest; and the watcher
    gives up after its deadline. *)
From S2P Require Import Prelude GoStrings K8s Kube DNSConfig.
#[local] Open Scope string_scope.
#[local] Open Scope list_scope.
#[local] Arguments String.append : simpl nomatch.

(** * Lemmas *)

(** ** Substrings *)

Lemma contains_spec sub s : contains sub s = true ↔ ∃ a b, s = a ++ sub ++ b.
Proof.
  induction s as [|c s IH]; cbn.
  - destruct (cut_prefix sub []) as [r|] eqn:Hc.
    + apply cut_prefix_Some in Hc. split; [|done]. intros _. by exists [], r.
    + split; [done|]. intros (a & b & Hs). symmetry in Hs. apply app_nil in Hs as [_ [-> _]%app_nil]. done.
  - destruct (cut_prefix sub (c :: s)) as [r|] eqn:Hc.
    + apply cut_prefix_Some in Hc. split; [|done]. intros _. by exists [], r.
    + rewrite IH. split.
      * intros (a & b & ->). by exists (c :: a), b.
      * intros ([|x a] & b & Hs); [|injection Hs as -> ->; eauto].
        cbn in Hs. rewrite Hs in Hc. by rewrite cut_prefix_app in Hc.
Qed.

Lemma contains_cut l s : contains l s = false → cut_prefix l s = None.
Proof. destruct s; cbn; by destruct (cut_prefix l _). Qed.

Lemma contains_tail l c s : contains l (c :: s) = false → contains l s = false.
Proof. cbn. by destruct (cut_prefix l _). Qed.

Lemma contains_false_app sub a s b : contains sub (a ++ s ++ b) = false → contains sub s = false.
Proof.
  intros Hc. apply not_true_iff_false. intros (x & y & ->)%contains_spec.
  apply not_true_iff_false in Hc. apply Hc, contains_spec.
  exists (a ++ x), (y ++ b). by rewrite <-!(assoc_L (++)).
Qed.

(** A text without line feeds does not straddle one. *)
Lemma cut_prefix_newline r s t :
  byte 10 ∉ r → cut_prefix r s = None → cut_prefix r (s ++ byte 10 :: t) = None.
Proof.
  intros Hno Hnone. destruct (cut_prefix r (s ++ byte 10 :: t)) as [x|] eqn:Hc; [exfalso|done].
  apply cut_prefix_Some, app_eq_inv in Hc as [(k & -> & Hk)|(k & -> & Hk)].
  - by rewrite cut_prefix_app in Hnone.
  - destruct k as [|b k].
    + pose proof (cut_prefix_app s []) as Hcut. rewrite !app_nil_r in *. congruence.
    + assert (b = byte 10) as -> by by inversion Hk. apply Hno. rewrite elem_of_app. right.
      by constructor.
Qed.

(** ** Trimming *)

(** Every rune has a byte, and a line feed only as a rune of its own. *)
Definition rune_ok (r : bytes) : bool :=
  match r with
  | [] => false
  | c :: r => negb (bool_decide (byte 10 ∈ r)) && (bool_decide (c ≠ byte 10) || bool_decide (r = []))
  end.

Lemma cut_any_spec rs s s' :
  cut_any rs s = Some s' → ∃ r, r ∈ rs ∧ s = r ++ s'.
Proof.
  unfold cut_any. intros Hh%head_Some_elem_of.
  apply list_elem_of_omap in Hh as (r & Hr & Hc%cut_prefix_Some). eauto.
Qed.

Lemma cut_any_None rs s : cut_any rs s = None ↔ ∀ r, r ∈ rs → cut_prefix r s = None.
Proof.
  unfold cut_any. rewrite head_None. split.
  - intros Hnil r Hr. destruct (cut_prefix r s) as [s'|] eqn:Hc; [|done].
    assert (s' ∈ omap (λ r, cut_prefix r s) rs) as Hin by (apply list_elem_of_omap; eauto).
    rewrite Hnil in Hin. by apply not_elem_of_nil in Hin.
  - intros Hall. apply elem_of_nil_inv. intros s' (r & Hr & Hc)%list_elem_of_omap.
    by rewrite Hall in Hc.
Qed.

Section trim.
Context (rs : list bytes) (Hrs : forallb rune_ok rs = true).

Lemma rune_nonempty r : r ∈ rs → r ≠ [].
Proof using Hrs.
  intros Hr ->. rewrite forallb_forall in Hrs.
  by specialize (Hrs [] (proj1 (list_elem_of_In _ _) Hr)).
Qed.

(** Enough fuel trims all; what is cut off is a prefix. *)
Lemma trim_front_spec fuel s :
  (length s ≤ fuel)%nat →
  cut_any rs (trim_front fuel rs s) = None ∧ ∃ p, s = p ++ trim_front fuel rs s.
Proof using Hrs.
  revert s. induction fuel as [|fuel IH]; intros s Hlen; cbn.
  - destruct s; [|cbn in Hlen; lia]. split; [|by exists []].
    apply cut_any_None. intros r Hr%rune_nonempty. by destruct r.
  - destruct (cut_any rs s) as [s'|] eqn:Hc; [|by split; [|exists []]].
    apply cut_any_spec in Hc as (r & Hr & ->). apply rune_nonempty in Hr.
    rewrite length_app in Hlen. destruct (IH s') as [Hn (p & Hp)].
    { destruct r; [done|cbn in Hlen; lia]. }
    split; [done|]. exists (r ++ p). by rewrite <-(assoc_L (++)), <-Hp.
Qed.

Lemma trim_front_done fuel s : cut_any rs s = None → trim_front fuel rs s = s.
Proof. destruct fuel; cbn; [done|]. by intros ->. Qed.

(** A shorter text has no more runes in front. *)
Lemma cut_any_prefix p q : cut_any rs (p ++ q) = None → cut_any rs p = None.
Proof.
  rewrite !cut_any_None. intros Hall r Hr. destruct (cut_prefix r p) as [x|] eqn:Hc; [|done].
  apply cut_prefix_Some in Hc as ->. specialize (Hall r Hr).
  by rewrite <-(assoc_L (++)), cut_prefix_app in Hall.
Qed.

(** A line feed behind a text that starts with no rune does not make one. *)
Lemma cut_any_newline s t :
  s ≠ [] → cut_any rs s = None → cut_any rs (s ++ byte 10 :: t) = None.
Proof using Hrs.
  rewrite !cut_any_None. intros Hs Hall r Hr. specialize (Hall r Hr).
  rewrite forallb_forall in Hrs. specialize (Hrs r (proj1 (list_elem_of_In _ _) Hr)).
  destruct s as [|c s]; [done|]. destruct r as [|c' r]; [done|]. cbn in Hrs, Hall |- *.
  apply andb_true_iff in Hrs as [Hno%negb_true_iff%bool_decide_eq_false _].
  case_decide; [|done]. by apply cut_prefix_newline.
Qed.
End trim.

Lemma runes_ok : forallb rune_ok space_runes = true.
Proof. vm_compute. reflexivity. Qed.
Lemma reversed_runes_ok : forallb rune_ok (reverse <$> space_runes) = true.
Proof. vm_compute. reflexivity. Qed.

(** ** [TrimSpace] *)

(** No space at either end. *)
Definition trimmed (s : bytes) : Prop :=
  cut_any space_runes s = None ∧ cut_any (reverse <$> space_runes) (reverse s) = None.

Lemma trim_space_trimmed s : trimmed (trim_space s).
Proof.
  unfold trim_space, trim_right. set (t := trim_left s).
  destruct (trim_front_spec _ runes_ok (length s) s) as [Hl _]; [done|].
  change (trim_front (length s) space_runes s) with t in Hl.
  destruct (trim_front_spec _ reversed_runes_ok (length t) (reverse t)) as [Hr (p & Hp)].
  { by rewrite length_reverse. }
  set (u := trim_front (length t) (reverse <$> space_runes) (reverse t)) in *.
  split; [|by rewrite reverse_involutive].
  apply (f_equal reverse) in Hp. rewrite reverse_involutive, reverse_app in Hp.
  eapply cut_any_prefix. by rewrite <-Hp.
Qed.

Lemma trim_space_id s : trimmed s → trim_space s = s.
Proof.
  intros [Hl Hr]. unfold trim_space, trim_right, trim_left.
  rewrite (trim_front_done space_runes) by done. rewrite trim_front_done by done.
  by rewrite reverse_involutive.
Qed.

(** What is trimmed is a part of the text. *)
Lemma trim_space_part s : ∃ a b, s = a ++ trim_space s ++ b.
Proof.
  unfold trim_space, trim_right. set (t := trim_left s).
  destruct (trim_front_spec _ runes_ok (length s) s) as [_ (a & Ha)]; [done|].
  change (trim_front (length s) space_runes s) with t in Ha.
  destruct (trim_front_spec _ reversed_runes_ok (length t) (reverse t)) as [_ (p & Hp)].
  { by rewrite length_reverse. }
  apply (f_equal reverse) in Hp. rewrite reverse_involutive, reverse_app in Hp.
  exists a, (reverse p). by rewrite <-Hp.
Qed.

(** A line feed at the end goes away. *)
Lemma trim_space_newline s : trimmed s → trim_space (s ++ [byte 10]) = s.
Proof.
  intros [Hl Hr]. destruct s as [|c s]; [vm_compute; reflexivity|].
  unfold trim_space, trim_left.
  rewrite (trim_front_done space_runes) by by apply (cut_any_newline _ runes_ok).
  assert (∀ n x, trim_front (S n) (reverse <$> space_runes) (byte 10 :: x) =
            trim_front n (reverse <$> space_runes) x) as Hcut by reflexivity.
  unfold trim_right. rewrite reverse_snoc, length_app, Nat.add_comm. cbn [length Nat.add].
  rewrite Hcut, trim_front_done by exact Hr. by rewrite reverse_involutive.
Qed.

Lemma TrimSpace_idem s : TrimSpace (TrimSpace s) = TrimSpace s.
Proof.
  unfold TrimSpace. rewrite to_of_bytes. f_equal. apply trim_space_id, trim_space_trimmed.
Qed.

(** ** The pattern *)

(** The greedy [.*] stops at the last occurrence of what follows it. *)
Lemma suffixes_bind_none l s :
  contains l s = false → suffixes_shortest_first s ≫= run (RLit l) = [].
Proof.
  induction s as [|c s IH]; intros Hs; apply contains_cut in Hs as Hc;
    cbn [suffixes_shortest_first].
  - cbn. by rewrite Hc.
  - rewrite bind_app, IH by by eapply contains_tail. cbn. by rewrite Hc.
Qed.

Lemma suffixes_bind_last l c t x y :
  c :: t = l ++ y → contains l t = false →
  head (suffixes_shortest_first (x ++ c :: t) ≫= run (RLit l)) = Some y.
Proof.
  intros Heq Hlast. induction x as [|c' x IH]; cbn [app suffixes_shortest_first].
  - rewrite bind_app, suffixes_bind_none by done. cbn. by rewrite Heq, cut_prefix_app.
  - rewrite bind_app. by destruct (suffixes_shortest_first (x ++ c :: t) ≫= run (RLit l)).
Qed.

Abbreviation begin_bytes := (to_bytes sectionBegin).
Abbreviation end_bytes := (to_bytes sectionEnd).

Lemma begin_no_newline : byte 10 ∉ begin_bytes.
Proof. apply (bool_decide_unpack _). vm_compute. reflexivity. Qed.

(** A line feed, the begin marker, anything, the end marker as the last one. *)
Lemma run_block mid y :
  contains end_bytes (tail end_bytes ++ y) = false →
  head (run serverBlockRegexp (byte 10 :: begin_bytes ++ mid ++ end_bytes ++ y)) = Some y.
Proof.
  intros Hlast. unfold serverBlockRegexp. cbn [run]. replace (re_space (byte 10)) with true by reflexivity.
  cbn [mbind list_bind]. rewrite app_nil_r, cut_prefix_app. cbn [mbind list_bind]. rewrite app_nil_r.
  exact (suffixes_bind_last end_bytes "#"%char (tail end_bytes ++ y) mid y eq_refl Hlast).
Qed.

(** No match starts where the begin marker does not follow. *)
Lemma run_none c s : cut_prefix begin_bytes s = None → run serverBlockRegexp (c :: s) = [].
Proof.
  intros Hs. unfold serverBlockRegexp. cbn [run]. destruct (re_space c); [|done].
  cbn [mbind list_bind]. by rewrite app_nil_r, Hs.
Qed.

(** The search skips a text without the begin marker. *)
Lemma replace_all_skip u t fuel :
  contains begin_bytes u = false →
  replace_all (length u + fuel) serverBlockRegexp (u ++ byte 10 :: t) =
    u ++ replace_all fuel serverBlockRegexp (byte 10 :: t).
Proof.
  induction u as [|c u IH]; intros Hu; [done|].
  apply contains_tail in Hu as Hu'. cbn [length Nat.add app replace_all].
  rewrite run_none; [cbn [head]; by rewrite IH|].
  apply cut_prefix_newline; [apply begin_no_newline|]. by apply contains_cut.
Qed.

Lemma replace_all_fresh u fuel :
  contains begin_bytes u = false → replace_all fuel serverBlockRegexp u = u.
Proof.
  revert fuel. induction u as [|c u IH]; intros [|fuel] Hu; try done.
  apply contains_tail in Hu as Hu'. cbn [replace_all].
  rewrite run_none by by apply contains_cut. cbn [head]. by rewrite IH.
Qed.

Lemma replace_all_match fuel r c s y :
  head (run r (c :: s)) = Some y → replace_all (S fuel) r (c :: s) = replace_all fuel r y.
Proof. intros Hr. cbn [replace_all]. by rewrite Hr. Qed.

Lemma end_marker_last : contains end_bytes (tail end_bytes ++ [byte 10]) = false.
Proof. vm_compute. reflexivity. Qed.
Lemma newline_fresh : contains begin_bytes [byte 10] = false.
Proof. vm_compute. reflexivity. Qed.

Lemma length_of_bytes l : String.length (of_bytes l) = length l.
Proof. induction l as [|c l IH]; cbn; by rewrite ?IH. Qed.

(** The block, whatever it holds, is cut out. *)
Lemma replace_all_block u mid :
  contains begin_bytes u = false →
  ReplaceAllWithEmpty serverBlockRegexp
    (of_bytes (u ++ byte 10 :: begin_bytes ++ mid ++ end_bytes ++ [byte 10])) =
  of_bytes (u ++ [byte 10]).
Proof.
  intros Hu. unfold ReplaceAllWithEmpty. rewrite to_of_bytes, length_of_bytes, length_app. f_equal.
  generalize (run_block mid [byte 10] end_marker_last).
  generalize (begin_bytes ++ mid ++ end_bytes ++ [byte 10]). intros t Ht.
  rewrite replace_all_skip by exact Hu. f_equal.
  change (length (byte 10 :: t)) with (S (length t)).
  rewrite (replace_all_match _ _ _ _ _ Ht). apply replace_all_fresh, newline_fresh.
Qed.

(** ** The Corefile *)

(** The text that a patch writes around the user's part. *)
Definition with_block (user block : string) : string :=
  user +:+ newline +:+ block +:+ newline.

Definition block_middle (domain ip : string) : string :=
  newline +:+ domain +:+ " {" +:+ newline +:+ "    forward . " +:+ ip +:+ newline +:+
  "    reload" +:+ newline +:+ "}" +:+ newline.

#[local] Opaque sectionBegin sectionEnd.

Lemma xccForwardBlock_shape domain ip :
  xccForwardBlock domain ip = sectionBegin +:+ block_middle domain ip +:+ sectionEnd.
Proof. unfold xccForwardBlock, block_middle. by rewrite <-!string_app_assoc. Qed.

Lemma Contains_spec s sub : Contains s sub = true ↔ ∃ a b, s = a +:+ sub +:+ b.
Proof.
  unfold Contains. rewrite contains_spec. split.
  - intros (a & b & Hs). exists (of_bytes a), (of_bytes b).
    rewrite <-(of_to_bytes s), Hs, <-(of_to_bytes (_ +:+ _)), !to_bytes_app, !to_of_bytes. done.
  - intros (a & b & ->). exists (to_bytes a), (to_bytes b). by rewrite !to_bytes_app.
Qed.

(** The user's part has no begin marker: neither has what is left of it. *)
Lemma TrimSpace_no_marker u :
  Contains u sectionBegin = false → Contains (TrimSpace u) sectionBegin = false.
Proof.
  unfold Contains, TrimSpace. rewrite to_of_bytes.
  destruct (trim_space_part (to_bytes u)) as (a & b & Hu). rewrite Hu at 1.
  apply contains_false_app.
Qed.

Lemma stripXCCBlock_fresh u :
  Contains u sectionBegin = false → stripXCCBlock u = TrimSpace u.
Proof.
  intros Hu. unfold stripXCCBlock, ReplaceAllWithEmpty.
  by rewrite replace_all_fresh, of_to_bytes by exact Hu.
Qed.

Lemma stripXCCBlock_marked u mid :
  Contains u sectionBegin = false →
  stripXCCBlock (with_block (TrimSpace u) (sectionBegin +:+ mid +:+ sectionEnd)) = TrimSpace u.
Proof.
  intros Hu%TrimSpace_no_marker. unfold stripXCCBlock, with_block.
  assert (TrimSpace u +:+ newline +:+ (sectionBegin +:+ mid +:+ sectionEnd) +:+ newline =
    of_bytes (to_bytes (TrimSpace u) ++
      byte 10 :: begin_bytes ++ to_bytes mid ++ end_bytes ++ [byte 10])) as ->.
  { rewrite <-(of_to_bytes (_ +:+ _)), !to_bytes_app. f_equal.
    replace (to_bytes newline) with [byte 10] by (vm_compute; reflexivity).
    by rewrite <-!(assoc_L (++)). }
  rewrite replace_all_block by exact Hu. unfold TrimSpace at 1. rewrite to_of_bytes.
  unfold TrimSpace. rewrite to_of_bytes. f_equal. apply trim_space_newline, trim_space_trimmed.
Qed.

Lemma stripXCCBlock_block u domain ip :
  Contains u sectionBegin = false →
  stripXCCBlock (with_block (TrimSpace u) (xccForwardBlock domain ip)) = TrimSpace u.
Proof. intros Hu. rewrite xccForwardBlock_shape. by apply stripXCCBlock_marked. Qed.

Lemma Contains_block_marker s domain ip :
  Contains s sectionBegin = false → Contains s (xccForwardBlock domain ip) = false.
Proof.
  intros Hs. apply not_true_iff_false. intros (a & b & ->)%Contains_spec.
  apply not_true_iff_false in Hs. apply Hs, Contains_spec. rewrite xccForwardBlock_shape.
  exists a, ((block_middle domain ip +:+ sectionEnd) +:+ b). by rewrite <-!string_app_assoc.
Qed.

(** ** Lines

    A block in a patched Corefile is the block that was written: its lines can
    only lie where the begin marker is. *)
Definition line_feed : ascii := ascii_of_nat 10.
Definition one_line (s : string) : Prop := has_byte line_feed s = false.

(** The lines behind the begin marker and before the end marker. *)
Definition block_lines (domain ip : string) : list string :=
  [domain +:+ " {"; "    forward . " +:+ ip; "    reload"; "}"].

Lemma one_line_app s t : one_line s → one_line t → one_line (s +:+ t).
Proof. unfold one_line. intros Hs Ht. induction s as [|c s IH]; [done|]. cbn in *.
  apply orb_false_iff in Hs as [-> Hs]. by apply IH. Qed.

Lemma Split_line s t : one_line s → Split (s +:+ newline +:+ t) line_feed = s :: Split t line_feed.
Proof. intros Hs. by apply Split_app. Qed.

Lemma Split_block domain ip rest : one_line domain → one_line ip →
  Split (xccForwardBlock domain ip +:+ rest) line_feed =
    sectionBegin :: block_lines domain ip ++ Split (sectionEnd +:+ rest) line_feed.
Proof.
  intros Hd Hip. rewrite xccForwardBlock_shape. unfold block_middle.
  rewrite <-!string_app_assoc, Split_line by (vm_compute; reflexivity). f_equal.
  rewrite (string_app_assoc domain), Split_line by (apply one_line_app; [done|vm_compute; reflexivity]).
  cbn [block_lines app]. f_equal.
  rewrite (string_app_assoc "    forward . "), Split_line
    by (apply one_line_app; [vm_compute; reflexivity|done]). f_equal.
Qed.

Lemma last_byte (s t : string) c : last (to_bytes t) = Some c → last (to_bytes (s +:+ t)) = Some c.
Proof. intros Ht. by rewrite to_bytes_app, last_app, Ht. Qed.

Lemma last_byte_differ (s s' t t' : string) c c' :
  last (to_bytes t) = Some c → last (to_bytes t') = Some c' → c ≠ c' → s +:+ t ≠ s' +:+ t'.
Proof.
  intros Ht Ht' Hne Heq. apply (last_byte s) in Ht. apply (last_byte s') in Ht'. congruence.
Qed.

Lemma Split_newline s t :
  Split (s +:+ newline +:+ t) line_feed = Split s line_feed ++ Split t line_feed.
Proof.
  destruct (Split_concat s (newline +:+ t) line_feed) as (front & l & h & back & Hs & Ht & ->).
  rewrite (Split_line "" t eq_refl : Split (newline +:+ t) line_feed = _) in Ht. injection Ht as <- <-.
  by rewrite Hs, string_app_nil_r, <-(assoc_L (++)).
Qed.

(** The lines of a text with a block somewhere in it. *)
Lemma Split_around a domain ip b : one_line domain → one_line ip →
  ∃ front x y back,
    Split (a +:+ xccForwardBlock domain ip +:+ b) line_feed =
      front ++ (x +:+ sectionBegin) :: block_lines domain ip ++ (sectionEnd +:+ y) :: back.
Proof.
  intros Hd Hip.
  destruct (Split_concat a (xccForwardBlock domain ip +:+ b) line_feed)
    as (front & x & h & back & _ & Ht & ->).
  rewrite Split_block in Ht by done. injection Ht as <- <-.
  destruct (Split_concat sectionEnd b line_feed) as (fr & l & y & bk & He & _ & ->).
  rewrite Split_none in He by (vm_compute; reflexivity).
  destruct fr as [|f fr]; [|by destruct fr]. injection He as <-.
  by exists front, x, y, bk.
Qed.

(** Only the line with the address could end with the begin marker. *)
Lemma block_line_marker x l domain ip i :
  (block_lines domain ip ++ [sectionEnd; ""]) !! i = Some l → l = x +:+ sectionBegin → i = 1%nat.
Proof.
  intros Hl ->.
  destruct i as [|[|[|[|[|[|i]]]]]]; [| |..|done]; cbn in Hl; injection Hl as Hl; try done;
    exfalso; revert Hl.
  - by apply (last_byte_differ _ _ _ _ "{" "Y").
  - by apply (last_byte_differ "" _ _ _ "d" "Y").
  - by apply (last_byte_differ "" _ _ _ "}" "Y").
  - intros Hl%(f_equal (length ∘ to_bytes)). cbn [compose] in Hl.
    rewrite to_bytes_app, length_app in Hl.
    assert (length (to_bytes sectionEnd) < length (to_bytes sectionBegin))%nat by (vm_compute; lia). lia.
  - intros Hl%(f_equal (length ∘ to_bytes)). cbn [compose] in Hl.
    rewrite to_bytes_app, length_app in Hl.
    assert (length (to_bytes "") < length (to_bytes sectionBegin))%nat by (vm_compute; lia). lia.
Qed.

(** A Corefile with a block contains no other block. *)
Lemma Contains_other_block u domain ip domain' ip' :
  Contains u sectionBegin = false →
  one_line domain → one_line ip → one_line domain' → one_line ip' →
  Contains (with_block u (xccForwardBlock domain ip)) (xccForwardBlock domain' ip') = true →
  domain = domain' ∧ ip = ip'.
Proof.
  intros Hu Hd Hip Hd' Hip' (a & b & Heq)%Contains_spec.
  apply (f_equal (λ s, Split s line_feed)) in Heq. unfold with_block in Heq.
  destruct (Split_around a domain' ip' b Hd' Hip') as (front & x & y & back & Hs).
  rewrite Hs, Split_newline, Split_block in Heq by done. clear Hs.
  replace (Split (sectionEnd +:+ newline) line_feed) with [sectionEnd; ""] in Heq
    by (vm_compute; reflexivity).
  assert (block_lines domain ip ++ [sectionEnd; ""] = block_lines domain' ip' ++ (sectionEnd +:+ y) :: back
    → domain = domain' ∧ ip = ip') as Hsame.
  { intros [= Hz Ha _]. split; [by apply string_app_inj_r in Hz|done]. }
  apply app_eq_inv in Heq as [([|l k] & Hfu & Hk)|([|l k] & Hfu & Hk)].
  - apply (f_equal tail) in Hk. by apply Hsame.
  - apply (f_equal head) in Hk. injection Hk as <-. apply not_true_iff_false in Hu as [].
    destruct (Split_elem u (x +:+ sectionBegin) line_feed) as (a' & b' & ->).
    { rewrite Hfu. apply elem_of_app. right. by constructor. }
    apply Contains_spec. exists (a' +:+ x), b'. by rewrite <-!string_app_assoc.
  - apply (f_equal tail) in Hk. by apply Hsame.
  - apply (f_equal tail) in Hk. cbn [tail app] in Hk. exfalso.
    pose proof (block_line_marker x (x +:+ sectionBegin) domain ip (length k)) as Hl.
    rewrite Hk, list_lookup_middle in Hl by done. specialize (Hl eq_refl eq_refl).
    by destruct k as [|l1 [|l2 k]].
Qed.

Lemma Contains_with_block u b : Contains (with_block u b) b = true.
Proof.
  apply Contains_spec. exists (u +:+ newline), newline. unfold with_block.
  by rewrite string_app_assoc.
Qed.

(** * Properties *)

(** C19: patching a Corefile without a block appends one to the trimmed
    contents; patching the result again with the same zone and address finds
    it up to date; and patching it with another zone or address replaces the
    block and nothing else, as if the first had never been there.  For zones and
    addresses without line feeds the test for being up to date is exact. *)
Theorem patchCorefile_replaces u domain ip domain' ip'
    (Hu : Contains u sectionBegin = false) :
  patchCorefile u (xccForwardBlock domain ip) =
    Some (with_block (TrimSpace u) (xccForwardBlock domain ip)) ∧
  patchCorefile (with_block (TrimSpace u) (xccForwardBlock domain ip)) (xccForwardBlock domain ip) =
    None ∧
  (Contains (with_block (TrimSpace u) (xccForwardBlock domain ip)) (xccForwardBlock domain' ip') =
     false →
   patchCorefile (with_block (TrimSpace u) (xccForwardBlock domain ip))
     (xccForwardBlock domain' ip') = patchCorefile u (xccForwardBlock domain' ip')) ∧
  (one_line domain → one_line ip → one_line domain' → one_line ip' →
   Contains (with_block (TrimSpace u) (xccForwardBlock domain ip)) (xccForwardBlock domain' ip') =
     bool_decide (domain = domain' ∧ ip = ip')).
Proof.
  unfold patchCorefile. rewrite !Contains_block_marker by done.
  rewrite stripXCCBlock_fresh by done. split; [done|]. split; [by rewrite Contains_with_block|].
  split; [intros ->; by rewrite stripXCCBlock_block, Contains_block_marker|].
  intros Hd Hip Hd' Hip'. case_bool_decide as Hsame; [|apply not_true_iff_false].
  - destruct Hsame as [-> ->]. apply Contains_with_block.
  - intros Hin. apply Hsame. by eapply Contains_other_block; [apply TrimSpace_no_marker|..].
Qed.

(** C38: the pattern is greedy: what a user writes between two blocks goes away
    with them. *)
Theorem stripXCCBlock_drops_between u domain ip domain' ip' between
    (Hu : Contains u sectionBegin = false) :
  stripXCCBlock (with_block (TrimSpace u) (xccForwardBlock domain ip) +:+
    with_block between (xccForwardBlock domain' ip')) = TrimSpace u.
Proof.
  etrans; [|exact (stripXCCBlock_marked u (block_middle domain ip +:+ sectionEnd +:+ newline +:+
    between +:+ newline +:+ sectionBegin +:+ block_middle domain' ip') Hu)].
  f_equal. unfold with_block. rewrite !xccForwardBlock_shape. by rewrite <-!string_app_assoc.
Qed.

(** ** The ConfigMap *)

(** The API server of the cluster, as far as ConfigMaps go; an update must carry
    the stored resource version. *)
Record config_api {W : Type} `{ConfigClient W} (cms : W → gmap NamespacedName ConfigMap) : Prop := {
  config_get w n cm : cms w !! n = Some cm → GetConfigMap n w = (inl cm, w);
  config_update w cm n o : meta_key (cm_meta cm) = n → cms w !! n = Some o →
    om_ResourceVersion (cm_meta cm) = om_ResourceVersion (cm_meta o) →
    ∃ cm' w', UpdateConfigMap cm w = (inl tt, w') ∧ cms w' = <[n := cm']> (cms w) ∧
      cm_Data cm' = cm_Data cm ∧ meta_key (cm_meta cm') = n;
}.

Section patcher.
Context {W : Type} `{ConfigClient W}.
Context (cms : W → gmap NamespacedName ConfigMap) (Hapi : config_api cms).
Context (c : CorefilePatcher) (ip : string).
Abbreviation cm_name := (mkNN (cp_Namespace c) (cp_ConfigMapName c)).
Abbreviation block := (xccForwardBlock (cp_DomainSuffix c) ip).

Lemma AppendStubDomainBlock_run w cm data :
  cms w !! cm_name = Some cm → meta_key (cm_meta cm) = cm_name → cm_Data cm = Some data →
  ∃ w' cm', AppendStubDomainBlock c ip w = (Ok tt, w') ∧
    cms w' = <[cm_name := cm']> (cms w) ∧ meta_key (cm_meta cm') = cm_name ∧
    cm_Data cm' = match patchCorefile (map_get0 (cm_Data cm) "Corefile") block with
                  | None => Some data
                  | Some corefile => Some (<["Corefile" := corefile]> data)
                  end.
Proof using Hapi.
  intros Hcm Hk Hdata. unfold AppendStubDomainBlock. run_m.
  rewrite (call_ok _ _ _ _ (config_get _ Hapi w cm_name cm Hcm)), Hdata.
  destruct (patchCorefile _ _) as [corefile|].
  - destruct (config_update _ Hapi w (mkConfigMap (cm_meta cm)
      (Some (<["Corefile" := corefile]> data))) cm_name cm) as (cm' & w' & Hrun & Hw & Hd & Hk');
      [done..|].
    exists w', cm'. rewrite (call_ok _ _ _ _ Hrun). done.
  - exists w, cm. split; [done|]. split; [by rewrite insert_id|done].
Qed.

(** The patched data hold the block. *)
Lemma patched_corefile data (odata : gomap string) :
  odata = Some data →
  ∃ corefile, map_get match patchCorefile (map_get0 odata "Corefile") block with
                      | None => Some data
                      | Some corefile => Some (<["Corefile" := corefile]> data)
                      end "Corefile" = Some corefile ∧ Contains corefile block = true.
Proof.
  intros ->. unfold patchCorefile, map_get0, map_get. cbn [entries_of from_option id].
  destruct (Contains (default "" (data !! "Corefile")) block) eqn:Hin.
  - destruct (data !! "Corefile") as [cf|] eqn:Hcf; [|by rewrite Contains_block_marker in Hin].
    by exists cf.
  - eexists. cbn [entries_of from_option id]. rewrite lookup_insert_eq. split; [done|].
    apply Contains_with_block.
Qed.

(** C20: patching the ConfigMap leaves a Corefile that contains the stub domain
    block for the address, keeps the other keys and the other ConfigMaps, and
    a second run makes no request that writes. *)
Theorem AppendStubDomainBlock_installs w cm data
    (Hcm : cms w !! cm_name = Some cm) (Hk : meta_key (cm_meta cm) = cm_name)
    (Hdata : cm_Data cm = Some data) :
  ∃ w' cm' data', AppendStubDomainBlock c ip w = (Ok tt, w') ∧
    AppendStubDomainBlock c ip w' = (Ok tt, w') ∧
    cms w' = <[cm_name := cm']> (cms w) ∧ cm_Data cm' = Some data' ∧
    (∃ corefile, data' !! "Corefile" = Some corefile ∧ Contains corefile block = true) ∧
    delete "Corefile" data' = delete "Corefile" data.
Proof using Hapi.
  destruct (AppendStubDomainBlock_run w cm data Hcm Hk Hdata) as (w' & cm' & Hrun & Hw' & Hk' & Hd').
  assert (∃ data', cm_Data cm' = Some data' ∧ delete "Corefile" data' = delete "Corefile" data)
    as (data' & Hd & Hrest).
  { rewrite Hd'. destruct (patchCorefile _ _) as [cf|]; [|by exists data].
    eexists. split; [done|]. by rewrite delete_insert_eq. }
  assert (∃ corefile, map_get (cm_Data cm') "Corefile" = Some corefile ∧
    Contains corefile block = true) as (cf & Hcf & Hin) by (rewrite Hd'; by apply patched_corefile).
  rewrite Hd in Hcf. unfold map_get in Hcf. cbn [entries_of from_option id] in Hcf.
  exists w', cm', data'. split; [done|]. split.
  - unfold AppendStubDomainBlock. run_m.
    rewrite (call_ok _ _ _ _ (config_get _ Hapi w' cm_name cm' ltac:(by rewrite Hw', lookup_insert_eq))).
    unfold patchCorefile. rewrite Hd.
    replace (map_get0 (Some data') "Corefile") with cf; [by rewrite Hin|].
    unfold map_get0, map_get. cbn [entries_of from_option id]. by rewrite Hcf.
  - split; [done|]. split; [done|]. split; [by exists cf|done].
Qed.

(** A ConfigMap without data makes the patcher panic: it writes to a nil map. *)
Theorem AppendStubDomainBlock_empty_panics w cm
    (Hcm : cms w !! cm_name = Some cm) (Hdata : cm_Data cm = None) :
  AppendStubDomainBlock c ip w = (Panic, w).
Proof using Hapi.
  unfold AppendStubDomainBlock. run_m.
  rewrite (call_ok _ _ _ _ (config_get _ Hapi w cm_name cm Hcm)), Hdata.
  unfold patchCorefile. by rewrite Contains_block_marker.
Qed.

End patcher.

(** ** The watcher *)

Section watcher.
Context {W : Type} `{ConfigClient W}.
Context (env : Environment W) (d : DNSServiceWatcher) (deadline : Z).
Context (Hlatency : ∀ i, (0 ≤ latency env i)%Z).
Abbreviation svc_name := (mkNN (dw_Namespace d) (dw_ServiceName d)).

(** What a result says: an address that a poll found, or the time out. *)
Definition watch_result (r : outcome string) (w' : W) : Prop :=
  match r with
  | Ok ip => ip ≠ "" ∧ ∃ w svc, GetDNSService svc_name w = (inl svc, w') ∧ svc_ClusterIP svc = ip
  | Err e => ∃ msg, e = timed_out d msg
  | Panic => False
  end.

Lemma poll_answer_inl r ip :
  poll_answer d r = inl ip → ∃ svc, r = inl svc ∧ svc_ClusterIP svc = ip ∧ ip ≠ "".
Proof.
  unfold poll_answer. destruct r as [svc|err]; [|done]. case_decide; [|done].
  intros [= <-]. eauto.
Qed.

(** An interval later is at most the deadline, or the loop gives up. *)
Lemma gives_up_late t tie :
  (0 < dw_PollingInterval d)%Z → gives_up d deadline t tie = false →
  (t + Z.max 0 (dw_PollingInterval d) ≤ deadline)%Z.
Proof.
  unfold gives_up. intros Hpos [Hlt _]%orb_false_iff. apply Z.ltb_ge in Hlt. lia.
Qed.

Lemma watch_loop fuel i t w :
  (0 < dw_PollingInterval d)%Z → (1 ≤ fuel)%nat →
  (deadline - t < Z.of_nat fuel * dw_PollingInterval d)%Z →
  ∃ r w' polls, GetDNSServiceClusterIP fuel env d deadline i t w = Some (r, w', polls) ∧
    (polls ≤ i + fuel)%nat ∧ watch_result r w'.
Proof using Hlatency.
  intros Hpos. revert i t w. induction fuel as [|fuel IH]; intros i t w Hf Hlt; [lia|].
  cbn [GetDNSServiceClusterIP].
  destruct (GetDNSService svc_name w) as [r w1] eqn:Hget.
  destruct (poll_answer d r) as [ip|msg] eqn:Hans.
  - apply poll_answer_inl in Hans as (svc & -> & Hip & Hne).
    eexists _, _, _. split; [done|]. split; [lia|]. split; [done|]. eauto.
  - destruct (gives_up d deadline (t + latency env i) (done_first env i)) eqn:Hg.
    { eexists _, _, _. split; [done|]. split; [lia|]. by exists msg. }
    apply gives_up_late in Hg; [|done]. specialize (Hlatency i).
    destruct (IH (S i) (t + latency env i + Z.max 0 (dw_PollingInterval d))%Z
      (meanwhile env i w1)) as (r' & w' & polls & Hrun & Hpolls & Hres).
    + destruct fuel; [|lia]. nia.
    + nia.
    + exists r', w', polls. split; [done|]. split; [lia|done].
Qed.

(** C21: with a positive interval the watcher terminates whatever the API answers and
    however the world changes: it polls at most once per interval until the
    deadline and once more, and returns a non-empty address that a poll
    found, or an error that names the service. *)
Theorem GetDNSServiceClusterIP_terminates start w
    (Hpos : (0 < dw_PollingInterval d)%Z) (Hstart : (start ≤ deadline)%Z) :
  ∃ r w' polls,
    GetDNSServiceClusterIP (S (Z.to_nat ((deadline - start) / dw_PollingInterval d)))
      env d deadline 0 start w = Some (r, w', polls) ∧
    (polls ≤ S (Z.to_nat ((deadline - start) / dw_PollingInterval d)))%nat ∧ watch_result r w'.
Proof using Hlatency.
  apply (watch_loop _ 0); [done|lia|].
  pose proof (Z.mul_succ_div_gt (deadline - start) (dw_PollingInterval d) Hpos).
  assert (0 ≤ (deadline - start) / dw_PollingInterval d)%Z by (apply Z.div_pos; lia). nia.
Qed.

End watcher.

(** ** The program *)

Section main.
Context {W : Type} `{ConfigClient W}.
Context (env : Environment W) (Hlatency : ∀ i, (0 ≤ latency env i)%Z).
Context (lookupEnv : string → option string) (client_new : Call W unit).

Definition required : list string :=
  ["DNS_SERVICE_NAMESPACE"; "DNS_SERVICE_NAME"; "COREFILE_CONFIGMAP_NAMESPACE";
   "COREFILE_CONFIGMAP_NAME"; "DOMAIN_SUFFIX"].

(** The program exits with an error, before it makes any request, when one
    of its five environment variables is not set. *)
Theorem main_requires_environment fuel start w
    (Hmissing : Exists (λ name, lookupEnv name = None) required) :
  ∃ e, main fuel env start lookupEnv client_new w = (Err e, w).
Proof.
  unfold main, getEnvVarOrDie. run_m.
  repeat match goal with
         | |- context [lookupEnv ?name] =>
             destruct (lookupEnv name) eqn:?; [|by eexists]
         end.
  apply Exists_exists in Hmissing as (name & Hin & Hnone).
  repeat (apply elem_of_cons in Hin as [->|Hin]; [congruence|]). by apply not_elem_of_nil in Hin.
Qed.

(** C29: eleven polls are enough for the 5 seconds and 500 milliseconds of the
    program; and when the service has an address and the ConfigMap has data,
    it exits cleanly with the stub domain block for that address in the
    Corefile. *)
Theorem main_patches (cms : W → gmap NamespacedName ConfigMap) start w
    ns name cmns cmname domain svc cm data
    (Hapi : config_api cms)
    (Henv : lookupEnv <$> required = [Some ns; Some name; Some cmns; Some cmname; Some domain])
    (Hclient : client_new w = (inl tt, w))
    (Hsvc : GetDNSService (mkNN ns name) w = (inl svc, w)) (Hip : svc_ClusterIP svc ≠ "")
    (Hcm : cms w !! mkNN cmns cmname = Some cm)
    (Hk : meta_key (cm_meta cm) = mkNN cmns cmname) (Hdata : cm_Data cm = Some data) :
  (∀ w, (watch_dns_service 11 env (dns_service_watcher ns name) start w).1 ≠ Panic) ∧
  ∃ w' cm' corefile, main 11 env start lookupEnv client_new w = (Ok tt, w') ∧
    cms w' = <[mkNN cmns cmname := cm']> (cms w) ∧
    map_get (cm_Data cm') "Corefile" = Some corefile ∧
    Contains corefile (xccForwardBlock domain (svc_ClusterIP svc)) = true.
Proof using Hlatency.
  split.
  { intros w0. unfold watch_dns_service.
    destruct (watch_loop env (dns_service_watcher ns name) (start + 5000000000) Hlatency
      11 0 start w0) as (r & w' & polls & -> & _ & Hr); cbn; [lia..|]. by destruct r. }
  injection Henv as H1 H2 H3 H4 H5.
  destruct (AppendStubDomainBlock_run cms Hapi (mkCorefilePatcher domain cmns cmname)
    (svc_ClusterIP svc) w cm data Hcm Hk Hdata) as (w' & cm' & Hrun & Hw' & _ & Hd').
  assert (∃ corefile, map_get (cm_Data cm') "Corefile" = Some corefile ∧
    Contains corefile (xccForwardBlock domain (svc_ClusterIP svc)) = true) as (cf & Hcf & Hin).
  { rewrite Hd'. by apply patched_corefile. }
  exists w', cm', cf. split; [|done].
  unfold main, getEnvVarOrDie. run_m. rewrite H1, H2, H3, H4, H5.
  rewrite (call_ok _ _ _ _ Hclient). unfold watch_dns_service.
  cbn [GetDNSServiceClusterIP dw_Namespace dw_ServiceName dns_service_watcher]. rewrite Hsvc.
  unfold poll_answer. by rewrite decide_True.
Qed.

End main.

(** * Witnesses *)

(** An in-memory cluster. *)
Record ConfWorld := mkConfWorld {
  conf_maps : gmap NamespacedName ConfigMap;
  conf_services : gmap NamespacedName Service;
}.

Definition conf_missing : error := ErrStatus ReasonNotFound "not found".

Definition conf_conflict : error := ErrStatus ReasonOther "the object has been modified".

(** What is written gets another resource version. *)
Definition conf_written (cm : ConfigMap) : ConfigMap :=
  mkConfigMap (mkMeta (om_Name (cm_meta cm)) (om_Namespace (cm_meta cm)) (om_Annotations (cm_meta cm))
    (om_Labels (cm_meta cm)) (om_ResourceVersion (cm_meta cm) +:+ "1")) (cm_Data cm).

#[export] Instance conf_client : ConfigClient ConfWorld := {|
  GetConfigMap n := λ w,
    (match conf_maps w !! n with Some cm => inl cm | None => inr conf_missing end, w);
  UpdateConfigMap cm := λ w,
    match conf_maps w !! meta_key (cm_meta cm) with
    | Some o =>
        if decide (om_ResourceVersion (cm_meta cm) = om_ResourceVersion (cm_meta o))
        then (inl tt, mkConfWorld (<[meta_key (cm_meta cm) := conf_written cm]> (conf_maps w))
                        (conf_services w))
        else (inr conf_conflict, w)
    | None => (inr conf_missing, w)
    end;
  GetDNSService n := λ w,
    (match conf_services w !! n with Some s => inl s | None => inr conf_missing end, w);
|}.

Lemma conf_api : config_api conf_maps.
Proof.
  split.
  - intros w n cm Hcm. cbn. by rewrite Hcm.
  - intros w cm n o Hk Ho Hv. cbn. rewrite Hk, Ho, decide_True by done.
    eexists (conf_written cm), _. by split_and!.
Qed.

Definition user_corefile : string := ".:53 {" +:+ newline +:+ "    errors" +:+ newline +:+ "}" +:+ newline.
Definition coredns_name : NamespacedName := mkNN "kube-system" "coredns".
Definition coredns_map (data : gomap string) : ConfigMap :=
  mkConfigMap (mkMeta "coredns" "kube-system" None None "1") data.
Definition dns_service : Service :=
  mkService (mkMeta "dns-server" "xcc-dns" None None "1") "ClusterIP" "10.96.0.11" None.
Definition conf_world (data : gomap string) : ConfWorld :=
  mkConfWorld {[ coredns_name := coredns_map data ]} {[ mkNN "xcc-dns" "dns-server" := dns_service ]}.
Definition user_data : gmap string string := {[ "Corefile" := user_corefile; "other" := "x" ]}.
Definition a_patcher : CorefilePatcher := mkCorefilePatcher "xcc.test" "kube-system" "coredns".
Definition calm : Environment ConfWorld := mkEnvironment (λ _, 1000000%Z) (λ _ w, w) (λ _, false).
Definition nothing_there : ConfWorld := mkConfWorld ∅ ∅.

Lemma patchCorefile_replaces_witness :
  patchCorefile (with_block (TrimSpace user_corefile) (xccForwardBlock "xcc.test" "10.96.0.11"))
    (xccForwardBlock "xcc.test" "10.96.0.1") =
  patchCorefile user_corefile (xccForwardBlock "xcc.test" "10.96.0.1").
Proof.
  destruct (patchCorefile_replaces user_corefile "xcc.test" "10.96.0.11" "xcc.test" "10.96.0.1")
    as (_ & _ & Hreplace & Hexact); [vm_compute; reflexivity|].
  apply Hreplace. by rewrite Hexact.
Defined.

Lemma stripXCCBlock_drops_between_witness :
  stripXCCBlock (with_block (TrimSpace user_corefile) (xccForwardBlock "xcc.test" "10.96.0.11") +:+
    with_block "example.org { }" (xccForwardBlock "xcc.test" "10.96.0.1")) =
  TrimSpace user_corefile.
Proof. apply stripXCCBlock_drops_between. vm_compute. reflexivity. Defined.

Lemma AppendStubDomainBlock_installs_witness :
  ∃ w' cm' data', AppendStubDomainBlock a_patcher "10.96.0.11" (conf_world (Some user_data)) = (Ok tt, w') ∧
    AppendStubDomainBlock a_patcher "10.96.0.11" w' = (Ok tt, w') ∧
    conf_maps w' = <[coredns_name := cm']> (conf_maps (conf_world (Some user_data))) ∧
    cm_Data cm' = Some data' ∧
    (∃ corefile, data' !! "Corefile" = Some corefile ∧
       Contains corefile (xccForwardBlock "xcc.test" "10.96.0.11") = true) ∧
    delete "Corefile" data' = delete "Corefile" user_data.
Proof.
  apply (AppendStubDomainBlock_installs conf_maps conf_api a_patcher "10.96.0.11"
    (conf_world (Some user_data)) (coredns_map (Some user_data))); reflexivity.
Defined.

Lemma AppendStubDomainBlock_empty_panics_witness :
  AppendStubDomainBlock a_patcher "10.96.0.11" (conf_world None) = (Panic, conf_world None).
Proof.
  apply (AppendStubDomainBlock_empty_panics conf_maps conf_api a_patcher "10.96.0.11"
    (conf_world None) (coredns_map None)); reflexivity.
Defined.

Lemma calm_latency i : (0 ≤ latency calm i)%Z.
Proof. done. Qed.

Lemma GetDNSServiceClusterIP_terminates_witness :
  ∃ r w' polls, GetDNSServiceClusterIP 11 calm (dns_service_watcher "xcc-dns" "dns-server")
      5000000000 0 0 nothing_there = Some (r, w', polls) ∧ (polls ≤ 11)%nat ∧
    r = Err (timed_out (dns_service_watcher "xcc-dns" "dns-server") "not found").
Proof.
  destruct (GetDNSServiceClusterIP_terminates calm (dns_service_watcher "xcc-dns" "dns-server")
    5000000000 calm_latency 0 nothing_there) as (r & w' & polls & Hrun & Hpolls & _).
  - reflexivity.
  - discriminate.
  - exists r, w', polls. split; [exact Hrun|]. split; [exact Hpolls|].
    vm_compute in Hrun. injection Hrun as <- _ _. vm_compute. reflexivity.
Defined.

Definition some_env (name : string) : option string :=
  if decide (name = "DNS_SERVICE_NAMESPACE") then Some "xcc-dns"
  else if decide (name = "DNS_SERVICE_NAME") then Some "dns-server"
  else if decide (name = "COREFILE_CONFIGMAP_NAMESPACE") then Some "kube-system"
  else if decide (name = "COREFILE_CONFIGMAP_NAME") then Some "coredns"
  else if decide (name = "DOMAIN_SUFFIX") then Some "xcc.test"
  else None.
Definition client_ok : Call ConfWorld unit := λ w, (inl tt, w).

Lemma main_requires_environment_witness :
  ∃ e, main 11 calm 0 (λ name, if decide (name = "DOMAIN_SUFFIX") then None else some_env name)
         client_ok nothing_there = (Err e, nothing_there).
Proof.
  apply main_requires_environment. apply Exists_exists. exists "DOMAIN_SUFFIX".
  split; [|reflexivity]. unfold required. rewrite !elem_of_cons. tauto.
Defined.

Lemma main_patches_witness :
  ∃ w' cm' corefile, main 11 calm 0 some_env client_ok (conf_world (Some user_data)) = (Ok tt, w') ∧
    conf_maps w' = <[coredns_name := cm']> (conf_maps (conf_world (Some user_data))) ∧
    map_get (cm_Data cm') "Corefile" = Some corefile ∧
    Contains corefile (xccForwardBlock "xcc.test" "10.96.0.11") = true.
Proof.
  apply (main_patches calm calm_latency some_env client_ok conf_maps 0
    (conf_world (Some user_data)) "xcc-dns" "dns-server" "kube-system" "coredns" "xcc.test"
    dns_service (coredns_map (Some user_data)) user_data conf_api);
    [reflexivity|reflexivity|reflexivity|discriminate|reflexivity..].
Defined.
