(* ===== verification/CrossCluster.v ===== *)
(** The CoreDNS plugin, [pkg/coredns/plugins/crosscluster]: the service backend
    over the record cache ([crosscluster.go]), the request handler
    ([handler.go]) and the zones of its configuration ([setup.go]).

    CoreDNS itself is a class: the functions of its [plugin] package that turn
    a backend into records, and the parts of a message the plugin writes. *)
From S2P Require Import Prelude GoStrings GoNet DNSLib Cache K8s Kube EndpointSliceDNS.
#[local] Open Scope string_scope.
#[local] Open Scope list_scope.

(** * Definitions *)

(** ** CoreDNS and miekg/dns *)

Class DNSTypes : Type := {
  RR : Type;
  MsgHeader : Type; (* a message without the two parts below *)
}.

(** [dns.Msg] *)
Record Msg `{DNSTypes} := mkMsg {
  msg_header : MsgHeader;
  Authoritative : bool;
  Answer : list RR;
}.

(** [request.Request]: the name and type of its question. *)
Record Request := mkRequest { QName : string; QType : Z }.

Definition TypeA : Z := 1.
Definition TypeCNAME : Z := 5.
Definition TypeSOA : Z := 6.
Definition RcodeSuccess : Z := 0.
Definition RcodeServerFailure : Z := 2.
Definition RcodeNameError : Z := 3.

(** [msg.Service], the fields the plugin sets. *)
Record msg_Service := mkService { Host : string; TTL : Z }.

(** [plugin.ServiceBackend] *)
Record ServiceBackend `{DNSTypes} := mkBackend {
  be_Services : Request → bool → list msg_Service + error;
  be_Reverse : Request → bool → list msg_Service + error;
  be_Lookup : Request → string → Z → Msg + error;
  be_Records : Request → bool → list msg_Service + error;
  be_IsNameError : error → bool;
  be_Serial : Request → Z;
  be_MinTTL : Request → Z;
  be_Transfer : Request → Z * option error;
}.

(** What a handler does: the messages it writes, and what it returns. *)
Record response `{DNSTypes} := mkResponse {
  written : list Msg;
  rcode : Z;
  rerror : option error;
}.

Arguments mkMsg {_} _ _ _.
Arguments mkBackend {_} _ _ _ _ _ _ _ _.
Arguments mkResponse {_} _ _ _.

Class CoreDNS `{DNSTypes} : Type := {
  Zones_Matches : list string → string → string; (* [plugin.Zones(zs).Matches(name)] *)
  Host_Normalize : string → string;              (* [plugin.Host(s).Normalize()] *)
  plugin_SOA : ServiceBackend → string → Request → list RR + error;
  plugin_A : ServiceBackend → string → Request → list RR + error;
  plugin_CNAME : ServiceBackend → string → Request → list RR + error;
  BackendError : ServiceBackend → string → Z → Request → option error → response;
  SetReply : Request → Msg;
}.

(** ** [crosscluster.go] *)

(** The next plugin of the chain is never called. *)
Record CrossCluster := mkCrossCluster {
  RecordsCache : DNSCache;
  Zones : list string;
}.

Definition errNotImplemented : error := ErrVar "errNotImplemented" "not implemented".
Definition errNameNotFound : error := ErrVar "errNameNotFound" "name not found".

Section plugin.
Context `{DNSLib, DNSTypes}.
(** The Unicode tables behind [strings.ToLower], and [time.Now().Unix()]. *)
Context (unicode_lower : string → string) (unix_now : Z).

Definition add_services (services : list msg_Service) (cacheEntry : DNSCacheEntry)
    : list msg_Service :=
  foldl (λ services address, services ++ [mkService address 30]) services (Addresses cacheEntry).

Definition Services (c : CrossCluster) (state : Request) (exact : bool)
    : list msg_Service + error :=
  let fqdn := ToLower unicode_lower (QName state) in
  let cacheEntries := Lookup fqdn (RecordsCache c) in
  if decide (length cacheEntries = 0%nat) then inr errNameNotFound
  else inl (foldl add_services [] cacheEntries).

Definition Reverse (c : CrossCluster) (state : Request) (exact : bool)
    : list msg_Service + error := inr errNotImplemented.

Definition plugin_Lookup (c : CrossCluster) (state : Request) (name : string) (typ : Z)
    : Msg + error := inr errNotImplemented.

Definition Records (c : CrossCluster) (state : Request) (exact : bool)
    : list msg_Service + error := inr errNotImplemented.

(** Error variables are compared by identity. *)
Definition IsNameError (c : CrossCluster) (err : error) : bool :=
  bool_decide (err = errNameNotFound).

(** [uint32(...)] *)
Definition Serial (c : CrossCluster) (state : Request) : Z := (unix_now mod 2 ^ 32)%Z.

Definition MinTTL (c : CrossCluster) (state : Request) : Z := 30.

Definition Transfer (c : CrossCluster) (state : Request) : Z * option error :=
  (RcodeServerFailure, None).

(** [c] as the [plugin.ServiceBackend] that the handler passes on. *)
Definition backend (c : CrossCluster) : ServiceBackend :=
  mkBackend (Services c) (Reverse c) (plugin_Lookup c) (Records c) (IsNameError c)
    (Serial c) (MinTTL c) (Transfer c).

(** ** [handler.go] *)

Context `{!CoreDNS}.

(** The [switch] over the question's type: [None] is its default branch. *)
Definition query_records (c : CrossCluster) (zone : string) (state : Request)
    : option (list RR + error) :=
  if decide (QType state = TypeSOA) then Some (plugin_SOA (backend c) zone state)
  else if decide (QType state = TypeA) then Some (plugin_A (backend c) zone state)
  else if decide (QType state = TypeCNAME) then Some (plugin_CNAME (backend c) zone state)
  else None.

Definition ServeDNS (c : CrossCluster) (state : Request) : response :=
  let zone := Zones_Matches (Zones c) (QName state) in
  if decide (zone = "") then mkResponse [] RcodeServerFailure (Some (ErrNew "unknown zone"))
  else
    match query_records c zone state with
    | None => BackendError (backend c) zone RcodeNameError state None
    | Some (inr err) =>
        if IsNameError c err then BackendError (backend c) zone RcodeNameError state None
        else BackendError (backend c) zone RcodeServerFailure state (Some err)
    | Some (inl records) =>
        if decide (length records = 0%nat) then
          BackendError (backend c) zone RcodeNameError state None
        else
          let reply := SetReply state in
          mkResponse [mkMsg (msg_header reply) true (Answer reply ++ records)] RcodeSuccess None
    end.

Definition Name : string := "crosscluster".

(** ** [setup.go]

    The part of [setupController] that reads the configuration: [next] is what
    [c.Next()] answers, then the arguments and the keys of the server block. *)
Definition setup_zones (next : bool) (remainingArgs serverBlockKeys : list string) : list string :=
  if next then
    Host_Normalize <$>
      (if decide (length remainingArgs = 0%nat) then serverBlockKeys else remainingArgs)
  else [].

(** [NAMESPACE] must be set; [newManager], [Complete] and [startManager] stand
    for the construction of the manager, the registration of the EndpointSlice
    controller and the goroutine that starts the manager, [OnShutdown] for
    CoreDNS's hook, which gets a function that cancels the manager's context ([cancel])
    and returns nil.  [Err] is the exit
    with status 1.  The plugin and the controller share the new, empty cache. *)
Definition setupController `{Naming} {X : Type} (lookupEnv : string → option string)
    (newManager : string → M X unit)
    (Complete : controller EndpointSliceDNS.EndpointSliceReconciler unit → M X unit)
    (startManager cancel : M X unit) (OnShutdown : M X unit → M X unit)
    (get : NamespacedName → EndpointSlice + error)
    (next : bool) (remainingArgs serverBlockKeys : list string) : M X CrossCluster :=
  match lookupEnv "NAMESPACE" with
  | None => throw (ErrNew "NAMESPACE environment variable unset. Must be set to the namespace that should be watched.")
  | Some namespace =>
      newManager namespace ≫= λ _,
      EndpointSliceDNS.SetupWithManager Complete get ≫= λ _,
      startManager ≫= λ _,
      OnShutdown (cancel ≫= λ _, mret tt) ≫= λ _,
      mret (mkCrossCluster new_DNSCache (setup_zones next remainingArgs serverBlockKeys))
  end.

(** [setup]: the plugin joins the chain of its server block ([AddPlugin]).
    [setupController] never returns an error. *)
Definition setup `{Naming} {X : Type} (lookupEnv : string → option string)
    (newManager : string → M X unit)
    (Complete : controller EndpointSliceDNS.EndpointSliceReconciler unit → M X unit)
    (startManager cancel : M X unit) (OnShutdown : M X unit → M X unit)
    (get : NamespacedName → EndpointSlice + error)
    (AddPlugin : CrossCluster → M X unit)
    (next : bool) (remainingArgs serverBlockKeys : list string) : M X unit :=
  setupController lookupEnv newManager Complete startManager cancel OnShutdown get next remainingArgs
    serverBlockKeys ≫= AddPlugin.

End plugin.
