(* ===== verification/CrossClusterSpec.v ===== *)
(** What the DNS plugin promises: a name that the cache resolves is answered
    with an authoritative message that carries exactly the cached addresses,
    a name it does not resolve with NXDOMAIN. *)
From S2P Require Import Prelude GoStrings GoNet DNSLib Cache CrossCluster.
#[local] Open Scope string_scope.
#[local] Open Scope list_scope.

(** * Definitions *)

(** The documentation of [plugin.A]: "A returns A records from Backend or an
    error".  [rr_address] reads the address of an A record; the zone's apex
    itself is looked up under another name and is left out. *)
Record plugin_A_laws `{CoreDNS} (rr_address : RR → string) : Prop := {
  plugin_A_error b zone state e :
    QName state ≠ zone → be_Services b state false = inr e → plugin_A b zone state = inr e;
  plugin_A_records b zone state services :
    QName state ≠ zone → be_Services b state false = inl services →
    Forall (λ s, is_ip (Host s) = true ∧ has_byte ":" (Host s) = false) services →
    ∃ rrs, plugin_A b zone state = inl rrs ∧
      ∀ a, a ∈ rr_address <$> rrs ↔ a ∈ Host <$> services;
}.

(** The addresses the cache has for a query, in order. *)
Definition resolved `{DNSLib} (q : string) (d : DNSCache) : list string :=
  Lookup q d ≫= Addresses.

(** * Lemmas *)

Section services.
Context `{DNSLib, DNSTypes}.
Context (unicode_lower : string → string).
Implicit Types (c : CrossCluster) (state : Request).

Lemma add_services_all es acc :
  foldl add_services acc es = acc ++ ((λ a, mkService a 30) <$> (es ≫= Addresses)).
Proof.
  revert acc. induction es as [|e es IH]; intros acc; [cbn; by rewrite app_nil_r|].
  cbn [foldl]. rewrite IH. cbn [mbind list_bind]. rewrite fmap_app, (assoc_L (++)). f_equal.
  unfold add_services. clear IH. revert acc.
  induction (Addresses e) as [|a l IH]; intros acc; cbn; [by rewrite app_nil_r|].
  rewrite IH. by rewrite <-(assoc_L (++)).
Qed.

Lemma Services_eq c state exact :
  Services unicode_lower c state exact =
    match Lookup (ToLower unicode_lower (QName state)) (RecordsCache c) with
    | [] => inr errNameNotFound
    | _ :: _ =>
        inl ((λ a, mkService a 30) <$>
               resolved (ToLower unicode_lower (QName state)) (RecordsCache c))
    end.
Proof.
  unfold Services, resolved. rewrite add_services_all.
  by destruct (Lookup _ _).
Qed.

Lemma ToLower_idem q :
  forall_bytes is_ascii_byte q = true →
  ToLower unicode_lower (ToLower unicode_lower q) = ToLower unicode_lower q.
Proof.
  intros Hq. unfold ToLower. rewrite Hq.
  assert (forall_bytes is_ascii_byte (map_bytes lower_byte q) = true) as ->;
    [|apply map_lower_idem].
  induction q as [|a q IH]; [done|]. cbn in Hq |- *.
  apply andb_true_iff in Hq as [Ha Hq]. rewrite IH by done. rewrite andb_true_r.
  revert Ha. clear. destruct a as [[] [] [] [] [] [] [] []]; vm_compute; congruence.
Qed.

(** * Properties *)

(** The service backend lists every cached address of the name, in order
    and with a TTL of 30 seconds, an unknown name is the error that
    [IsNameError] recognises, and for ASCII names the case of the question
    does not matter. *)
Theorem Services_spec c state exact :
  Services unicode_lower c state exact =
    match Lookup (ToLower unicode_lower (QName state)) (RecordsCache c) with
    | [] => inr errNameNotFound
    | _ :: _ =>
        inl ((λ a, mkService a 30) <$>
               resolved (ToLower unicode_lower (QName state)) (RecordsCache c))
    end ∧
  (∀ err, IsNameError c err = true ↔ err = errNameNotFound) ∧
  (forall_bytes is_ascii_byte (QName state) = true →
   Services unicode_lower c (mkRequest (ToLower unicode_lower (QName state)) (QType state)) exact =
   Services unicode_lower c state exact).
Proof.
  split; [apply Services_eq|]. split; [intros err; apply bool_decide_eq_true|].
  intros Hq. unfold Services. cbn [QName]. by rewrite ToLower_idem.
Qed.

End services.

Section handler.
Context `{DNSLib, CoreDNS}.
Context (unicode_lower : string → string) (unix_now : Z) (rr_address : RR → string).
Implicit Types (c : CrossCluster) (state : Request).
Abbreviation serve c state := (ServeDNS unicode_lower unix_now c state).
Abbreviation be c := (backend unicode_lower unix_now c).

Lemma ServeDNS_A_lookup c state zone :
  plugin_A_laws rr_address →
  Zones_Matches (Zones c) (QName state) = zone → zone ≠ "" → QName state ≠ zone →
  QType state = TypeA →
  Forall (λ a, is_ip a = true ∧ has_byte ":" a = false)
    (resolved (ToLower unicode_lower (QName state)) (RecordsCache c)) →
  match resolved (ToLower unicode_lower (QName state)) (RecordsCache c) with
  | [] => serve c state = BackendError (be c) zone RcodeNameError state None
  | _ :: _ => ∃ rrs,
      serve c state = mkResponse
        [mkMsg (msg_header (SetReply state)) true (Answer (SetReply state) ++ rrs)]
        RcodeSuccess None ∧
      ∀ a, a ∈ rr_address <$> rrs ↔
           a ∈ resolved (ToLower unicode_lower (QName state)) (RecordsCache c)
  end.
Proof.
  intros Hlaws Hz Hzne Hq Hty Hips. set (l := resolved _ _) in *.
  pose proof (Services_eq unicode_lower c state false) as Hserv.
  change (Services unicode_lower c state false) with (be_Services (be c) state false) in Hserv.
  unfold ServeDNS. rewrite Hz, decide_False by done.
  unfold query_records. rewrite Hty. rewrite decide_False, decide_True by done.
  destruct (Lookup (ToLower unicode_lower (QName state)) (RecordsCache c)) as [|e es] eqn:Hlk.
  - assert (l = []) as -> by (unfold l, resolved; by rewrite Hlk).
    by rewrite (plugin_A_error _ Hlaws _ _ _ _ Hq Hserv).
  - fold l in Hserv. destruct (plugin_A_records _ Hlaws _ zone _ _ Hq Hserv) as (rrs & -> & Hrrs).
    { by apply Forall_fmap. }
    assert (∀ a, a ∈ rr_address <$> rrs ↔ a ∈ l) as Ha.
    { intros a. rewrite Hrrs, <-list_fmap_compose.
      erewrite list_fmap_ext; [by rewrite list_fmap_id|done]. }
    destruct l as [|a l'].
    + assert (rrs = []) as ->; [|done]. destruct rrs as [|r rrs]; [done|exfalso].
      apply (not_elem_of_nil (rr_address r)), Ha. by constructor.
    + exists rrs. split; [|done]. rewrite decide_False; [done|].
      destruct rrs; [|done]. intros _. apply (not_elem_of_nil a), Ha. by constructor.
Qed.

(** The handler on every branch of its control flow: a question outside
    the zones is refused with an error and no message; a question of another type, a name
    the backend does not know and an answer without records are NXDOMAIN
    without an error, any other error of the backend is SERVFAIL with the
    error, and records are written as one authoritative reply. *)
Theorem ServeDNS_branches c state :
  match Zones_Matches (Zones c) (QName state) with
  | EmptyString => serve c state =
      mkResponse [] RcodeServerFailure (Some (ErrNew "unknown zone"))
  | zone =>
      match query_records unicode_lower unix_now c zone state with
      | None => QType state ∉ [TypeSOA; TypeA; TypeCNAME] ∧
          serve c state = BackendError (be c) zone RcodeNameError state None
      | Some (inr err) =>
          (err = errNameNotFound →
             serve c state = BackendError (be c) zone RcodeNameError state None) ∧
          (err ≠ errNameNotFound →
             serve c state = BackendError (be c) zone RcodeServerFailure state (Some err))
      | Some (inl []) => serve c state = BackendError (be c) zone RcodeNameError state None
      | Some (inl records) => serve c state =
          mkResponse [mkMsg (msg_header (SetReply state)) true (Answer (SetReply state) ++ records)]
            RcodeSuccess None
      end
  end.
Proof.
  unfold ServeDNS. destruct (Zones_Matches (Zones c) (QName state)) as [|z0 zone] eqn:Hz; [done|].
  rewrite decide_False by done. unfold IsNameError.
  destruct (query_records _ _ _ _ _) as [[[|r rrs]|err]|] eqn:Hq; [done|done|..].
  - split; [by intros ->|]. intros Hne. by rewrite bool_decide_eq_false_2.
  - split; [|done]. unfold query_records in Hq. rewrite !elem_of_cons.
    repeat case_decide; try done. intros [?|[?|[?|[]%not_elem_of_nil]]]; done.
Qed.

(** C23: an A question for a name of the zone gets exactly the addresses that the cache
    has for it, or NXDOMAIN when it has none. *)
Theorem ServeDNS_A c state zone
    (Hlaws : plugin_A_laws rr_address)
    (Hz : Zones_Matches (Zones c) (QName state) = zone) (Hzne : zone ≠ "")
    (Hq : QName state ≠ zone) (Hty : QType state = TypeA)
    (Hips : Forall (λ a, is_ip a = true ∧ has_byte ":" a = false)
      (resolved (ToLower unicode_lower (QName state)) (RecordsCache c))) :
  match resolved (ToLower unicode_lower (QName state)) (RecordsCache c) with
  | [] => serve c state = BackendError (be c) zone RcodeNameError state None
  | _ :: _ => ∃ rrs,
      serve c state = mkResponse
        [mkMsg (msg_header (SetReply state)) true (Answer (SetReply state) ++ rrs)]
        RcodeSuccess None ∧
      ∀ a, a ∈ rr_address <$> rrs ↔
           a ∈ resolved (ToLower unicode_lower (QName state)) (RecordsCache c)
  end.
Proof. by apply ServeDNS_A_lookup. Qed.

End handler.

(** * A concrete CoreDNS

    It answers A questions with the IPv4 hosts and nothing else. *)

#[export] Instance text_types : DNSTypes := {| RR := string; MsgHeader := string |}.

Definition text_address (r : @RR text_types) : string := r.

Definition simple_records (b : ServiceBackend) (state : Request) : list string + error :=
  match be_Services b state false with
  | inr e => inr e
  | inl services => inl (Host <$> services)
  end.

(** A zone matches the names that end in it. *)
Definition is_suffix (zone name : string) : bool :=
  bool_decide (is_Some (cut_prefix (reverse (to_bytes zone)) (reverse (to_bytes name)))).

#[export] Instance simple_coredns : CoreDNS := {|
  Zones_Matches zones name := default "" (head (List.filter (λ z, is_suffix z name) zones));
  Host_Normalize := CanonicalName;
  plugin_SOA b zone state := inl ["soa"];
  plugin_A b zone state := simple_records b state;
  plugin_CNAME b zone state := inl [];
  BackendError b zone rcode state err := mkResponse [mkMsg "error" true []] rcode err;
  SetReply state := mkMsg "reply" false [];
|}.

Lemma simple_plugin_A : plugin_A_laws text_address.
Proof.
  split; cbn; unfold simple_records.
  - by intros b zone state e _ ->.
  - intros b zone state services _ -> _. eexists. split; [done|]. intros a.
    by rewrite list_fmap_id.
Qed.

(** * Witnesses *)

Definition a_cache : DNSCache :=
  Upsert (mkDNSCacheEntry "xcc-dns/dev-one-gateway" "*.gateway.one.dev.clusters.xcc.test" ["1.2.3.4"])
    new_DNSCache.
Definition a_plugin : CrossCluster := mkCrossCluster a_cache ["xcc.test."].
Definition ascii_only (s : string) : string := s.

Lemma ServeDNS_A_witness :
  ∃ rrs, ServeDNS ascii_only 0 a_plugin (mkRequest "Foo.gateway.one.dev.clusters.xcc.test." TypeA) =
      mkResponse [mkMsg "reply" true rrs] RcodeSuccess None ∧ "1.2.3.4" ∈ rrs.
Proof.
  pose proof (ServeDNS_A ascii_only 0 text_address a_plugin
    (mkRequest "Foo.gateway.one.dev.clusters.xcc.test." TypeA) "xcc.test." simple_plugin_A) as HA.
  assert (resolved (ToLower ascii_only "Foo.gateway.one.dev.clusters.xcc.test.") a_cache =
    ["1.2.3.4"]) as Hres by (vm_compute; reflexivity).
  cbn [QName RecordsCache a_plugin QType] in HA. rewrite Hres in HA.
  destruct HA as (rrs & Hrun & Ha).
  - vm_compute. reflexivity.
  - discriminate.
  - discriminate.
  - reflexivity.
  - apply Forall_singleton. split; vm_compute; reflexivity.
  - exists rrs. split; [exact Hrun|]. rewrite <-(list_fmap_id rrs). apply Ha. by constructor.
Defined.

Lemma Services_spec_witness :
  Services ascii_only a_plugin (mkRequest "foo.gateway.one.dev.clusters.xcc.test." TypeA) false =
  Services ascii_only a_plugin (mkRequest "FOO.Gateway.one.dev.clusters.XCC.test." TypeA) false.
Proof.
  destruct (Services_spec ascii_only a_plugin
    (mkRequest "FOO.Gateway.one.dev.clusters.XCC.test." TypeA) false) as (_ & _ & Hcase).
  apply Hcase. vm_compute. reflexivity.
Defined.

Definition TypeAAAA : Z := 28.

(** A question of another type about a name that has addresses. *)
Lemma ServeDNS_branches_witness :
  ServeDNS ascii_only 0 a_plugin (mkRequest "foo.gateway.one.dev.clusters.xcc.test." TypeAAAA) =
    mkResponse [mkMsg "error" true []] RcodeNameError None.
Proof.
  exact (proj2 (ServeDNS_branches ascii_only 0 a_plugin
    (mkRequest "foo.gateway.one.dev.clusters.xcc.test." TypeAAAA))).
Defined.
