(* ===== verification/CacheReaders.v ===== *)
(** The readers of the record cache: [Services] of the plugin, and [IsValid],
    over the shared arrays of [CacheHeap], interleaved with writers.

    [DNSCache.Lookup] releases the lock and returns the slice of the map itself;
    its caller then ranges over it while other goroutines go on writing.
    The reads of single entries are atomic here: Go promises nothing about an
    entry that is read while it is overwritten. *)
From S2P Require Import Prelude GoStrings GoNet DNSLib Cache CacheSpec CacheHeap CacheHeapSpec CrossCluster.
#[local] Open Scope string_scope.
#[local] Open Scope list_scope.

(** * Definitions *)

(** What happens after the lookup: an operation of another goroutine, or the
    next iteration of the reader's loop. *)
Inductive event :=
  | Write (op : cache_op)
  | Next.

Definition writes (evs : list event) : list cache_op :=
  omap (λ ev, match ev with Write op => Some op | Next => None end) evs.

Definition nexts (evs : list event) : nat :=
  length (omap (λ ev, match ev with Write _ => None | Next => Some tt end) evs).

Section readers.
Context `{DNSLib}.
Context (spare : nat → nat) (unicode_lower : string → string).

(** [for _, cacheEntry := range s] from the index [i] on: the length is that of
    the range expression, the element is read from the array in each
    iteration.  [None] is a loop that is not through yet, or a fault. *)
Fixpoint range_slice (evs : list event) (d : HeapCache) (s : goslice) (i : nat)
    : option (list DNSCacheEntry) :=
  if decide (len s ≤ i)%nat then Some []
  else
    match evs with
    | [] => None
    | Write op :: evs => range_slice evs (run_hop spare op d) s i
    | Next :: evs =>
        cells (backing_of (hc_heap d) s) !! i ≫= λ cacheEntry,
        cons cacheEntry <$> range_slice evs d s (S i)
    end.

(** [Services], with what the other goroutines do between its lookup and its
    last read. *)
Definition hServices (d : HeapCache) (state : Request) (evs : list event)
    : option (list msg_Service + error) :=
  let fqdn := ToLower unicode_lower (QName state) in
  match hLookup fqdn d with
  | Some s =>
      if decide (len s = 0%nat) then Some (inr errNameNotFound)
      else (λ cacheEntries, inl (foldl add_services [] cacheEntries)) <$> range_slice evs d s 0
  | None => Some (inr errNameNotFound)
  end.

(** The loop of [IsValid], which may return early. *)
Fixpoint hvalid_entries (evs : list event) (d : HeapCache) (s : goslice) (i : nat)
    (addressCount : nat) (hasCNAMEEntry : bool) : option bool :=
  if decide (len s ≤ i)%nat then Some true
  else
    match evs with
    | [] => None
    | Write op :: evs => hvalid_entries evs (run_hop spare op d) s i addressCount hasCNAMEEntry
    | Next :: evs =>
        cells (backing_of (hc_heap d) s) !! i ≫= λ entry,
        match valid_addresses (Addresses entry) addressCount hasCNAMEEntry with
        | Some (addressCount, hasCNAMEEntry) =>
            hvalid_entries evs d s (S i) addressCount hasCNAMEEntry
        | None => Some false
        end
    end.

Definition hIsValid (d : HeapCache) (fqdn : string) (evs : list event) : option bool :=
  match hLookup (CanonicalName fqdn) d with
  | Some s =>
      if decide (len s = 0%nat) then Some false else hvalid_entries evs d s 0 0 false
  | None => Some false
  end.

(** No resource that is filed under [f] is removed or moves to another name.
    ([Delete] may drop the name as a whole.) *)
Definition keeps (f : string) (op : cache_op) (d : HeapCache) : Prop :=
  let keys := entries_of (hc_resourceKeyToFQDN d) in
  match op with
  | OpUpsert e => keys !! ResourceKey e = Some f → CanonicalName (FQDN e) = f
  | OpDeleteByResourceKey key => keys !! key ≠ Some f
  | OpDelete _ | OpSetPopulated => True
  end.

Fixpoint undisturbed (f : string) (evs : list event) (d : HeapCache) : Prop :=
  match evs with
  | [] => True
  | Write op :: evs => keeps f op d ∧ undisturbed f evs (run_hop spare op d)
  | Next :: evs => undisturbed f evs d
  end.

(** ** The single writes to memory

    Every operation is a sequence of these.  [stored] restricts the entries
    that are written, [may_cut] the names whose slices are cut. *)
Context (stored : DNSCacheEntry → Prop).

Definition filed (f : string) (e : DNSCacheEntry) : Prop :=
  CanonicalName (FQDN e) = f ∧ stored e.

Inductive hm_step (may_cut : string → Prop) : hmap → hmap → Prop :=
  | st_reset h m : hm_step may_cut (h, m) (h, ∅)
  | st_delete h m f : hm_step may_cut (h, m) (h, delete f m)
  | st_cut h m f s i :
      may_cut f → m !! f = Some s →
      hm_step may_cut (h, m) ((cut h s i).1, <[f := (cut h s i).2]> m)
  | st_write h m f s i e :
      m !! f = Some s → keys_of (read h s) !! i = Some (ResourceKey e) → filed f e →
      hm_step may_cut (h, m) (write h s i e, m)
  | st_append h m f e :
      filed f e →
      hm_step may_cut (h, m)
        ((append spare h (m !! f) e).1, <[f := (append spare h (m !! f) e).2]> m).

(** An array belongs to one name for good. *)
Definition owned (h : heap) (p : nat) (f : string) : Prop :=
  (p < next h)%nat ∧
  ∃ b, arrays h !! p = Some b ∧ cells b ≠ [] ∧ Forall (filed f) (cells b).

Definition names_ok (hm : hmap) : Prop := ∀ f s, hm.2 !! f = Some s →
  owned hm.1 (ptr s) f ∧ (len s ≤ length (cells (backing_of hm.1 s)))%nat.

(** An array keeps its owner, and no cell is taken away. *)
Definition grows (h h' : heap) : Prop := ∀ s f, owned h (ptr s) f →
  owned h' (ptr s) f ∧ (length (cells (backing_of h s)) ≤ length (cells (backing_of h' s)))%nat.

(** The reader's slice [s] has the keys [ks], and a slice of the map over the same array
    is at least as long. *)
Definition shows (s : goslice) (f : string) (ks : list string) (hm : hmap) : Prop :=
  keys_of (read hm.1 s) = ks ∧
  ∀ t, hm.2 !! f = Some t → ptr t = ptr s → (len s ≤ len t)%nat.

(** * Lemmas *)

(** ** The operations as sequences of steps *)

Lemma hcut_at_steps (may_cut : string → Prop) f i hm :
  may_cut f → rtc (hm_step may_cut) hm (hcut_at f i hm).
Proof.
  intros Hf. destruct hm as [h m]. unfold hcut_at. cbn [fst snd].
  destruct (m !! f) as [s|] eqn:Hs; [|done].
  pose proof (st_cut may_cut h m f s i Hf Hs) as Hstep.
  destruct (cut h s i) as [h' s']. by apply rtc_once.
Qed.

Lemma drop_empty_steps may_cut f (hm : hmap) :
  rtc (hm_step may_cut) hm (if decide (hbucket hm f = []) then (hm.1, delete f hm.2) else hm).
Proof. destruct hm as [h m]. case_decide; [apply rtc_once, st_delete|done]. Qed.

Lemma hforget_old_steps (may_cut : string → Prop) key f K hm :
  (∀ old, K !! key = Some old → old ≠ f → may_cut old) →
  rtc (hm_step may_cut) hm (hforget_old key f K hm).
Proof.
  intros Hcut. unfold hforget_old. destruct (K !! key) as [old|]; [|done].
  case_decide as Hne; [|done]. etrans; [|apply drop_empty_steps].
  unfold hcut_entry. destruct (index_of _ _); [|done]. by apply hcut_at_steps, Hcut.
Qed.

Lemma hput_entry_steps may_cut e f hm :
  filed f e → rtc (hm_step may_cut) hm (hput_entry spare e f hm).
Proof.
  intros He. destruct hm as [h m]. unfold hput_entry.
  pose proof (st_append may_cut h m f e He) as Happ.
  destruct (append spare h (m !! f) e) as [h' s']. cbn [fst snd] in Happ.
  destruct (m !! f) as [s|] eqn:Hs; [|by apply rtc_once].
  destruct (index_of _ _) as [i|] eqn:Hi; [|by apply rtc_once].
  apply rtc_once, (st_write may_cut h m f); [done| |done].
  apply index_of_Some in Hi as (e0 & Hi & <-). by rewrite list_lookup_fmap, Hi.
Qed.

Lemma hdelete_loop_steps (may_cut : string → Prop) key f i es hm :
  may_cut f → rtc (hm_step may_cut) hm (hdelete_loop key f i es hm).
Proof.
  intros Hf. revert i hm. induction es as [|e es IH]; intros i hm; cbn; [done|].
  case_decide; [by apply hcut_at_steps|]. etrans; [apply drop_empty_steps|]. apply IH.
Qed.

(** ** One step *)

Lemma filed_inj f g l :
  l ≠ [] → Forall (filed f) l → Forall (filed g) l → f = g.
Proof.
  destruct l as [|e l]; [done|]. intros _ [[<- _] _]%Forall_cons [[<- _] _]%Forall_cons. done.
Qed.

Lemma owned_cells h s f :
  owned h (ptr s) f →
  cells (backing_of h s) ≠ [] ∧ Forall (filed f) (cells (backing_of h s)).
Proof. intros [_ (b & Hb & Hne & Hf)]. unfold backing_of. by rewrite Hb. Qed.

Lemma owned_inj h p f g : owned h p f → owned h p g → f = g.
Proof.
  intros [_ (b & Hb & Hne & Hf)] [_ (b' & Hb' & _ & Hg)]. rewrite Hb in Hb'.
  injection Hb' as <-. by eapply filed_inj.
Qed.

Lemma owned_set h t l p f :
  owned h p f → l ≠ [] → (p = ptr t → Forall (filed f) l) → owned (set_cells h t l) p f.
Proof.
  intros [Hp (b & Hb & Hne & Hf)] Hl Hfl. split; [done|]. unfold set_cells. cbn.
  destruct (decide (p = ptr t)) as [->|Hpt].
  - eexists. rewrite lookup_insert_eq. split; [done|]. by split; [|apply Hfl].
  - exists b. by rewrite lookup_insert_ne.
Qed.

(** Writing entries of the owner into an array. *)
Lemma grows_set h t l g :
  owned h (ptr t) g → (length (cells (backing_of h t)) ≤ length l)%nat → Forall (filed g) l →
  grows h (set_cells h t l).
Proof.
  intros Hg Hlen Hl s f Hf. split.
  - apply owned_set; [done| |].
    + intros ->. apply owned_cells in Hg as [Hne _]. apply Hne, length_zero_iff_nil. cbn in Hlen. lia.
    + intros Heq. rewrite Heq in Hf. by rewrite (owned_inj _ _ _ _ Hf Hg).
  - destruct (decide (ptr s = ptr t)) as [Heq|Hne].
    + rewrite backing_set_eq by done. cbn. unfold backing_of in *. by rewrite Heq.
    + by rewrite backing_set_ne.
Qed.

(** A new array. *)
Lemma grows_alloc h b : grows h (mkHeap (<[next h := b]> (arrays h)) (S (next h))).
Proof.
  intros s f [Hp (b' & Hb & Hne & Hf)]. unfold owned, backing_of. cbn.
  rewrite lookup_insert_ne by lia. rewrite Hb. split; [|done]. split; [lia|]. by exists b'.
Qed.

#[local] Instance grows_preorder : PreOrder grows.
Proof.
  split; [done|]. intros h1 h2 h3 H12 H23 s f Hf. destruct (H12 s f Hf) as [Hf2 Hl2].
  destruct (H23 s f Hf2) as [Hf3 Hl3]. split; [done|lia].
Qed.

(** A name whose slice was replaced. *)
Lemma names_ok_insert h h' m f s :
  names_ok (h, m) → grows h h' → owned h' (ptr s) f →
  (len s ≤ length (cells (backing_of h' s)))%nat → names_ok (h', <[f := s]> m).
Proof.
  intros Hok Hg Hs Hl g t Hgt. cbn in Hgt |- *.
  apply lookup_insert_Some in Hgt as [[<- <-]|[_ Ht]]; [done|].
  destruct (Hok g t Ht) as [Ho Hlt]. destruct (Hg t g Ho) as [Ho' Hlt']. cbn in *. split; [done|lia].
Qed.

Lemma names_ok_grows h h' m : names_ok (h, m) → grows h h' → names_ok (h', m).
Proof.
  intros Hok Hg g t Ht. destruct (Hok g t Ht) as [Ho Hlt]. destruct (Hg t g Ho) as [Ho' Hlt'].
  cbn in *. split; [done|lia].
Qed.

Definition cut_cells (c : list DNSCacheEntry) (n i : nat) : list DNSCacheEntry :=
  take i c ++ drop (S i) (take n c) ++ drop (n - 1) c.

Lemma cut_cells_length c n i : (n ≤ length c)%nat → (length c ≤ length (cut_cells c n i))%nat.
Proof. intros Hn. unfold cut_cells. rewrite !length_app, !length_drop, !length_take. lia. Qed.

Lemma cut_cells_filed c n i f : Forall (filed f) c → Forall (filed f) (cut_cells c n i).
Proof. intros Hc. unfold cut_cells. repeat (apply Forall_app_2 || apply Forall_drop || apply Forall_take); done. Qed.

(** [append], in place or into a new array. *)
Lemma append_ok h m f e h' s' :
  names_ok (h, m) → filed f e → append spare h (m !! f) e = (h', s') →
  grows h h' ∧ owned h' (ptr s') f ∧ (len s' ≤ length (cells (backing_of h' s')))%nat.
Proof.
  intros Hok He.
  assert (∀ l n, l ≠ [] → Forall (filed f) l →
    let h1 := mkHeap (<[next h := mkBacking l n]> (arrays h)) (S (next h)) in
    let s1 := mkSlice (next h) (length l) in
    grows h h1 ∧ owned h1 (ptr s1) f ∧ (len s1 ≤ length (cells (backing_of h1 s1)))%nat) as Hfresh.
  { intros l n Hne Hl. split; [apply grows_alloc|]. unfold owned, backing_of. cbn.
    rewrite lookup_insert_eq. split; [|done]. split; [lia|]. by eexists. }
  unfold append. destruct (m !! f) as [s|] eqn:Hs.
  - destruct (Hok f s Hs) as [Ho Hl]. destruct (owned_cells _ _ _ Ho) as [_ Hc]. cbn [fst] in Ho, Hl, Hc.
    case_decide; intros [= <- <-].
    + set (l := take _ _ ++ _).
      assert (S (len s) ≤ length l)%nat as Hlen.
      { unfold l. rewrite length_app, length_take. cbn. lia. }
      assert (grows h (set_cells h s l)) as Hg.
      { eapply grows_set; [done| |].
        - unfold l. rewrite length_app, length_take. cbn. rewrite length_drop. lia.
        - unfold l. apply Forall_app_2; [by apply Forall_take|]. constructor; [done|by apply Forall_drop]. }
      split; [done|]. split; [by apply (Hg s f Ho)|]. by rewrite backing_set_eq.
    + apply Hfresh; [by destruct (read h s)|].
      apply Forall_app_2; [by apply Forall_take|by constructor].
  - intros [= <- <-]. apply Hfresh; [done|by constructor].
Qed.

Lemma hm_step_ok may_cut hm hm' :
  names_ok hm → hm_step may_cut hm hm' → names_ok hm' ∧ grows hm.1 hm'.1.
Proof.
  intros Hok Hstep. destruct Hstep as [h m|h m f|h m f s i Hc Hs|h m f s i e Hs Hi He|h m f e He]; cbn [fst].
  - split; [|done]. by intros f s.
  - split; [|done]. intros g s Hg. cbn in Hg. apply lookup_delete_Some in Hg as [_ Hs]. by apply Hok.
  - destruct (Hok f s Hs) as [Ho Hl]. cbn [fst] in Ho, Hl.
    assert (grows h (cut h s i).1) as Hg.
    { eapply grows_set; [done|by apply cut_cells_length|]. apply cut_cells_filed. by eapply owned_cells. }
    split; [|done]. destruct (Hg s f Ho) as [Ho' Hl']. apply (names_ok_insert h); [done..|].
    cbn in Hl' |- *. unfold backing_of in *. cbn in Hl' |- *. lia.
  - destruct (Hok f s Hs) as [Ho Hl]. cbn [fst] in Ho, Hl.
    assert (grows h (write h s i e)) as Hg.
    { eapply grows_set; [done|by rewrite length_insert|].
      apply Forall_insert; [by eapply owned_cells|done]. }
    split; [|done]. by eapply names_ok_grows.
  - destruct (append spare h (m !! f) e) as [h' s'] eqn:Happ. cbn [fst snd].
    destruct (append_ok h m f e h' s') as (Hg & Ho & Hl); [done..|].
    split; [|done]. by apply (names_ok_insert h).
Qed.

(** What a step does to a slice of [f] that a reader has. *)
Lemma shows_set s f ks h h' m m' t l :
  shows s f ks (h, m) → h' = set_cells h t l →
  (ptr t = ptr s → keys_of (take (len s) l) = keys_of (read h s)) →
  (∀ t', m' !! f = Some t' → ptr t' = ptr s →
     ∃ t0, m !! f = Some t0 ∧ ptr t0 = ptr s ∧ (len t0 ≤ len t')%nat) →
  shows s f ks (h', m').
Proof.
  intros [Hks Hlen] -> Hl Hm. split.
  - rewrite <-Hks. cbn [fst]. destruct (decide (ptr t = ptr s)) as [Heq|Hne].
    + unfold read at 1. rewrite backing_set_eq by done. by apply Hl.
    + unfold read. by rewrite backing_set_ne.
  - intros t' Ht' Hp. destruct (Hm t' Ht' Hp) as (t0 & Ht0 & Hp0 & Hle).
    specialize (Hlen t0 Ht0 Hp0). lia.
Qed.

Lemma shows_alloc s f ks h m b g n :
  (ptr s < next h)%nat → shows s f ks (h, m) →
  shows s f ks (mkHeap (<[next h := b]> (arrays h)) (S (next h)), <[g := mkSlice (next h) n]> m).
Proof.
  intros Hp [Hks Hlen]. split.
  - rewrite <-Hks. unfold read, backing_of. cbn. by rewrite lookup_insert_ne by lia.
  - cbn. intros t [[<- <-]|[_ Ht]]%lookup_insert_Some Hpt; [cbn in Hpt; lia|]. by apply Hlen.
Qed.

Lemma take_keys_insert n i e l :
  keys_of l !! i = Some (ResourceKey e) → keys_of (take n (<[i:=e]> l)) = keys_of (take n l).
Proof.
  intros Hi. rewrite !fmap_take, list_fmap_insert. by rewrite list_insert_id.
Qed.

Lemma hm_step_shows s f ks hm hm' :
  names_ok hm → owned hm.1 (ptr s) f → (len s ≤ length (cells (backing_of hm.1 s)))%nat →
  hm_step (λ g, g ≠ f) hm hm' → shows s f ks hm → shows s f ks hm'.
Proof.
  intros Hok Hs Hl Hstep Hsh.
  assert (∀ g t, hm.2 !! g = Some t → ptr t = ptr s → g = f) as Hown.
  { intros g t Hg Hp. destruct (Hok g t Hg) as [Ho _]. rewrite Hp in Ho. by eapply owned_inj. }
  destruct Hstep as [h m|h m g|h m g t i Hc Ht|h m g t i e Ht Hi He|h m g e He]; cbn [fst snd] in *.
  - split; [by apply Hsh|]. by intros t Ht.
  - split; [by apply Hsh|]. cbn. intros t [_ Ht]%lookup_delete_Some. by apply Hsh.
  - eapply shows_set; [done|done| |].
    + intros Hp. by destruct Hc; eapply Hown.
    + intros t' Ht' Hp. rewrite lookup_insert_ne in Ht' by done. by exists t'.
  - eapply shows_set; [done|done| |].
    + intros Hp. pose proof (Hown g t Ht Hp) as ->.
      assert (backing_of h t = backing_of h s) as Hb by (unfold backing_of; by rewrite Hp).
      unfold read. rewrite Hb. apply take_keys_insert.
      unfold read in Hi. rewrite Hb, fmap_take, lookup_take_Some in Hi. by destruct Hi.
    + intros t' Ht' Hp. by exists t'.
  - destruct (append spare h (m !! g) e) as [h' s'] eqn:Happ. cbn [fst snd].
    unfold append in Happ. destruct (m !! g) as [t|] eqn:Ht; [case_decide|];
      injection Happ as <- <-; [|by apply shows_alloc; [apply Hs|]..].
    eapply shows_set; [done|done| |].
    + intros Hp. pose proof (Hown g t Ht Hp) as ->. pose proof (proj2 Hsh t Ht Hp) as Hle.
      unfold read, backing_of. rewrite Hp. fold (backing_of h s).
      rewrite take_app_le, take_take by (rewrite length_take; unfold backing_of in *; lia).
      by rewrite Nat.min_l.
    + intros t' [[<- <-]|[Hne Ht']]%lookup_insert_Some Hp; [|by exists t'].
      exists t. split; [done|]. split; [done|]. cbn. lia.
Qed.

Lemma hm_steps_ok may_cut hm hm' :
  names_ok hm → rtc (hm_step may_cut) hm hm' → names_ok hm' ∧ grows hm.1 hm'.1.
Proof.
  intros Hok Hsteps. induction Hsteps as [hm|hm1 hm2 hm3 Hstep _ IH]; [done|].
  destruct (hm_step_ok _ _ _ Hok Hstep) as [Hok2 Hg]. destruct (IH Hok2) as [Hok3 Hg'].
  split; [done|by etrans].
Qed.

Lemma hm_steps_shows s f ks hm hm' :
  names_ok hm → owned hm.1 (ptr s) f → (len s ≤ length (cells (backing_of hm.1 s)))%nat →
  rtc (hm_step (λ g, g ≠ f)) hm hm' → shows s f ks hm → shows s f ks hm'.
Proof.
  intros Hok Hs Hl Hsteps. revert Hok Hs Hl.
  induction Hsteps as [hm|hm1 hm2 hm3 Hstep _ IH]; intros Hok Hs Hl Hsh; [done|].
  destruct (hm_step_ok _ _ _ Hok Hstep) as [Hok2 Hg]. destruct (Hg s f Hs) as [Hs2 Hl2].
  apply IH; [done|done|lia|]. exact (hm_step_shows _ _ _ _ _ Hok Hs Hl Hstep Hsh).
Qed.

End readers.

(** ** The reader's loop *)

Section laws.
Context `{DNSLibLaws}.
Context (spare : nat → nat) (unicode_lower : string → string) (stored : DNSCacheEntry → Prop).

Definition op_stores (op : cache_op) : Prop :=
  match op with OpUpsert e => stored (canonical_entry e) | _ => True end.

(** The names whose slices an operation may cut. *)
Definition op_cuts (may_cut : string → Prop) (op : cache_op) (d : HeapCache) : Prop :=
  let keys := entries_of (hc_resourceKeyToFQDN d) in
  match op with
  | OpUpsert e => ∀ old, keys !! ResourceKey e = Some old → old ≠ CanonicalName (FQDN e) → may_cut old
  | OpDeleteByResourceKey key => ∀ f, keys !! key = Some f → may_cut f
  | OpDelete _ | OpSetPopulated => True
  end.

Lemma run_hop_steps may_cut op d :
  op_stores op → op_cuts may_cut op d →
  rtc (hm_step spare stored may_cut) (hc_map d) (hc_map (run_hop spare op d)).
Proof.
  intros Hst Hcut. destruct op as [e|f|key|]; cbn [run_hop op_stores op_cuts] in *; [| | |done].
  - unfold hUpsert. rewrite canonicalize_spec.
    change (mkDNSCacheEntry (ResourceKey e) _ _) with (canonical_entry e).
    assert (filed stored (CanonicalName (FQDN e)) (canonical_entry e)) as Hfiled
      by (split; [apply canonical_entry_fqdn|done]).
    assert (∃ hm K, (if hc_not_initialised d then ((hc_heap d, ∅), ∅)
                     else (hc_map d, entries_of (hc_resourceKeyToFQDN d))) = (hm, K) ∧
      rtc (hm_step spare stored may_cut) (hc_map d)
        (hforget_old (ResourceKey e) (CanonicalName (FQDN e)) K hm)) as (hm & K & -> & Hforget).
    { destruct (hc_not_initialised d); eexists _, _; (split; [done|]).
      - apply rtc_once, st_reset.
      - by apply hforget_old_steps. }
    etrans; [exact Hforget|]. set (hm1 := hforget_old _ _ _ _).
    pose proof (hput_entry_steps spare stored may_cut _ _ hm1 Hfiled) as Hput.
    unfold hc_map. cbn. by destruct (hput_entry _ _ _ _).
  - unfold hDelete. destruct (hc_not_initialised d); [done|]. apply rtc_once, st_delete.
  - unfold hDeleteByResourceKey. destruct (hc_not_initialised d); [done|].
    destruct (entries_of _ !! key) as [f|] eqn:Hf; [|done].
    pose proof (hdelete_loop_steps spare stored may_cut key f 0 (hbucket (hc_map d) f) (hc_map d)
      (Hcut f eq_refl)) as Hloop.
    unfold hc_map at 2. cbn. by destruct (hdelete_loop _ _ _ _ _).
Qed.

Lemma keeps_cuts f op d : keeps f op d → op_cuts (λ g, g ≠ f) op d.
Proof.
  destruct op as [e|g|key|]; cbn; [| done | |done].
  - intros Hk old Hold Hne ->. by apply Hne, eq_sym, Hk.
  - intros Hk g Hg ->. done.
Qed.

(** An operation during the reader's loop. *)
Lemma run_hop_reader op d s f :
  op_stores op → names_ok stored (hc_map d) → owned stored (hc_heap d) (ptr s) f →
  (len s ≤ length (cells (backing_of (hc_heap d) s)))%nat →
  let d' := run_hop spare op d in
  names_ok stored (hc_map d') ∧ owned stored (hc_heap d') (ptr s) f ∧
  (len s ≤ length (cells (backing_of (hc_heap d') s)))%nat ∧
  ∀ ks, keeps f op d → shows s f ks (hc_map d) → shows s f ks (hc_map d').
Proof.
  intros Hst Hok Hs Hl. cbn zeta.
  assert (op_cuts (λ _, True) op d) as Hall by (by destruct op).
  destruct (hm_steps_ok _ _ _ _ _ Hok (run_hop_steps _ op d Hst Hall)) as [Hok' Hg].
  destruct (Hg s f Hs) as [Hs' Hl']. cbn [hc_map fst] in Hs', Hl'.
  split; [done|]. split; [done|]. split; [lia|]. intros ks Hk.
  eapply hm_steps_shows; [done|done|done|]. by apply run_hop_steps, keeps_cuts.
Qed.

(** A loop that is through. *)
Lemma range_done evs d s i f :
  (len s ≤ i)%nat →
  ∃ es, Some [] = Some es ∧ length es = (len s - i)%nat ∧ Forall (filed stored f) es ∧
    ∀ ks, shows s f ks (hc_map d) → undisturbed spare f evs d → keys_of es = drop i ks.
Proof.
  intros Hi. exists []. split; [done|]. split; [cbn; lia|]. split; [done|].
  intros ks [<- _] _. symmetry. cbn. rewrite drop_ge; [done|].
  unfold read. rewrite length_fmap, length_take. lia.
Qed.

Lemma range_slice_reads evs d s i f :
  Forall op_stores (writes evs) → names_ok stored (hc_map d) →
  owned stored (hc_heap d) (ptr s) f → (len s ≤ length (cells (backing_of (hc_heap d) s)))%nat →
  (len s - i ≤ nexts evs)%nat →
  ∃ es, range_slice spare evs d s i = Some es ∧ length es = (len s - i)%nat ∧
    Forall (filed stored f) es ∧
    ∀ ks, shows s f ks (hc_map d) → undisturbed spare f evs d → keys_of es = drop i ks.
Proof.
  revert d i. induction evs as [|[op|] evs IH]; intros d i Hst Hok Hs Hl Hn; cbn in Hst, Hn |- *;
    case_decide as Hi; try lia.
  - by apply (range_done []).
  - by apply (range_done (Write op :: evs)).
  - apply Forall_cons in Hst as [Hop Hst].
    destruct (run_hop_reader op d s f Hop Hok Hs Hl) as (Hok' & Hs' & Hl' & Hsh).
    destruct (IH (run_hop spare op d) i) as (es & -> & Hlen & Hf & Hks); [done..|].
    exists es. split; [done|]. split; [done|]. split; [done|].
    intros ks Hshows [Hk Hu]. by apply Hks; [apply Hsh|].
  - by apply (range_done (Next :: evs)).
  - change (len s - i ≤ S (nexts evs))%nat in Hn.
    destruct (lookup_lt_is_Some_2 (cells (backing_of (hc_heap d) s)) i) as [e He]; [lia|].
    destruct (IH d (S i)) as (es & -> & Hlen & Hf & Hks); [done..|lia|].
    exists (e :: es). rewrite He. cbn. split; [done|]. split; [lia|]. split.
    + constructor; [|done]. destruct (owned_cells _ _ _ _ Hs) as [_ Hc].
      rewrite Forall_forall in Hc. by eapply Hc, list_elem_of_lookup_2.
    + intros ks Hshows Hu. rewrite (Hks ks Hshows Hu). symmetry. apply drop_S.
      destruct Hshows as [<- _]. cbn. unfold read.
      rewrite list_lookup_fmap, lookup_take_lt by lia. by rewrite He.
Qed.

(** [IsValid] judges the entries that its loop sees. *)
Lemma hvalid_entries_range evs d s i n c es :
  range_slice spare evs d s i = Some es → hvalid_entries spare evs d s i n c = Some (valid_entries es n c).
Proof.
  revert d i n c es. induction evs as [|[op|] evs IH]; intros d i n c es; cbn; case_decide; try done;
    try (by intros [= <-]).
  - by apply IH.
  - destruct (cells (backing_of (hc_heap d) s) !! i) as [e|]; [|done]. cbn.
    intros (es' & Hes & ->)%fmap_Some. cbn.
    destruct (valid_addresses (Addresses e) n c) as [[n' c']|]; [by apply IH|done].
Qed.

(** Without writes between, the loop sees the slice. *)
Lemma range_slice_quiet d s i n :
  (len s ≤ length (cells (backing_of (hc_heap d) s)))%nat → (len s - i ≤ n)%nat →
  range_slice spare (replicate n Next) d s i = Some (drop i (read (hc_heap d) s)).
Proof.
  intros Hl. revert i. induction n as [|n IH]; intros i Hn; cbn; case_decide as Hi; try lia;
    try (rewrite drop_ge; [done|]; unfold read; rewrite length_take; lia).
  destruct (lookup_lt_is_Some_2 (cells (backing_of (hc_heap d) s)) i) as [e He]; [lia|].
  rewrite He. cbn. rewrite IH by lia. cbn. f_equal. symmetry. apply drop_S.
  unfold read. by rewrite lookup_take_lt by lia.
Qed.

(** ** From the empty cache *)

Lemma run_hops_names ops : Forall op_stores ops → names_ok stored (hc_map (run_hops spare ops)).
Proof.
  unfold run_hops. assert (names_ok stored (hc_map new_HeapCache)) as Hinit by (intros f s; done).
  revert Hinit. generalize new_HeapCache. induction ops as [|op ops IH]; intros d Hd Hst; [done|].
  apply Forall_cons in Hst as [Hop Hst]. cbn. apply IH; [|done].
  assert (op_cuts (λ _, True) op d) as Hall by (by destruct op).
  by apply (hm_steps_ok _ _ _ _ _ Hd (run_hop_steps _ op d Hop Hall)).
Qed.

Lemma hLookup_candidate q d s :
  hLookup q d = Some s → ∃ f, f ∈ candidates q ∧ (hc_map d).2 !! f = Some s.
Proof.
  unfold hLookup, candidates. destruct (hc_not_initialised d); [done|]. cbn [hc_map snd].
  set (m := default ∅ (hc_entries d)).
  destruct (m !! CanonicalName q) as [s'|] eqn:Hq.
  { intros [= ->]. exists (CanonicalName q). by split; [constructor|]. }
  intros Hw.
  assert (∃ f, f ∈ wildcards (SplitDomainName (CanonicalName q)) ∧ m !! f = Some s) as (f & Hf & Hs).
  { revert Hw. induction (SplitDomainName (CanonicalName q)) as [|l rest IH]; [done|].
    cbn. destruct (m !! wildcard_name rest) as [s'|] eqn:Hr.
    - intros [= ->]. exists (wildcard_name rest). by split; [constructor|].
    - intros (f & Hf & Hs)%IH. exists f. by split; [constructor|]. }
  exists f. by split; [constructor|].
Qed.

End laws.

(** * Properties *)

Section properties.
Context `{DNSLibLaws}.
Context (spare : nat → nat) (unicode_lower : string → string).

(** What a reader of the slice sees that the lookup found. *)
Definition sees_one_name (ops : list cache_op) (evs : list event) (q : string) (s : goslice)
    (found : list DNSCacheEntry) : Prop :=
  ∃ f es, f ∈ candidates q ∧ range_slice spare evs (run_hops spare ops) s 0 = Some es ∧
    length es = length found ∧
    Forall (λ e, CanonicalName (FQDN e) = f ∧
      ∃ e0, OpUpsert e0 ∈ ops ++ writes evs ∧ e = canonical_entry e0) es ∧
    Forall (λ e, CanonicalName (FQDN e) = f) found ∧
    (undisturbed spare f evs (run_hops spare ops) → keys_of es = keys_of found).

Lemma concurrent_reads ops evs q :
  let found := Lookup q (run_ops ops) in
  (length found ≤ nexts evs)%nat →
  match hLookup q (run_hops spare ops) with
  | Some s => len s = length found ∧ read (hc_heap (run_hops spare ops)) s = found ∧
      (len s ≤ length (cells (backing_of (hc_heap (run_hops spare ops)) s)))%nat ∧
      sees_one_name ops evs q s found
  | None => found = []
  end.
Proof.
  intros found Hn. set (d := run_hops spare ops).
  set (stored e := ∃ e0, OpUpsert e0 ∈ ops ++ writes evs ∧ e = canonical_entry e0).
  assert (Forall (op_stores stored) (ops ++ writes evs)) as [Hops Hevs]%Forall_app.
  { apply Forall_forall. intros op Hop. destruct op as [e|f|key|]; [|done..]. by exists e. }
  pose proof (run_hops_names spare stored ops Hops) as Hok.
  assert (match hLookup q d with Some s => read (hc_heap d) s | None => [] end = found) as Hread.
  { rewrite hLookup_reads. unfold found, d. by rewrite (proj1 (run_hops_refines spare ops)). }
  destruct (hLookup q d) as [s|] eqn:Hs; [|done].
  destruct (hLookup_candidate _ _ _ Hs) as (f & Hf & Hm). destruct (Hok f s Hm) as [Ho Hl].
  assert (len s = length found) as Hlen.
  { rewrite <-Hread. unfold read. rewrite length_take. cbn [hc_map fst] in Hl. fold d in Hl. lia. }
  split; [done|]. split; [done|]. split; [done|].
  destruct (range_slice_reads spare stored evs d s 0 f) as (es & Hes & Hles & Hfs & Hks); [done..|lia|].
  exists f, es. split; [done|]. split; [done|]. split; [lia|]. split; [done|]. split.
  { rewrite <-Hread. apply Forall_take. destruct (owned_cells _ _ _ _ Ho) as [_ Hc].
    eapply Forall_impl; [done|]. by intros e [He _]. }
  intros Hu. rewrite <-(drop_0 (keys_of found)). apply Hks; [|done]. split.
  - by rewrite <-Hread.
  - intros t Ht _. fold d in Hm. rewrite Hm in Ht. by injection Ht as ->.
Qed.

(** C8: a question is answered correctly while other goroutines write to the cache, although
    the reader holds no lock: its loop never faults and ends after as many
    iterations as [Lookup] found entries, each entry it sees was stored by
    some [Upsert] under the one name whose entries [Lookup] found, never under
    another, and when no resource of that name is removed or moved meanwhile, it sees every resource exactly
    once, in order. *)
Theorem concurrent_Services ops evs state :
  let d := run_hops spare ops in
  let q := ToLower unicode_lower (QName state) in
  let found := Lookup q (run_ops ops) in
  (length found ≤ nexts evs)%nat →
  if decide (found = []) then hServices spare unicode_lower d state evs = Some (inr errNameNotFound)
  else ∃ f es, f ∈ candidates q ∧
    hServices spare unicode_lower d state evs = Some (inl (foldl add_services [] es)) ∧
    length es = length found ∧
    Forall (λ e, CanonicalName (FQDN e) = f ∧
      ∃ e0, OpUpsert e0 ∈ ops ++ writes evs ∧ e = canonical_entry e0) es ∧
    Forall (λ e, CanonicalName (FQDN e) = f) found ∧
    (undisturbed spare f evs d → keys_of es = keys_of found).
Proof.
  intros d q found Hn. pose proof (concurrent_reads ops evs q Hn) as Hreads.
  unfold hServices. fold q d in Hreads |- *. destruct (hLookup q d) as [s|].
  - destruct Hreads as (Hlen & _ & _ & f & es & Hf & Hes & Hles & Hfs & Hfound & Hks).
    fold found in Hlen, Hles, Hfound, Hks. unfold found in *.
    destruct (decide (Lookup q (run_ops ops) = [])) as [Hnil|Hne].
    { rewrite decide_True; [done|]. by rewrite Hlen, Hnil. }
    rewrite decide_False by (rewrite Hlen; by intros ?%length_zero_iff_nil).
    exists f, es. split; [done|]. fold d in Hes. by rewrite Hes.
  - by rewrite decide_True.
Qed.

(** [IsValid] judges entries of one name, those that it finds when its reads
    come. *)
Theorem concurrent_IsValid ops evs fqdn :
  let d := run_hops spare ops in
  let found := Lookup (CanonicalName fqdn) (run_ops ops) in
  (length found ≤ nexts evs)%nat →
  if decide (found = []) then hIsValid spare d fqdn evs = Some false
  else ∃ f es, f ∈ candidates (CanonicalName fqdn) ∧
    hIsValid spare d fqdn evs = Some (valid_entries es 0 false) ∧
    Forall (λ e, CanonicalName (FQDN e) = f) es ∧
    (undisturbed spare f evs d → keys_of es = keys_of found).
Proof.
  intros d found Hn. pose proof (concurrent_reads ops evs (CanonicalName fqdn) Hn) as Hreads.
  cbn zeta in Hreads. fold d found in Hreads. unfold hIsValid.
  destruct (hLookup (CanonicalName fqdn) d) as [s|]; [|by rewrite decide_True].
  destruct Hreads as (Hlen & _ & _ & f & es & Hf & Hes & Hles & Hfs & Hfound & Hks).
  destruct (decide (found = [])) as [Hnil|Hne].
  { rewrite decide_True; [done|]. by rewrite Hlen, Hnil. }
  rewrite decide_False by (rewrite Hlen; by intros ?%length_zero_iff_nil).
  exists f, es. split; [done|]. split; [by apply hvalid_entries_range|]. split; [|done].
  eapply Forall_impl; [done|]. by intros e [He _].
Qed.

Lemma nexts_quiet n : nexts (replicate n Next) = n.
Proof. unfold nexts. induction n as [|n IH]; [done|]. cbn. by f_equal. Qed.

(** Without writers [IsValid] answers as on the cache of lists. *)
Theorem quiet_IsValid ops fqdn n :
  (length (Lookup (CanonicalName fqdn) (run_ops ops)) ≤ n)%nat →
  hIsValid spare (run_hops spare ops) fqdn (replicate n Next) = Some (IsValid fqdn (run_ops ops)).
Proof.
  intros Hn. pose proof (concurrent_reads ops (replicate n Next) (CanonicalName fqdn)) as Hreads.
  cbn zeta in Hreads. rewrite nexts_quiet in Hreads. specialize (Hreads Hn).
  unfold hIsValid, IsValid.
  destruct (hLookup (CanonicalName fqdn) (run_hops spare ops)) as [s|]; [|by rewrite Hreads].
  destruct Hreads as (Hlen & Hread & Hl & _).
  rewrite (hvalid_entries_range spare _ _ _ _ _ _ (read (hc_heap (run_hops spare ops)) s)).
  - rewrite Hread, Hlen. by destruct (Lookup _ _).
  - rewrite range_slice_quiet; [by rewrite drop_0|done|lia].
Qed.

End properties.

(** * Witnesses *)

(** While a question for [a.b] is answered, one of its resources is updated,
    one is added, and then the name is deleted. *)
Definition busy_events : list event :=
  [Next; Write (OpUpsert (mkDNSCacheEntry "ns/b" "A.B" ["5.6.7.8"]));
   Write (OpUpsert (shared_entry "ns/d")); Next; Write (OpDelete "a.b");
   Write (OpUpsert (shared_entry "ns/e")); Next].

Lemma busy_undisturbed f : undisturbed (λ n, n) f busy_events shared_cache.
Proof.
  cbn [busy_events undisturbed keeps]. split_and!; try exact I; intros Hk; vm_compute in Hk;
    [injection Hk as <-; vm_compute; reflexivity|discriminate Hk..].
Qed.

Lemma busy_found : Lookup (ToLower id (QName (mkRequest "a.b" TypeA))) (run_ops shared_ops) ≠ [].
Proof. vm_compute. discriminate. Qed.

Lemma concurrent_Services_witness :
  ∃ f es, f ∈ candidates "a.b" ∧
    hServices (λ n, n) id shared_cache (mkRequest "a.b" TypeA) busy_events =
      Some (inl (foldl add_services [] es)) ∧
    keys_of es = ["ns/a"; "ns/b"; "ns/c"] ∧
    foldl add_services [] es =
      [mkService "1.2.3.4" 30; mkService "5.6.7.8" 30; mkService "1.2.3.4" 30].
Proof.
  pose proof (concurrent_Services (λ n, n) id shared_ops busy_events (mkRequest "a.b" TypeA)) as Hw.
  cbn zeta in Hw. rewrite decide_False in Hw by exact busy_found.
  destruct Hw as (f & es & Hf & Hes & _ & _ & _ & Hks); [vm_compute; lia|].
  exists f, es. split; [exact Hf|]. split; [exact Hes|]. split.
  - rewrite Hks by apply busy_undisturbed. vm_compute. reflexivity.
  - assert (hServices (λ n, n) id shared_cache (mkRequest "a.b" TypeA) busy_events =
      Some (inl [mkService "1.2.3.4" 30; mkService "5.6.7.8" 30; mkService "1.2.3.4" 30])) as Hrun
      by (vm_compute; reflexivity).
    rewrite Hes in Hrun. by injection Hrun.
Defined.
