(* ===== verification/System.v ===== *)
(** The two controllers and the DNS plugin together: a name under a gateway's
    domain resolves to the addresses of the gateway's load balancer once its
    EndpointSlice has converged and was reconciled into the cache. *)
From S2P Require Import Prelude GoStrings GoNet GoNetSpec DNSLib Cache CacheSpec K8s.
From S2P Require Import Kube KubeMem ClusterGateway ClusterGatewaySpec Converge ConvergeSpec.
From S2P Require Import EndpointSliceDNS EndpointSliceDNSSpec CrossCluster CrossClusterSpec.
#[local] Open Scope string_scope.
#[local] Open Scope list_scope.
#[local] Arguments String.append : simpl nomatch.

(** * Definitions *)

(** A domain name as its labels, each one lower case and without dots. *)
Definition domain (labels : list string) : string := Join labels ".".
Definition lower_labels (labels : list string) : Prop :=
  labels ≠ [] ∧ Forall (λ l, lower_label l = true) labels.

(** The labels behind the first one of a gateway's host name. *)
Definition gateway_labels (name_labels ns_labels suffix_labels : list string) : list string :=
  ["gateway"] ++ name_labels ++ ns_labels ++ ["clusters"] ++ suffix_labels.

(** A load balancer with IPv4 addresses in their usual notation. *)
Definition ipv4_gateway (svc : Service) : Prop :=
  Forall (λ a, normalise_ip a = Some a ∧ has_byte ":" a = false) (getExternalIPsFromStatus svc).

(** No other resource is filed under the name, and no name is closer. *)
Definition only_resource `{DNSLib} (d : DNSCache) (f key : string) : Prop :=
  ∀ e, e ∈ bucket (entries_of (entries d)) f → ResourceKey e = key.
Definition not_filed (d : DNSCache) (f : string) : Prop := entries_of (entries d) !! f = None.

(** * Lemmas *)

(** ** Domain names *)

Lemma lower_label_plain l : lower_label l = true → plain_label l = true.
Proof. unfold lower_label. by intros [[? _]%andb_prop _]%andb_prop. Qed.

Lemma domain_cons l labels : labels ≠ [] → domain (l :: labels) = l +:+ "." +:+ domain labels.
Proof. by destruct labels. Qed.

Lemma domain_app l1 l2 : l1 ≠ [] → l2 ≠ [] → domain (l1 ++ l2) = domain l1 +:+ "." +:+ domain l2.
Proof.
  intros H1 H2. induction l1 as [|l l1 IH]; [done|]. destruct l1 as [|l' l1].
  - cbn [app]. by rewrite domain_cons.
  - cbn [app] in *. rewrite (domain_cons l (l' :: l1)), (domain_cons l (l' :: l1 ++ l2)) by done.
    rewrite IH by done. by rewrite <-!string_app_assoc.
Qed.

Section names.
Context `{DNSLibLaws}.

Lemma domain_not_empty labels : lower_labels labels → domain labels ≠ "".
Proof using All.
  intros [Hne Hall]. destruct Hall as [|l labels Hl _]; [done|].
  apply lower_label_plain, plain_label_spec in Hl as [Hl _].
  destruct labels; [done|]. rewrite domain_cons by done. by destruct l.
Qed.

Lemma lower_labels_tail l labels :
  lower_labels (l :: labels) → labels ≠ [] → lower_labels labels.
Proof. intros [_ Hall] Hne. by apply Forall_cons in Hall as [_ ?]. Qed.

(** The canonical form is the name with a dot at its end. *)
Lemma CanonicalName_domain labels :
  lower_labels labels → CanonicalName (domain labels) = domain labels +:+ ".".
Proof using All.
  induction labels as [|l labels IH]; intros Hls; [by destruct Hls|].
  destruct labels as [|l' labels].
  - destruct Hls as [_ [Hl _]%Forall_cons]. by apply CanonicalName_last.
  - rewrite domain_cons by done. apply lower_labels_tail in Hls as Htail; [|done].
    destruct Hls as [_ [Hl _]%Forall_cons].
    rewrite CanonicalName_label, IH by (done || by apply domain_not_empty).
    by rewrite <-!string_app_assoc.
Qed.

Lemma SplitDomainName_domain labels :
  lower_labels labels → SplitDomainName (domain labels +:+ ".") = labels.
Proof using All.
  induction labels as [|l labels IH]; intros Hls; [by destruct Hls|].
  destruct labels as [|l' labels].
  - destruct Hls as [_ [Hl _]%Forall_cons]. by apply SplitDomainName_last, lower_label_plain.
  - rewrite domain_cons by done. apply lower_labels_tail in Hls as Htail; [|done].
    destruct Hls as [_ [Hl _]%Forall_cons].
    rewrite <-!string_app_assoc, SplitDomainName_label.
    + by rewrite IH.
    + by apply lower_label_plain.
    + destruct (domain (l' :: labels)) eqn:Hd; [by apply domain_not_empty in Hd|done].
    + apply domain_not_empty in Htail. destruct (domain (l' :: labels)) as [|c s]; [done|].
      intros [= _ Hs]. by destruct s.
Qed.
End names.

(** ** Filing an entry *)

Section cache.
Context `{DNSLibLaws}.

Lemma forget_old_None key f K (E : buckets) g :
  E !! g = None → forget_old key f K E !! g = None.
Proof.
  intros Hg. unfold forget_old. destruct (K !! key) as [old|]; [|done]. case_decide; [|done].
  assert (cut_entry key old E !! g = None) as Hc.
  { unfold cut_entry. destruct (index_of key (bucket E old)) as [i|] eqn:Hi; [|done].
    rewrite lookup_insert_ne; [done|]. intros ->. unfold bucket in Hi. by rewrite Hg in Hi. }
  case_decide; [|done]. rewrite lookup_delete. by case_decide.
Qed.

(** After an upsert, a name that is not filed and whose first wildcard is the
    entry's name is answered from the slice of the entry. *)
Lemma Lookup_after_Upsert e d q rest l :
  cache_inv d → not_filed d (CanonicalName q) → CanonicalName q ≠ CanonicalName (FQDN e) →
  SplitDomainName (CanonicalName q) = l :: rest → wildcard_name rest = CanonicalName (FQDN e) →
  Lookup q (Upsert e d) = bucket (entries_of (entries (Upsert e d))) (CanonicalName (FQDN e)).
Proof using All.
  intros HI Hq Hne Hsplit Hw. pose proof (Upsert_unfold e d HI) as Hup. cbn zeta in Hup.
  unfold Lookup. rewrite Hup. cbn [not_initialised entries resourceKeyToFQDN entries_of from_option id].
  rewrite lookup_insert_ne by done. rewrite forget_old_None by exact Hq.
  rewrite Hsplit. cbn [lookup_wildcard]. rewrite Hw, lookup_insert_eq.
  unfold bucket. by rewrite lookup_insert_eq.
Qed.

(** With no other resource there, the slice holds the entry alone. *)
Lemma bucket_only e d :
  cache_inv d → only_resource d (CanonicalName (FQDN e)) (ResourceKey e) →
  bucket (entries_of (entries (Upsert e d))) (CanonicalName (FQDN e)) = [canonical_entry e].
Proof using All.
  intros HI Honly. pose proof (elem_of_Upsert e d (CanonicalName (FQDN e))) as Hmem.
  destruct (Upsert_inv e d HI) as [_ HI'].
  pose proof (inv_nodup _ _ HI' (CanonicalName (FQDN e))) as Hnd.
  apply Permutation_singleton_r, NoDup_Permutation.
  - by apply (NoDup_fmap_1 ResourceKey).
  - apply NoDup_singleton.
  - intros e'. rewrite Hmem, list_elem_of_singleton by done. naive_solver.
Qed.

(** The same in any cache that has the record and no other under its name. *)
Lemma bucket_record e d :
  cache_inv d → abs d !! ResourceKey e = Some (record_of e) →
  only_resource d (CanonicalName (FQDN e)) (ResourceKey e) →
  bucket (entries_of (entries d)) (CanonicalName (FQDN e)) = [canonical_entry e].
Proof using All.
  intros HI Hrec Honly. apply abs_lookup in Hrec as [Hin _]; [|done].
  destruct HI as [_ HI]. pose proof (inv_nodup _ _ HI (CanonicalName (FQDN e))) as Hnd.
  apply Permutation_singleton_r, NoDup_Permutation.
  - by apply (NoDup_fmap_1 ResourceKey).
  - apply NoDup_singleton.
  - intros e'. rewrite list_elem_of_singleton. split; [|by intros ->]. intros Hin'.
    apply (NoDup_fmap_eq ResourceKey _ _ _ Hnd Hin' Hin). by rewrite (Honly e').
Qed.

Lemma Lookup_first_wildcard e d q rest l :
  cache_inv d → abs d !! ResourceKey e = Some (record_of e) →
  only_resource d (CanonicalName (FQDN e)) (ResourceKey e) → not_filed d (CanonicalName q) →
  SplitDomainName (CanonicalName q) = l :: rest → wildcard_name rest = CanonicalName (FQDN e) →
  Lookup q d = [canonical_entry e].
Proof using All.
  intros HI Hrec Honly Hq Hsplit Hw. pose proof (bucket_record e d HI Hrec Honly) as Hb.
  unfold Lookup, bucket in *. destruct (entries_of (entries d) !! CanonicalName (FQDN e)) as [b|] eqn:He;
    [|done]. cbn in Hb. subst b.
  destruct (not_initialised d) eqn:Hni.
  { destruct (not_initialised_empty d (proj1 HI) Hni) as [Hemp _]. by rewrite Hemp, lookup_empty in He. }
  unfold not_filed in Hq. rewrite Hq, Hsplit. cbn [lookup_wildcard]. by rewrite Hw, He.
Qed.
End cache.

(** * Properties *)

Section system.
Context `{DNSLibLaws, NamingLaws, CoreDNS}.
Context (unicode_lower : string → string) (unix_now : Z) (rr_address : RR → string).
Context (Hcoredns : plugin_A_laws rr_address).
Context (cg : ClusterGateway) (svc : Service) (Hsvc : Gateway cg = Some svc).
Context (name_labels ns_labels suffix_labels : list string).
Context (Hname : nn_name (ClusterNamespacedName cg) = domain name_labels).
Context (Hns : nn_namespace (ClusterNamespacedName cg) = domain ns_labels).
Context (Hsuffix : DomainSuffix cg = domain suffix_labels).
Context (Hlabels : lower_labels name_labels ∧ lower_labels ns_labels ∧ lower_labels suffix_labels).
Abbreviation glabels := (gateway_labels name_labels ns_labels suffix_labels).

Lemma glabels_lower : lower_labels glabels.
Proof using Hlabels.
  destruct Hlabels as ((_ & ?) & (_ & ?) & (_ & ?)). split; [done|].
  unfold gateway_labels. rewrite !Forall_app, !Forall_singleton. by split_and!.
Qed.

Lemma gateway_hostname_domain : gateway_hostname cg = domain ("*" :: glabels).
Proof using Hname Hns Hsuffix Hlabels.
  destruct Hlabels as ((Hne1 & _) & (Hne2 & _) & (Hne3 & _)).
  unfold gateway_hostname, gateway_labels. rewrite Hname, Hns, Hsuffix.
  rewrite domain_cons by done. rewrite !domain_app by (done || by intros [? ?]%app_nil).
  reflexivity.
Qed.

Lemma star_label : lower_label "*" = true.
Proof. vm_compute. reflexivity. Qed.

(** The entry that the gateway's slice asks for. *)
Definition gateway_entry (req : NamespacedName) : DNSCacheEntry :=
  mkDNSCacheEntry (NamespacedName_String req) (gateway_hostname cg) (getExternalIPsFromStatus svc).

Lemma in_sync_entry gd d s req :
  ToEndpointSlice cg = Ok d → in_sync gd d s → ipv4_gateway svc →
  wanted_entry (NamespacedName_String req) s = Some (gateway_entry req).
Proof using Hsvc.
  intros Hd [(h & Hh' & Hhs) _ Hat' Hep' _] Hips.
  destruct (ToEndpointSlice_ok cg svc Hsvc) as (d' & Hd' & _ & _ & Hat & Hep & Hh & _).
  rewrite Hd in Hd'. injection Hd' as <-. rewrite Hh in Hh'. injection Hh' as <-.
  unfold wanted_entry, wanted_addresses. rewrite Hhs. cbn.
  rewrite Hat', Hat, decide_True by done. cbn.
  rewrite Hep', Hep. unfold gateway_entry, all_addresses. cbn. rewrite app_nil_r.
  do 2 f_equal. clear - Hips. unfold ipv4_gateway in Hips.
  induction Hips as [|a l [Ha _] _ IH]; [done|]. cbn [omap list_omap]. by rewrite Ha, IH.
Qed.

Lemma ipv4_is_ip a : normalise_ip a = Some a → is_ip a = true.
Proof. unfold normalise_ip. intros (ip & Ha & _)%fmap_Some. unfold is_ip. by rewrite Ha, bool_decide_eq_true_2. Qed.

Lemma gateway_addresses req :
  ipv4_gateway svc → Addresses (canonical_entry (gateway_entry req)) = getExternalIPsFromStatus svc.
Proof using Type.
  intros Hips. unfold ipv4_gateway in Hips. cbn.
  induction Hips as [|a l [Ha _] _ IH]; [done|]. cbn. rewrite IH. f_equal.
  unfold canonical_address. by rewrite (ipv4_is_ip a Ha).
Qed.

(** The lookup of a name under the gateway's domain. *)
Lemma gateway_lookup req label q d :
  lower_label label = true → label ≠ "*" → ipv4_gateway svc → cache_inv d →
  CanonicalName q = domain (label :: glabels) +:+ "." →
  not_filed d (domain (label :: glabels) +:+ ".") →
  only_resource d (CanonicalName (gateway_hostname cg)) (NamespacedName_String req) →
  resolved q (Upsert (gateway_entry req) d) = getExternalIPsFromStatus svc.
Proof using Hname Hns Hsuffix Hlabels H0.
  intros Hlab Hstar Hips HI Hq Hnot Honly. pose proof glabels_lower as Hg.
  assert (lower_labels (label :: glabels)) as Hl.
  { destruct Hg as [_ Hg]. split; [done|]. by apply Forall_cons. }
  assert (lower_labels ("*" :: glabels)) as Hs.
  { destruct Hg as [_ Hg]. split; [done|]. apply Forall_cons. split; [apply star_label|done]. }
  unfold resolved. rewrite (Lookup_after_Upsert _ d _ glabels label);
    try change (FQDN (gateway_entry req)) with (gateway_hostname cg).
  - rewrite (bucket_only (gateway_entry req) d HI Honly : bucket _ (CanonicalName (gateway_hostname cg)) = _).
    cbn [mbind list_bind]. rewrite app_nil_r. by apply gateway_addresses.
  - done.
  - by rewrite Hq.
  - rewrite Hq, gateway_hostname_domain, CanonicalName_domain by done.
    intros Heq%string_app_inj_r. rewrite !domain_cons in Heq by apply Hg.
    by apply string_app_inj_r in Heq.
  - by rewrite Hq, SplitDomainName_domain.
  - rewrite gateway_hostname_domain, CanonicalName_domain, domain_cons by (done || apply Hg).
    unfold wildcard_name. by rewrite <-!string_app_assoc.
Qed.

(** The same in a cache that has the gateway's record. *)
Lemma gateway_lookup_record req label q d :
  lower_label label = true → label ≠ "*" → ipv4_gateway svc → cache_inv d →
  CanonicalName q = domain (label :: glabels) +:+ "." →
  abs d !! NamespacedName_String req = Some (record_of (gateway_entry req)) →
  not_filed d (domain (label :: glabels) +:+ ".") →
  only_resource d (CanonicalName (gateway_hostname cg)) (NamespacedName_String req) →
  resolved q d = getExternalIPsFromStatus svc.
Proof using Hname Hns Hsuffix Hlabels H0.
  intros Hlab Hstar Hips HI Hq Hrec Hnot Honly. pose proof glabels_lower as [Hgne Hg].
  unfold resolved. rewrite (Lookup_first_wildcard (gateway_entry req) d q glabels label).
  - cbn [mbind list_bind]. rewrite app_nil_r. by apply gateway_addresses.
  - done.
  - done.
  - done.
  - by rewrite Hq.
  - rewrite Hq, SplitDomainName_domain; [done|]. split; [done|]. by apply Forall_cons.
  - change (FQDN (gateway_entry req)) with (gateway_hostname cg).
    rewrite gateway_hostname_domain, CanonicalName_domain, domain_cons;
      [|done|split; [done|]; apply Forall_cons; split; [apply star_label|done]].
    unfold wildcard_name. by rewrite <-!string_app_assoc.
Qed.

(** A question that the cache resolves to the load balancer's addresses is
    answered with them. *)
Lemma gateway_answer label c state zone :
  ipv4_gateway svc → getExternalIPsFromStatus svc ≠ [] →
  ToLower unicode_lower (QName state) = domain (label :: glabels) +:+ "." →
  QType state = TypeA → Zones_Matches (Zones c) (QName state) = zone → zone ≠ "" → QName state ≠ zone →
  resolved (domain (label :: glabels) +:+ ".") (RecordsCache c) = getExternalIPsFromStatus svc →
  ∃ rrs, ServeDNS unicode_lower unix_now c state = mkResponse
      [mkMsg (msg_header (SetReply state)) true (Answer (SetReply state) ++ rrs)] RcodeSuccess None ∧
    ∀ a, a ∈ rr_address <$> rrs ↔ a ∈ getExternalIPsFromStatus svc.
Proof using Hcoredns.
  intros Hips Hsome Hq Htype Hzone Hzne Hapex Hres.
  pose proof (ServeDNS_A_lookup unicode_lower unix_now rr_address c state zone Hcoredns Hzone Hzne
    Hapex Htype) as HA.
  rewrite Hq, Hres in HA. destruct (getExternalIPsFromStatus svc) as [|a l] eqn:Heq; [done|].
  apply HA. unfold ipv4_gateway in Hips. rewrite Heq in Hips.
  eapply Forall_impl; [exact Hips|]. cbn. intros a' [Ha Hcolon]. split; [by apply ipv4_is_ip|done].
Qed.

Lemma asked_canonical label : lower_label label = true →
  CanonicalName (domain (label :: glabels) +:+ ".") = domain (label :: glabels) +:+ ".".
Proof using Hname Hns Hsuffix Hlabels H0.
  intros Hlab. assert (lower_labels (label :: glabels)) as Hl.
  { split; [done|]. apply Forall_cons. split; [done|]. by apply glabels_lower. }
  rewrite <-(CanonicalName_domain _ Hl) at 1. by rewrite CanonicalName_idem, CanonicalName_domain.
Qed.

(** End to end.  Let a cluster store a slice in sync with a gateway whose load
    balancer has IPv4 addresses, and let the DNS server's controller reconcile that
    slice.  Then an A question for any name one label below the gateway's
    domain, [<label>.gateway.<cluster>.<namespace>.clusters.<suffix>], is answered
    with an authoritative message that carries exactly the addresses of the
    load balancer, provided that no resource of its own and no other resource
    of the wildcard is in the cache. *)
Theorem gateway_resolves gd d s (get : NamespacedName → EndpointSlice + error) req w label c state zone
    (Hd : ToEndpointSlice cg = Ok d) (Hsync : in_sync gd d s) (Hget : get req = inl s)
    (Hips : ipv4_gateway svc) (Hsome : getExternalIPsFromStatus svc ≠ [])
    (Hinv : cache_inv (EndpointSliceDNS.RecordsCache w))
    (Hlabel : lower_label label = true) (Hstar : label ≠ "*")
    (Hnot : not_filed (EndpointSliceDNS.RecordsCache w) (domain (label :: glabels) +:+ "."))
    (Honly : only_resource (EndpointSliceDNS.RecordsCache w) (CanonicalName (gateway_hostname cg))
               (NamespacedName_String req))
    (Hcache : RecordsCache c =
       EndpointSliceDNS.RecordsCache (EndpointSliceDNS.Reconcile get req w).2)
    (Hname_asked : ToLower unicode_lower (QName state) = domain (label :: glabels) +:+ ".")
    (Htype : QType state = TypeA)
    (Hzone : Zones_Matches (Zones c) (QName state) = zone) (Hzne : zone ≠ "")
    (Hapex : QName state ≠ zone) :
  ∃ rrs, ServeDNS unicode_lower unix_now c state = mkResponse
      [mkMsg (msg_header (SetReply state)) true (Answer (SetReply state) ++ rrs)] RcodeSuccess None ∧
    ∀ a, a ∈ rr_address <$> rrs ↔ a ∈ getExternalIPsFromStatus svc.
Proof using All.
  pose proof (in_sync_entry gd d s req Hd Hsync Hips) as Hentry.
  assert (EndpointSliceDNS.RecordsCache (EndpointSliceDNS.Reconcile get req w).2 =
    Upsert (gateway_entry req) (EndpointSliceDNS.RecordsCache w)) as Hrec.
  { by rewrite (Reconcile_slice get req w s Hget), Hentry. }
  rewrite Hrec in Hcache.
  apply gateway_answer with (label := label) (zone := zone); [done..|].
  rewrite Hcache. apply gateway_lookup with (label := label); [done..| |done|done].
  by apply asked_canonical.
Qed.

End system.

(** * Witnesses *)

Definition one_slice : EndpointSlice :=
  match ToEndpointSlice one_gateway with
  | Ok d => d
  | _ => stored_slice "" "" ""
  end.

Definition one_name : NamespacedName := mkNN "xcc-dns" "dev-one-gateway".
Definition empty_reconciler : EndpointSliceDNS.EndpointSliceReconciler :=
  mkReconciler new_DNSCache [].
Definition filled : CrossCluster :=
  mkCrossCluster (EndpointSliceDNS.RecordsCache
    (EndpointSliceDNS.Reconcile (λ _, inl one_slice) one_name empty_reconciler).2) ["xcc.test."].
Definition a_question : Request := mkRequest "Foo.gateway.one.dev.clusters.xcc.test." TypeA.

Lemma gateway_resolves_witness :
  ∃ rrs, ServeDNS ascii_only 0 filled a_question =
      mkResponse [mkMsg "reply" true rrs] RcodeSuccess None ∧
    ∀ a, a ∈ text_address <$> rrs ↔ a ∈ ["1.2.3.4"].
Proof.
  apply (gateway_resolves ascii_only 0 text_address simple_plugin_A one_gateway
    (lb_service "1.2.3.4" "") eq_refl ["one"] ["dev"] ["xcc"; "test"] eq_refl eq_refl eq_refl)
    with (gd := a_gd) (d := one_slice) (s := one_slice) (get := λ _, inl one_slice)
      (req := one_name) (w := empty_reconciler) (label := "foo") (zone := "xcc.test.").
  - repeat split; try discriminate; repeat (apply Forall_cons; split; [vm_compute; reflexivity|]);
      by apply Forall_nil.
  - reflexivity.
  - apply in_sync_refl. vm_compute. reflexivity.
  - reflexivity.
  - apply Forall_singleton. split; vm_compute; reflexivity.
  - discriminate.
  - apply new_DNSCache_inv.
  - vm_compute. reflexivity.
  - discriminate.
  - vm_compute. reflexivity.
  - intros e He. vm_compute in He. by apply not_elem_of_nil in He.
  - reflexivity.
  - vm_compute. reflexivity.
  - reflexivity.
  - vm_compute. reflexivity.
  - discriminate.
  - discriminate.
Defined.
