(* ===== verification/EndToEnd.v ===== *)
(** From a GatewayDNS resource on the management cluster to an answer on a
    workload cluster: the controller reconciles the resource, the DNS server of
    a cluster catches up with the slices it finds there, and the plugin
    answers. *)
From S2P Require Import Prelude GoStrings GoNet GoNetSpec DNSLib Cache CacheSpec K8s.
From S2P Require Import Kube KubeMem ClusterGateway ClusterGatewaySpec Converge ConvergeSpec.
From S2P Require Import EndpointSliceDNS EndpointSliceDNSSpec ServerTrace.
From S2P Require Import GatewayDNS GatewayDNSSpec Fleet CrossCluster CrossClusterSpec System.
#[local] Open Scope string_scope.
#[local] Open Scope list_scope.
#[local] Arguments String.append : simpl nomatch.

(** * Definitions *)

(** What the DNS server of a cluster has seen: it started with an empty cache,
    and in the end the slices of the namespace [ns] are those of [m]. *)
Record server_history `{DNSLib, Naming} (ns : string) (m : slices) (evs : list server_event)
    : Prop := {
  history_ok : Forall event_ok evs;
  history_tracked : tracked evs (∅, ∅) = true;
  history_slices n : nn_namespace n = ns → foldl api_event ∅ evs !! n = m !! n;
}.

(** The cache of the server after this. *)
Definition cache_after `{DNSLib, Naming} (evs : list server_event) : DNSCache :=
  EndpointSliceDNS.RecordsCache (for_each server_step evs (∅, empty_reconciler)).2.2.

(** An A question for the name [label] below the domain of a gateway, in a zone
    of the plugin; the domain is one of plain labels, and nothing is filed under
    the name itself. *)
Record asks_below `{DNSLib, Naming, CoreDNS} (unicode_lower : string → string)
    (cg : ClusterGateway) (name_labels ns_labels suffix_labels : list string) (label : string)
    (plugin : CrossCluster) (state : CrossCluster.Request) (zone : string) : Prop := {
  asked_name : nn_name (ClusterNamespacedName cg) = domain name_labels;
  asked_namespace : nn_namespace (ClusterNamespacedName cg) = domain ns_labels;
  asked_suffix : DomainSuffix cg = domain suffix_labels;
  asked_lower : lower_labels name_labels ∧ lower_labels ns_labels ∧ lower_labels suffix_labels;
  asked_label : lower_label label = true ∧ label ≠ "*";
  asked_QName : ToLower unicode_lower (QName state) =
    domain (label :: gateway_labels name_labels ns_labels suffix_labels) +:+ ".";
  asked_type : QType state = TypeA;
  asked_zone : Zones_Matches (Zones plugin) (QName state) = zone;
  asked_inside : zone ≠ "" ∧ QName state ≠ zone;
  asked_unfiled : not_filed (RecordsCache plugin)
    (domain (label :: gateway_labels name_labels ns_labels suffix_labels) +:+ ".");
}.

(** No other resource is filed under the domain of the gateway. *)
Definition filed_alone `{DNSLib, Naming} (cg : ClusterGateway) (d : DNSCache) : Prop :=
  only_resource d (CanonicalName (gateway_hostname cg)) (NamespacedName_String (slice_name cg)).

(** * Lemmas *)

(** The answer of a DNS server that has caught up with the slice of a gateway. *)
Section server.
Context `{DNSLibLaws, NamingLaws, CoreDNS}.
Context (unicode_lower : string → string) (unix_now : Z) (rr_address : RR → string).
Context (Hcoredns : plugin_A_laws rr_address).

(** The answer from a cache that has the record of a gateway's slice. *)
Lemma record_answers m w req cg svc d s nl nsl sl label plugin state zone :
  cache_inv (EndpointSliceDNS.RecordsCache w) → up_to_date m (cache_records w) (slice_name cg) →
  Gateway cg = Some svc → ipv4_gateway svc → getExternalIPsFromStatus svc ≠ [] →
  ToEndpointSlice cg = Ok d → in_sync req d s → m !! slice_name cg = Some s →
  RecordsCache plugin = EndpointSliceDNS.RecordsCache w →
  asks_below unicode_lower cg nl nsl sl label plugin state zone →
  filed_alone cg (RecordsCache plugin) →
  ∃ rrs, ServeDNS unicode_lower unix_now plugin state = mkResponse
      [mkMsg (msg_header (SetReply state)) true (Answer (SetReply state) ++ rrs)] RcodeSuccess None ∧
    ∀ a, a ∈ rr_address <$> rrs ↔ a ∈ getExternalIPsFromStatus svc.
Proof using All.
  intros HI Hup Hsvc Hips Hsome Hd Hsync Hs Hcache Hask Hal.
  unfold up_to_date in Hup. rewrite Hs in Hup.
  specialize (Hup _ (in_sync_entry cg svc Hsvc req d s (slice_name cg) Hd Hsync Hips)).
  destruct Hask as [Hn1 Hn2 Hn3 Hlow [Hl Hstar] Hq Hty Hz [Hz1 Hz2] Hun].
  unfold cache_records in Hup. rewrite <-Hcache in HI, Hup.
  eapply (gateway_answer unicode_lower unix_now rr_address); try done.
  eapply (gateway_lookup_record cg svc nl nsl sl Hn1 Hn2 Hn3 Hlow); try done.
  by eapply (asked_canonical cg nl nsl sl Hn1 Hn2 Hn3 Hlow).
Qed.

Lemma server_answers ns m evs req cg svc d s nl nsl sl label plugin state zone :
  server_history ns m evs → has_byte "/" ns = false → ControllerNamespace cg = ns →
  ServerTrace.pending (slice_name cg) evs = false →
  Gateway cg = Some svc → ipv4_gateway svc → getExternalIPsFromStatus svc ≠ [] →
  ToEndpointSlice cg = Ok d → in_sync req d s → m !! slice_name cg = Some s →
  RecordsCache plugin = cache_after evs →
  asks_below unicode_lower cg nl nsl sl label plugin state zone →
  filed_alone cg (RecordsCache plugin) →
  ∃ rrs, ServeDNS unicode_lower unix_now plugin state = mkResponse
      [mkMsg (msg_header (SetReply state)) true (Answer (SetReply state) ++ rrs)] RcodeSuccess None ∧
    ∀ a, a ∈ rr_address <$> rrs ↔ a ∈ getExternalIPsFromStatus svc.
Proof using All.
  intros [Hok Htr Hsl] Hvalid Hctl Hpend Hsvc Hips Hsome Hd Hsync Hs Hcache Hask Hal.
  assert (cache_records empty_reconciler = ∅) as Hempty by done.
  destruct (server_synced ∅ empty_reconciler evs) as (w' & Hrun & HI & Hup);
    [apply new_DNSCache_inv|done|by rewrite Hempty|].
  unfold cache_after in Hcache. rewrite Hrun in Hcache. cbn [snd] in Hcache.
  specialize (Hup (slice_name cg) ltac:(unfold valid_nn, slice_name; by rewrite Hctl) Hpend).
  eapply record_answers; try done. by rewrite Hsl.
Qed.
End server.

Section pipeline.
Context {W : Type} `{Management W} `{!Kube W, NamingLaws}.
Context (gds : W → gmap NamespacedName GatewayDNS) (cls : W → list Cluster).
Context (Hmgmt : management_api gds cls).
Context (services : Client → W → gmap NamespacedName Service).
Context (client_of : NamespacedName → Client) (store : Client → W → slices).
Context (r : GatewayDNSReconciler) (ok : NamespacedName → bool).

Abbreviation ns := (esr_Namespace (gr_EndpointSliceReconciler r)).
Abbreviation slices_of c w := (store (client_of (meta_key (cl_meta c))) w).
Abbreviation collects := (gathered_for gds cls services client_of r ok).

Context (Hns : col_Namespace (gr_ClusterGatewayCollector r) = ns).

(** The gateways of a request are of different clusters, and each one that can
    be queried has addresses. *)
Lemma gathered_keys w req gws :
  collects w req gws →
  (∀ cg, cg ∈ gws → filed_under gws (slice_name cg) = Some cg) ∧
  ∀ cg svc, cg ∈ gws → Gateway cg = Some svc →
    Unreachable cg = false ∧ getExternalIPsFromStatus svc ≠ [].
Proof using Hmgmt Hns.
  intros Hg. pose proof Hg as [Hok Hby]%(gathered_for_ok gds cls Hmgmt services client_of r ok Hns).
  unfold gathered_for in Hg. destruct (gds w !! req) as [gd|].
  2: { subst gws. by split; intros ? *; intros ?%not_elem_of_nil. }
  destruct Hg as [Honce Hsound _]. split.
  - intros cg Hin. destruct (filed_under_some gws cg Hin) as [cg' Hcg']. rewrite Hcg'. f_equal.
    apply filed_under_lookup in Hcg' as [Hin' Hk].
    apply (NoDup_fmap_eq ClusterNamespacedName _ _ _ Honce Hin' Hin).
    eapply Forall_forall in Hok as Hok1; [|exact Hin]. eapply Forall_forall in Hok as Hok2; [|exact Hin'].
    destruct Hok1 as (Hc1 & _), Hok2 as (Hc2 & _). apply EndpointSliceKey_inj.
    + rewrite (selected_namespace _ _ _ _ _ (Hby _ Hin')). symmetry.
      by rewrite (selected_namespace _ _ _ _ _ (Hby _ Hin)).
    + congruence.
    + unfold ClusterGateway_EndpointSliceKey. unfold slice_name in Hk. congruence.
  - intros cg svc Hin Hg. destruct (Hsound cg Hin) as ((_ & _ & _ & Hcg) & _).
    destruct (Unreachable cg); [congruence|]. destruct Hcg as (svc' & Hg' & _ & Hip).
    split; [done|congruence].
Qed.

(** Where a GatewayDNS is settled, the slice of each gateway is there. *)
Lemma settled_slices req w gws m cg svc :
  collects w req gws → settled ns req gws m → cg ∈ gws → Gateway cg = Some svc →
  getExternalIPsFromStatus svc ≠ [] ∧ ControllerNamespace cg = ns ∧
  ∃ d s, ToEndpointSlice cg = Ok d ∧ in_sync req d s ∧ m !! slice_name cg = Some s.
Proof using Hmgmt Hns.
  intros Hcol Hset Hin Hg.
  destruct (gathered_keys w req gws Hcol) as [Hfiled Hgs]. destruct (Hgs cg svc Hin Hg) as [Hu Hip].
  destruct (gathered_for_ok gds cls Hmgmt services client_of r ok Hns w req gws Hcol) as [Hok _].
  eapply Forall_forall in Hok as (Hctl & _); [|exact Hin].
  destruct (ToEndpointSlice_ok cg svc Hg) as (d & Hd & _).
  assert (desired_slice cg = Some d) as Hds by (unfold desired_slice; by rewrite Hu, Hd).
  split; [done|]. split; [done|]. specialize (Hset (slice_name cg)).
  rewrite (Hfiled cg Hin), Hds in Hset. destruct Hset as (s & Hs & Hsync); [done|].
  by exists d, s.
Qed.

Context (Htracker : client_tracker client_of) (Hframe : api_frame store).
Context (Hquiet : quiet_reads cls services) (Hservices : service_api services client_of ok).
Context (orders : nat → RangeOrder) (Horders : ∀ i, valid_order (orders i)).
Context (admissible : EndpointSlice → Prop).

(** A reconciliation leaves the slice of each gateway in each healthy cluster. *)
Lemma reconciled_slices req gd sel w :
  gds w !! req = Some gd →
  LabelSelectorAsSelector (spec_ClusterSelector (gd_Spec gd)) = inl sel →
  fleet_healthy cls client_of store r req admissible ok w →
  accepted gds cls services client_of store r admissible ok w req →
  ∃ gws res w', Reconcile orders r req w = (res, w') ∧
    (all_ok cls req ok w → res = Ok tt) ∧ collects w req gws ∧
    ∀ c cg svc, c ∈ cls w → om_Namespace (cl_meta c) = nn_namespace req →
      ok (meta_key (cl_meta c)) = true → cg ∈ gws → Gateway cg = Some svc →
      getExternalIPsFromStatus svc ≠ [] ∧ ControllerNamespace cg = ns ∧
      ∃ d s, ToEndpointSlice cg = Ok d ∧ in_sync req d s ∧
        slices_of c w' !! slice_name cg = Some s.
Proof using All.
  intros Hgd Hsel Hok Hacc.
  destruct (reconcile_gathered gds cls Hmgmt services client_of store Htracker Hframe r req orders
    Horders admissible ok Hquiet Hservices gd sel w Hgd Hsel Hns Hok) as (gws & Hg & Hrun).
  assert (collects w req gws) as Hcol by (unfold gathered_for; by rewrite Hgd).
  destruct (Hrun (Hacc gws Hcol)) as (res & w' & Hrec & _ & Hall & Hconv).
  exists gws, res, w'. split_and!; [done..|].
  intros c cg svc Hc Hcns Hcok Hin Hgw. eapply settled_slices; try done.
  eapply converged_settled. by apply (Hconv c).
Qed.

(** * Properties *)

Context `{DNSLibLaws, CoreDNS}.
Context (unicode_lower : string → string) (unix_now : Z) (rr_address : RR → string).
Context (Hcoredns : plugin_A_laws rr_address).
Context (Hvalid : has_byte "/" ns = false).

(** C2: from a GatewayDNS to an answer.  Reconcile a GatewayDNS resource on the
    management cluster, validation accepting the slices of its gateways in the
    healthy clusters of its namespace.  Then on each of these, once the DNS
    server of that cluster has seen, from its start with an empty cache, the
    slices that are now there and reconciled the one of a gateway after its
    last change - whatever else happened before and in between -, and nothing
    else is filed under that gateway's domain, an A question for a name one
    label below it, [<label>.gateway.<cluster>.<namespace>.clusters.<suffix>],
    is answered with an authoritative message that carries exactly the
    addresses of the gateway's load balancer.  The gateways are those that the
    clusters have: the load balancer service of every healthy cluster that is
    selected is among them. *)
Theorem gateway_dns_resolves req gd sel w
    (Hgd : gds w !! req = Some gd)
    (Hsel : LabelSelectorAsSelector (spec_ClusterSelector (gd_Spec gd)) = inl sel)
    (Hhealthy : fleet_healthy cls client_of store r req admissible ok w)
    (Haccepted : accepted gds cls services client_of store r admissible ok w req) :
  ∃ gws res w', Reconcile orders r req w = (res, w') ∧
    (all_ok cls req ok w → res = Ok tt) ∧ collects w req gws ∧
    ∀ c cg svc, c ∈ cls w → om_Namespace (cl_meta c) = nn_namespace req →
      ok (meta_key (cl_meta c)) = true → cg ∈ gws → Gateway cg = Some svc → ipv4_gateway svc →
      ∀ evs nl nsl sl label plugin state zone,
        server_history ns (slices_of c w') evs → ServerTrace.pending (slice_name cg) evs = false →
        RecordsCache plugin = cache_after evs →
        asks_below unicode_lower cg nl nsl sl label plugin state zone →
        filed_alone cg (RecordsCache plugin) →
        ∃ rrs, ServeDNS unicode_lower unix_now plugin state = mkResponse
            [mkMsg (msg_header (SetReply state)) true (Answer (SetReply state) ++ rrs)]
            RcodeSuccess None ∧
          ∀ a, a ∈ rr_address <$> rrs ↔ a ∈ getExternalIPsFromStatus svc.
Proof using All.
  destruct (reconciled_slices req gd sel w Hgd Hsel Hhealthy Haccepted)
    as (gws & res & w' & Hrun & Hall & Hcol & Hslices).
  exists gws, res, w'. split; [done|]. split; [done|]. split; [done|].
  intros c cg svc Hc Hcns Hcok Hin Hg Hips evs nl nsl sl label plugin state zone Hh Hp Hcache Hask Hal.
  destruct (Hslices c cg svc Hc Hcns Hcok Hin Hg) as (Hip & Hctl & d & s & Hd & Hsync & Hs).
  by eapply server_answers.
Qed.
End pipeline.

(** * Witness

    The GatewayDNS [front] selects cluster "one", whose DNS server then sees
    and reconciles all slices that are there. *)
Definition front_gateway : ClusterGateway :=
  mkClusterGateway (mkNN "dev" "one") (Some (lb_service "1.2.3.4" "")) false "xcc.test"
    "xcc-dns" front.
Definition front_slices : slices :=
  mem_store (mkNN "dev" "one")
    (Reconcile (W := MemWorld) (λ _, list_order) a_controller front tier_world).2.
Definition front_events : list server_event :=
  ((λ p, SliceSet p.1 p.2) <$> map_to_list front_slices) ++
  (Reconciled <$> (map_to_list front_slices).*1).
Definition front_plugin : CrossCluster := mkCrossCluster (cache_after front_events) ["xcc.test."].

Lemma front_history : server_history "xcc-dns" front_slices front_events.
Proof.
  split.
  - vm_compute. repeat constructor.
  - vm_compute. reflexivity.
  - intros n _. f_equal.
Qed.

(** The one cluster that [front] selects is healthy, so its gateway is collected. *)
Lemma front_gathered w gws :
  same_mgmt (W := MemWorld) mem_gds mem_cls own_services w tier_world →
  gathered_for (W := MemWorld) mem_gds mem_cls own_services own_client a_controller is_one w front gws →
  front_gateway ∈ gws.
Proof.
  intros Hw Hg. eapply gathered_same in Hg; [|exact Hw]. unfold gathered_for in Hg.
  rewrite front_stored in Hg.
  destruct (gathered_all _ _ _ _ _ _ _ _ Hg (tier_cluster "one" "f") (lb_service "1.2.3.4" ""))
    as [Hin|[Hbad _]].
  - apply (bool_decide_unpack _). vm_compute. exact I.
  - reflexivity.
  - exists [("tier", "f")]. split; vm_compute; reflexivity.
  - unfold own_services. rewrite mem_services_lookup. vm_compute. reflexivity.
  - split; [reflexivity|discriminate].
  - exact Hin.
  - vm_compute in Hbad. discriminate Hbad.
Qed.

Lemma tier_accepted req :
  accepted (W := MemWorld) mem_gds mem_cls own_services own_client mem_store a_controller valid is_one
    tier_world req.
Proof. apply mem_accepted; vm_compute; reflexivity. Qed.

Lemma front_asked :
  asks_below ascii_only front_gateway ["one"] ["dev"] ["xcc"; "test"] "foo" front_plugin a_question
    "xcc.test.".
Proof.
  split.
  - reflexivity.
  - reflexivity.
  - reflexivity.
  - repeat split; try discriminate; repeat (apply Forall_cons; split; [vm_compute; reflexivity|]);
      by apply Forall_nil.
  - split; [vm_compute; reflexivity|discriminate].
  - vm_compute. reflexivity.
  - reflexivity.
  - vm_compute. reflexivity.
  - split; discriminate.
  - vm_compute. reflexivity.
Qed.

Lemma front_alone : filed_alone front_gateway (RecordsCache front_plugin).
Proof. intros e He. vm_compute in He. apply list_elem_of_singleton in He as ->. reflexivity. Qed.

Lemma gateway_dns_resolves_witness :
  ∃ rrs, ServeDNS ascii_only 0 front_plugin a_question =
      mkResponse [mkMsg "reply" true rrs] RcodeSuccess None ∧
    ∀ a, a ∈ text_address <$> rrs ↔ a ∈ ["1.2.3.4"].
Proof.
  destruct (gateway_dns_resolves mem_gds mem_cls mem_management_api own_services own_client mem_store
    a_controller is_one eq_refl (mem_tracker a_network) (mem_api_frame a_network) (mem_quiet a_network)
    (mem_service_api a_network is_one) (λ _, list_order) (λ _, list_order_valid) valid
    ascii_only 0 text_address simple_plugin_A eq_refl front front_dns [("tier", "f")] tier_world)
    as (gws & res & w' & Hrun & _ & Hcol & Hans).
  - exact front_stored.
  - vm_compute. reflexivity.
  - intros c Hc _. exact (tier_healthy tier_world c Hc).
  - apply tier_accepted.
  - apply front_gathered in Hcol as Hin; [|reflexivity].
    apply (Hans (tier_cluster "one" "f") front_gateway (lb_service "1.2.3.4" ""))
      with
      (evs := front_events) (zone := "xcc.test.") (nl := ["one"]) (nsl := ["dev"])
      (sl := ["xcc"; "test"]) (label := "foo").
    + apply (bool_decide_unpack _). vm_compute. reflexivity.
    + reflexivity.
    + vm_compute. reflexivity.
    + exact Hin.
    + reflexivity.
    + apply Forall_singleton. split; vm_compute; reflexivity.
    + assert (w' = (Reconcile (W := MemWorld) (λ _, list_order) a_controller front tier_world).2)
        as -> by (by rewrite Hrun). exact front_history.
    + vm_compute. reflexivity.
    + reflexivity.
    + exact front_asked.
    + exact front_alone.
Defined.
