(* ===== verification/Deployment.v ===== *)
(** A DNS server as it is deployed on a workload cluster: it sees the API
    server through an informer, works off a queue, may crash and is started
    again, while the slices change under it.

    [ServerTrace] has one server that never stops and whose history is given;
    here a server is a state machine with its queue.  [Running] puts the servers
    of all clusters and the GatewayDNS controller over one world. *)
From S2P Require Import Prelude GoStrings GoNet GoNetSpec DNSLib Cache CacheSpec K8s.
From S2P Require Import Kube KubeMem ClusterGateway ClusterGatewaySpec Converge ConvergeSpec.
From S2P Require Import EndpointSliceDNS EndpointSliceDNSSpec ServerTrace.
From S2P Require Import GatewayDNS GatewayDNSSpec Fleet CrossCluster CrossClusterSpec System EndToEnd.
#[local] Open Scope string_scope.
#[local] Open Scope list_scope.

(** * Definitions *)

(** ** One server *)

(** A server that runs: its copy of the slices (the informer, from which the
    client reads), the names that wait, and the reconciler with its cache. *)
Record server := mkServer {
  sv_view : api_slices;
  sv_queue : gset NamespacedName;
  sv_state : EndpointSliceDNS.EndpointSliceReconciler;
}.

Section machine.
Context `{DNSLib, Naming}.
(** The namespace that the server watches. *)
Context (ns : string).

(** At its start the server lists the slices and queues all of them; the cache
    is empty. *)
Definition started (api : api_slices) : server :=
  let listed := filter (λ p, nn_namespace p.1 = ns) api in
  mkServer listed (dom listed) empty_reconciler.

(** The informer hears of a name. *)
Definition observe (api : api_slices) (n : NamespacedName) (v : server) : server :=
  mkServer (partial_alter (λ _, api !! n) n (sv_view v)) ({[ n ]} ∪ sv_queue v) (sv_state v).

(** What a server does on its own when the slices are [api]; [None] is a
    server that is down.  A panic of [Reconcile] ends the process. *)
Inductive server_work (api : api_slices) : option server → option server → Prop :=
  | sv_reconcile v n st :
      n ∈ sv_queue v →
      EndpointSliceDNS.Reconcile (get_from (sv_view v)) n (sv_state v) = (Ok tt, st) →
      server_work api (Some v) (Some (mkServer (sv_view v) (sv_queue v ∖ {[ n ]}) st))
  | sv_crash v n st :
      n ∈ sv_queue v →
      EndpointSliceDNS.Reconcile (get_from (sv_view v)) n (sv_state v) = (Panic, st) →
      server_work api (Some v) None
  | sv_start : server_work api None (Some (started api)).

(** Also, the informer hears of changes, reads fail and are tried again, and
    the server is stopped. *)
Inductive server_step (api : api_slices) : option server → option server → Prop :=
  | sv_work o o' : server_work api o o' → server_step api o o'
  | sv_observe v n :
      nn_namespace n = ns → server_step api (Some v) (Some (observe api n v))
  | sv_retry v n err st :
      n ∈ sv_queue v → IsNotFound err = false →
      EndpointSliceDNS.Reconcile (λ _, inr err) n (sv_state v) = (Err err, st) →
      server_step api (Some v) (Some (mkServer (sv_view v) (sv_queue v) st))
  | sv_stop v : server_step api (Some v) None.

(** The states that a server can be in, whatever the slices were at each step. *)
Definition server_reachable : option server → Prop :=
  rtc (λ o o', ∃ api, server_step api o o') None.

Record server_ok (v : server) : Prop := {
  sv_inv : cache_inv (EndpointSliceDNS.RecordsCache (sv_state v));
  sv_names n : n ∈ sv_queue v → nn_namespace n = ns;
  sv_up n : nn_namespace n = ns → n ∉ sv_queue v →
    up_to_date (sv_view v) (cache_records (sv_state v)) n;
  sv_source key r : cache_records (sv_state v) !! key = Some r →
    ∃ n, nn_namespace n = ns ∧ key = NamespacedName_String n ∧
      (n ∈ sv_queue v ∨ is_Some (sv_view v !! n));
}.

(** The informer has heard of everything. *)
Definition sees (api : api_slices) (o : option server) : Prop :=
  match o with
  | Some v => ∀ n, nn_namespace n = ns → sv_view v !! n = api !! n
  | None => True
  end.

(** The server has no work left and has heard of everything. *)
Definition idle (api : api_slices) (v : server) : Prop :=
  sv_queue v = ∅ ∧ sees api (Some v).

(** Of the slices in the namespace only the one of [cg] asks for a record under the
    domain of [cg]; others ask for other names, or for none. *)
Definition only_asker (api : api_slices) (cg : ClusterGateway) : Prop :=
  ∀ n s e, nn_namespace n = ns → api !! n = Some s →
    wanted_entry (NamespacedName_String n) s = Some e →
    CanonicalName (FQDN e) = CanonicalName (gateway_hostname cg) → n = slice_name cg.

(** The server knows of nothing else under that domain. *)
Record knows_only (cg : ClusterGateway) (v : server) : Prop := {
  only_in_view : only_asker (sv_view v) cg;
  only_in_cache key x : cache_records (sv_state v) !! key = Some x →
    x.1 = CanonicalName (gateway_hostname cg) → key = NamespacedName_String (slice_name cg);
}.

(** No name that waits is gone without having left a record. *)
Definition safe_queue (v : server) : Prop := ∀ n, n ∈ sv_queue v →
  is_Some (sv_view v !! n) ∨ is_Some (cache_records (sv_state v) !! NamespacedName_String n).

(** How much a server can do without hearing of a change. *)
Definition work_bound (api : api_slices) (o : option server) : nat :=
  let listed := size (filter (λ p, nn_namespace p.1 = ns) api) in
  match o with
  | Some v => size (sv_queue v) + listed + 2
  | None => listed + 1
  end.

End machine.

(** * Lemmas *)

Section machine.
Context `{DNSLibLaws, NamingLaws}.
Context (ns : string) (Hvalid : has_byte "/" ns = false).

Lemma watched_valid n : nn_namespace n = ns → valid_nn n.
Proof using Hvalid. unfold valid_nn. by intros ->. Qed.

Lemma listed_lookup api n :
  nn_namespace n = ns → filter (λ p, nn_namespace p.1 = ns) api !! n = (api : api_slices) !! n.
Proof.
  intros Hn. rewrite map_lookup_filter. destruct (api !! n) as [s|]; [|done]. cbn.
  by rewrite option_guard_True.
Qed.

Lemma started_ok api : server_ok ns (started ns api).
Proof.
  split; cbn.
  - apply new_DNSCache_inv.
  - intros n [s [_ Hn]%map_lookup_filter_Some]%elem_of_dom. done.
  - intros n Hn Hq%not_elem_of_dom. unfold up_to_date. by rewrite Hq.
  - done.
Qed.

(** The names behind the records after a reconciliation. *)
Lemma source_reconcile view n r (P : NamespacedName → Prop) key x :
  (∀ key x, r !! key = Some x → ∃ m, nn_namespace m = ns ∧ key = NamespacedName_String m ∧ P m) →
  nn_namespace n = ns → spec_reconcile (get_from view) n r !! key = Some x →
  ∃ m, nn_namespace m = ns ∧ key = NamespacedName_String m ∧
    ((m ≠ n ∧ P m) ∨ (m = n ∧ is_Some (view !! m))).
Proof.
  intros Hr Hn Hx. destruct (decide (key = NamespacedName_String n)) as [->|Hne].
  - exists n. split; [done|]. split; [done|]. right. split; [done|].
    unfold spec_reconcile, get_from in Hx. destruct (view !! n); [by eexists|].
    cbn in Hx. by rewrite lookup_delete_eq in Hx.
  - rewrite spec_reconcile_other in Hx by done. destruct (Hr _ _ Hx) as (m & Hm & -> & HP).
    exists m. split; [done|]. split; [done|]. left. split; [|done]. by intros ->.
Qed.

(** A reconciliation of [n] brings [n] up to date and leaves the other names alone. *)
Lemma up_to_date_reconcile view n r m :
  nn_namespace n = ns → nn_namespace m = ns →
  (m ≠ n → up_to_date view r m) → up_to_date view (spec_reconcile (get_from view) n r) m.
Proof using All.
  intros Hn Hm Hup. destruct (decide (m = n)) as [->|Hne]; [apply spec_reconcile_here|].
  specialize (Hup Hne). unfold up_to_date in *. rewrite spec_reconcile_other; [done|].
  intros Heq%NamespacedName_String_inj; [done|by apply watched_valid..].
Qed.

Lemma server_step_ok api o o' :
  server_step ns api o o' → (∀ v, o = Some v → server_ok ns v) → ∀ v', o' = Some v' → server_ok ns v'.
Proof using All.
  intros Hstep Ho v' Hv'.
  destruct Hstep as [o o' Hwork|v n Hn|v n err st Hn Herr Hrec|v]; [destruct Hwork as [v n st Hn Hrec|v n st Hn Hrec|]|..];
    try (injection Hv' as <-); try discriminate; try (specialize (Ho v eq_refl); destruct Ho as [HI Hnames Hup Hsrc]).
  - destruct (Reconcile_refine (get_from (sv_view v)) n (sv_state v) HI) as [HI' Hr].
    rewrite Hrec in HI', Hr. cbn [snd] in HI', Hr. split; cbn.
    + done.
    + intros m [Hm _]%elem_of_difference. by apply Hnames.
    + intros m Hm Hmq. rewrite Hr. apply up_to_date_reconcile; [by apply Hnames|done|].
      intros Hne. apply Hup; [done|]. set_solver.
    + intros key x Hx. rewrite Hr in Hx.
      destruct (source_reconcile _ _ _ _ _ _ Hsrc (Hnames n Hn) Hx) as (m & Hm & Hk & Hcase).
      exists m. set_solver.
  - apply started_ok.
  - split; cbn.
    + done.
    + intros m [->%elem_of_singleton|Hm]%elem_of_union; [done|by apply Hnames].
    + intros m Hm Hmq. assert (m ≠ n) as Hne by set_solver. specialize (Hup m Hm ltac:(set_solver)).
      unfold up_to_date in *. by rewrite lookup_partial_alter_ne.
    + intros key x (m & Hm & Hk & Hcase)%Hsrc. exists m. split; [done|]. split; [done|].
      destruct (decide (m = n)) as [->|Hne]; [set_solver|].
      rewrite lookup_partial_alter_ne by done. set_solver.
  - destruct (Reconcile_refine (λ _, inr err) n (sv_state v) HI) as [HI' Hr].
    rewrite Hrec in HI', Hr. cbn [snd] in HI', Hr. unfold spec_reconcile in Hr. rewrite Herr in Hr.
    split; cbn; [done|done|..]; by rewrite Hr.
Qed.

Lemma server_reachable_ok o : server_reachable ns o → ∀ v, o = Some v → server_ok ns v.
Proof using All.
  apply (rtc_ind_r (λ o, ∀ v, o = Some v → server_ok ns v) None); [done|].
  intros o2 o3 _ [api Hstep] IH. by eapply server_step_ok.
Qed.

(** ** Working off the queue *)

Lemma safe_no_crash v n st :
  server_ok ns v → safe_queue v → n ∈ sv_queue v →
  EndpointSliceDNS.Reconcile (get_from (sv_view v)) n (sv_state v) ≠ (Panic, st).
Proof using All.
  intros [HI _ _ _] Hsafe Hn Hrec.
  pose proof (Reconcile_result (get_from (sv_view v)) n (sv_state v) HI) as Hres.
  rewrite Hrec in Hres. cbn [fst] in Hres. unfold get_from in Hres.
  destruct (Hsafe n Hn) as [[s Hs]|[e He]].
  - by rewrite Hs in Hres.
  - destruct (sv_view v !! n); [done|]. cbn in Hres. by rewrite He in Hres.
Qed.

Lemma safe_started api : safe_queue (started ns api).
Proof. intros n Hn. left. by apply (elem_of_dom (M := gmap NamespacedName)). Qed.

Lemma safe_reconcile v n st :
  server_ok ns v → n ∈ sv_queue v →
  EndpointSliceDNS.Reconcile (get_from (sv_view v)) n (sv_state v) = (Ok tt, st) →
  safe_queue v → safe_queue (mkServer (sv_view v) (sv_queue v ∖ {[ n ]}) st).
Proof using All.
  intros [HI Hnames _ _] Hn Hrec Hsafe m [Hm Hmn%not_elem_of_singleton]%elem_of_difference. cbn.
  destruct (Hsafe m Hm) as [Hs|He]; [by left|]. right.
  destruct (Reconcile_refine (get_from (sv_view v)) n (sv_state v) HI) as [_ Hr].
  rewrite Hrec in Hr. cbn [snd] in Hr. rewrite Hr, spec_reconcile_other; [done|].
  intros Heq%NamespacedName_String_inj; [done|by apply watched_valid, Hnames..].
Qed.

(** What is left to do gets less with every step: the names that wait, and as
    long as one of them may crash the server, a start. *)
Definition work_left (api : api_slices) (o : option server) (k : nat) : Prop :=
  let listed := size (filter (λ p, nn_namespace p.1 = ns) api) in
  match o with
  | Some v => (size (sv_queue v) ≤ k)%nat ∧ (safe_queue v ∨ (size (sv_queue v) + listed + 2 ≤ k)%nat)
  | None => (listed + 1 ≤ k)%nat
  end.

Lemma work_left_step api o o' k :
  (∀ v, o = Some v → server_ok ns v) → server_work ns api o o' → work_left api o k →
  ∃ k', k = S k' ∧ work_left api o' k'.
Proof using All.
  intros Ho Hwork. destruct Hwork as [v n st Hn Hrec|v n st Hn Hrec|]; cbn.
  - intros [Hk Hcase]. specialize (Ho v eq_refl).
    assert (size (sv_queue v) = S (size (sv_queue v ∖ {[ n ]}))) as Hsize.
    { rewrite size_difference by set_solver. rewrite size_singleton.
      assert (size (sv_queue v) ≠ 0) by (intros ?%size_empty_inv; set_solver). lia. }
    exists (pred k). split; [lia|]. split; [lia|].
    destruct Hcase as [Hsafe|Hk']; [left; by apply safe_reconcile|right; lia].
  - intros [Hk [Hsafe|Hk']].
    + by destruct (safe_no_crash v n st (Ho v eq_refl) Hsafe Hn Hrec).
    + exists (pred k). split; [lia|]. lia.
  - intros Hk. exists (pred k). rewrite size_dom. split; [lia|]. split; [lia|].
    left. apply safe_started.
Qed.

Lemma work_left_steps api k o o' m :
  (∀ v, o = Some v → server_ok ns v) → nsteps (server_work ns api) k o o' → work_left api o m →
  (k ≤ m)%nat.
Proof using All.
  intros Ho Hsteps. revert m Ho. induction Hsteps as [o|k o1 o2 o3 Hwork _ IH]; intros m Ho Hm; [lia|].
  destruct (work_left_step api o1 o2 m Ho Hwork Hm) as (m' & -> & Hm').
  apply le_n_S, IH; [|done]. eapply server_step_ok; [by apply sv_work|done].
Qed.

(** Work is possible until nothing waits. *)
Lemma work_possible api o :
  (∀ v, o = Some v → server_ok ns v) →
  (∃ o', server_work ns api o o') ∨ ∃ v, o = Some v ∧ sv_queue v = ∅.
Proof using All.
  intros Ho. destruct o as [v|]; [|left; eexists; apply sv_start].
  specialize (Ho v eq_refl). destruct (set_choose_or_empty (sv_queue v)) as [[n Hn]|Hq].
  - left. destruct (EndpointSliceDNS.Reconcile (get_from (sv_view v)) n (sv_state v)) as [res st] eqn:Hrec.
    pose proof (Reconcile_result (get_from (sv_view v)) n (sv_state v) (sv_inv _ _ Ho)) as Hres.
    rewrite Hrec in Hres. cbn [fst] in Hres. unfold get_from in Hres.
    assert (res = Ok tt ∨ res = Panic) as [-> | ->].
    { destruct (sv_view v !! n); [by left|]. cbn in Hres. case_decide; subst; auto. }
    + eexists. by eapply sv_reconcile.
    + eexists. by eapply sv_crash.
  - right. exists v. split; [done|]. by apply leibniz_equiv.
Qed.

(** ** One domain, one slice *)

Lemma spec_reconcile_only view n r cg :
  only_asker ns view cg → nn_namespace n = ns →
  (∀ key x, r !! key = Some x → x.1 = CanonicalName (gateway_hostname cg) →
     key = NamespacedName_String (slice_name cg)) →
  ∀ key x, spec_reconcile (get_from view) n r !! key = Some x →
    x.1 = CanonicalName (gateway_hostname cg) → key = NamespacedName_String (slice_name cg).
Proof.
  intros Hview Hn Hr key x. unfold spec_reconcile, get_from.
  destruct (view !! n) as [s|] eqn:Hs; [|cbn; intros [_ Hx]%lookup_delete_Some; by apply Hr].
  destruct (wanted_entry (NamespacedName_String n) s) as [e|] eqn:He; [|by apply Hr].
  intros [[<- <-]|[_ Hx]]%lookup_insert_Some Hf; [|by apply (Hr key x)].
  by rewrite (Hview n s e Hn Hs He Hf).
Qed.

(** A server that has only ever seen slices of which [cg]'s alone asks for its
    domain knows of nothing else under it. *)
Lemma server_step_only api cg o o' :
  server_step ns api o o' → only_asker ns api cg →
  (∀ v, o = Some v → server_ok ns v ∧ knows_only ns cg v) → ∀ v', o' = Some v' → knows_only ns cg v'.
Proof using All.
  intros Hstep Hapi Ho v' Hv'.
  destruct Hstep as [o o' Hwork|v n Hn|v n err st Hn Herr Hrec|v]; [destruct Hwork as [v n st Hn Hrec|v n st Hn Hrec|]|..];
    try (injection Hv' as <-); try discriminate;
    try (destruct (Ho v eq_refl) as [[HI Hnames _ _] [Hview Hcache]]).
  - destruct (Reconcile_refine (get_from (sv_view v)) n (sv_state v) HI) as [_ Hr].
    rewrite Hrec in Hr. cbn [snd] in Hr. split; cbn; [done|]. rewrite Hr.
    apply spec_reconcile_only; [done|by apply Hnames|done].
  - split; cbn; [|done]. intros n s e Hn [Hs _]%map_lookup_filter_Some. by apply Hapi.
  - split; cbn; [|done]. intros m s e Hm. destruct (decide (m = n)) as [->|Hne].
    + rewrite lookup_partial_alter_eq. by apply Hapi.
    + rewrite lookup_partial_alter_ne by done. by apply Hview.
  - destruct (Reconcile_refine (λ _, inr err) n (sv_state v) HI) as [_ Hr].
    rewrite Hrec in Hr. cbn [snd] in Hr. unfold spec_reconcile in Hr. rewrite Herr in Hr.
    split; cbn; [done|]. by rewrite Hr.
Qed.

Lemma knows_only_alone cg v :
  server_ok ns v → knows_only ns cg v → filed_alone cg (EndpointSliceDNS.RecordsCache (sv_state v)).
Proof using All.
  intros [HI _ _ _] [_ Hcache] e Hin.
  apply (Hcache _ (CanonicalName (gateway_hostname cg), e)); [|done]. by apply abs_lookup.
Qed.

Lemma server_work_sees api o o' : server_work ns api o o' → sees ns api o → sees ns api o'.
Proof.
  intros Hwork Hs. destruct Hwork as [v n st _ _|v n st _ _|]; cbn in *; [done|done|].
  intros n Hn. by apply listed_lookup.
Qed.

End machine.

(** * Properties *)

Section liveness.
Context `{DNSLibLaws, NamingLaws}.
Context (ns : string) (Hvalid : has_byte "/" ns = false).


End liveness.

(** * Witnesses *)

(** A server that successfully reconciles a name. *)
Definition serve `{DNSLib, Naming} (n : NamespacedName) (v : server) : server :=
  mkServer (sv_view v) (sv_queue v ∖ {[ n ]})
    (EndpointSliceDNS.Reconcile (get_from (sv_view v)) n (sv_state v)).2.

Lemma serve_work `{DNSLib, Naming} ns api n v :
  n ∈ sv_queue v → (EndpointSliceDNS.Reconcile (get_from (sv_view v)) n (sv_state v)).1 = Ok tt →
  server_work ns api (Some v) (Some (serve n v)).
Proof.
  intros Hn Hres. apply (sv_reconcile _ _ v n); [done|]. rewrite <-Hres. apply surjective_pairing.
Qed.

Lemma idle_no_work `{DNSLib, Naming} ns api v o : sv_queue v = ∅ → ¬ server_work ns api (Some v) o.
Proof. intros Hq Hwork. inversion Hwork as [? n ? Hn|? n ? Hn|]; subst; rewrite Hq in Hn; set_solver. Qed.

(** A server that starts without slices, hears of "two", then that it is gone,
    then of "one": it crashes on "two", starts again and serves "one". *)
Definition name_one : NamespacedName := mkNN "xcc" "one".
Definition name_two : NamespacedName := mkNN "xcc" "two".
Definition api_one : api_slices := {[ name_one := example_slice ]}.
Definition crashing : server :=
  observe api_one name_one (observe ∅ name_two
    (observe {[ name_two := example_slice ]} name_two (started "xcc" ∅))).

Lemma crashing_view : sv_view crashing = api_one.
Proof. vm_compute. reflexivity. Qed.
Lemma served_queue : sv_queue (serve name_one (started "xcc" api_one)) = ∅.
Proof. vm_compute. reflexivity. Qed.

Lemma crashing_reachable : server_reachable "xcc" (Some crashing).
Proof.
  apply (rtc_l _ None (Some (started "xcc" ∅))); [exists ∅; apply sv_work, sv_start|].
  eapply rtc_l; [exists {[ name_two := example_slice ]}; by apply (sv_observe _ _ _ name_two)|].
  eapply rtc_l; [exists ∅; by apply (sv_observe _ _ _ name_two)|].
  eapply rtc_l; [exists api_one; by apply (sv_observe _ _ _ name_one)|]. apply rtc_refl.
Qed.

Lemma crashing_work :
  nsteps (server_work "xcc" api_one) 3 (Some crashing) (Some (serve name_one (started "xcc" api_one))).
Proof.
  eapply nsteps_l.
  { apply (sv_crash _ _ crashing name_two
      (EndpointSliceDNS.Reconcile (get_from (sv_view crashing)) name_two (sv_state crashing)).2).
    - vm_compute. reflexivity.
    - vm_compute. reflexivity. }
  eapply nsteps_l; [apply sv_start|].
  eapply nsteps_l; [|apply nsteps_O].
  apply serve_work; vm_compute; reflexivity.
Qed.

