(* ===== verification/Running.v ===== *)
(** Everything at once: the GatewayDNS controller of [Worker] and the DNS
    servers of [Deployment] over one world that changes. *)
From S2P Require Import Prelude GoStrings GoNet GoNetSpec DNSLib Cache CacheSpec K8s.
From S2P Require Import Kube KubeMem ClusterGateway ClusterGatewaySpec Converge ConvergeSpec.
From S2P Require Import EndpointSliceDNS EndpointSliceDNSSpec ServerTrace.
From S2P Require Import GatewayDNS GatewayDNSSpec Fleet Worker CrossCluster CrossClusterSpec System EndToEnd.
From S2P Require Import Deployment.
#[local] Open Scope string_scope.
#[local] Open Scope list_scope.

(** * Definitions *)

(** The controller with the world, and the DNS servers that run, by the names
    of their clusters. *)
Record running (W : Type) `{DNSLib} := mkRunning {
  run_controller : controller_state W;
  run_servers : gmap NamespacedName server;
}.
Arguments mkRunning {W _} _ _.
Arguments run_controller {W _} _.
Arguments run_servers {W _} _.

Section running.
Context {W : Type} `{Management W} `{!Kube W, NamingLaws} `{DNSLibLaws}.
Context (gds : W → gmap NamespacedName GatewayDNS) (cls : W → list Cluster).
Context (services : Client → W → gmap NamespacedName Service).
Context (client_of : NamespacedName → Client) (store : Client → W → slices).
Context (r : GatewayDNSReconciler).
Context (admissible : EndpointSlice → Prop) (ok : NamespacedName → bool).

Abbreviation ns := (esr_Namespace (gr_EndpointSliceReconciler r)).
Abbreviation running := (running W).
Abbreviation run_world x := (cs_world (run_controller x)).
Abbreviation reachable_controller :=
  (controller_reachable gds cls services client_of store r admissible ok).
Abbreviation collects := (gathered_for gds cls services client_of r ok).

(** The controller and the world take a step, or the DNS server of a cluster,
    which sees the slices of its own cluster only. *)
Inductive running_step : running → running → Prop :=
  | rn_controller c c' servers :
      controller_step gds cls services client_of store r admissible ok c c' →
      running_step (mkRunning c servers) (mkRunning c' servers)
  | rn_server c servers n o :
      server_step ns (store (client_of n) (cs_world c)) (servers !! n) o →
      running_step (mkRunning c servers) (mkRunning c (partial_alter (λ _, o) n servers)).

(** What is reached by a run that stays in worlds with [Q].  At first no DNS
    server runs. *)
Definition running_within (Q : W → Prop) (x : running) : Prop :=
  ∃ c, controller_initial gds cls client_of store r admissible ok c ∧ Q (cs_world c) ∧
    rtc (λ x y, running_step x y ∧ Q (run_world y)) (mkRunning c ∅) x.

(** In none of these worlds any slice of the cluster [n] but the one of [cg] asks
    for the domain of [cg]. *)
Definition sole_asker (Q : W → Prop) (n : NamespacedName) (cg : ClusterGateway) : Prop :=
  ∀ w, Q w → only_asker ns (store (client_of n) w) cg.

(** * Lemmas *)

Context (Hvalid : has_byte "/" ns = false).

(** What holds of each side. *)
Record running_inv (Q : W → Prop) (x : running) : Prop := {
  inv_controller : reachable_controller (run_controller x);
  inv_world : Q (run_world x);
  inv_server n v : run_servers x !! n = Some v → server_ok ns v;
  inv_only n v cg : run_servers x !! n = Some v → sole_asker Q n cg → knows_only ns cg v;
}.

Lemma running_step_inv Q x y :
  running_inv Q x → running_step x y → Q (run_world y) → running_inv Q y.
Proof using All.
  intros [(c0 & Hc0 & Hcs) HQ Hok Honly] Hstep HQ'.
  destruct Hstep as [c1 c2 servers Hstep|c1 servers n o Hstep]; cbn in *.
  - split; cbn; [|done..]. exists c0. split; [done|by eapply rtc_r].
  - split; cbn; [by exists c0|done|..].
    + intros n' v Hv. destruct (decide (n' = n)) as [->|Hne].
      * rewrite lookup_partial_alter_eq in Hv.
        eapply (server_step_ok ns Hvalid); [exact Hstep| |exact Hv]. intros v' Hv'. by eapply Hok.
      * rewrite lookup_partial_alter_ne in Hv by done. by eapply Hok.
    + intros n' v cg Hv Hsole. destruct (decide (n' = n)) as [->|Hne].
      * rewrite lookup_partial_alter_eq in Hv.
        eapply (server_step_only ns Hvalid); [exact Hstep|by apply Hsole| |exact Hv].
        intros v' Hv'. split; [by eapply Hok|by eapply Honly].
      * rewrite lookup_partial_alter_ne in Hv by done. by eapply Honly.
Qed.

Lemma running_within_inv Q x : running_within Q x → running_inv Q x.
Proof using All.
  intros (c & Hc & HQ & Hsteps).
  assert (running_inv Q (mkRunning c ∅)) as Hinv.
  { split; cbn; [exists c; split; [done|apply rtc_refl]|done|..]; intros n v; by rewrite lookup_empty. }
  induction Hsteps as [x|x y z [Hstep Hy] _ IH]; [done|]. apply IH. by eapply running_step_inv.
Qed.

(** * Properties *)

Context (Hmgmt : management_api gds cls).
Context (Htracker : client_tracker client_of) (Hframe : api_frame store).
Context (Hkeyed : ∀ c, api_keyed c (store c)).
Context (Hrespect : calls_respect (same_mgmt gds cls services)).
Context (Hservices : service_api services client_of ok).
Context (Hns : col_Namespace (gr_ClusterGatewayCollector r) = ns).
Context `{CoreDNS}.
Context (unicode_lower : string → string) (unix_now : Z) (rr_address : RR → string).
Context (Hcoredns : plugin_A_laws rr_address).


End running.

(** * Witnesses *)

(** The controller starts with both GatewayDNS of the fleet, and reconciles
    them; it fails for each because cluster "two" is down.  Then the DNS server
    of cluster "one" starts and serves all slices. *)
Definition tier_dirty : gset NamespacedName := {[ front; back ]} ∪ old_owners.
Definition tier_queue : gset NamespacedName := dom (mem_gds tier_world).

Lemma tier_dom : tier_queue = {[ front; back ]}.
Proof. apply (bool_decide_unpack _). vm_compute. exact I. Qed.

Lemma tier_started : mem_initial (mkControllerState tier_world tier_queue tier_dirty).
Proof.
  apply tier_initial; [done|done|vm_compute; reflexivity..| |].
  - fold tier_queue. rewrite tier_dom. apply union_subseteq_l.
  - apply union_subseteq_r.
Qed.

Abbreviation mem_running_step := (running_step (W := MemWorld) mem_gds mem_cls own_services own_client
  mem_store a_controller valid is_one).

Definition back_world : MemWorld := reconciled back tier_world.
Definition both_world : MemWorld := reconciled front back_world.

(** A reconciliation that fails. *)
Lemma failed_step w D req servers :
  valid_services w = true → all_ipv4 (mem_store (mkNN "dev" "one") w) = true →
  req ∈ tier_queue → (Reconcile (λ _, list_order) a_controller req w).1 = Err failed_to_converge →
  mem_running_step (mkRunning (mkControllerState w tier_queue D) servers)
    (mkRunning (mkControllerState (reconciled req w) tier_queue (D ∖ {[ req ]})) servers).
Proof.
  intros Hs Hw Hin Herr. apply rn_controller, cs_work.
  apply (cw_again _ _ _ _ _ _ _ _ _ _ _ _ req (λ _, list_order) failed_to_converge);
    [done|intros _; apply list_order_valid| |by apply mem_cleans_accepted].
  rewrite <-Herr. apply surjective_pairing.
Qed.

Definition both_slices : slices := mem_store (mkNN "dev" "one") both_world.
Definition both_server : server :=
  serve (mkNN "xcc-dns" "dev-three-gateway") (serve (mkNN "xcc-dns" "dev-gone-gateway")
    (serve (slice_name front_gateway) (started "xcc-dns" both_slices))).
Definition both_plugin : CrossCluster :=
  mkCrossCluster (EndpointSliceDNS.RecordsCache (sv_state both_server)) ["xcc.test."].
Definition both_controller : controller_state MemWorld :=
  mkControllerState both_world tier_queue ((tier_dirty ∖ {[ back ]}) ∖ {[ front ]}).
Definition both_running : running MemWorld :=
  mkRunning both_controller {[ mkNN "dev" "one" := both_server ]}.

(** Who asks for the domain of the gateway. *)
Definition asks_elsewhere `{DNSLib, Naming} (cg : ClusterGateway)
    (p : NamespacedName * EndpointSlice) : bool :=
  match wanted_entry (NamespacedName_String p.1) p.2 with
  | Some e => bool_decide (CanonicalName (FQDN e) = CanonicalName (gateway_hostname cg) →
      p.1 = slice_name cg)
  | None => true
  end.

Lemma only_asker_check `{DNSLib, Naming} ns api cg :
  forallb (asks_elsewhere cg) (map_to_list api) = true → only_asker ns api cg.
Proof.
  intros Hall n s e _ Hs%elem_of_map_to_list He.
  apply Is_true_true_2, forallb_True in Hall. eapply Forall_forall in Hall; [|exact Hs].
  unfold asks_elsewhere in Hall. cbn [fst snd] in Hall. rewrite He in Hall.
  by apply bool_decide_unpack in Hall.
Qed.

Definition front_asks (w : MemWorld) : Prop :=
  only_asker "xcc-dns" (mem_store (mkNN "dev" "one") w) front_gateway.

Lemma tier_asks : front_asks tier_world.
Proof. apply only_asker_check. vm_compute. reflexivity. Qed.
Lemma back_asks : front_asks back_world.
Proof. apply only_asker_check. vm_compute. reflexivity. Qed.
Lemma both_asks : front_asks both_world.
Proof. apply only_asker_check. vm_compute. reflexivity. Qed.

Abbreviation asking_step :=
  (λ x y : running MemWorld, mem_running_step x y ∧ front_asks (cs_world (run_controller y))).

Lemma running_server_eq servers n o servers' :
  server_step "xcc-dns" (mem_store n both_world) (servers !! n) o →
  servers' = partial_alter (λ _, o) n servers →
  asking_step (mkRunning both_controller servers) (mkRunning both_controller servers').
Proof.
  intros Hstep ->. split; [|exact both_asks].
  exact (rn_server (W := MemWorld) _ _ _ own_client _ a_controller _ _ both_controller servers n o Hstep).
Qed.

Lemma running_serve n v :
  n ∈ sv_queue v → (EndpointSliceDNS.Reconcile (get_from (sv_view v)) n (sv_state v)).1 = Ok tt →
  asking_step (mkRunning both_controller {[ mkNN "dev" "one" := v ]})
    (mkRunning both_controller {[ mkNN "dev" "one" := serve n v ]}).
Proof.
  intros Hn Hres. eapply (running_server_eq _ (mkNN "dev" "one") (Some (serve n v))).
  - rewrite lookup_singleton_eq. by apply sv_work, serve_work.
  - reflexivity.
Qed.

Lemma both_running_within :
  running_within (W := MemWorld) mem_gds mem_cls own_services own_client mem_store a_controller
    valid is_one front_asks both_running.
Proof.
  eexists. split; [exact tier_started|]. split; [exact tier_asks|].
  eapply (rtc_l _ _ (mkRunning (mkControllerState back_world tier_queue (tier_dirty ∖ {[ back ]})) ∅)).
  { split; [apply failed_step; vm_compute; reflexivity|exact back_asks]. }
  eapply (rtc_l _ _ (mkRunning both_controller ∅)).
  { split; [apply failed_step; vm_compute; reflexivity|exact both_asks]. }
  eapply (rtc_l _ _ (mkRunning both_controller {[ mkNN "dev" "one" := started "xcc-dns" both_slices ]})).
  { eapply (running_server_eq _ (mkNN "dev" "one") (Some (started "xcc-dns" both_slices)));
      [apply sv_work, sv_start|reflexivity]. }
  eapply rtc_l; [apply (running_serve (slice_name front_gateway)); vm_compute; reflexivity|].
  eapply rtc_l; [apply (running_serve (mkNN "xcc-dns" "dev-gone-gateway")); vm_compute; reflexivity|].
  apply rtc_once, running_serve; vm_compute; reflexivity.
Qed.

Lemma both_idle : idle "xcc-dns" both_slices both_server.
Proof.
  split; [vm_compute; reflexivity|]. intros n Hn. by apply listed_lookup.
Qed.

Lemma both_asked :
  asks_below ascii_only front_gateway ["one"] ["dev"] ["xcc"; "test"] "foo" both_plugin a_question
    "xcc.test.".
Proof.
  pose proof front_asked as [H1 H2 H3 H4 H5 H6 H7 H8 H9 _]. split; try done.
Qed.

Lemma tier_is_sane : mem_sane tier_world.
Proof. apply tier_sane; done. Qed.

Abbreviation mem_same_mgmt := (same_mgmt (W := MemWorld) mem_gds mem_cls own_services).

(** Reconciliations leave the management cluster alone. *)
Lemma reconciled_kept req w :
  mem_sane w → valid_nn req → mem_same_mgmt w (reconciled req w) ∧ mem_sane (reconciled req w).
Proof.
  intros Hw Hreq.
  destruct (reconcile_now mem_gds mem_cls own_services own_client mem_store a_controller valid is_one
    mem_management_api (mem_tracker a_network) (mem_api_frame a_network) (mem_api_keyed a_network)
    (mem_calls_respect a_network) (mem_service_api a_network is_one)
    eq_refl req (λ _, list_order) w Hw Hreq (λ _, list_order_valid))
    as (res & w' & Hrun & _ & Hm & Hsane & _).
  unfold reconciled. by rewrite Hrun.
Qed.

Lemma tier_kept : mem_same_mgmt tier_world both_world.
Proof.
  destruct (reconciled_kept back tier_world tier_is_sane eq_refl) as [Hb Hsane].
  destruct (reconciled_kept front _ Hsane eq_refl) as [Hf _]. by etrans.
Qed.

