(* ===== verification/Commands.v ===== *)
(** The programs around the controllers: [cmd/xcc-dns-controller/main.go], which
    builds the GatewayDNS controller from its environment, and the plugin
    order of [cmd/dns-server/main.go]. *)
From S2P Require Import Prelude GoStrings GoTime GoTimeSpec GoFlag K8s Kube ClusterGateway Converge.
From S2P Require Import KubeMem ClusterGatewaySpec ConvergeSpec GatewayDNS.
#[local] Open Scope string_scope.
#[local] Open Scope list_scope.

(** * Definitions *)

(** ** [cmd/xcc-dns-controller/main.go] *)

Record controller_config := mkControllerConfig {
  cfg_namespace : string;
  cfg_domainSuffix : string;
  cfg_gatewayDNSPollingInterval : Duration;
}.

(** The part of [main] that reads the environment.  An error is
    the exit with status 1. *)
Definition read_config (lookupEnv : string → option string) : controller_config + error :=
  match lookupEnv "NAMESPACE" with
  | None => inr (ErrNew "NAMESPACE environment variable unset. Must be set to the namespace that should be watched.")
  | Some namespace =>
      match lookupEnv "DOMAIN_SUFFIX" with
      | None => inr (ErrNew "DOMAIN_SUFFIX environment variable unset. Sets the domain suffix on generated domain names.")
      | Some domainSuffix =>
          match lookupEnv "GATEWAY_DNS_POLLING_INTERVAL" with
          | None => inl (mkControllerConfig namespace domainSuffix 0%Z)
          | Some interval =>
              match ParseDuration interval with
              | inr err => inr err
              | inl d => inl (mkControllerConfig namespace domainSuffix d)
              end
          end
      end
  end.

(** The reconciler [main] builds: both of its parts get the same namespace. *)
Definition new_reconciler (cfg : controller_config) : GatewayDNSReconciler :=
  mkGatewayDNSReconciler
    (mkEndpointSliceReconciler (cfg_namespace cfg))
    (mkCollector (cfg_domainSuffix cfg) (cfg_namespace cfg))
    (cfg_gatewayDNSPollingInterval cfg).

(** The options of the manager. *)
Record manager_options := mkManagerOptions {
  MetricsBindAddress : string;
  Port : Z;
  LeaderElection : bool;
  LeaderElectionID : string;
}.

(** The flags of [main], next to those that imported packages have defined. *)
Definition define_flags (imported : flag_set) : outcome flag_set :=
  match define "metrics-addr" (StringFlag ":8080") imported with
  | Ok formal => define "enable-leader-election" (BoolFlag false) formal
  | o => o
  end.

(** The options from the variables that the flags are bound to. *)
Definition options_of (formal : flag_set) : manager_options :=
  mkManagerOptions
    match formal !! "metrics-addr" with Some (StringFlag s) => s | _ => "" end 9443
    match formal !! "enable-leader-election" with Some (BoolFlag b) => b | _ => false end
    "d6f90f8c.tanzu.vmware.com".

(** [newManager] and [newTracker] stand for the constructors of the manager and of
    the cluster cache tracker, [Complete] for the manager's registration of the
    controller, [start] for the manager's loop.  Arguments that do not parse end
    the process with the status of [Parse]'s error. *)
Definition main {W X : Type} `{Management W} `{!Kube W, Naming}
    (imported : flag_set) (args : list string) (lookupEnv : string → option string)
    (newManager : manager_options → M X unit) (newTracker : M X unit)
    (Complete : controller W GatewayDNS → M X unit) (orders : nat → RangeOrder) (start : M X unit)
    : M X unit :=
  lift (define_flags imported) ≫= λ formal,
  match Parse args formal with
  | inr err => throw err
  | inl (formal, _) =>
      match read_config lookupEnv with
      | inr err => throw err
      | inl cfg =>
          newManager (options_of formal) ≫= λ _, newTracker ≫= λ _,
          SetupWithManager Complete orders (new_reconciler cfg) ≫= λ _, start
      end
  end.

(** ** [cmd/dns-server/main.go]

    CoreDNS runs the plugins of a server block in the order of this list. *)
Definition directives : list string :=
  ["metadata"; "cancel"; "tls"; "reload"; "nsid"; "bufsize"; "root"; "bind"; "debug"; "trace";
   "ready"; "health"; "pprof"; "prometheus"; "errors"; "log"; "dnstap"; "dns64"; "acl"; "any";
   "chaos"; "loadbalance"; "cache"; "rewrite"; "dnssec"; "autopath"; "template"; "transfer";
   "hosts"; "auto"; "crosscluster"; "secondary"; "loop"; "forward"; "erratic"; "whoami"; "on";
   "sign"].

Definition position (plugin : string) : option nat := fst <$> list_find (plugin =.) directives.

(** * Properties *)

(** The values that the flags of [main] have in the end: the last use of a flag wins. *)
Definition flag_defaults (imported : flag_set) : flag_set :=
  <["enable-leader-election" := BoolFlag false]> (<["metrics-addr" := StringFlag ":8080"]> imported).

Lemma lift_ok {X A B : Type} (a : A) (k : A → M X B) w : (lift (Ok a) ≫= k) w = k a w.
Proof. reflexivity. Qed.

Lemma define_flags_defaults imported :
  imported !! "metrics-addr" = None → imported !! "enable-leader-election" = None →
  define_flags imported = Ok (flag_defaults imported).
Proof.
  intros H1 H2. unfold define_flags, define. rewrite H1.
  by rewrite lookup_insert_ne, H2 by done.
Qed.

(** Both flags have a value of their type in the end. *)
Lemma final_flags imported us :
  ∃ address leader, set_uses (flag_defaults imported) us !! "metrics-addr" = Some (StringFlag address) ∧
    set_uses (flag_defaults imported) us !! "enable-leader-election" = Some (BoolFlag leader).
Proof.
  destruct (set_uses_kind (flag_defaults imported) us "metrics-addr" (StringFlag ":8080")) as ([address|] & Ha & Hk);
    [unfold flag_defaults; by rewrite lookup_insert_ne, lookup_insert_eq by done| |done].
  destruct (set_uses_kind (flag_defaults imported) us "enable-leader-election" (BoolFlag false))
    as ([|leader] & Hl & Hk'); [unfold flag_defaults; by rewrite lookup_insert_eq|done|]. by exists address, leader.
Qed.

(** C26: the controller of [main].  When the flags are used as they are defined,
    the manager is built with the address and the leader election of their last
    uses, and with [":8080"] and without leader election when they are not
    used.  The controller starts exactly when its namespace and domain suffix
    are set and the polling interval, if there is one, parses; then the
    reconciler that it registers writes slices into the namespace that it
    stamps on them, and polls every 30 seconds unless another interval is
    configured.  Otherwise it exits with an error and does nothing. *)
Theorem main_registers {W X : Type} `{Management W} `{!Kube W, Naming} imported us rest lookupEnv
    (newManager : manager_options → M X unit) (newTracker : M X unit)
    (Complete : controller W GatewayDNS → M X unit) orders (start : M X unit) w
    (Hmetrics : imported !! "metrics-addr" = None)
    (Hleader : imported !! "enable-leader-election" = None)
    (Hus : Forall (λ u, writable (use_name u) ∧ is_Some (use_sets (flag_defaults imported) u)) us)
    (Hrest : no_more_flags rest) :
  let run := main imported ((us ≫= render) ++ rest) lookupEnv newManager newTracker Complete orders
               start w in
  let values := set_uses (flag_defaults imported) us in
  ∃ address leader, values !! "metrics-addr" = Some (StringFlag address) ∧
    values !! "enable-leader-election" = Some (BoolFlag leader) ∧
  match lookupEnv "NAMESPACE", lookupEnv "DOMAIN_SUFFIX",
        ParseDuration <$> lookupEnv "GATEWAY_DNS_POLLING_INTERVAL" with
  | Some _, Some _, Some (inr err) => run = (Err err, w)
  | Some ns, Some suffix, interval =>
      ∃ r, run =
          (newManager (mkManagerOptions address 9443 leader "d6f90f8c.tanzu.vmware.com") ≫= λ _,
           newTracker ≫= λ _, SetupWithManager Complete orders r ≫= λ _, start) w ∧
        col_Namespace (gr_ClusterGatewayCollector r) = ns ∧
        esr_Namespace (gr_EndpointSliceReconciler r) = ns ∧
        col_DomainSuffix (gr_ClusterGatewayCollector r) = suffix ∧
        polling_interval r = match interval with
                             | Some (inl d) => if decide (d = 0%Z) then (30 * Second)%Z else d
                             | _ => (30 * Second)%Z
                             end
  | _, _, _ => ∃ err, run = (Err err, w)
  end.
Proof.
  cbn zeta. unfold main. rewrite (define_flags_defaults imported Hmetrics Hleader).
  assert (∃ left, Parse ((us ≫= render) ++ rest) (flag_defaults imported) =
    inl (set_uses (flag_defaults imported) us, left)) as [left Hparse].
  { destruct (Parse_rest rest (set_uses (flag_defaults imported) us) Hrest) as [left Hleft].
    exists left. rewrite Parse_uses; [done|eapply Forall_impl; [exact Hus|naive_solver]..]. }
  destruct (final_flags imported us) as (address & leader & Haddress & Hleaders).
  exists address, leader. split; [done|]. split; [done|].
  rewrite lift_ok, Hparse. unfold read_config, options_of. rewrite Haddress, Hleaders.
  destruct (lookupEnv "NAMESPACE") as [ns|]; [|by eexists].
  destruct (lookupEnv "DOMAIN_SUFFIX") as [suffix|]; [|by eexists].
  destruct (lookupEnv "GATEWAY_DNS_POLLING_INTERVAL") as [s|]; cbn.
  - destruct (ParseDuration s) as [d|err]; [|done].
    exists (new_reconciler (mkControllerConfig ns suffix d)). by split_and!.
  - exists (new_reconciler (mkControllerConfig ns suffix 0%Z)). by split_and!.
Qed.

(** C27: the polling interval of a controller that starts is a 64 bit count of
    nanoseconds and never 0, and a variable that holds whole numbers with units
    sets it to their sum, however many parts and digits it has, as long as the
    sum fits. *)
Theorem read_config_interval lookupEnv cfg :
  read_config lookupEnv = inl cfg →
  int64_ok (polling_interval (new_reconciler cfg)) ∧
  polling_interval (new_reconciler cfg) ≠ 0%Z ∧
  ∀ (neg : bool) ps,
    lookupEnv "GATEWAY_DNS_POLLING_INTERVAL" =
      Some (of_bytes ((if neg then ["-"%char] else []) ++ duration_text ps)) →
    ps ≠ [] → Forall part_ok ps → (duration_value ps < 2 ^ 63)%Z →
    cfg_gatewayDNSPollingInterval cfg =
      (if neg then (- duration_value ps)%Z else duration_value ps).
Proof.
  intros Hcfg. unfold read_config in Hcfg.
  destruct (lookupEnv "NAMESPACE") as [ns|]; [|done].
  destruct (lookupEnv "DOMAIN_SUFFIX") as [suffix|]; [|done].
  assert (int64_ok (cfg_gatewayDNSPollingInterval cfg) ∧
    match lookupEnv "GATEWAY_DNS_POLLING_INTERVAL" with
    | Some s => ParseDuration s = inl (cfg_gatewayDNSPollingInterval cfg)
    | None => True
    end) as [Hok Henv].
  { destruct (lookupEnv _) as [s|]; [|by injection Hcfg as <-].
    destruct (ParseDuration s) as [d|] eqn:Hd; [|done]. injection Hcfg as <-.
    split; [by eapply ParseDuration_int64|done]. }
  split; [|split].
  - unfold polling_interval. by case_decide.
  - unfold polling_interval. by case_decide.
  - intros neg ps Hs Hne Hps Hv. rewrite Hs in Henv. rewrite ParseDuration_sum in Henv by done.
    by injection Henv.
Qed.

(** The cross cluster plugin answers before a question is forwarded, and
    behind the response cache. *)
Fact directives_order :
  NoDup directives ∧ position "cache" = Some 22 ∧ position "crosscluster" = Some 30 ∧
  position "forward" = Some 33.
Proof. split; [apply (bool_decide_unpack _); vm_compute; reflexivity|by split_and!]. Qed.

(** * Witnesses *)

Definition an_env (interval : string) (name : string) : option string :=
  if decide (name = "NAMESPACE") then Some "xcc-dns"
  else if decide (name = "DOMAIN_SUFFIX") then Some "xcc.test"
  else if decide (name = "GATEWAY_DNS_POLLING_INTERVAL") then Some interval
  else None.

(** [2m030s] *)
Definition an_interval : list part :=
  [mkPart [2%Z] (to_bytes "m", Minute); mkPart [0%Z; 3%Z; 0%Z] (to_bytes "s", Second)].

Lemma read_config_interval_witness :
  ∃ cfg, read_config (an_env "2m030s") = inl cfg ∧
    cfg_gatewayDNSPollingInterval cfg = duration_value an_interval ∧
    duration_value an_interval = (150 * Second)%Z.
Proof.
  exists (mkControllerConfig "xcc-dns" "xcc.test" (150 * Second)%Z).
  assert (read_config (an_env "2m030s") =
    inl (mkControllerConfig "xcc-dns" "xcc.test" (150 * Second)%Z)) as Hcfg
    by (vm_compute; reflexivity).
  split; [exact Hcfg|]. split; [|vm_compute; reflexivity].
  apply (proj2 (proj2 (read_config_interval _ _ Hcfg)) false an_interval).
  - vm_compute. reflexivity.
  - done.
  - repeat constructor; cbn; try done; try lia.
  - vm_compute. reflexivity.
Defined.

(** The manager that the program builds for
    [-metrics-addr :8081 --enable-leader-election --metrics-addr=:9090]. *)
Definition some_flags : list flag_use :=
  [UseNext false "metrics-addr" ":8081"; UseBare true "enable-leader-election";
   UseEq true "metrics-addr" ":9090"].
Definition imported_flags : flag_set := {[ "kubeconfig" := StringFlag "" ]}.

Lemma some_flags_ok : Forall (λ u, writable (use_name u) ∧
  is_Some (use_sets (flag_defaults imported_flags) u)) some_flags.
Proof.
  assert (writable "metrics-addr") as Hm by (split; [done|by eexists _, _]).
  assert (writable "enable-leader-election") as He by (split; [done|by eexists _, _]).
  repeat apply Forall_cons_2; [..|apply Forall_nil_2]; (split; [done|]);
    apply (bool_decide_unpack _); vm_compute; exact I.
Qed.

(** The world keeps the options of the manager. *)
Definition keep_options (o : manager_options) : M (option manager_options) unit :=
  λ _, (Ok tt, Some o).

Lemma main_registers_witness :
  main (W := MemWorld) imported_flags
      ["-metrics-addr"; ":8081"; "--enable-leader-election"; "--metrics-addr=:9090"] (an_env "2m030s")
      keep_options (mret tt) (λ _, mret tt) (λ _, list_order) (mret tt) None =
    (Ok tt, Some (mkManagerOptions ":9090" 9443 true "d6f90f8c.tanzu.vmware.com")).
Proof.
  destruct (main_registers (W := MemWorld) imported_flags some_flags [] (an_env "2m030s")
    keep_options (mret tt) (λ _, mret tt) (λ _, list_order) (mret tt) None)
    as (address & leader & Haddress & Hleader & r & Hrun & _).
  - vm_compute. reflexivity.
  - vm_compute. reflexivity.
  - exact some_flags_ok.
  - exact I.
  - assert (address = ":9090" ∧ leader = true) as [-> ->].
    { vm_compute in Haddress, Hleader. split; congruence. }
    refine (eq_trans Hrun _). vm_compute. reflexivity.
Defined.
