(* ===== verification/Registration.v ===== *)
(** What the programs register before [main] runs: the API types of
    [apis/connectivity/v1alpha1] ([groupversion_info.go] and the [init] of
    [gatewaydns_types.go]), the schemes of the three programs (the [init]
    functions of [cmd/xcc-dns-controller/main.go],
    [cmd/dns-config-patcher/main.go] and
    [pkg/coredns/plugins/crosscluster/setup.go]), and the plugins that
    [cmd/dns-server/main.go] links.

    Schemes, their builders and CoreDNS's registry of plugins are classes. *)
From S2P Require Import Prelude GoStrings Commands.
#[local] Open Scope string_scope.
#[local] Open Scope list_scope.

(** * Definitions *)

(** [schema.GroupVersion] *)
Record GroupVersion := mkGroupVersion { Group : string; Version : string }.

(** A kind is the name of the Go type, in its group and version. *)
Abbreviation GroupVersionKind := (GroupVersion * string)%type.

(** [runtime.Scheme], controller-runtime's [scheme.Builder], and the
    [AddToScheme] of the packages that the programs import. *)
Class SchemeLib : Type := {
  Scheme : Type;
  NewScheme : Scheme;
  Recognizes : Scheme → GroupVersionKind → bool;
  Builder : Type;
  NewBuilder : GroupVersion → Builder;     (* [&scheme.Builder{GroupVersion: gv}] *)
  Register : list string → Builder → Builder;
  Builder_AddToScheme : Builder → Scheme → Scheme * option error;
  clientgo_AddToScheme : Scheme → Scheme * option error;
  clusterv1beta1_AddToScheme : Scheme → Scheme * option error;
  discoveryv1_AddToScheme : Scheme → Scheme * option error;
  discoveryv1beta1_AddToScheme : Scheme → Scheme * option error;
}.

(** CoreDNS's registry: which names have a plugin. *)
Class PluginLib : Type := {
  Registry : Type;
  plugin_Register : string → Registry → Registry;
  has_plugin : Registry → string → bool;
}.

Definition corev1 : GroupVersion := mkGroupVersion "" "v1".
Definition discoveryv1 : GroupVersion := mkGroupVersion "discovery.k8s.io" "v1".
Definition clusterv1beta1 : GroupVersion := mkGroupVersion "cluster.x-k8s.io" "v1beta1".

(** A function that adds kinds to a scheme: these are known afterwards, and so is what was known. *)
Record adds_kinds `{SchemeLib} (add : Scheme → Scheme * option error) (kinds : list GroupVersionKind)
    : Prop := {
  adds_new s k : k ∈ kinds → Recognizes (add s).1 k = true;
  adds_keeps s k : Recognizes s k = true → Recognizes (add s).1 k = true;
}.

(** What the programs rely on of the libraries. *)
Class SchemeLaws `{SchemeLib} : Prop := {
  builder_kinds gv names :
    adds_kinds (Builder_AddToScheme (Register names (NewBuilder gv))) (pair gv <$> names);
  clientgo_kinds :
    adds_kinds clientgo_AddToScheme
      [(corev1, "Service"); (corev1, "Namespace"); (corev1, "ConfigMap");
       (discoveryv1, "EndpointSlice"); (discoveryv1, "EndpointSliceList")];
  clusterv1beta1_kinds :
    adds_kinds clusterv1beta1_AddToScheme
      [(clusterv1beta1, "Cluster"); (clusterv1beta1, "ClusterList")];
  discoveryv1_kinds :
    adds_kinds discoveryv1_AddToScheme
      [(discoveryv1, "EndpointSlice"); (discoveryv1, "EndpointSliceList")];
  discoveryv1beta1_kinds : adds_kinds discoveryv1beta1_AddToScheme [];
}.

Class PluginLaws `{PluginLib} : Prop := {
  has_plugin_register n m r : has_plugin (plugin_Register n r) m = bool_decide (n = m) || has_plugin r m;
}.

(** ** [apis/connectivity/v1alpha1] *)

Section v1alpha1.
Context `{SchemeLib}.

(** Named apart from the type. *)
Definition v1alpha1_GroupVersion : GroupVersion :=
  mkGroupVersion "connectivity.tanzu.vmware.com" "v1alpha1".

(** The variable points at a builder; this is the builder before [init]. *)
Definition SchemeBuilder : Builder := NewBuilder v1alpha1_GroupVersion.

Definition v1alpha1_init (b : Builder) : Builder := Register ["GatewayDNS"; "GatewayDNSList"] b.

(** [SchemeBuilder.AddToScheme] is a method value of the pointer: it adds what the
    builder [b] has when it is called, not what it had when the variable was
    initialised. *)
Definition AddToScheme (b : Builder) (s : Scheme) : Scheme * option error := Builder_AddToScheme b s.

(** ** The schemes of the programs

    The errors are dropped.  Imported packages are initialised first. *)

Definition xcc_dns_controller_init (b : Builder) (scheme : Scheme) : Scheme :=
  let scheme := (clientgo_AddToScheme scheme).1 in
  let scheme := (AddToScheme b scheme).1 in
  let scheme := (clusterv1beta1_AddToScheme scheme).1 in
  (discoveryv1_AddToScheme scheme).1.

Definition dns_config_patcher_init (scheme : Scheme) : Scheme := (clientgo_AddToScheme scheme).1.

Definition xcc_dns_controller_scheme : Scheme :=
  xcc_dns_controller_init (v1alpha1_init SchemeBuilder) NewScheme.
Definition dns_config_patcher_scheme : Scheme := dns_config_patcher_init NewScheme.

(** ** The plugins of the DNS server *)

Context `{PluginLib}.

(** The [init] of the cross cluster plugin; the setup function that it
    registers is [CrossCluster.setup]. *)
Definition crosscluster_init (scheme : Scheme) (r : Registry) : Scheme * Registry :=
  let scheme := (clientgo_AddToScheme scheme).1 in
  let scheme := (discoveryv1beta1_AddToScheme scheme).1 in
  (scheme, plugin_Register "crosscluster" r).

(** The imports of [cmd/dns-server/main.go] that are there for their [init],
    next to that of the cross cluster plugin. *)
Definition coredns_imports : list string :=
  "github.com/coredns/caddy/onevent" ::
  ((λ dir, "github.com/coredns/coredns/plugin/" +:+ dir) <$>
   ["acl"; "any"; "auto"; "autopath"; "bind"; "bufsize"; "cache"; "cancel"; "chaos"; "debug";
    "dns64"; "dnssec"; "dnstap"; "erratic"; "errors"; "forward"; "health"; "hosts"; "loadbalance";
    "log"; "loop"; "metadata"; "metrics"; "nsid"; "pprof"; "ready"; "reload"; "rewrite"; "root";
    "secondary"; "sign"; "template"; "tls"; "trace"; "transfer"; "whoami"]).

(** Initialisation of the packages that [dns-server] links, in the order of the
    imports, and then its own [init], which sets the directives of CoreDNS;
    [import_init] stands for the packages of CoreDNS. *)
Definition dns_server_init (import_init : string → Registry → Registry) (scheme : Scheme)
    (r : Registry) : Scheme * Registry * list string :=
  let '(scheme, r) := crosscluster_init scheme r in
  (scheme, foldl (λ r i, import_init i r) r coredns_imports, directives).

End v1alpha1.

(** The kinds of the objects that each program reads, writes or watches. *)
Definition xcc_dns_controller_kinds : list GroupVersionKind :=
  [(v1alpha1_GroupVersion, "GatewayDNS"); (v1alpha1_GroupVersion, "GatewayDNSList");
   (clusterv1beta1, "Cluster"); (clusterv1beta1, "ClusterList"); (corev1, "Service");
   (corev1, "Namespace"); (discoveryv1, "EndpointSlice"); (discoveryv1, "EndpointSliceList")].
Definition dns_config_patcher_kinds : list GroupVersionKind :=
  [(corev1, "Service"); (corev1, "ConfigMap")].
Definition dns_server_kinds : list GroupVersionKind := [(discoveryv1, "EndpointSlice")].

(** The documented name of a plugin of CoreDNS: the directory of its package, but for
    two. *)
Definition documented_name (import : string) : string :=
  let dir := default "" (last (Split import "/")) in
  if decide (dir = "metrics") then "prometheus"
  else if decide (dir = "onevent") then "on"
  else dir.

(** * Properties *)

Section properties.
Context `{SchemeLaws, PluginLaws}.

Lemma foldl_plugins (import_init : string → Registry → Registry) imports r n
    (Hinit : ∀ i r n, has_plugin (import_init i r) n = bool_decide (documented_name i = n) || has_plugin r n) :
  has_plugin (foldl (λ r i, import_init i r) r imports) n =
    bool_decide (n ∈ documented_name <$> imports) || has_plugin r n.
Proof.
  revert r. induction imports as [|i imports IH]; intros r; cbn.
  - by rewrite bool_decide_eq_false_2 by apply not_elem_of_nil.
  - rewrite IH, Hinit. destruct (has_plugin r n); [by rewrite !orb_true_r|]. rewrite !orb_false_r.
    repeat case_bool_decide; try done; set_solver.
Qed.

Ltac laws := first [apply builder_kinds | apply clientgo_kinds | apply clusterv1beta1_kinds
  | apply discoveryv1_kinds | apply discoveryv1beta1_kinds].
Ltac known := first [eapply adds_new; [laws|set_solver] | eapply adds_keeps; [laws|known]].

(** Every program knows the kinds it works with. In [dns-server] the version of
    EndpointSlices that its controller watches comes from [clientgo_AddToScheme]
    alone; the version it adds itself is another one. *)
Theorem programs_know_their_kinds r0 import_init :
  Forall (λ k, Recognizes xcc_dns_controller_scheme k = true) xcc_dns_controller_kinds ∧
  Forall (λ k, Recognizes dns_config_patcher_scheme k = true) dns_config_patcher_kinds ∧
  Forall (λ k, Recognizes (dns_server_init import_init NewScheme r0).1.1 k = true) dns_server_kinds.
Proof.
  split_and!; unfold xcc_dns_controller_scheme, xcc_dns_controller_init, dns_config_patcher_scheme,
    dns_config_patcher_init, dns_server_init, crosscluster_init, AddToScheme; cbn [fst];
    repeat constructor; known.
Qed.

(** The server's directives and the plugins it links are the same: no plugin
    is linked that could not be used, and no directive lacks its plugin. *)
Theorem directives_are_linked import_init r0
    (Hinit : ∀ i r n, has_plugin (import_init i r) n = bool_decide (documented_name i = n) || has_plugin r n)
    (Hr0 : ∀ n, has_plugin r0 n = false) n :
  has_plugin (dns_server_init import_init NewScheme r0).1.2 n = true ↔
    n ∈ (dns_server_init import_init NewScheme r0).2.
Proof.
  unfold dns_server_init, crosscluster_init. cbn [fst snd].
  rewrite foldl_plugins by done. rewrite has_plugin_register, Hr0, orb_false_r.
  rewrite orb_true_iff, !bool_decide_eq_true.
  assert ("crosscluster" :: (documented_name <$> coredns_imports) ≡ₚ directives) as <-.
  { apply (bool_decide_unpack _). vm_compute. exact I. }
  rewrite elem_of_cons. naive_solver.
Qed.

End properties.

(** * Witnesses

    Schemes and registries as lists of what they know. *)

#[global] Instance GroupVersion_eq_dec : EqDecision GroupVersion.
Proof. solve_decision. Defined.

Definition knowing (ks : list GroupVersionKind) (s : list GroupVersionKind)
    : list GroupVersionKind * option error := (ks ++ s, None).

#[export] Instance list_schemes : SchemeLib := {|
  Scheme := list GroupVersionKind;
  NewScheme := [];
  Recognizes s k := bool_decide (k ∈ s);
  Builder := GroupVersion * list string;
  NewBuilder gv := (gv, []);
  Register names b := (b.1, b.2 ++ names);
  Builder_AddToScheme b := knowing (pair b.1 <$> b.2);
  clientgo_AddToScheme :=
    knowing [(corev1, "Service"); (corev1, "Namespace"); (corev1, "ConfigMap");
       (discoveryv1, "EndpointSlice"); (discoveryv1, "EndpointSliceList")];
  clusterv1beta1_AddToScheme := knowing [(clusterv1beta1, "Cluster"); (clusterv1beta1, "ClusterList")];
  discoveryv1_AddToScheme :=
    knowing [(discoveryv1, "EndpointSlice"); (discoveryv1, "EndpointSliceList")];
  discoveryv1beta1_AddToScheme := knowing [];
|}.

Lemma knowing_adds ks : adds_kinds (knowing ks) ks.
Proof.
  split; intros s k; cbn; rewrite !bool_decide_eq_true, elem_of_app; [by left|by right].
Qed.

#[export] Instance list_schemes_laws : SchemeLaws.
Proof. split; intros; apply knowing_adds. Qed.

#[export] Instance list_plugins : PluginLib := {|
  Registry := list string;
  plugin_Register n r := n :: r;
  has_plugin r n := bool_decide (n ∈ r);
|}.

Lemma has_plugin_cons n m r :
  has_plugin (PluginLib := list_plugins) (n :: r) m = bool_decide (n = m) || bool_decide (m ∈ r).
Proof. cbn. repeat case_bool_decide; set_solver. Qed.

#[export] Instance list_plugins_laws : PluginLaws.
Proof. split. intros n m r. apply has_plugin_cons. Qed.

Lemma directives_are_linked_witness :
  has_plugin (dns_server_init (λ i r, documented_name i :: r) NewScheme []).1.2 "prometheus" = true.
Proof.
  apply directives_are_linked.
  - intros i r n. apply has_plugin_cons.
  - done.
  - apply (bool_decide_unpack _). vm_compute. exact I.
Defined.
