(* ===== verification/Fakes.v ===== *)
(** The generated test doubles of the controllers' clients,
    [pkg/controllers/gatewaydns/gatewaydnsfakes]: [FakeClientProvider] and
    [FakeClient].

    counterfeiter writes the same seven functions for every method of an
    interface; they are defined once over a method's name [m], its arguments
    [Args m] and its results [Res m], and instantiated per method.  The stubs are functions on a
    world [W] outside of the fake.  The order in which the functions take the
    mutexes is a small machine of its own ([fake_step]). *)
From S2P Require Import Prelude GoSync K8s.
#[local] Open Scope string_scope.
#[local] Open Scope list_scope.

(** * Definitions *)

(** ** One method *)

(** [xxxStub], [xxxArgsForCall], [xxxReturns], [xxxReturnsOnCall] *)
Record fake_method (W A R : Type) := mkFakeMethod {
  fm_Stub : option (A → W → R * W);
  fm_ArgsForCall : list A;
  fm_Returns : R;
  fm_ReturnsOnCall : option (gmap Z R);
}.
Arguments mkFakeMethod {W A R} _ _ _ _.
Arguments fm_Stub {W A R} _.
Arguments fm_ArgsForCall {W A R} _.
Arguments fm_Returns {W A R} _.
Arguments fm_ReturnsOnCall {W A R} _.

(** ** A fake of an interface *)

Class Interface : Type := {
  Meth : Type;
  Meth_eq_dec :: EqDecision Meth;
  Args : Meth → Type;
  Res : Meth → Type;
  zero : ∀ m, Res m;            (* the zero values of the results *)
  any : Type;                   (* [interface{}] *)
  meth_name : Meth → string;
  args_any : ∀ m, Args m → list any;
}.

Section fake.
Context {W : Type} `{Interface}.

Record fake := mkFake {
  methods : ∀ m, fake_method W (Args m) (Res m);
  invocations : gomap (list (list any));
}.

Definition new_fake : fake := mkFake (λ m, mkFakeMethod None [] (zero m) None) None.

Definition set_method (m : Meth) (x : fake_method W (Args m) (Res m)) (f : fake) : fake :=
  mkFake (λ m', match decide (m = m') with
                | left e => eq_rect m (λ m, fake_method W (Args m) (Res m)) x m' e
                | right _ => methods f m'
                end) (invocations f).

Definition recordInvocation (key : string) (args : list any) (f : fake) : fake :=
  let log := entries_of (invocations f) in
  mkFake (methods f) (Some (<[key := default [] (log !! key) ++ [args]]> log)).

(** The method itself: it is recorded under its lock, and answers behind it. *)
Definition fake_call (m : Meth) (a : Args m) : M (fake * W) (Res m) := λ '(f, w),
  let x := methods f m in
  let specificReturn := match fm_ReturnsOnCall x with
                        | Some rs => rs !! Z.of_nat (length (fm_ArgsForCall x))
                        | None => None
                        end in
  let f := recordInvocation (meth_name m) (args_any m a)
    (set_method m (mkFakeMethod (fm_Stub x) (fm_ArgsForCall x ++ [a]) (fm_Returns x)
                     (fm_ReturnsOnCall x)) f) in
  match fm_Stub x with
  | Some stub => let '(r, w) := stub a w in (Ok r, (f, w))
  | None => (Ok (default (fm_Returns x) specificReturn), (f, w))
  end.

Definition fake_CallCount (m : Meth) : M (fake * W) Z :=
  gets (λ fw, Z.of_nat (length (fm_ArgsForCall (methods fw.1 m)))).

Definition update_method (m : Meth)
    (u : fake_method W (Args m) (Res m) → fake_method W (Args m) (Res m)) : M (fake * W) unit :=
  modify (λ fw, (set_method m (u (methods fw.1 m)) fw.1, fw.2)).

Definition fake_Calls (m : Meth) (stub : option (Args m → W → Res m * W)) : M (fake * W) unit :=
  update_method m (λ x,
    mkFakeMethod stub (fm_ArgsForCall x) (fm_Returns x) (fm_ReturnsOnCall x)).

(** An index out of range panics. *)
Definition fake_ArgsForCall (m : Meth) (i : Z) : M (fake * W) (Args m) := λ fw,
  match (if (0 <=? i)%Z then fm_ArgsForCall (methods fw.1 m) !! Z.to_nat i else None) with
  | Some a => (Ok a, fw)
  | None => (Panic, fw)
  end.

Definition fake_Returns (m : Meth) (result : Res m) : M (fake * W) unit :=
  update_method m (λ x,
    mkFakeMethod None (fm_ArgsForCall x) result (fm_ReturnsOnCall x)).

Definition fake_ReturnsOnCall (m : Meth) (i : Z) (result : Res m) : M (fake * W) unit :=
  update_method m (λ x,
    mkFakeMethod None (fm_ArgsForCall x) (fm_Returns x)
      (Some (<[i := result]> (default ∅ (fm_ReturnsOnCall x))))).

(** The copy shares the lists of invocations, which are only ever appended to. *)
Definition fake_Invocations : M (fake * W) (gmap string (list (list any))) :=
  gets (λ fw, entries_of (invocations fw.1)).

End fake.
Arguments fake W {_}.

(** ** Locking

    What a goroutine does to the mutexes: the method's own mutex, named like
    the method, and the one of the invocations, named by the empty string. *)
Inductive lock_action :=
  | DoLock (l : string)
  | DoUnlock (l : string)
  | DoRLock (l : string)
  | DoRUnlock (l : string).

Definition invocationsMutex : string := "".

(** A method: [recordInvocation] runs before the method's mutex is released. *)
Definition call_locks (m : string) : list lock_action :=
  [DoLock m; DoLock invocationsMutex; DoUnlock invocationsMutex; DoUnlock m].
(** [xxxCalls], [xxxReturns], [xxxReturnsOnCall] *)
Definition setter_locks (m : string) : list lock_action := [DoLock m; DoUnlock m].
(** [xxxCallCount], [xxxArgsForCall] *)
Definition getter_locks (m : string) : list lock_action := [DoRLock m; DoRUnlock m].
(** [Invocations]; the deferred unlocks run in reverse order. *)
Definition Invocations_locks (ms : list string) : list lock_action :=
  (DoRLock <$> invocationsMutex :: ms) ++ (DoRUnlock <$> reverse (invocationsMutex :: ms)).

Record locking := mkLocking {
  mutexes : gmap string rwmutex;
  goroutines : gmap nat (list lock_action);
}.

Definition mutex_of (c : locking) (l : string) : rwmutex := default rw_free (mutexes c !! l).

(** What one action makes of its mutex; [None] when it has to wait. *)
Definition do_action (tid : nat) (a : lock_action) (c : locking) : option (string * rwmutex) :=
  match a with
  | DoLock l =>
      let m := mutex_of c l in
      if bool_decide (rw_writer m = None) && bool_decide (rw_readers m = ∅)
      then Some (l, rw_lock tid m) else None
  | DoUnlock l => Some (l, rw_unlock (mutex_of c l))
  | DoRLock l =>
      let m := mutex_of c l in
      if bool_decide (rw_writer m = None) then Some (l, rw_rlock tid m) else None
  | DoRUnlock l => Some (l, rw_runlock tid (mutex_of c l))
  end.

Definition next_locking (c : locking) (tid : nat) : option locking :=
  match goroutines c !! tid with
  | Some (a :: rest) =>
      match do_action tid a c with
      | Some (l, m) => Some (mkLocking (<[l := m]> (mutexes c)) (<[tid := rest]> (goroutines c)))
      | None => None
      end
  | _ => None
  end.

Definition fake_step (c c' : locking) : Prop := ∃ tid, next_locking c tid = Some c'.

(** A goroutine that waits for [Lock] keeps new readers out.  The model does
    not tell one that waits from one that is about to: a step is certain to be
    granted when no [Lock] of that mutex is next anywhere. *)
Definition fake_granted (tid : nat) (c c' : locking) : Prop :=
  next_locking c tid = Some c' ∧
  ∀ l rest, goroutines c !! tid = Some (DoRLock l :: rest) →
    ∀ tid' rest', goroutines c !! tid' ≠ Some (DoLock l :: rest').


(** ** The types of controller-runtime that the fakes only pass on *)

Class ClientTypes : Type := {
  ContextType : Type; Object : Type; ObjectList : Type; PatchType : Type;
  CreateOption : Type; DeleteOption : Type; DeleteAllOfOption : Type; ListOption : Type;
  PatchOption : Type; UpdateOption : Type;
  RESTMapperType : Type; SchemeType : Type; StatusWriterType : Type;
  ClientType : Type;
}.

Section instances.
Context {W : Type} `{ClientTypes}.

(** ** [fake_client_provider.go] *)

Inductive provider_any := PAnyContext (c : ContextType) | PAnyNamespacedName (n : NamespacedName).

#[local] Instance provider_interface : Interface := {|
  Meth := unit;
  Args _ := (ContextType * NamespacedName)%type;
  Res _ := (option ClientType * option error)%type;
  zero _ := (None, None);
  any := provider_any;
  meth_name _ := "GetClient";
  args_any _ a := [PAnyContext a.1; PAnyNamespacedName a.2];
|}.

Definition FakeClientProvider : Type := fake W.

Definition FakeClientProvider_GetClient arg1 arg2 : M (FakeClientProvider * W) ((option ClientType * option error)) :=
  fake_call tt (arg1, arg2).
Definition FakeClientProvider_GetClientCallCount : M (FakeClientProvider * W) Z := fake_CallCount tt.
Definition FakeClientProvider_GetClientCalls (stub : option (ContextType * NamespacedName → W → (option ClientType * option error) * W)) : M (FakeClientProvider * W) unit :=
  fake_Calls tt stub.
Definition FakeClientProvider_GetClientArgsForCall (i : Z) : M (FakeClientProvider * W) (ContextType * NamespacedName) :=
  fake_ArgsForCall tt i.
Definition FakeClientProvider_GetClientReturns result1 result2 : M (FakeClientProvider * W) unit :=
  fake_Returns tt (result1, result2).
Definition FakeClientProvider_GetClientReturnsOnCall (i : Z) result1 result2 : M (FakeClientProvider * W) unit :=
  fake_ReturnsOnCall tt i (result1, result2).
Definition FakeClientProvider_Invocations : M (FakeClientProvider * W) (gmap string (list (list provider_any))) :=
  fake_Invocations.

(** ** [fake_client.go] *)

Inductive client_any :=
  | AnyContext (c : ContextType) | AnyObject (o : Object) | AnyObjectList (o : ObjectList)
  | AnyNamespacedName (n : NamespacedName) | AnyPatch (p : PatchType)
  | AnyCreateOptions (o : slice CreateOption) | AnyDeleteOptions (o : slice DeleteOption)
  | AnyDeleteAllOfOptions (o : slice DeleteAllOfOption) | AnyListOptions (o : slice ListOption)
  | AnyPatchOptions (o : slice PatchOption) | AnyUpdateOptions (o : slice UpdateOption).

Inductive client_method :=
  | MCreate | MDelete | MDeleteAllOf | MGet | MList | MPatch | MRESTMapper | MScheme | MStatus | MUpdate.

#[local] Instance client_method_eq_dec : EqDecision client_method.
Proof. solve_decision. Defined.

Definition client_args (m : client_method) : Type :=
  match m with
  | MCreate => (ContextType * Object * slice CreateOption)%type
  | MDelete => (ContextType * Object * slice DeleteOption)%type
  | MDeleteAllOf => (ContextType * Object * slice DeleteAllOfOption)%type
  | MGet => (ContextType * NamespacedName * Object)%type
  | MList => (ContextType * ObjectList * slice ListOption)%type
  | MPatch => (ContextType * Object * PatchType * slice PatchOption)%type
  | MRESTMapper => unit
  | MScheme => unit
  | MStatus => unit
  | MUpdate => (ContextType * Object * slice UpdateOption)%type
  end.

Definition client_res (m : client_method) : Type :=
  match m with
  | MCreate => option error
  | MDelete => option error
  | MDeleteAllOf => option error
  | MGet => option error
  | MList => option error
  | MPatch => option error
  | MRESTMapper => option RESTMapperType
  | MScheme => option SchemeType
  | MStatus => option StatusWriterType
  | MUpdate => option error
  end.

Definition client_name (m : client_method) : string :=
  match m with
  | MCreate => "Create"
  | MDelete => "Delete"
  | MDeleteAllOf => "DeleteAllOf"
  | MGet => "Get"
  | MList => "List"
  | MPatch => "Patch"
  | MRESTMapper => "RESTMapper"
  | MScheme => "Scheme"
  | MStatus => "Status"
  | MUpdate => "Update"
  end.

Definition client_zero (m : client_method) : client_res m :=
  match m with
  | MCreate => None
  | MDelete => None
  | MDeleteAllOf => None
  | MGet => None
  | MList => None
  | MPatch => None
  | MRESTMapper => None
  | MScheme => None
  | MStatus => None
  | MUpdate => None
  end.

Definition client_args_any (m : client_method) : client_args m → list client_any :=
  match m with
  | MCreate => λ a, [AnyContext a.1.1; AnyObject a.1.2; AnyCreateOptions a.2]
  | MDelete => λ a, [AnyContext a.1.1; AnyObject a.1.2; AnyDeleteOptions a.2]
  | MDeleteAllOf => λ a, [AnyContext a.1.1; AnyObject a.1.2; AnyDeleteAllOfOptions a.2]
  | MGet => λ a, [AnyContext a.1.1; AnyNamespacedName a.1.2; AnyObject a.2]
  | MList => λ a, [AnyContext a.1.1; AnyObjectList a.1.2; AnyListOptions a.2]
  | MPatch => λ a, [AnyContext a.1.1.1; AnyObject a.1.1.2; AnyPatch a.1.2; AnyPatchOptions a.2]
  | MRESTMapper => λ a, []
  | MScheme => λ a, []
  | MStatus => λ a, []
  | MUpdate => λ a, [AnyContext a.1.1; AnyObject a.1.2; AnyUpdateOptions a.2]
  end.

#[local] Instance client_interface : Interface := {|
  Meth := client_method;
  Args := client_args;
  Res := client_res;
  zero := client_zero;
  any := client_any;
  meth_name := client_name;
  args_any := client_args_any;
|}.

Definition FakeClient : Type := fake W.

(** The mutexes that [Invocations] takes behind its own, in its order. *)
Definition client_methods : list client_method :=
  [MCreate; MDelete; MDeleteAllOf; MGet; MList; MPatch; MRESTMapper; MScheme; MStatus; MUpdate].

Definition FakeClient_Create arg1 arg2 arg3 : M (FakeClient * W) (option error) :=
  fake_call MCreate (arg1, arg2, arg3).
Definition FakeClient_CreateCallCount : M (FakeClient * W) Z := fake_CallCount MCreate.
Definition FakeClient_CreateCalls (stub : option (ContextType * Object * slice CreateOption → W → option error * W)) : M (FakeClient * W) unit :=
  fake_Calls MCreate stub.
Definition FakeClient_CreateArgsForCall (i : Z) : M (FakeClient * W) (ContextType * Object * slice CreateOption) :=
  fake_ArgsForCall MCreate i.
Definition FakeClient_CreateReturns result1 : M (FakeClient * W) unit := fake_Returns MCreate result1.
Definition FakeClient_CreateReturnsOnCall (i : Z) result1 : M (FakeClient * W) unit :=
  fake_ReturnsOnCall MCreate i result1.
Definition FakeClient_Delete arg1 arg2 arg3 : M (FakeClient * W) (option error) :=
  fake_call MDelete (arg1, arg2, arg3).
Definition FakeClient_DeleteCallCount : M (FakeClient * W) Z := fake_CallCount MDelete.
Definition FakeClient_DeleteCalls (stub : option (ContextType * Object * slice DeleteOption → W → option error * W)) : M (FakeClient * W) unit :=
  fake_Calls MDelete stub.
Definition FakeClient_DeleteArgsForCall (i : Z) : M (FakeClient * W) (ContextType * Object * slice DeleteOption) :=
  fake_ArgsForCall MDelete i.
Definition FakeClient_DeleteReturns result1 : M (FakeClient * W) unit := fake_Returns MDelete result1.
Definition FakeClient_DeleteReturnsOnCall (i : Z) result1 : M (FakeClient * W) unit :=
  fake_ReturnsOnCall MDelete i result1.
Definition FakeClient_DeleteAllOf arg1 arg2 arg3 : M (FakeClient * W) (option error) :=
  fake_call MDeleteAllOf (arg1, arg2, arg3).
Definition FakeClient_DeleteAllOfCallCount : M (FakeClient * W) Z := fake_CallCount MDeleteAllOf.
Definition FakeClient_DeleteAllOfCalls (stub : option (ContextType * Object * slice DeleteAllOfOption → W → option error * W)) : M (FakeClient * W) unit :=
  fake_Calls MDeleteAllOf stub.
Definition FakeClient_DeleteAllOfArgsForCall (i : Z) : M (FakeClient * W) (ContextType * Object * slice DeleteAllOfOption) :=
  fake_ArgsForCall MDeleteAllOf i.
Definition FakeClient_DeleteAllOfReturns result1 : M (FakeClient * W) unit := fake_Returns MDeleteAllOf result1.
Definition FakeClient_DeleteAllOfReturnsOnCall (i : Z) result1 : M (FakeClient * W) unit :=
  fake_ReturnsOnCall MDeleteAllOf i result1.
Definition FakeClient_Get arg1 arg2 arg3 : M (FakeClient * W) (option error) :=
  fake_call MGet (arg1, arg2, arg3).
Definition FakeClient_GetCallCount : M (FakeClient * W) Z := fake_CallCount MGet.
Definition FakeClient_GetCalls (stub : option (ContextType * NamespacedName * Object → W → option error * W)) : M (FakeClient * W) unit :=
  fake_Calls MGet stub.
Definition FakeClient_GetArgsForCall (i : Z) : M (FakeClient * W) (ContextType * NamespacedName * Object) :=
  fake_ArgsForCall MGet i.
Definition FakeClient_GetReturns result1 : M (FakeClient * W) unit := fake_Returns MGet result1.
Definition FakeClient_GetReturnsOnCall (i : Z) result1 : M (FakeClient * W) unit :=
  fake_ReturnsOnCall MGet i result1.
Definition FakeClient_List arg1 arg2 arg3 : M (FakeClient * W) (option error) :=
  fake_call MList (arg1, arg2, arg3).
Definition FakeClient_ListCallCount : M (FakeClient * W) Z := fake_CallCount MList.
Definition FakeClient_ListCalls (stub : option (ContextType * ObjectList * slice ListOption → W → option error * W)) : M (FakeClient * W) unit :=
  fake_Calls MList stub.
Definition FakeClient_ListArgsForCall (i : Z) : M (FakeClient * W) (ContextType * ObjectList * slice ListOption) :=
  fake_ArgsForCall MList i.
Definition FakeClient_ListReturns result1 : M (FakeClient * W) unit := fake_Returns MList result1.
Definition FakeClient_ListReturnsOnCall (i : Z) result1 : M (FakeClient * W) unit :=
  fake_ReturnsOnCall MList i result1.
Definition FakeClient_Patch arg1 arg2 arg3 arg4 : M (FakeClient * W) (option error) :=
  fake_call MPatch (arg1, arg2, arg3, arg4).
Definition FakeClient_PatchCallCount : M (FakeClient * W) Z := fake_CallCount MPatch.
Definition FakeClient_PatchCalls (stub : option (ContextType * Object * PatchType * slice PatchOption → W → option error * W)) : M (FakeClient * W) unit :=
  fake_Calls MPatch stub.
Definition FakeClient_PatchArgsForCall (i : Z) : M (FakeClient * W) (ContextType * Object * PatchType * slice PatchOption) :=
  fake_ArgsForCall MPatch i.
Definition FakeClient_PatchReturns result1 : M (FakeClient * W) unit := fake_Returns MPatch result1.
Definition FakeClient_PatchReturnsOnCall (i : Z) result1 : M (FakeClient * W) unit :=
  fake_ReturnsOnCall MPatch i result1.
Definition FakeClient_RESTMapper : M (FakeClient * W) (option RESTMapperType) :=
  fake_call MRESTMapper tt.
Definition FakeClient_RESTMapperCallCount : M (FakeClient * W) Z := fake_CallCount MRESTMapper.
Definition FakeClient_RESTMapperCalls (stub : option (unit → W → option RESTMapperType * W)) : M (FakeClient * W) unit :=
  fake_Calls MRESTMapper stub.
Definition FakeClient_RESTMapperReturns result1 : M (FakeClient * W) unit := fake_Returns MRESTMapper result1.
Definition FakeClient_RESTMapperReturnsOnCall (i : Z) result1 : M (FakeClient * W) unit :=
  fake_ReturnsOnCall MRESTMapper i result1.
Definition FakeClient_Scheme : M (FakeClient * W) (option SchemeType) :=
  fake_call MScheme tt.
Definition FakeClient_SchemeCallCount : M (FakeClient * W) Z := fake_CallCount MScheme.
Definition FakeClient_SchemeCalls (stub : option (unit → W → option SchemeType * W)) : M (FakeClient * W) unit :=
  fake_Calls MScheme stub.
Definition FakeClient_SchemeReturns result1 : M (FakeClient * W) unit := fake_Returns MScheme result1.
Definition FakeClient_SchemeReturnsOnCall (i : Z) result1 : M (FakeClient * W) unit :=
  fake_ReturnsOnCall MScheme i result1.
Definition FakeClient_Status : M (FakeClient * W) (option StatusWriterType) :=
  fake_call MStatus tt.
Definition FakeClient_StatusCallCount : M (FakeClient * W) Z := fake_CallCount MStatus.
Definition FakeClient_StatusCalls (stub : option (unit → W → option StatusWriterType * W)) : M (FakeClient * W) unit :=
  fake_Calls MStatus stub.
Definition FakeClient_StatusReturns result1 : M (FakeClient * W) unit := fake_Returns MStatus result1.
Definition FakeClient_StatusReturnsOnCall (i : Z) result1 : M (FakeClient * W) unit :=
  fake_ReturnsOnCall MStatus i result1.
Definition FakeClient_Update arg1 arg2 arg3 : M (FakeClient * W) (option error) :=
  fake_call MUpdate (arg1, arg2, arg3).
Definition FakeClient_UpdateCallCount : M (FakeClient * W) Z := fake_CallCount MUpdate.
Definition FakeClient_UpdateCalls (stub : option (ContextType * Object * slice UpdateOption → W → option error * W)) : M (FakeClient * W) unit :=
  fake_Calls MUpdate stub.
Definition FakeClient_UpdateArgsForCall (i : Z) : M (FakeClient * W) (ContextType * Object * slice UpdateOption) :=
  fake_ArgsForCall MUpdate i.
Definition FakeClient_UpdateReturns result1 : M (FakeClient * W) unit := fake_Returns MUpdate result1.
Definition FakeClient_UpdateReturnsOnCall (i : Z) result1 : M (FakeClient * W) unit :=
  fake_ReturnsOnCall MUpdate i result1.
Definition FakeClient_Invocations : M (FakeClient * W) (gmap string (list (list client_any))) :=
  fake_Invocations.
Definition FakeClient_recordInvocation (key : string) (args : list client_any) : FakeClient → FakeClient :=
  recordInvocation key args.

End instances.
