(* ===== verification/FakesSpec.v ===== *)
(** What the fakes promise to the tests that use them: they keep what they were
    called with, and calls never block each other for good; [Invocations]
    does, since it takes the mutexes in the other order. *)
From S2P Require Import Prelude GoSync K8s Fakes.
#[local] Open Scope string_scope.
#[local] Open Scope list_scope.

(** * Definitions *)

(** ** What a test does to a fake *)

Section operations.
Context {W : Type} `{Interface}.

Inductive fake_op :=
  | OpCall (m : Meth) (a : Args m)
  | OpCalls (m : Meth) (stub : option (Args m → W → Res m * W))
  | OpReturns (m : Meth) (result : Res m)
  | OpReturnsOnCall (m : Meth) (i : Z) (result : Res m).

Definition run_op (o : fake_op) : M (fake W * W) unit :=
  match o with
  | OpCall m a => fake_call m a ≫= λ _, mret tt
  | OpCalls m stub => fake_Calls m stub
  | OpReturns m r => fake_Returns m r
  | OpReturnsOnCall m i r => fake_ReturnsOnCall m i r
  end.

Definition after (ops : list fake_op) (w : W) : fake W * W :=
  (for_each run_op ops (new_fake, w)).2.

(** The arguments of the calls of [m], in order. *)
Definition calls_of (m : Meth) (ops : list fake_op) : list (Args m) :=
  omap (λ o, match o with
             | OpCall m' a => match decide (m' = m) with
                              | left e => Some (eq_rect m' Args a m e)
                              | right _ => None
                              end
             | _ => None
             end) ops.
End operations.

(** ** Goroutines that call, configure and inspect methods *)

Definition one_call (l : list lock_action) : Prop :=
  ∃ m, m ≠ invocationsMutex ∧ (l = call_locks m ∨ l = setter_locks m ∨ l = getter_locks m).

Definition many_calls (l : list lock_action) : Prop := ∃ ls, Forall one_call ls ∧ l = concat ls.

(** A goroutine that inspects the fake while another one calls [m]. *)
Definition inspected_call (ms : list string) (m : string) : locking :=
  mkLocking ∅ (<[1 := Invocations_locks ms]> {[2 := call_locks m]}).

(** Nothing can run, and: nothing is certain to be let run. *)
Definition stuck (c : locking) : Prop := ∀ tid, next_locking c tid = None.
Definition blocked (c : locking) : Prop := ∀ tid c', ¬ fake_granted tid c c'.

(** What a goroutine holds, for writing or not, at each point of its calls. *)
Inductive holds_before : list lock_action → list (string * bool) → Prop :=
  | holds_none ls : Forall one_call ls → holds_before (concat ls) []
  | holds_method m ls : m ≠ invocationsMutex → Forall one_call ls →
      holds_before ([DoLock invocationsMutex; DoUnlock invocationsMutex; DoUnlock m] ++ concat ls)
        [(m, true)]
  | holds_both m ls : m ≠ invocationsMutex → Forall one_call ls →
      holds_before ([DoUnlock invocationsMutex; DoUnlock m] ++ concat ls)
        [(invocationsMutex, true); (m, true)]
  | holds_last m ls : Forall one_call ls →
      holds_before ([DoUnlock m] ++ concat ls) [(m, true)]
  | holds_read m ls : m ≠ invocationsMutex → Forall one_call ls →
      holds_before ([DoRUnlock m] ++ concat ls) [(m, false)].

Record locking_ok (c : locking) (H : nat → list (string * bool)) : Prop := {
  ok_goroutines : ∀ t l, goroutines c !! t = Some l → holds_before l (H t);
  ok_writer : ∀ l t, rw_writer (mutex_of c l) = Some t →
    (l, true) ∈ H t ∧ is_Some (goroutines c !! t);
  ok_readers : ∀ l t, t ∈ rw_readers (mutex_of c l) →
    (l, false) ∈ H t ∧ is_Some (goroutines c !! t);
}.

(** * Lemmas on what a fake records *)

Section recorded.
Context {W : Type} `{Interface}.
Implicit Types (f : fake W) (fw : fake W * W) (ops : list (@fake_op W _)).

Lemma methods_set_method f m x : methods (set_method m x f) m = x.
Proof.
  cbn. destruct (decide (m = m)) as [e|]; [|done]. by rewrite (proof_irrel e eq_refl).
Qed.

Lemma methods_set_method_ne f m m' x : m ≠ m' → methods (set_method m x f) m' = methods f m'.
Proof. intros Hne. cbn. by destruct (decide (m = m')). Qed.

(** What is kept of the calls [cs] of [m]. *)
Definition recorded (f : fake W) (m : Meth) (cs : list (Args m)) : Prop :=
  fm_ArgsForCall (methods f m) = cs ∧
  entries_of (invocations f) !! meth_name m =
    match cs with [] => None | _ => Some (args_any m <$> cs) end.

Lemma update_method_records m u fw :
  (∀ x, fm_ArgsForCall (u x) = fm_ArgsForCall x) →
  ∃ fw', update_method m u fw = (Ok tt, fw') ∧
    ∀ m' cs, recorded fw.1 m' cs → recorded fw'.1 m' (cs ++ []).
Proof.
  intros Hu. eexists. split; [reflexivity|]. intros m' cs [Hargs Hlog]. rewrite app_nil_r.
  split; [|exact Hlog]. cbn [fst]. destruct (decide (m = m')) as [->|Hne];
    [by rewrite methods_set_method, Hu|by rewrite methods_set_method_ne].
Qed.

Context {Hinj : Inj (=) (=) meth_name}.

Lemma log_recordInvocation f key args :
  entries_of (invocations (recordInvocation key args f)) =
    <[key := default [] (entries_of (invocations f) !! key) ++ [args]]>
      (entries_of (invocations f)).
Proof. reflexivity. Qed.

Lemma recorded_call f m a x m' cs :
  fm_ArgsForCall x = fm_ArgsForCall (methods f m) ++ [a] → recorded f m' cs →
  recorded (recordInvocation (meth_name m) (args_any m a) (set_method m x f)) m'
    (cs ++ calls_of m' [@OpCall W _ m a]).
Proof.
  intros Hx [Hargs Hlog]. unfold calls_of. cbn [omap list_omap].
  destruct (decide (m = m')) as [e|Hne].
  - destruct e. cbn [eq_rect]. split.
    + unfold recordInvocation. cbn [methods]. rewrite methods_set_method, Hx. by rewrite Hargs.
    + rewrite log_recordInvocation, lookup_insert_eq. cbn [set_method invocations].
      rewrite Hlog, fmap_app. destruct cs; done.
  - rewrite app_nil_r. split.
    + unfold recordInvocation. cbn [methods]. by rewrite methods_set_method_ne.
    + rewrite log_recordInvocation, lookup_insert_ne; [exact Hlog|]. by intros ?%(inj meth_name).
Qed.

Lemma run_op_records o fw : ∃ fw', run_op o fw = (Ok tt, fw') ∧
  ∀ m cs, recorded fw.1 m cs → recorded fw'.1 m (cs ++ calls_of m [o]).
Proof.
  destruct fw as [f w]. destruct o as [m a|m stub|m r|m i r]; cbn [run_op].
  - unfold mbind, M_bind, fake_call, mret, M_ret.
    destruct (fm_Stub (methods f m)) as [stub|];
      [destruct (stub a w) as [r w']|]; (eexists; split; [reflexivity|]);
      intros m' cs Hrec; apply recorded_call; (done || exact Hrec).
  - by apply (update_method_records m).
  - by apply (update_method_records m).
  - by apply (update_method_records m).
Qed.

Lemma run_ops_records ops fw : ∃ fw', for_each run_op ops fw = (Ok tt, fw') ∧
  ∀ m cs, recorded fw.1 m cs → recorded fw'.1 m (cs ++ calls_of m ops).
Proof.
  revert fw. induction ops as [|o ops IH]; intros fw.
  { exists fw. split; [done|]. intros m cs. by rewrite app_nil_r. }
  destruct (run_op_records o fw) as (fw1 & Hrun & Hrec).
  destruct (IH fw1) as (fw2 & Hrun' & Hrec'). exists fw2.
  rewrite for_each_cons, Hrun. split; [exact Hrun'|]. intros m cs Hcs.
  replace (cs ++ calls_of m (o :: ops)) with ((cs ++ calls_of m [o]) ++ calls_of m ops).
  - by apply Hrec', Hrec.
  - rewrite <-app_assoc. f_equal. unfold calls_of. by rewrite <-omap_app.
Qed.

(** C32: a fake keeps the arguments of all calls of each method in their order,
    whatever was configured between them: [xxxCallCount] is the number of the
    calls, [xxxArgsForCall i] are the arguments of call [i] and panics for a call
    that was not made, and [Invocations] lists the calls of each method that
    was called under its name, and no method that was not. *)
Theorem fake_records_calls ops w m :
  fake_CallCount m (after ops w) = (Ok (Z.of_nat (length (calls_of m ops))), after ops w) ∧
  (∀ i, fake_ArgsForCall m i (after ops w) =
    (match (if (0 <=? i)%Z then calls_of m ops !! Z.to_nat i else None) with
     | Some a => Ok a
     | None => Panic
     end, after ops w)) ∧
  ∃ log, fake_Invocations (after ops w) = (Ok log, after ops w) ∧
    log !! meth_name m =
      match calls_of m ops with [] => None | cs => Some (args_any m <$> cs) end.
Proof.
  destruct (run_ops_records ops (new_fake, w)) as (fw & Hrun & Hrec).
  unfold after. rewrite Hrun. cbn [snd].
  destruct (Hrec m []) as [Hargs Hlog]; [by split|]. cbn [app] in *.
  split; [|split].
  - unfold fake_CallCount, gets. by rewrite Hargs.
  - intros i. unfold fake_ArgsForCall. rewrite Hargs. by destruct (if (0 <=? i)%Z then _ else _).
  - eexists. split; [reflexivity|]. rewrite Hlog. by destruct (calls_of m ops).
Qed.
End recorded.

(** * Locking *)

Lemma mutex_of_insert c l l' m gs :
  mutex_of (mkLocking (<[l := m]> (mutexes c)) gs) l' = if decide (l = l') then m else mutex_of c l'.
Proof.
  unfold mutex_of. cbn [mutexes]. destruct (decide (l = l')) as [->|];
    [by rewrite lookup_insert_eq|by rewrite lookup_insert_ne].
Qed.

Lemma next_locking_inv c tid c' : next_locking c tid = Some c' → ∃ a rest l m,
  goroutines c !! tid = Some (a :: rest) ∧ do_action tid a c = Some (l, m) ∧
  c' = mkLocking (<[l := m]> (mutexes c)) (<[tid := rest]> (goroutines c)).
Proof.
  unfold next_locking. destruct (goroutines c !! tid) as [[|a rest]|]; try done.
  destruct (do_action tid a c) as [[l m]|] eqn:Ha; [|done]. intros [= <-].
  by exists a, rest, l, m.
Qed.

(** What is left of a goroutine's calls, and what it holds then. *)
Lemma holds_before_next a rest h : holds_before (a :: rest) h → ∃ h', holds_before rest h' ∧
  match a with
  | DoLock l => h' = (l, true) :: h ∧ ∀ b, (l, b) ∉ h
  | DoRLock l => h' = (l, false) :: h ∧ ∀ b, (l, b) ∉ h
  | DoUnlock l => h = (l, true) :: h' ∧ ∀ b, (l, b) ∉ h'
  | DoRUnlock l => h = (l, false) :: h' ∧ ∀ b, (l, b) ∉ h'
  end.
Proof.
  inversion 1 as [ls Hls Heq| | | |]; subst; cbn [app] in *.
  - destruct Hls as [|l ls (m & Hm & Hl) Hls]; [done|]. cbn [concat] in Heq.
    destruct Hl as [->|[->| ->]]; cbn in Heq; injection Heq as <- <-.
    + exists [(m, true)]. split; [by apply (holds_method m)|]. split; [done|set_solver].
    + exists [(m, true)]. split; [by apply (holds_last m)|]. split; [done|set_solver].
    + exists [(m, false)]. split; [by apply (holds_read m)|]. split; [done|set_solver].
  - eexists. split; [by apply (holds_both m)|]. split; [done|]. intros b. set_solver.
  - eexists. split; [by apply (holds_last m)|]. split; [done|]. intros b. set_solver.
  - eexists. split; [by apply holds_none|]. split; [done|set_solver].
  - eexists. split; [by apply holds_none|]. split; [done|set_solver].
Qed.

(** The holders of a mutex after a step of one goroutine. *)
Ltac solve_holders Hold Hheld :=
  let Hm := fresh in intros Hm; destruct Hheld; simplify_eq;
  try destruct (Hold Hm); repeat match goal with
    | E : ?h _ = _ :: _, Hin : _ ∈ ?h _ |- _ => rewrite E in Hin
    end; split; set_solver.

Lemma locking_ok_next c H tid c' :
  locking_ok c H → next_locking c tid = Some c' → ∃ H', locking_ok c' H'.
Proof.
  intros [Hgo Hw Hr] (a & rest & l & m & Hg & Ha & ->)%next_locking_inv.
  destruct (holds_before_next _ _ _ (Hgo _ _ Hg)) as (h' & Hh' & Hheld).
  exists (λ t, if decide (tid = t) then h' else H t). split; cbn [goroutines].
  - intros t rest' Hrest. destruct (decide (tid = t)) as [<-|Hne].
    + rewrite lookup_insert_eq in Hrest. by simplify_eq.
    + rewrite lookup_insert_ne in Hrest by done. by apply Hgo.
  - intros l' t. rewrite mutex_of_insert, lookup_insert_is_Some. specialize (Hw l' t).
    destruct a; cbn in Ha; repeat case_match; simplify_eq; cbn; solve_holders Hw Hheld.
  - intros l' t. rewrite mutex_of_insert, lookup_insert_is_Some. specialize (Hr l' t).
    destruct a; cbn in Ha; repeat case_match; simplify_eq; cbn; solve_holders Hr Hheld.
Qed.

Lemma blocked_action c t a rest :
  blocked c → goroutines c !! t = Some (a :: rest) → (∀ l, a ≠ DoRLock l) → do_action t a c = None.
Proof.
  intros Hb Hg Ha. destruct (do_action t a c) as [[l m]|] eqn:Hdo; [|done]. exfalso.
  eapply Hb. split; [unfold next_locking; by rewrite Hg, Hdo|]. intros l' rest' Hl'.
  rewrite Hg in Hl'. injection Hl' as -> _. by destruct (Ha l').
Qed.

Definition unheld (m : rwmutex) : Prop := rw_writer m = None ∧ rw_readers m = ∅.

Lemma lock_unheld c t l : unheld (mutex_of c l) →
  do_action t (DoLock l) c ≠ None ∧ do_action t (DoRLock l) c ≠ None.
Proof. intros [Hw Hr]. cbn. by rewrite Hw, Hr. Qed.

Lemma unheld_spec c H l : locking_ok c H →
  (∀ t b, is_Some (goroutines c !! t) → (l, b) ∉ H t) → unheld (mutex_of c l).
Proof.
  intros [_ Hw Hr] Hno. split.
  - destruct (rw_writer (mutex_of c l)) as [t|] eqn:Ht; [|done].
    destruct (Hw l t Ht). exfalso. by eapply Hno.
  - apply set_eq. intros t. split; [|set_solver]. intros [? ?]%Hr. exfalso. by eapply Hno.
Qed.

(** A goroutine that cannot run holds nothing, or waits for the invocations. *)
Lemma blocked_holds c H t l : locking_ok c H → blocked c → goroutines c !! t = Some l →
  H t = [] ∨ ∃ m rest, m ≠ invocationsMutex ∧ H t = [(m, true)] ∧ l = DoLock invocationsMutex :: rest.
Proof.
  intros Hok Hs Hg. pose proof (ok_goroutines _ _ Hok _ _ Hg) as Hl.
  destruct Hl; [by left|right; by eauto| | |];
    cbn [app] in Hg; by apply blocked_action in Hg.
Qed.

Lemma blocked_free c H t :
  locking_ok c H → blocked c → is_Some (goroutines c !! t) → H t = [].
Proof.
  intros Hok Hs [l Hl].
  assert (unheld (mutex_of c invocationsMutex)) as Hinv.
  { eapply unheld_spec; [done|]. intros t' b [l' Hl'].
    destruct (blocked_holds _ _ _ _ Hok Hs Hl') as [->|(m & rest & Hm & -> & _)]; set_solver. }
  destruct (blocked_holds _ _ _ _ Hok Hs Hl) as [?|(m & rest & _ & _ & ->)]; [done|].
  apply blocked_action in Hl; [|done|done]. by apply lock_unheld in Hl.
Qed.

Lemma blocked_done c H t l :
  locking_ok c H → blocked c → goroutines c !! t = Some l → l = [].
Proof.
  intros Hok Hs Hg. pose proof (λ t, blocked_free c H t Hok Hs) as Hnone.
  assert (∀ l, unheld (mutex_of c l)) as Hfree.
  { intros l'. eapply unheld_spec; [done|]. intros t' b Ht'. rewrite Hnone by done. set_solver. }
  assert (∀ t l rest, goroutines c !! t ≠ Some (DoLock l :: rest)) as Hnolock.
  { intros t' l' rest Hg'. apply blocked_action in Hg'; [|done|done].
    by apply lock_unheld in Hg'. }
  destruct l as [|a rest]; [done|]. exfalso.
  destruct (holds_before_next _ _ _ (ok_goroutines _ _ Hok _ _ Hg)) as (h' & _ & Hh).
  rewrite (Hnone t) in Hh by eauto.
  destruct a as [l|l|l|l]; [by eapply Hnolock|by destruct Hh| |by destruct Hh].
  destruct (do_action t (DoRLock l) c) as [[l' m]|] eqn:Ha; [|by apply lock_unheld in Ha].
  eapply Hs. split; [unfold next_locking; by rewrite Hg, Ha|].
  intros l0 rest0 _ t' rest'. apply Hnolock.
Qed.

Lemma locking_ok_start gs :
  map_Forall (λ _, many_calls) gs → locking_ok (mkLocking ∅ gs) (λ _, []).
Proof.
  intros Hgs. split; cbn [goroutines].
  - intros t l Hl. destruct (Hgs t l Hl) as (ls & Hls & ->). by constructor.
  - intros l t. unfold mutex_of. cbn. by rewrite lookup_empty.
  - intros l t. unfold mutex_of. cbn. rewrite lookup_empty. set_solver.
Qed.

Lemma locking_ok_reachable c H c' :
  rtc fake_step c c' → locking_ok c H → ∃ H', locking_ok c' H'.
Proof.
  intros Hr. revert H. induction Hr as [c|c c1 c2 [tid Hstep] _ IH]; intros H Hok; [by exists H|].
  destruct (locking_ok_next _ _ _ _ Hok Hstep) as [H1 Hok1]. by apply (IH H1).
Qed.

(** ** [Invocations] between a call and its record *)

Definition granted_step (c c' : locking) : Prop := ∃ tid, fake_granted tid c c'.

Lemma granted_lock c tid l rest :
  goroutines c !! tid = Some (DoLock l :: rest) → unheld (mutex_of c l) →
  granted_step c (mkLocking (<[l := rw_lock tid (mutex_of c l)]> (mutexes c))
    (<[tid := rest]> (goroutines c))).
Proof.
  intros Hg [Hw Hr]. exists tid. split; [unfold next_locking; rewrite Hg; cbn; by rewrite Hw, Hr|].
  intros l' rest' Hl'. by rewrite Hg in Hl'.
Qed.

(** A goroutine takes mutexes for reading that nobody writes under or waits
    for, one after the other. *)
Lemma rlocks_steps ls rest tid c :
  goroutines c !! tid = Some ((DoRLock <$> ls) ++ rest) →
  (∀ l, l ∈ ls → rw_writer (mutex_of c l) = None) →
  (∀ l t rest, l ∈ ls → t ≠ tid → goroutines c !! t ≠ Some (DoLock l :: rest)) →
  ∃ c', rtc granted_step c c' ∧ goroutines c' = <[tid := rest]> (goroutines c) ∧
    ∀ l, (l ∈ ls → tid ∈ rw_readers (mutex_of c' l)) ∧ (l ∉ ls → mutex_of c' l = mutex_of c l).
Proof.
  revert c. induction ls as [|l0 ls IH]; intros c Hg Hfree Hwait.
  { exists c. split; [done|]. split; [by rewrite insert_id|]. set_solver. }
  cbn in Hg. assert (rw_writer (mutex_of c l0) = None) as Hl0 by (apply Hfree; constructor).
  set (m := rw_rlock tid (mutex_of c l0)).
  set (c1 := mkLocking (<[l0 := m]> (mutexes c))
    (<[tid := (DoRLock <$> ls) ++ rest]> (goroutines c))).
  assert (granted_step c c1) as Hstep.
  { exists tid. split; [unfold next_locking; rewrite Hg; cbn; by rewrite Hl0|].
    rewrite Hg. intros l' rest' [= <- <-] t' rest0. destruct (decide (t' = tid)) as [->|Ht];
      [by rewrite Hg|]. apply Hwait; [constructor|done]. }
  destruct (IH c1) as (c' & Hrun & Hg' & Hc').
  { subst c1. cbn [goroutines]. by rewrite lookup_insert_eq. }
  { intros l Hin. subst c1. rewrite mutex_of_insert.
    destruct (decide (l0 = l)) as [<-|]; [done|]. apply Hfree. by constructor. }
  { intros l t rest' Hin Ht. subst c1. cbn [goroutines]. rewrite lookup_insert_ne by done.
    apply Hwait; [by constructor|done]. }
  exists c'. split; [by eapply rtc_l|]. split.
  { rewrite Hg'. subst c1. cbn [goroutines]. by rewrite insert_insert_eq. }
  intros l. destruct (Hc' l) as [Hin Hout]. subst c1. rewrite mutex_of_insert in Hout. split.
  - intros Hl. destruct (decide (l ∈ ls)) as [|Hl']; [by apply Hin|].
    rewrite Hout by done. rewrite decide_True by set_solver. set_solver.
  - intros [Hne Hl]%not_elem_of_cons. rewrite Hout by done. by rewrite decide_False.
Qed.

Lemma Invocations_deadlock ms m :
  NoDup (invocationsMutex :: ms) → m ∈ ms →
  ∃ c, rtc granted_step (inspected_call ms m) c ∧ stuck c ∧
    (∃ rest, goroutines c !! 1 = Some (DoRLock m :: rest)) ∧
    ∃ rest, goroutines c !! 2 = Some (DoLock invocationsMutex :: rest).
Proof.
  intros Hnd (ms1 & ms2 & ->)%list_elem_of_split.
  assert (m ∉ invocationsMutex :: ms1) as Hm.
  { rewrite app_comm_cons in Hnd. apply NoDup_app in Hnd as (_ & Hdis & _).
    intros Hin. apply (Hdis m Hin). constructor. }
  set (rest := (DoRLock <$> ms2) ++ (DoRUnlock <$> reverse (invocationsMutex :: ms1 ++ m :: ms2))).
  destruct (rlocks_steps (invocationsMutex :: ms1) (DoRLock m :: rest) 1
    (inspected_call (ms1 ++ m :: ms2) m)) as (c & Hrun & Hg & Hc).
  { cbn [goroutines inspected_call]. rewrite lookup_insert_eq. f_equal.
    unfold Invocations_locks, rest. cbn [fmap list_fmap app]. f_equal.
    by rewrite fmap_app, <-app_assoc. }
  { done. }
  { intros l t rest' Hl Ht. cbn [goroutines inspected_call]. rewrite lookup_insert_ne by done.
    intros [_ [= -> _]]%lookup_singleton_Some. done. }
  cbn [goroutines inspected_call] in Hg. rewrite insert_insert_eq in Hg.
  destruct (Hc m) as [_ Hfree]. specialize (Hfree Hm).
  destruct (Hc invocationsMutex) as [Hread _]. specialize (Hread (list_elem_of_here _ _)).
  assert (goroutines c !! 2 = Some (call_locks m)) as Hg2.
  { rewrite Hg, lookup_insert_ne by done. apply lookup_singleton_eq. }
  set (c2 := mkLocking (<[m := rw_lock 2 (mutex_of c m)]> (mutexes c))
    (<[2 := tail (call_locks m)]> (goroutines c))).
  assert (granted_step c c2) as Hlock.
  { apply granted_lock; [exact Hg2|]. by rewrite Hfree. }
  assert (goroutines c2 !! 1 = Some (DoRLock m :: rest)) as H1.
  { subst c2. cbn [goroutines]. by rewrite lookup_insert_ne, Hg, lookup_insert_eq. }
  assert (goroutines c2 !! 2 = Some (tail (call_locks m))) as H2.
  { subst c2. cbn [goroutines]. apply lookup_insert_eq. }
  exists c2. split; [by eapply rtc_r|]. split; [|split; [eexists; exact H1|eexists; exact H2]].
  intros tid. unfold next_locking. destruct (decide (tid = 1)) as [->|N1]; [|
    destruct (decide (tid = 2)) as [->|N2]].
  - rewrite H1. cbn. subst c2. by rewrite mutex_of_insert, decide_True.
  - rewrite H2. cbn. subst c2. rewrite mutex_of_insert, decide_False by set_solver.
    rewrite (bool_decide_eq_false_2 (rw_readers _ = _)); [by rewrite andb_false_r|set_solver].
  - subst c2. cbn [goroutines]. rewrite lookup_insert_ne, Hg by done.
    by rewrite lookup_insert_ne, lookup_singleton_ne by done.
Qed.

(** C40: goroutines that call, configure and inspect methods of a fake, any
    number of times each, never wait for each other for good: where no step is
    granted any more, readers giving way to waiting writers, all of them are through.  [Invocations] takes the mutexes
    in the opposite order: for each method of either fake there is an execution
    of one [Invocations] and one call of that method in which both wait for
    each other forever. *)
Theorem fake_deadlock_needs_Invocations :
  (∀ gs c, map_Forall (λ _, many_calls) gs → rtc fake_step (mkLocking ∅ gs) c → blocked c →
     map_Forall (λ _ l, l = []) (goroutines c)) ∧
  ∀ ms m, ms = ["GetClient"] ∨ ms = (client_name <$> client_methods) → m ∈ ms →
    ∃ c, rtc granted_step (inspected_call ms m) c ∧ stuck c ∧
      (∃ rest, goroutines c !! 1 = Some (DoRLock m :: rest)) ∧
      ∃ rest, goroutines c !! 2 = Some (DoLock invocationsMutex :: rest).
Proof.
  split.
  - intros gs c Hgs Hrun Hs t l Hl.
    destruct (locking_ok_reachable _ _ _ Hrun (locking_ok_start _ Hgs)) as [H Hok].
    exact (blocked_done _ _ _ _ Hok Hs Hl).
  - intros ms m Hms Hm. apply Invocations_deadlock; [|exact Hm].
    destruct Hms as [->| ->]; apply (bool_decide_unpack _); by vm_compute.
Qed.

(** * Witnesses *)

(** One goroutine that calls [Get] twice, and one that configures it. *)
Lemma fake_deadlock_needs_Invocations_witness :
  (∀ c, rtc fake_step (mkLocking ∅ (<[1 := call_locks "Get" ++ call_locks "Get"]>
      {[2 := setter_locks "Get"]})) c → blocked c → map_Forall (λ _ l, l = []) (goroutines c)) ∧
  ∃ c, rtc granted_step (inspected_call (client_name <$> client_methods) "Get") c ∧ stuck c.
Proof.
  split.
  - intros c. apply (proj1 fake_deadlock_needs_Invocations).
    apply map_Forall_insert_2; [|apply map_Forall_singleton].
    + exists [call_locks "Get"; call_locks "Get"]. split; [|reflexivity].
      repeat constructor; exists "Get"; (split; [done|by left]).
    + exists [setter_locks "Get"]. split; [|reflexivity].
      repeat constructor; exists "Get"; (split; [done|by right; left]).
  - destruct (proj2 fake_deadlock_needs_Invocations _ "Get" (or_intror eq_refl)) as (c & Hc & Hs & _).
    + apply (bool_decide_unpack _). by vm_compute.
    + by exists c.
Defined.

(** A client provider that is called twice. *)
#[local] Instance unit_types : ClientTypes :=
  Build_ClientTypes unit unit unit unit unit unit unit unit unit unit unit unit unit unit.
#[local] Existing Instance provider_interface.

Definition two_calls : list (@fake_op unit provider_interface) :=
  [@OpCall unit _ tt (tt, mkNN "ns" "a"); @OpReturns unit _ tt (None, Some (ErrNew "unknown"));
   @OpCall unit _ tt (tt, mkNN "ns" "b")].

Lemma fake_records_calls_witness :
  fake_CallCount tt (after two_calls tt) = (Ok 2%Z, after two_calls tt) ∧
  (fake_ArgsForCall tt 1 (after two_calls tt)).1 = Ok (tt, mkNN "ns" "b") ∧
  (fake_ArgsForCall tt 2 (after two_calls tt)).1 = Panic.
Proof.
  assert (Inj (=) (=) (@meth_name provider_interface)) as Hinj by (by intros [] []).
  destruct (fake_records_calls (Hinj := Hinj) two_calls tt tt) as (Hc & Ha & _).
  split; [exact Hc|]. by rewrite !Ha.
Defined.
