(* ===== verification/DeepCopy.v ===== *)
(** The generated deep copies of the API types
    ([apis/connectivity/v1alpha1/zz_generated.deepcopy.go]).

    A struct is a value that may point into memory; assignment copies the value
    and shares what it points to.  The structs of apimachinery are types of a
    class, with their [DeepCopyInto] and what it promises ([copies]); the array
    behind [GatewayDNSList.Items] is memory of this file's own. *)
From S2P Require Import Prelude.
#[local] Open Scope string_scope.
#[local] Open Scope list_scope.

(** * Definitions *)

Definition address : Type := positive.

Class ApiMachinery : Type := {
  TypeMeta : Type;
  ObjectMeta : Type;
  ListMeta : Type;
  LabelSelector : Type;
  Cell : Type;                       (* what they point to *)
  ObjectMeta_DeepCopyInto : ObjectMeta → M (gmap address Cell) ObjectMeta;
  ListMeta_DeepCopyInto : ListMeta → M (gmap address Cell) ListMeta;
  LabelSelector_DeepCopyInto : LabelSelector → M (gmap address Cell) LabelSelector;
  no_ObjectMeta : ObjectMeta;        (* zero values *)
  no_TypeMeta : TypeMeta;
  no_LabelSelector : LabelSelector;
}.

Section deepcopy.
Context `{ApiMachinery}.

Record GatewayDNSSpec := mkSpec {
  ClusterSelector : LabelSelector;
  Service : string;
  ResolutionType : string;
}.

Record GatewayDNSStatus := mkStatus {}.

Record GatewayDNS := mkGatewayDNS {
  gd_TypeMeta : TypeMeta;
  gd_ObjectMeta : ObjectMeta;
  gd_Spec : GatewayDNSSpec;
  gd_Status : GatewayDNSStatus;
}.

(** [Items] is nil or the address of its array. *)
Record GatewayDNSList := mkList {
  gdl_TypeMeta : TypeMeta;
  gdl_ListMeta : ListMeta;
  gdl_Items : option address;
}.

Record memory := mkMemory {
  cells : gmap address Cell;
  arrays : gmap address (list GatewayDNS);
}.

(** A call into apimachinery works on its part of the memory. *)
Definition on_cells {A} (f : M (gmap address Cell) A) : M memory A := λ m,
  let '(r, c) := f (cells m) in (r, mkMemory c (arrays m)).

Definition zero_GatewayDNS : GatewayDNS :=
  mkGatewayDNS no_TypeMeta no_ObjectMeta (mkSpec no_LabelSelector "" "") mkStatus.

(** The element [i] of the array at an address, which panics out of range, and the assignment to it. *)
Definition read_item (a : address) (i : nat) : M memory GatewayDNS := λ m,
  match arrays m !! a ≫= (.!! i) with Some x => (Ok x, m) | None => (Panic, m) end.
Definition write_item (a : address) (i : nat) (x : GatewayDNS) : M memory unit := λ m,
  match arrays m !! a ≫= (.!! i) with
  | Some _ => (Ok tt, mkMemory (cells m) (alter (<[i := x]>) a (arrays m)))
  | None => (Panic, m)
  end.
Definition make_items (n : nat) : M memory address := λ m,
  let a := fresh (dom (arrays m)) in
  (Ok a, mkMemory (cells m) (<[a := replicate n zero_GatewayDNS]> (arrays m))).

(** ** [zz_generated.deepcopy.go] *)

Definition GatewayDNSSpec_DeepCopyInto (in_ : GatewayDNSSpec) : M memory GatewayDNSSpec :=
  sel ← on_cells (LabelSelector_DeepCopyInto (ClusterSelector in_));
  mret (mkSpec sel (Service in_) (ResolutionType in_)).

Definition GatewayDNSStatus_DeepCopyInto (in_ : GatewayDNSStatus) : M memory GatewayDNSStatus :=
  mret in_.

Definition GatewayDNS_DeepCopyInto (in_ : GatewayDNS) : M memory GatewayDNS :=
  meta ← on_cells (ObjectMeta_DeepCopyInto (gd_ObjectMeta in_));
  spec ← GatewayDNSSpec_DeepCopyInto (gd_Spec in_);
  mret (mkGatewayDNS (gd_TypeMeta in_) meta spec (gd_Status in_)).

Definition copy_item (from to : address) (i : nat) : M memory unit :=
  x ← read_item from i;
  y ← GatewayDNS_DeepCopyInto x;
  write_item to i y.

Definition GatewayDNSList_DeepCopyInto (in_ : GatewayDNSList) : M memory GatewayDNSList :=
  meta ← on_cells (ListMeta_DeepCopyInto (gdl_ListMeta in_));
  match gdl_Items in_ with
  | Some from =>
      n ← gets (λ m, length (default [] (arrays m !! from)));
      to ← make_items n;
      _ ← for_each (copy_item from to) (seq 0 n);
      mret (mkList (gdl_TypeMeta in_) meta (Some to))
  | None => mret (mkList (gdl_TypeMeta in_) meta None)
  end.

(** [DeepCopy] on a pointer; a nil one is answered with nil. *)
Definition deep_copy {A} (into : A → M memory A) (in_ : option A) : M memory (option A) :=
  match in_ with
  | None => mret None
  | Some x => y ← into x; mret (Some y)
  end.

Definition GatewayDNSSpec_DeepCopy := deep_copy GatewayDNSSpec_DeepCopyInto.
Definition GatewayDNSStatus_DeepCopy := deep_copy GatewayDNSStatus_DeepCopyInto.
Definition GatewayDNS_DeepCopy := deep_copy GatewayDNS_DeepCopyInto.
Definition GatewayDNSList_DeepCopy := deep_copy GatewayDNSList_DeepCopyInto.

(** [runtime.Object], nil or one of the registered kinds *)
Inductive Object := ObjGatewayDNS (x : GatewayDNS) | ObjGatewayDNSList (x : GatewayDNSList).

Definition GatewayDNS_DeepCopyObject (in_ : option GatewayDNS) : M memory (option Object) :=
  c ← GatewayDNS_DeepCopy in_; mret (ObjGatewayDNS <$> c).
Definition GatewayDNSList_DeepCopyObject (in_ : option GatewayDNSList) : M memory (option Object) :=
  c ← GatewayDNSList_DeepCopy in_; mret (ObjGatewayDNSList <$> c).
End deepcopy.
