(* ===== verification/DeepCopySpec.v ===== *)
(** A deep copy reads like the original, and no write to one shows in the other. *)
From S2P Require Import Prelude DeepCopy.
#[local] Open Scope string_scope.
#[local] Open Scope list_scope.

(** * Definitions *)

(** What [DeepCopyInto] of a struct of apimachinery promises: the copy has the
    same value, it only points to memory that was not there before, and the old
    memory is as it was.  [value] and [footprint] say what a struct means and
    which memory that depends on. *)
Record copies {C X V} (into : X → M (gmap address C) X)
    (value : X → gmap address C → V) (footprint : X → gmap address C → gset address) : Prop := {
  copies_local x h h' :
    (∀ a, a ∈ footprint x h → h' !! a = h !! a) →
    value x h' = value x h ∧ footprint x h' = footprint x h;
  copies_into x h : footprint x h ⊆ dom h → ∃ y h', into x h = (Ok y, h') ∧
    h ⊆ h' ∧ value y h' = value x h ∧ footprint y h' ## dom h ∧ footprint y h' ⊆ dom h';
}.

Class ApiMachineryLaws `{ApiMachinery} := {
  MetaValue : Type; ListValue : Type; SelectorValue : Type;
  meta_value : ObjectMeta → gmap address Cell → MetaValue;
  meta_footprint : ObjectMeta → gmap address Cell → gset address;
  meta_copies : copies ObjectMeta_DeepCopyInto meta_value meta_footprint;
  list_value : ListMeta → gmap address Cell → ListValue;
  list_footprint : ListMeta → gmap address Cell → gset address;
  list_copies : copies ListMeta_DeepCopyInto list_value list_footprint;
  selector_value : LabelSelector → gmap address Cell → SelectorValue;
  selector_footprint : LabelSelector → gmap address Cell → gset address;
  selector_copies : copies LabelSelector_DeepCopyInto selector_value selector_footprint;
}.

Section values.
Context `{ApiMachineryLaws}.

Definition item_value (x : GatewayDNS) (h : gmap address Cell) :
    TypeMeta * MetaValue * SelectorValue * string * string * GatewayDNSStatus :=
  (gd_TypeMeta x, meta_value (gd_ObjectMeta x) h, selector_value (ClusterSelector (gd_Spec x)) h,
   Service (gd_Spec x), ResolutionType (gd_Spec x), gd_Status x).
Definition item_footprint (x : GatewayDNS) (h : gmap address Cell) : gset address :=
  meta_footprint (gd_ObjectMeta x) h ∪ selector_footprint (ClusterSelector (gd_Spec x)) h.

(** The items that a list points to *)
Definition items_of (l : GatewayDNSList) (m : memory) : option (list GatewayDNS) :=
  a ← gdl_Items l; Some (default [] (arrays m !! a)).

Definition value_of (l : GatewayDNSList) (m : memory) :
    TypeMeta * ListValue *
    option (list (TypeMeta * MetaValue * SelectorValue * string * string * GatewayDNSStatus)) :=
  (gdl_TypeMeta l, list_value (gdl_ListMeta l) (cells m),
   option_map (map (λ x, item_value x (cells m))) (items_of l m)).

(** The cells and the array that this depends on *)
Definition cells_of (l : GatewayDNSList) (m : memory) : gset address :=
  list_footprint (gdl_ListMeta l) (cells m) ∪
  ⋃ ((λ x, item_footprint x (cells m)) <$> default [] (items_of l m)).
Definition array_of (l : GatewayDNSList) : gset address :=
  match gdl_Items l with Some a => {[a]} | None => ∅ end.

(** [l] points to memory that is there. *)
Definition allocated (l : GatewayDNSList) (m : memory) : Prop :=
  cells_of l m ⊆ dom (cells m) ∧ array_of l ⊆ dom (arrays m).

(** Only the cells [cs] and the arrays [arrs] changed. *)
Definition changes (cs arrs : gset address) (m m' : memory) : Prop :=
  (∀ a, a ∉ cs → cells m' !! a = cells m !! a) ∧
  (∀ a, a ∉ arrs → arrays m' !! a = arrays m !! a).
End values.

(** * Lemmas *)

Section copies.
Context `{ApiMachineryLaws}.

(** What holds of one memory holds of a memory that agrees with it. *)
Lemma item_local x h h' :
  (∀ a, a ∈ item_footprint x h → h' !! a = h !! a) →
  item_value x h' = item_value x h ∧ item_footprint x h' = item_footprint x h.
Proof.
  unfold item_footprint, item_value. intros Hag.
  destruct (copies_local _ _ _ meta_copies (gd_ObjectMeta x) h h') as [Hv Hf]; [set_solver|].
  destruct (copies_local _ _ _ selector_copies (ClusterSelector (gd_Spec x)) h h') as [Hv' Hf'];
    [set_solver|]. by rewrite Hv, Hf, Hv', Hf'.
Qed.

Lemma agree_subseteq (h h' : gmap address Cell) (X : gset address) :
  h ⊆ h' → X ⊆ dom h → ∀ a, a ∈ X → h' !! a = h !! a.
Proof.
  intros Hsub HX a Ha. specialize (HX a Ha). apply elem_of_dom in HX as [c Hc].
  rewrite Hc. by eapply lookup_weaken.
Qed.

Lemma value_of_local l m m' :
  (∀ a, a ∈ cells_of l m → cells m' !! a = cells m !! a) →
  (∀ a, a ∈ array_of l → arrays m' !! a = arrays m !! a) →
  value_of l m' = value_of l m.
Proof.
  unfold cells_of, value_of. intros Hc Ha.
  destruct (copies_local _ _ _ list_copies (gdl_ListMeta l) (cells m) (cells m')) as [Hv _];
    [set_solver|]. rewrite Hv. f_equal.
  assert (items_of l m' = items_of l m) as ->.
  { unfold items_of, array_of in *. destruct (gdl_Items l) as [a|]; [|done]. cbn.
    rewrite Ha by set_solver. done. }
  destruct (items_of l m) as [xs|]; [|done]. cbn in *. f_equal.
  apply list_fmap_ext. intros i x Hx. apply item_local.
  intros a Hin. apply Hc, elem_of_union_r, elem_of_union_list.
  exists (item_footprint x (cells m)). split; [|done]. apply list_elem_of_fmap.
  exists x. split; [done|]. by eapply list_elem_of_lookup_2.
Qed.

(** [y] is a copy of [x], made when the memory was [h0]. *)
Definition copied (h0 h : gmap address Cell) (x y : GatewayDNS) : Prop :=
  item_value y h = item_value x h0 ∧ item_footprint y h ## dom h0 ∧ item_footprint y h ⊆ dom h.

Lemma copied_mono h0 h h' x y : h ⊆ h' → copied h0 h x y → copied h0 h' x y.
Proof.
  intros Hsub (Hv & Hd & Hf).
  destruct (item_local y h h') as [Hv' Hf']; [by eapply agree_subseteq|].
  unfold copied. rewrite Hv', Hf'. split; [done|]. split; [done|].
  etrans; [exact Hf|]. by apply subseteq_dom.
Qed.

Lemma copied_old h0 h1 h x y : h0 ⊆ h1 → item_footprint x h0 ⊆ dom h0 →
  copied h1 h x y → copied h0 h x y.
Proof.
  intros Hsub Hx (Hv & Hd & Hf).
  destruct (item_local x h0 h1) as [Hv' _]; [by eapply agree_subseteq|].
  split; [by rewrite Hv, Hv'|]. split; [|done].
  apply subseteq_dom in Hsub. set_solver.
Qed.

Lemma on_cells_ok {A} (f : M (gmap address Cell) A) m r c :
  f (cells m) = (Ok r, c) → on_cells f m = (Ok r, mkMemory c (arrays m)).
Proof. intros Hf. unfold on_cells. by rewrite Hf. Qed.

Lemma item_copied x m :
  item_footprint x (cells m) ⊆ dom (cells m) →
  ∃ y h, GatewayDNS_DeepCopyInto x m = (Ok y, mkMemory h (arrays m)) ∧
    cells m ⊆ h ∧ copied (cells m) h x y.
Proof.
  unfold item_footprint. intros Hx.
  destruct (copies_into _ _ _ meta_copies (gd_ObjectMeta x) (cells m))
    as (meta & h1 & Hrun1 & Hsub1 & Hv1 & Hd1 & Hf1); [set_solver|].
  destruct (copies_local _ _ _ selector_copies (ClusterSelector (gd_Spec x)) (cells m) h1)
    as [Hv0 Hf0]; [eapply agree_subseteq; [done|set_solver]|].
  pose proof (subseteq_dom _ _ Hsub1) as Hdom1.
  destruct (copies_into _ _ _ selector_copies (ClusterSelector (gd_Spec x)) h1)
    as (sel & h2 & Hrun2 & Hsub2 & Hv2 & Hd2 & Hf2); [set_solver|].
  destruct (copies_local _ _ _ meta_copies meta h1 h2) as [Hv3 Hf3];
    [eapply agree_subseteq; done|].
  pose proof (subseteq_dom _ _ Hsub2) as Hdom2.
  eexists _, h2. split.
  { unfold GatewayDNS_DeepCopyInto, GatewayDNSSpec_DeepCopyInto, mbind, M_bind.
    rewrite (on_cells_ok _ _ _ _ Hrun1). rewrite (on_cells_ok _ (mkMemory h1 _) _ _ Hrun2).
    reflexivity. }
  split; [by etrans|]. unfold copied, item_value, item_footprint. cbn.
  split; [by rewrite Hv3, Hv1, Hv2, Hv0|]. rewrite Hf3. set_solver.
Qed.

Lemma copy_item_ok from to i x y zs h m :
  arrays m !! from ≫= (.!! i) = Some x → GatewayDNS_DeepCopyInto x m = (Ok y, mkMemory h (arrays m)) →
  arrays m !! to = Some zs → (i < length zs)%nat →
  copy_item from to i m = (Ok tt, mkMemory h (<[to := <[i := y]> zs]> (arrays m))).
Proof.
  intros Hx Hrun Hto [z Hz]%lookup_lt_is_Some. unfold copy_item, read_item, write_item.
  unfold mbind at 1, M_bind at 1. rewrite Hx.
  unfold mbind at 1, M_bind at 1. rewrite Hrun. cbn [arrays cells].
  rewrite Hto. cbn [mbind option_bind]. rewrite Hz. do 2 f_equal.
  apply map_eq. intros a. destruct (decide (to = a)) as [<-|Ha].
  - by rewrite lookup_alter_eq, Hto, lookup_insert_eq.
  - by rewrite lookup_alter_ne, lookup_insert_ne.
Qed.

(** The loop over the items, from the first that is not copied yet. *)
Lemma copy_items from to h0 xs1 xs2 ys m :
  from ≠ to → arrays m !! from = Some (xs1 ++ xs2) →
  arrays m !! to = Some (ys ++ replicate (length xs2) zero_GatewayDNS) →
  h0 ⊆ cells m → Forall (λ x, item_footprint x h0 ⊆ dom h0) xs2 →
  Forall2 (copied h0 (cells m)) xs1 ys →
  ∃ ys' h, for_each (copy_item from to) (seq (length xs1) (length xs2)) m =
      (Ok tt, mkMemory h (<[to := ys']> (arrays m))) ∧
    cells m ⊆ h ∧ Forall2 (copied h0 h) (xs1 ++ xs2) ys'.
Proof.
  intros Hne. revert xs1 ys m. induction xs2 as [|x xs2 IH]; intros xs1 ys m Hfrom Hto Hsub Hx Hys.
  { exists ys, (cells m). rewrite app_nil_r in *. cbn. rewrite insert_id by done. by destruct m. }
  apply Forall_cons in Hx as [Hx Hxs].
  destruct (item_local x h0 (cells m)) as [_ Hfx]; [by eapply agree_subseteq|].
  pose proof (subseteq_dom _ _ Hsub) as Hdom.
  destruct (item_copied x m) as (y & h1 & Hrun & Hsub1 & Hy); [rewrite Hfx; set_solver|].
  destruct (IH (xs1 ++ [x]) (ys ++ [y])
    (mkMemory h1 (<[to := (ys ++ [y]) ++ replicate (length xs2) zero_GatewayDNS]> (arrays m))))
    as (ys' & h & Hloop & Hsub' & Hall); cbn [arrays cells].
  { by rewrite lookup_insert_ne, <-app_assoc. }
  { by rewrite lookup_insert_eq. }
  { by etrans. }
  { done. }
  { apply Forall2_app.
    - eapply Forall2_impl; [exact Hys|]. intros ? ?. by apply copied_mono.
    - constructor; [|done]. by eapply copied_old. }
  exists ys', h. split; [|split; [by etrans|by rewrite <-app_assoc in Hall]].
  cbn [length seq]. rewrite for_each_cons.
  rewrite (copy_item_ok from to (length xs1) x y _ h1 m) with (3 := Hto).
  - cbn [length replicate]. rewrite (Forall2_length _ _ _ Hys), insert_app_r_alt, Nat.sub_diag by done.
    cbn [insert list_insert].
    rewrite length_app, Nat.add_1_r, (Forall2_length _ _ _ Hys), <-app_assoc in Hloop.
    cbn [arrays app] in Hloop. rewrite insert_insert_eq in Hloop. exact Hloop.
  - rewrite Hfrom. cbn. by rewrite list_lookup_middle.
  - exact Hrun.
  - rewrite length_app, length_replicate, (Forall2_length _ _ _ Hys). cbn. lia.
Qed.

Lemma allocated_items l m xs :
  allocated l m → items_of l m = Some xs →
  Forall (λ x, item_footprint x (cells m) ⊆ dom (cells m)) xs.
Proof.
  intros [Hc _] Hxs. apply Forall_forall. intros x Hx. etrans; [|exact Hc].
  unfold cells_of. rewrite Hxs. cbn. intros a Ha. apply elem_of_union_r, elem_of_union_list.
  exists (item_footprint x (cells m)). split; [|done]. apply list_elem_of_fmap. by exists x.
Qed.

Lemma copied_all h0 h xs ys : Forall2 (copied h0 h) xs ys →
  map (λ x, item_value x h) ys = map (λ x, item_value x h0) xs ∧
  ⋃ ((λ x, item_footprint x h) <$> ys) ## dom h0 ∧
  ⋃ ((λ x, item_footprint x h) <$> ys) ⊆ dom h.
Proof.
  induction 1 as [|x y xs ys (Hv & Hd & Hf) _ (IHv & IHd & IHf)]; [done|].
  cbn. rewrite Hv, IHv. split; [done|]. set_solver.
Qed.

(** The copy of a list, whose memory was not there before. *)
Lemma list_copied l m : allocated l m →
  ∃ l' m', GatewayDNSList_DeepCopyInto l m = (Ok l', m') ∧
    cells m ⊆ cells m' ∧ arrays m ⊆ arrays m' ∧ value_of l' m' = value_of l m ∧
    cells_of l' m' ## dom (cells m) ∧ array_of l' ## dom (arrays m) ∧ allocated l' m'.
Proof.
  intros Hl. pose proof (allocated_items l m) as Hitems.
  destruct (copies_into _ _ _ list_copies (gdl_ListMeta l) (cells m))
    as (meta & h1 & Hrun1 & Hsub1 & Hv1 & Hd1 & Hf1); [destruct Hl; unfold cells_of in *; set_solver|].
  pose proof (subseteq_dom _ _ Hsub1) as Hdom1.
  unfold GatewayDNSList_DeepCopyInto. unfold mbind at 1, M_bind at 1.
  rewrite (on_cells_ok _ _ _ _ Hrun1).
  destruct (gdl_Items l) as [from|] eqn:Hfrom.
  2: { eexists _, _. split; [reflexivity|]. clear Hitems.
       unfold value_of, allocated, cells_of, items_of, array_of.
       cbn. rewrite Hfrom, Hv1. cbn. split; [done|]. split; [done|]. split; [done|].
       rewrite union_empty_r_L. set_solver. }
  assert (is_Some (arrays m !! from)) as [xs Hxs].
  { destruct Hl as [_ Ha]. unfold array_of in Ha. rewrite Hfrom in Ha. apply elem_of_dom. set_solver. }
  assert (items_of l m = Some xs) as Hof by (unfold items_of; by rewrite Hfrom; cbn; rewrite Hxs).
  specialize (Hitems xs Hl Hof).
  set (to := fresh (dom (arrays m))).
  assert (to ∉ dom (arrays m)) as Hto by apply is_fresh.
  assert (from ≠ to) as Hne by (intros ->; apply Hto, elem_of_dom; eauto).
  destruct (copy_items from to (cells m) [] xs []
    (mkMemory h1 (<[to := replicate (length xs) zero_GatewayDNS]> (arrays m))))
    as (ys & h & Hloop & Hsub2 & Hall); cbn [arrays cells app] in *; try done.
  { by rewrite lookup_insert_ne. }
  { by rewrite lookup_insert_eq. }
  rewrite insert_insert_eq in Hloop.
  exists (mkList (gdl_TypeMeta l) meta (Some to)), (mkMemory h (<[to := ys]> (arrays m))).
  split.
  { unfold gets, make_items, mbind, M_bind. cbn [arrays cells]. rewrite Hxs. cbn [default].
    cbn [length] in Hloop. fold to. unfold id. by rewrite Hloop. }
  destruct (copied_all _ _ _ _ Hall) as (Hv & Hd & Hf).
  destruct (copies_local _ _ _ list_copies meta h1 h) as [Hv2 Hf2]; [by eapply agree_subseteq|].
  pose proof (subseteq_dom _ _ Hsub2) as Hdom2.
  clear Hitems. unfold value_of, allocated, cells_of, array_of, items_of.
  cbn [gdl_TypeMeta gdl_ListMeta gdl_Items cells arrays mbind option_bind].
  rewrite Hfrom, lookup_insert_eq, Hv2, Hv1, Hf2. cbn [mbind option_bind]. rewrite Hxs.
  cbn [default option_map]. unfold id. rewrite Hv, dom_insert_L.
  split; [by etrans|]. split; [by apply insert_subseteq, not_elem_of_dom|]. split; [done|].
  set_solver.
Qed.

(** C31: copying a [GatewayDNSList] whose memory is allocated never panics and
    gives a list of the same value, nil items included, that points to memory
    of its own only: whatever is written to the memory of the copy afterwards
    does not show in the original, and whatever is written to the memory that
    was there before does not show in the copy. *)
Theorem GatewayDNSList_DeepCopy_independent (l : GatewayDNSList) (m : memory)
    (Hl : allocated l m) :
  ∃ l' m', GatewayDNSList_DeepCopy (Some l) m = (Ok (Some l'), m') ∧
    value_of l' m' = value_of l m ∧ allocated l' m' ∧
    (∀ m'', changes (cells_of l' m') (array_of l') m' m'' → value_of l m'' = value_of l m) ∧
    (∀ m'', changes (dom (cells m)) (dom (arrays m)) m' m'' → value_of l' m'' = value_of l m).
Proof.
  destruct (list_copied l m Hl) as (l' & m' & Hrun & Hsub & Hsub' & Hv & Hnew & Hnew' & Hal).
  destruct Hl as [Hc Ha].
  exists l', m'. unfold GatewayDNSList_DeepCopy, deep_copy, mbind, M_bind. rewrite Hrun.
  split; [done|]. split; [done|]. split; [done|]. split; intros m'' [Hcells Harrays].
  - apply value_of_local.
    + intros a Hin. rewrite Hcells by set_solver. by eapply agree_subseteq.
    + intros a Hin. rewrite Harrays by set_solver.
      destruct (proj1 (elem_of_dom (arrays m) a)) as [xs Hxs]; [set_solver|].
      rewrite Hxs. by eapply lookup_weaken.
  - rewrite <-Hv. apply value_of_local; intros a Hin; [apply Hcells|apply Harrays]; set_solver.
Qed.
End copies.

(** * Witness

    A struct of apimachinery with one pointer, whose copy allocates. *)
Definition pointer_copy (p : address) : M (gmap address string) address := λ h,
  let a := fresh (dom h) in (Ok a, <[a := default "" (h !! p)]> h).
Definition pointer_value (p : address) (h : gmap address string) : string := default "" (h !! p).
Definition pointer_footprint (p : address) (h : gmap address string) : gset address := {[p]}.

Lemma pointer_copies : copies pointer_copy pointer_value pointer_footprint.
Proof.
  unfold pointer_copy, pointer_value, pointer_footprint. split.
  - intros p h h' Hag. split; [|done]. by rewrite Hag by set_solver.
  - intros p h Hp. set (a := fresh (dom h)). assert (a ∉ dom h) as Ha by apply is_fresh.
    eexists _, _. split; [reflexivity|]. split; [by apply insert_subseteq, not_elem_of_dom|].
    rewrite lookup_insert_eq, dom_insert_L. split; [done|]. set_solver.
Qed.

#[local] Instance pointers : ApiMachinery :=
  Build_ApiMachinery string address address address string
    pointer_copy pointer_copy pointer_copy 1%positive "" 1%positive.
#[local] Instance pointers_laws : ApiMachineryLaws :=
  Build_ApiMachineryLaws _ string string string
    pointer_value pointer_footprint pointer_copies pointer_value pointer_footprint pointer_copies
    pointer_value pointer_footprint pointer_copies.

Definition a_gateway_dns : GatewayDNS :=
  mkGatewayDNS "GatewayDNS" 2%positive (mkSpec 3%positive "ns/gateway" "loadBalancer") mkStatus.
Definition a_list : GatewayDNSList := mkList "GatewayDNSList" 1%positive (Some 1%positive).
Definition a_memory : memory :=
  mkMemory (list_to_map [(1%positive, "list"); (2%positive, "labels"); (3%positive, "selector")])
    {[1%positive := [a_gateway_dns; a_gateway_dns]]}.

(** The labels of the original are overwritten after the copy. *)
Definition relabel (m : memory) : memory :=
  mkMemory (<[2%positive := "other labels"]> (cells m)) (arrays m).

Lemma GatewayDNSList_DeepCopy_independent_witness :
  ∃ l' m', GatewayDNSList_DeepCopy (Some a_list) a_memory = (Ok (Some l'), m') ∧
    value_of l' (relabel m') = value_of a_list a_memory ∧
    value_of a_list (relabel m') ≠ value_of a_list a_memory.
Proof.
  assert (allocated a_list a_memory) as Hal
    by (split; apply (bool_decide_unpack _); vm_compute; exact I).
  destruct (GatewayDNSList_DeepCopy_independent a_list a_memory Hal)
    as (l' & m' & Hrun & _ & _ & _ & Hindep).
  exists l', m'. split; [exact Hrun|]. split.
  - apply Hindep. split; [|done]. intros a Ha. cbn. apply lookup_insert_ne. intros <-.
    apply Ha. apply (bool_decide_unpack _). by vm_compute.
  - assert (m' = (GatewayDNSList_DeepCopy (Some a_list) a_memory).2) as -> by (by rewrite Hrun).
    by vm_compute.
Defined.
